(* ===== verification/_CoqProject ===== *)
-Q . S2P
Prelude.v
JsString.v
JsDate.v
Json.v
Text.v
Libraries.v
Schema.v
World.v
Config.v
ConfigProofs.v
Migrations.v
MigrationsProofs.v
Constraints.v
NotificationApi.v
Fixtures.v
Billing.v
BillingProofs.v
User.v
UserProofs.v
AuthInput.v
Auth.v
AuthProofs.v
Phone.v
PhoneProofs.v
Matching.v
MatchingProofs.v
Notification.v
NotificationProofs.v
Upload.v
UploadProofs.v
Chat.v
ChatProofs.v
Community.v
CommunityProofs.v
Api.v
ApiProofs.v
Maintenance.v
MaintenanceProofs.v
