(* ===== verification/Prelude.v ===== *)
(** * A verification development of the chattea backend

    The program is the backend of a dating application: a NestJS server
    (src/src/modules) over PostgreSQL through drizzle, a maintenance process
    (src/src/maintenance) that runs the batch jobs, and a migration script
    (src/scripts/migrate.ts).  This library translates its services and
    repositories into executable definitions and proves what makes them correct.

    ** How the program is modelled

    A request handler is a function in the monad [M] of World.v: it takes a
    [World] - the database, a counter of readings, and the log of what left the
    process (messages sent, objects put, events published) - to a world and a
    [Result], a value or an exception with its class and message.  The tables
    (Schema.v) are lists of rows in the order they were inserted, one record per
    drizzle table in a module of its name, so [pushOutbox.status] is the same
    column here and there.  The SQL statements the repositories build are the
    primitive operations [select], [findFirst], [insert], [insertOrNothing],
    [insertOrUpdate], [update], [updateChecked], [delete_from] and
    [select_skip_locked]; Constraints.v gives every table its primary key, UNIQUE
    constraints, CHECKs and foreign keys, and the ON DELETE actions are those of
    the migrations, which override schema.ts.  Conventions:

    - a [timestamp] column holds microseconds, a [Date] milliseconds; [to_column]
      and [of_column] convert as the driver does;
    - a comparison with NULL is false; drizzle leaves a column alone when its
      value in [.set] is [undefined];
    - a transaction, and a repository operation under an advisory lock, is atomic:
      an exception inside restores the database and keeps the effects;
      interleaving is between operations, as sequences of requests and worker runs
      ([serve] in the files of proofs), with rows that others hold as the oracle
      [row_locked];
    - every [new Date()], uuid, random number, clock reading and answer of an
      external service is one draw of an oracle, in the order JavaScript evaluates
      them, so two readings may differ;
    - strings are sequences of UTF-16 code units (JsString.v), with [trim], case
      mapping, code points and the regular expressions of the sources, which are
      matched by derivatives; numbers read from JSON and settings are IEEE doubles
      (Json.v, Text.v);
    - uuid parameters that come from a client pass through [uuid_param] or
      [uuid_text], since PostgreSQL folds their case and the code does not;
    - third-party code is a type class of operations (Libraries.v and the classes
      next to their users: [ExpoClient], [S3Client], [ImageLib], [JwtService],
      [KakaoApi], [SmsProvider], [PgPool], [PgServer], ...); a theorem needs no law
      of it unless it says so.

    ** The files

    - Prelude.v (this file): record update [r <| f := v |>], tests on nullable
      columns, and the lists of rows: [sel], [del], [mapif], [first], [countw],
      [order_by], with their lemmas.
    - JsString.v, JsDate.v, Json.v, Text.v: the parts of JavaScript that the
      sources use.  Libraries.v: third-party interfaces.
    - Schema.v, World.v, Constraints.v: the database, the monad and its weakest
      preconditions.  [wp m Q w] says that running [m] from [w] ends in [Q];
      [wp_step] executes one statement symbolically, [keeps f m] says that [m]
      leaves the projection [f] of the world alone, and [solve_keeps] proves it.
    - Config.v / ConfigProofs.v: common/config/environment.ts and postgres.ts,
      database-pool.ts.  Migrations.v / MigrationsProofs.v: scripts/migrate.ts.
    - NotificationApi.v: the interface [NotificationService] between components: a
      call of [notify] touches only notifications and their outbox.  Billing,
      matching, chat and community are proved against it; NotificationProofs.v
      gives the instance [notificationService].
    - One pair of files per module of src/src/modules, the model and its proofs:
      Billing, User, Auth (with AuthInput for untrusted input), Phone, Matching,
      Notification, Upload, Chat, Community.  In each, the repository's operations
      and the service's operations carry their names in the sources ([repo_...]
      where both layers use one name).
    - Api.v / ApiProofs.v: the resolvers, controllers, guards and passport
      strategies, over the operations of all services: one type of operations per
      resolver, indexed by the type of the answer.
    - Maintenance.v / MaintenanceProofs.v: src/src/maintenance.  The jobs are the
      interface [MaintenanceServices], with the law that a batch takes time; the
      instance [maintenance_services] puts in the user, notification and upload
      services.
    - Fixtures.v: the concrete environment, rows and configuration of the
      witnesses.

    ** What the theorems show

    Billing (C1-C6).  The balance of a user is what the granted transactions add
    up to, whatever events arrive; deliveries may come in any order; a consumable
    event is answered as the abstract ledger [ledger_step] says; a replay changes
    nothing; the newest subscription event wins; without the store's signature
    nothing changes.

    Accounts (C7-C11).  A deleted account is erased only under its lease, and then
    all its personal rows go and other accounts' stay; the deletion batch claims
    what it may, counts every account it claims once and leaves the others alone;
    asking for deletion; a restore within the grace period undoes it; and a profile
    is stored as it was sent, in a valid form.

    Authentication (C12-C18).  Sign-up is all or nothing and refuses duplicates;
    sign-in needs e-mail, password and an unexpired token of the account's phone; a
    phone token is used once; refresh tokens rotate once; a deletion request ends
    the account's sessions; a Kakao identity leads back to its account.

    The API (C19).  What is behind the access guard runs only for a live account
    whose token passport accepts, and touches nobody else's account or sessions.

    Phone (C20-C23).  The quotas of code requests, codes used once and tried at
    most five times, password reset; and the canonical form of numbers.

    Matching (C24-C29).  A match is a mutual like over any sequence of requests that
    spell ids in lower case, and actions replay; an upper-case target id breaks
    both ([uppercase_target_breaks_match]).  The daily limit; a super-like is refunded by undo; a boost
    pays once; only eligible candidates are shown.

    Notifications (C30-C33).  Every push moves along one lifecycle; a worker whose
    claim was taken over, for a send or a receipt, cannot report on it any more; a
    batch claims as much as it may and settles it; storing a
    notification is all or nothing with its pushes.

    Uploads, chat, community (C34-C36).  The object store and the table of uploads
    stay in step under any requests, worker runs and failures; a message, and a
    comment, is created once under its key (a comment's retry must spell the post's
    id in lower case), and the post's author is told.

    Maintenance (C37).  The process ends once told to; with code 0 only after the
    signal was seen, with code 1 only for the failures it cannot handle; and it
    leaves no listener or context behind.

    Environment and migrations (C38-C40).  Settings are accepted on their merits
    and stay accepted; the record of migrations is true whatever fails, and
    interrupted runs add up.

    ** Bounds and fuel

    Recursion is structural throughout, except for the maintenance loop
    [run_loop], the digits of a number, and [years_ok], which walks the 400 years
    of an era once.  The loop's fuel counts iterations; C37
    shows that more than the number of readings until the signal stays given is
    enough and that more changes nothing.  [number_to_string] has one step per
    binary digit, more than the decimal digits.  Counters and credits are
    unbounded [Z]: the columns are [integer] and the code never checks for
    overflow, which needs more than two thousand million events of one user.

    ** Not modelled

    Nest's wiring (modules, main.ts, middleware, the API's shutdown hooks), GraphQL's and
    passport's own work; logging, apart from the events of the maintenance worker;
    lengths of varchar columns; isolation weaker than the atomicity of a
    transaction; a COMMIT whose outcome the client cannot tell. *)
From stdpp Require Export prelude sorting.
From Stdlib Require Export ZArith Lia.

#[export] Set Default Goal Selector "!".

Declare Scope row_scope.
Delimit Scope row_scope with row.

(** * Record update: [r <| field := v |>], the shape of a drizzle [.set({...})] *)

(** [eta] rebuilds a record from its projections; one instance per record type. *)
Class Eta (R : Type) := eta : R -> R.

(** [upd f g r] applies [g] to the field [f] of [r]. *)
Class Setter {R T : Type} (f : R -> T) := upd : (T -> T) -> R -> R.
Arguments upd {R T} f {_} _ _.

Ltac solve_setter :=
  lazymatch goal with
  | |- @Setter ?R ?T ?proj =>
      let e := constr:((_ : Eta R)) in
      let e := eval hnf in e in
      lazymatch eval pattern proj in e with
      | ?g _ =>
          let body := eval cbv beta in
            (fun (h : T -> T) (r : R) => g (fun r' : R => h (proj r')) r) in
          exact body
      end
  end.

#[export] Hint Extern 1 (Setter _) => solve_setter : typeclass_instances.

Notation "r <| f := v |>" := (upd f (fun _ => v) r)
  (at level 1, f at next level, left associativity) : row_scope.
Notation "r <| f ::= g |>" := (upd f g r)
  (at level 1, f at next level, left associativity) : row_scope.
Global Open Scope row_scope.

(** * Decidable tests as booleans *)

Notation "x =?? y" := (bool_decide (x = y)) (at level 70, no associativity).

Lemma eqb_refl_true `{EqDecision A} (x : A) : (x =?? x) = true.
Proof. by apply bool_decide_eq_true. Qed.

(** Tests on nullable columns.  A comparison with NULL is never true in SQL. *)
Definition is_null {A} (o : option A) : bool := if o is Some _ then false else true.
Definition is_not_null {A} (o : option A) : bool := if o is Some _ then true else false.
Definition opt_le (o : option Z) (t : Z) : bool := if o is Some x then (x <=? t)%Z else false.
Definition opt_gt (o : option Z) (t : Z) : bool := if o is Some x then (t <? x)%Z else false.

Lemma is_null_true {A} (o : option A) : is_null o = true <-> o = None.
Proof. by destruct o. Qed.
Lemma is_null_false {A} (o : option A) : is_null o = false <-> is_Some o.
Proof. destruct o; split; intros H; [eauto|done|done|by destruct H]. Qed.
Lemma is_not_null_true {A} (o : option A) : is_not_null o = true <-> is_Some o.
Proof. destruct o; split; intros H; [eauto|done|done|by destruct H]. Qed.
Lemma opt_le_true o t : opt_le o t = true <-> exists x, o = Some x /\ (x <= t)%Z.
Proof.
  destruct o as [x|]; simpl; split.
  - intros H. exists x. split; [done|lia].
  - intros (y & [= ->] & H). lia.
  - done.
  - intros (y & H & _). done.
Qed.
Lemma opt_gt_true o t : opt_gt o t = true <-> exists x, o = Some x /\ (t < x)%Z.
Proof.
  destruct o as [x|]; simpl; split.
  - intros H. exists x. split; [done|lia].
  - intros (y & [= ->] & H). lia.
  - done.
  - intros (y & H & _). done.
Qed.

(** * Rows of a table *)

(** A table is the list of its rows in heap order: an UPDATE keeps a row in
    place, an INSERT appends, a DELETE filters. *)
Definition sel {A} (p : A -> bool) (l : list A) : list A := List.filter p l.
Definition del {A} (p : A -> bool) (l : list A) : list A := List.filter (fun x => negb (p x)) l.
Definition mapif {A} (p : A -> bool) (f : A -> A) (l : list A) : list A :=
  map (fun x => if p x then f x else x) l.
Definition first {A} (p : A -> bool) (l : list A) : option A := head (sel p l).
Definition countw {A} (p : A -> bool) (l : list A) : Z := Z.of_nat (length (sel p l)).

(** Insertion sort by a boolean order; stable, so rows that compare equal keep
    their heap order. *)
Fixpoint insert_by {A} (le : A -> A -> bool) (x : A) (l : list A) : list A :=
  match l with
  | [] => [x]
  | y :: l' => if le x y then x :: l else y :: insert_by le x l'
  end.
Fixpoint order_by {A} (le : A -> A -> bool) (l : list A) : list A :=
  match l with
  | [] => []
  | x :: l' => insert_by le x (order_by le l')
  end.

#[global] Arguments sel : simpl never.
#[global] Arguments del : simpl never.
#[global] Arguments mapif : simpl never.
#[global] Arguments first : simpl never.
#[global] Arguments countw : simpl never.

Section tables.
Context {A : Type}.
Implicit Types (p q : A -> bool) (f : A -> A) (l : list A) (x : A).

Lemma elem_of_sel p l x : x ∈ sel p l <-> x ∈ l /\ p x = true.
Proof. unfold sel. by rewrite !list_elem_of_In, filter_In. Qed.

Lemma elem_of_del p l x : x ∈ del p l <-> x ∈ l /\ p x = false.
Proof. unfold del. by rewrite !list_elem_of_In, filter_In, negb_true_iff. Qed.

Lemma elem_of_mapif p f l x :
  x ∈ mapif p f l <-> exists y, y ∈ l /\ x = (if p y then f y else y).
Proof.
  unfold mapif. rewrite list_elem_of_In, in_map_iff.
  split; intros (y & H1 & H2); exists y; rewrite ?list_elem_of_In in *; auto.
Qed.

Lemma sel_cons p x l : sel p (x :: l) = if p x then x :: sel p l else sel p l.
Proof. reflexivity. Qed.
Lemma del_cons p x l : del p (x :: l) = if p x then del p l else x :: del p l.
Proof. unfold del; simpl. by destruct (p x). Qed.
Lemma mapif_cons p f x l :
  mapif p f (x :: l) = (if p x then f x else x) :: mapif p f l.
Proof. reflexivity. Qed.
Lemma sel_app p l1 l2 : sel p (l1 ++ l2) = sel p l1 ++ sel p l2.
Proof. apply List.filter_app. Qed.
Lemma del_app p l1 l2 : del p (l1 ++ l2) = del p l1 ++ del p l2.
Proof. apply List.filter_app. Qed.
Lemma mapif_app p f l1 l2 : mapif p f (l1 ++ l2) = mapif p f l1 ++ mapif p f l2.
Proof. apply map_app. Qed.
Lemma length_mapif p f l : length (mapif p f l) = length l.
Proof. apply length_map. Qed.

Lemma sel_ext p q l : (forall x, x ∈ l -> p x = q x) -> sel p l = sel q l.
Proof.
  intros H. unfold sel. apply List.filter_ext_in.
  intros x Hx. apply H. by apply list_elem_of_In.
Qed.

Lemma del_ext p q l : (forall x, x ∈ l -> p x = q x) -> del p l = del q l.
Proof. intros H. apply sel_ext. intros x Hx. by rewrite H. Qed.

Lemma mapif_ext p q f l : (forall x, x ∈ l -> p x = q x) -> mapif p f l = mapif q f l.
Proof.
  intros H. unfold mapif. apply map_ext_in. intros x Hx. rewrite H; [done|]. by apply list_elem_of_In.
Qed.

Lemma sel_none p l : (forall x, x ∈ l -> p x = false) -> sel p l = [].
Proof.
  induction l as [|x l IH]; intros H; [done|].
  rewrite sel_cons, (H x) by set_solver. apply IH. set_solver.
Qed.

Lemma sel_nil p l : sel p l = [] -> forall x, x ∈ l -> p x = false.
Proof.
  intros Hs x Hx. apply not_true_is_false. intros Hp.
  assert (x ∈ sel p l) as Hin by (by apply elem_of_sel). rewrite Hs in Hin. by apply elem_of_nil in Hin.
Qed.

Lemma sel_all p l : (forall x, x ∈ l -> p x = true) -> sel p l = l.
Proof.
  induction l as [|x l IH]; intros H; [done|].
  rewrite sel_cons, (H x) by set_solver. f_equal. apply IH. set_solver.
Qed.

Lemma mapif_id p f l : (forall x, x ∈ l -> p x = false) -> mapif p f l = l.
Proof.
  induction l as [|x l IH]; intros H; [done|].
  rewrite mapif_cons, (H x) by set_solver. f_equal. apply IH. set_solver.
Qed.

Lemma del_none p l : (forall x, x ∈ l -> p x = false) -> del p l = l.
Proof. intros H. apply sel_all. intros x Hx. by rewrite H. Qed.

(** Rows that [q] spares are the same after a change to rows it does not spare. *)
Lemma del_del_sub p q l : (forall x, x ∈ l -> p x = true -> q x = true) -> del q (del p l) = del q l.
Proof.
  induction l as [|x l IH]; intros H; [done|]. rewrite !del_cons, <- IH by set_solver.
  destruct (p x) eqn:E; [by rewrite (H x) by set_solver|by rewrite del_cons].
Qed.
Lemma del_mapif_sub p f q l :
  (forall x, x ∈ l -> p x = true -> q x = true /\ q (f x) = true) -> del q (mapif p f l) = del q l.
Proof.
  induction l as [|x l IH]; intros H; [done|]. rewrite mapif_cons, !del_cons, IH by set_solver.
  destruct (p x) eqn:E; [|done]. by destruct (H x ltac:(set_solver) E) as [-> ->].
Qed.

Lemma sel_sel p q l : sel p (sel q l) = sel (fun x => q x && p x) l.
Proof.
  induction l as [|x l IH]; [done|]. rewrite !sel_cons.
  destruct (q x); simpl; [rewrite sel_cons; destruct (p x)|]; by rewrite IH.
Qed.

Lemma first_Some p l x : first p l = Some x -> x ∈ l /\ p x = true.
Proof.
  unfold first. intros H. apply elem_of_sel.
  destruct (sel p l); simpl in H; [done|]. simplify_eq. set_solver.
Qed.

Lemma first_None p l : first p l = None <-> forall x, x ∈ l -> p x = false.
Proof.
  unfold first. split.
  - intros H x Hx. destruct (p x) eqn:E; [|done].
    assert (x ∈ sel p l) as Hs by by apply elem_of_sel.
    destruct (sel p l); [set_solver|done].
  - intros H. by rewrite sel_none.
Qed.

Lemma first_app_l p l1 l2 x : first p l1 = Some x -> first p (l1 ++ l2) = Some x.
Proof. unfold first. rewrite sel_app. by destruct (sel p l1). Qed.

Lemma first_is_Some p l x : x ∈ l -> p x = true -> exists y, first p l = Some y.
Proof.
  intros Hx Hp. destruct (first p l) as [y|] eqn:E; [eauto|].
  rewrite first_None in E. rewrite (E x Hx) in Hp. done.
Qed.

Lemma first_cons p x l : first p (x :: l) = if p x then Some x else first p l.
Proof. unfold first. rewrite sel_cons. by destruct (p x). Qed.

Lemma first_app p l1 l2 :
  first p (l1 ++ l2) = if first p l1 is Some x then Some x else first p l2.
Proof. unfold first. rewrite sel_app. by destruct (sel p l1). Qed.

(** An UPDATE that does not touch the columns of the WHERE clause. *)
Lemma first_mapif p q f l :
  (forall x, x ∈ l -> p x = true -> q (f x) = q x) ->
  first q (mapif p f l) = (fun x => if p x then f x else x) <$> first q l.
Proof.
  induction l as [|x l IH]; intros H; [done|]. rewrite mapif_cons, !first_cons.
  assert (q (if p x then f x else x) = q x) as -> by (destruct (p x) eqn:E; [apply H; set_solver|done]).
  destruct (q x); [done|]. apply IH. set_solver.
Qed.

Lemma existsb_false p l : existsb p l = false <-> forall x, x ∈ l -> p x = false.
Proof.
  split.
  - intros H x Hx. destruct (p x) eqn:E; [|done].
    assert (existsb p l = true) as H'; [|congruence].
    apply existsb_exists. exists x. by rewrite <- list_elem_of_In.
  - intros H. destruct (existsb p l) eqn:E; [|done].
    apply existsb_exists in E as (x & Hx & E). rewrite (H x) in E; [done|by apply list_elem_of_In].
Qed.

Lemma existsb_true p l : existsb p l = true <-> exists x, x ∈ l /\ p x = true.
Proof. rewrite existsb_exists. by setoid_rewrite list_elem_of_In. Qed.

(** ** Counting *)

Lemma countw_nonneg p l : (0 <= countw p l)%Z.
Proof. unfold countw. lia. Qed.

Lemma countw_cons p x l :
  countw p (x :: l) = ((if p x then 1 else 0) + countw p l)%Z.
Proof. unfold countw. rewrite sel_cons. destruct (p x); simpl; lia. Qed.

Lemma countw_app p l1 l2 : countw p (l1 ++ l2) = (countw p l1 + countw p l2)%Z.
Proof. unfold countw. rewrite sel_app, length_app. lia. Qed.

Lemma countw_mono p q l :
  (forall x, x ∈ l -> p x = true -> q x = true) -> (countw p l <= countw q l)%Z.
Proof.
  induction l as [|x l IH]; intros H; [done|]. rewrite !countw_cons.
  assert (countw p l <= countw q l)%Z by (apply IH; set_solver).
  destruct (p x) eqn:Ep; [rewrite (H x) by (set_solver || done); lia|].
  destruct (q x); lia.
Qed.

Lemma countw_ext p q l : (forall x, x ∈ l -> p x = q x) -> countw p l = countw q l.
Proof. intros H. unfold countw. by rewrite (sel_ext p q). Qed.

Lemma countw_zero p l : (forall x, x ∈ l -> p x = false) -> countw p l = 0%Z.
Proof. intros H. unfold countw. by rewrite sel_none. Qed.

(** An UPDATE that does not touch the columns a predicate reads. *)
Lemma countw_mapif p q f l :
  (forall x, x ∈ l -> p x = true -> q (f x) = q x) -> countw q (mapif p f l) = countw q l.
Proof.
  induction l as [|x l IH]; intros H; [done|].
  rewrite mapif_cons, !countw_cons, IH by set_solver.
  destruct (p x) eqn:E; [by rewrite H by set_solver|done].
Qed.

Lemma countw_del p q l : (countw q (del p l) <= countw q l)%Z.
Proof.
  induction l as [|x l IH]; [done|]. rewrite del_cons.
  destruct (p x); rewrite !countw_cons; destruct (q x); lia.
Qed.

(** ** Properties of all rows *)

Lemma Forall_mapif (P : A -> Prop) p f l :
  Forall P l -> (forall x, x ∈ l -> P x -> p x = true -> P (f x)) -> Forall P (mapif p f l).
Proof.
  rewrite !Forall_forall. intros HP Hf x Hx. apply elem_of_mapif in Hx as (y & Hy & ->).
  destruct (p y) eqn:E; auto.
Qed.

Lemma Forall_del (P : A -> Prop) p l : Forall P l -> Forall P (del p l).
Proof. rewrite !Forall_forall. intros HP x Hx. apply elem_of_del in Hx as [Hx _]. auto. Qed.

Lemma Forall_sel (P : A -> Prop) p l : Forall P l -> Forall P (sel p l).
Proof. rewrite !Forall_forall. intros HP x Hx. apply elem_of_sel in Hx as [Hx _]. auto. Qed.

(** ** Keys *)

Section keys.
Context {K : Type} (key : A -> K).

Lemma keys_mapif p f l :
  (forall x, x ∈ l -> p x = true -> key (f x) = key x) -> map key (mapif p f l) = map key l.
Proof.
  induction l as [|x l IH]; intros H; [done|]. simpl. f_equal.
  - destruct (p x) eqn:E; [apply H; set_solver|done].
  - apply IH. set_solver.
Qed.

Lemma key_elem l k : k ∈ map key l <-> exists x, x ∈ l /\ key x = k.
Proof.
  rewrite list_elem_of_In, in_map_iff. setoid_rewrite list_elem_of_In.
  split; intros (x & ? & ?); eauto.
Qed.

Lemma keys_del p l : NoDup (map key l) -> NoDup (map key (del p l)).
Proof.
  induction l as [|x l IH]; intros H; [done|]. rewrite del_cons.
  simpl in H. apply NoDup_cons in H as [Hx H].
  destruct (p x); [auto|]. simpl. apply NoDup_cons. split; [|auto].
  rewrite key_elem in *. intros (y & Hy & E). apply elem_of_del in Hy as [Hy _]. eauto.
Qed.

Lemma keys_sel p l : NoDup (map key l) -> NoDup (map key (sel p l)).
Proof.
  intros Hl. apply (keys_del (fun x => negb (p x))) in Hl. unfold del in Hl.
  erewrite List.filter_ext in Hl; [exact Hl|]. intros x. apply negb_involutive.
Qed.

Lemma keys_inj l x y :
  NoDup (map key l) -> x ∈ l -> y ∈ l -> key x = key y -> x = y.
Proof.
  induction l as [|z l IH]; intros Hnd Hx Hy Hk; [set_solver|].
  simpl in Hnd. apply NoDup_cons in Hnd as [Hz Hnd]. rewrite key_elem in Hz.
  apply elem_of_cons in Hx as [->|Hx], Hy as [->|Hy]; [done| | |by auto].
  - destruct Hz; eauto.
  - destruct Hz; eauto.
Qed.

Lemma keys_insert l x :
  NoDup (map key l) -> (forall y, y ∈ l -> key y <> key x) -> NoDup (map key (l ++ [x])).
Proof.
  intros Hnd Hne. rewrite map_app. simpl. apply NoDup_app.
  split_and!; [done| |apply NoDup_singleton].
  intros k Hk ->%list_elem_of_singleton. apply key_elem in Hk as (y & Hy & E).
  by apply (Hne y).
Qed.

(** At most one row carries a given key, so a predicate that fixes the key
    selects at most one row. *)
Lemma sel_key_unique p l x :
  NoDup (map key l) -> x ∈ l -> p x = true ->
  (forall y, y ∈ l -> p y = true -> key y = key x) -> sel p l = [x].
Proof.
  induction l as [|z l IH]; intros Hnd Hx Hp Hk; [set_solver|].
  simpl in Hnd. apply NoDup_cons in Hnd as [Hz Hnd]. rewrite key_elem in Hz.
  rewrite sel_cons. apply elem_of_cons in Hx as [->|Hx].
  - rewrite Hp. f_equal. apply sel_none. intros y Hy. destruct (p y) eqn:E; [|done].
    destruct Hz. exists y. split; [done|]. apply Hk; [set_solver|done].
  - destruct (p z) eqn:E.
    + destruct Hz. exists x. split; [done|]. symmetry. apply Hk; [set_solver|done].
    + apply IH; try done. intros y Hy. apply Hk. set_solver.
Qed.

Lemma first_key_unique p l x :
  NoDup (map key l) -> x ∈ l -> p x = true ->
  (forall y, y ∈ l -> p y = true -> key y = key x) -> first p l = Some x.
Proof. intros. unfold first. by rewrite (sel_key_unique p l x). Qed.
End keys.
End tables.

Lemma map_head_none {A B} (f : A -> B) (l : list A) : head (map f l) = None -> l = [].
Proof. by destruct l. Qed.

(** ** Existence tests *)

Lemma existsb_keys {R K} `{EqDecision K} (key : R -> K) (k : K) (l : list R) :
  k ∉ map key l -> existsb (fun r => k =?? key r) l = false.
Proof.
  intros Hk. apply existsb_false. intros r Hr. apply bool_decide_eq_false. intros ->.
  destruct Hk. apply key_elem. eauto.
Qed.

Lemma existsb_self {R} (p : R -> bool) l r : p r = true -> existsb p (l ++ [r]) = true.
Proof. intros Hp. rewrite existsb_app. simpl. rewrite Hp. by rewrite orb_comm. Qed.

Lemma existsb_or {R} (p q : R -> bool) l :
  existsb p l = false -> existsb q l = false -> existsb (fun r => p r || q r) l = false.
Proof.
  rewrite !existsb_false. intros Hp Hq x Hx. by rewrite Hp, Hq.
Qed.

(** ** Sorting *)

Lemma elem_of_insert_by {A} (le : A -> A -> bool) (y x : A) l : x ∈ insert_by le y l <-> x = y \/ x ∈ l.
Proof.
  induction l as [|a l IH]; simpl; [by rewrite list_elem_of_singleton, elem_of_nil; tauto|].
  destruct (le y a); rewrite !elem_of_cons; [tauto|]. rewrite IH. tauto.
Qed.

Lemma elem_of_order_by {A} (le : A -> A -> bool) (l : list A) x : x ∈ order_by le l <-> x ∈ l.
Proof. induction l as [|y l IH]; [done|]. simpl. by rewrite elem_of_insert_by, elem_of_cons, IH. Qed.

Lemma elem_of_take_order {A} (le : A -> A -> bool) (l : list A) n x : x ∈ take n (order_by le l) -> x ∈ l.
Proof.
  intros Hx. apply elem_of_take in Hx as (i & Hx & _). apply list_elem_of_lookup_2 in Hx.
  by rewrite elem_of_order_by in Hx.
Qed.

(** The head of a sorted table comes before every other row, when the order is
    total and transitive. *)
Definition total_order {A} (le : A -> A -> bool) : Prop :=
  (forall a b, le a b = false -> le b a = true) /\
  (forall a b c, le a b = true -> le b c = true -> le a c = true).

Lemma head_insert_by {A} (le : A -> A -> bool) (y : A) l v :
  head (insert_by le y l) = Some v -> head l = Some v \/ v = y.
Proof. destruct l as [|a l]; simpl; [intros [= <-]; auto|]. destruct (le y a); simpl; intros [= <-]; auto. Qed.

Lemma order_by_head {A} (le : A -> A -> bool) (l : list A) v :
  total_order le -> head (order_by le l) = Some v -> forall x, x ∈ l -> x = v \/ le v x = true.
Proof.
  intros [Htot Htr]. revert v. induction l as [|y l IH]; intros v Hv x Hx; [by apply elem_of_nil in Hx|]. simpl in Hv.
  destruct (order_by le l) as [|a s] eqn:Es; simpl in Hv.
  - injection Hv as <-. apply elem_of_cons in Hx as [->|Hx]; [auto|].
    assert (x ∈ order_by le l) as Hin by (by apply elem_of_order_by). rewrite Es in Hin. by apply elem_of_nil in Hin.
  - destruct (le y a) eqn:Ele; simpl in Hv; injection Hv as <-; apply elem_of_cons in Hx as [->|Hx]; auto.
    destruct (IH a eq_refl x Hx) as [->|Hax]; [auto|]. right. by apply (Htr y a x).
Qed.

Lemma order_by_map {A} (le : A -> A -> bool) (g : A -> A) (l : list A) :
  (forall a b, le (g a) (g b) = le a b) -> order_by le (map g l) = map g (order_by le l).
Proof.
  intros Hg. induction l as [|x l IH]; simpl; [done|]. rewrite IH.
  clear IH. induction (order_by le l) as [|y s IHs]; simpl; [done|]. rewrite Hg. destruct (le x y); [done|]. simpl. by rewrite IHs.
Qed.
Lemma sel_map {A} (p : A -> bool) (g : A -> A) (l : list A) :
  (forall a, p (g a) = p a) -> sel p (map g l) = map g (sel p l).
Proof.
  intros Hg. induction l as [|x l IH]; simpl; [done|]. rewrite !sel_cons, Hg, IH. by destruct (p x).
Qed.

Lemma length_order_by {A} (le : A -> A -> bool) (l : list A) : length (order_by le l) = length l.
Proof.
  assert (forall x s, length (insert_by le x s) = S (length s)) as Hi.
  { intros x s. induction s as [|y s IH]; simpl; [done|]. destruct (le x y); simpl; [done|]. by rewrite IH. }
  induction l as [|x l IH]; simpl; [done|]. by rewrite Hi, IH.
Qed.

Lemma order_by_perm {A} (le : A -> A -> bool) (l : list A) : order_by le l ≡ₚ l.
Proof.
  assert (forall x s, insert_by le x s ≡ₚ x :: s) as Hi.
  { intros x s. induction s as [|y s IH]; simpl; [done|]. destruct (le x y); [done|]. rewrite IH. by constructor. }
  induction l as [|x l IH]; simpl; [done|]. by rewrite Hi, IH.
Qed.
Lemma keys_take_order {A K} (key : A -> K) (le : A -> A -> bool) (l : list A) n :
  NoDup (map key l) -> NoDup (map key (take n (order_by le l))).
Proof.
  intros Hl. assert (NoDup (map key (order_by le l))) as Ho by (by rewrite (Permutation_map key (order_by_perm le l))).
  rewrite <- (take_drop n (order_by le l)), map_app in Ho. by apply NoDup_app in Ho as [? _].
Qed.

Lemma order_by_sorted {A} (le : A -> A -> bool) (l : list A) :
  total_order le -> StronglySorted (fun a b => le a b = true) (order_by le l).
Proof.
  intros [Htot Htr]. induction l as [|x l IH]; simpl; [constructor|].
  induction (order_by le l) as [|y s IHs]; simpl; [repeat constructor|].
  apply StronglySorted_inv in IH as [IH Hy]. destruct (le x y) eqn:E.
  - constructor; [by constructor|]. constructor; [done|]. eapply Forall_impl; [exact Hy|]. intros z. by apply (Htr x y z).
  - constructor; [by apply IHs|]. apply Forall_forall. intros z [->|Hz]%elem_of_insert_by; [by apply Htot|].
    by apply (proj1 (Forall_forall _ _) Hy).
Qed.

(** A LIMIT keeps the rows that come first: a row left out comes after all of
    them, and is left out only when the limit is reached. *)
Lemma take_order_by {A} (le : A -> A -> bool) (l : list A) n y :
  total_order le -> y ∈ l ->
  y ∈ take n (order_by le l) \/
  length (take n (order_by le l)) = n /\ forall x, x ∈ take n (order_by le l) -> le x y = true.
Proof.
  intros Hle Hy. apply (elem_of_order_by le) in Hy. pose proof (order_by_sorted le l Hle) as Hs.
  rewrite <- (take_drop n (order_by le l)) in Hy, Hs. apply elem_of_app in Hy as [Hy|Hy]; [by left|right].
  apply StronglySorted_app in Hs as (Hs & _ & _). split.
  - rewrite length_take. apply list_elem_of_In, in_split in Hy as (l1 & l2 & E).
    apply (f_equal length) in E. rewrite length_drop, length_app in E. simpl in E. lia.
  - intros x Hx. by apply Hs.
Qed.

(** Lexicographic orders: [ORDER BY key, ...], NULLs last. *)
Lemma total_order_lex {A} (f : A -> Z) (le : A -> A -> bool) :
  total_order le -> total_order (fun a b => (f a <? f b)%Z || ((f a =? f b)%Z && le a b)).
Proof.
  intros [Htot Htr]. split.
  - intros a b [H1%Z.ltb_ge H2]%orb_false_iff. apply orb_true_iff.
    destruct (decide (f a = f b)) as [E|]; [right|left; lia]. rewrite E, Z.eqb_refl in *. simpl in *. auto.
  - intros a b c. rewrite !orb_true_iff, !andb_true_iff, !Z.ltb_lt, !Z.eqb_eq.
    intros [H1|[H1 H1']] [H2|[H2 H2']]; try (left; lia). right. split; [lia|]. by apply (Htr a b c).
Qed.
Lemma total_order_nulls_last {A} (f : A -> option Z) (le : A -> A -> bool) :
  total_order le -> total_order (fun a b =>
    match f a, f b with
    | Some x, Some y => (x <? y)%Z || ((x =? y)%Z && le a b)
    | Some _, None => true
    | None, Some _ => false
    | None, None => le a b
    end).
Proof.
  intros [Htot Htr]. split.
  - intros a b. destruct (f a) as [x|], (f b) as [y|]; try done; [|auto].
    intros [H1%Z.ltb_ge H2]%orb_false_iff. apply orb_true_iff.
    destruct (decide (x = y)) as [->|]; [right|left; lia]. rewrite Z.eqb_refl in *. simpl in *. auto.
  - intros a b c. destruct (f a) as [x|], (f b) as [y|], (f c) as [z|]; try done; [|by apply Htr].
    rewrite !orb_true_iff, !andb_true_iff, !Z.ltb_lt, !Z.eqb_eq.
    intros [H1|[H1 H1']] [H2|[H2 H2']]; try (left; lia). right. split; [lia|]. by apply (Htr a b c).
Qed.
