(* ===== verification/JsString.v ===== *)
(** JavaScript strings as sequences of UTF-16 code units, the parts of
    [String.prototype], [Array.from], [Buffer.byteLength] and of regular
    expressions that the sources use.  [s.length] is [length s]; a literal of
    the sources is written [js "..."] and decoded from UTF-8. *)
From stdpp Require Export strings.
From Stdlib Require Import Ascii.
From S2P Require Import Prelude.
Local Open Scope N_scope.

(** * Code units and code points *)

Abbreviation jstr := (list N).

Definition high_surrogate (u : N) : bool := (0xD800 <=? u) && (u <=? 0xDBFF).
Definition low_surrogate (u : N) : bool := (0xDC00 <=? u) && (u <=? 0xDFFF).

(** [Array.from(s)]: a surrogate pair is one element, a lone surrogate is kept. *)
Fixpoint code_points (s : jstr) : list N :=
  match s with
  | [] => []
  | u :: s' =>
      match s' with
      | v :: s'' =>
          if high_surrogate u && low_surrogate v
          then (0x10000 + (u - 0xD800) * 0x400 + (v - 0xDC00)) :: code_points s''
          else u :: code_points s'
      | [] => [u]
      end
  end.

(** The code units of a code point, and [Array.join("")]. *)
Definition units_of (c : N) : jstr :=
  if c <? 0x10000 then [c]
  else [0xD800 + (c - 0x10000) / 0x400; 0xDC00 + (c - 0x10000) mod 0x400].
Definition of_code_points (l : list N) : jstr := l ≫= units_of.

(** [Buffer.byteLength(s, "utf8")]: a lone surrogate is written as U+FFFD. *)
Definition utf8_width (c : N) : Z :=
  if c <? 0x80 then 1 else if c <? 0x800 then 2 else if c <? 0x10000 then 3 else 4.
Definition byteLength (s : jstr) : Z := foldr (fun c n => utf8_width c + n)%Z 0%Z (code_points s).

(** ** Literals *)

Definition continuation (b : N) : N := b - 0x80.
Fixpoint decode_utf8 (l : list N) : list N :=
  match l with
  | [] => []
  | a :: l1 =>
      if a <? 0x80 then a :: decode_utf8 l1
      else match l1 with
      | b :: l2 =>
          if a <? 0xE0 then ((a - 0xC0) * 0x40 + continuation b) :: decode_utf8 l2
          else match l2 with
          | c :: l3 =>
              if a <? 0xF0 then ((a - 0xE0) * 0x1000 + continuation b * 0x40 + continuation c) :: decode_utf8 l3
              else match l3 with
              | d :: l4 =>
                  ((a - 0xF0) * 0x40000 + continuation b * 0x1000 + continuation c * 0x40 + continuation d)
                    :: decode_utf8 l4
              | [] => []
              end
          | [] => []
          end
      | [] => []
      end
  end.
Definition js (s : string) : jstr :=
  of_code_points (decode_utf8 (map Ascii.N_of_ascii (String.list_ascii_of_string s))).

Example js_ascii : js "010-" = [48; 49; 48; 45].
Proof. reflexivity. Qed.
Example js_hangul : js "대화" = [0xB300; 0xD654].
Proof. reflexivity. Qed.
Example js_astral : js "😀" = [0xD83D; 0xDE00] /\ code_points (js "a😀b") = [97; 0x1F600; 98].
Proof. split; reflexivity. Qed.

(** * [String.prototype] *)

(** White space and line terminators: what [trim] strips and [\s] matches. *)
Definition is_space (u : N) : bool :=
  ((9 <=? u) && (u <=? 13)) || (u =? 32) || (u =? 0xA0) || (u =? 0x1680)
  || ((0x2000 <=? u) && (u <=? 0x200A)) || (u =? 0x2028) || (u =? 0x2029) || (u =? 0x202F)
  || (u =? 0x205F) || (u =? 0x3000) || (u =? 0xFEFF).

Fixpoint trimStart (s : jstr) : jstr :=
  match s with
  | [] => []
  | u :: s' => if is_space u then trimStart s' else s
  end.
Definition trimEnd (s : jstr) : jstr := rev (trimStart (rev s)).
Definition trim (s : jstr) : jstr := trimEnd (trimStart s).

Definition is_digit (u : N) : bool := (48 <=? u) && (u <=? 57).
Definition is_lower (u : N) : bool := (97 <=? u) && (u <=? 122).
Definition is_upper (u : N) : bool := (65 <=? u) && (u <=? 90).
Definition is_hex (u : N) : bool :=
  is_digit u || ((97 <=? u) && (u <=? 102)) || ((65 <=? u) && (u <=? 70)).

(** [toUpperCase] and [toLowerCase].  Outside ASCII only the characters whose
    mapping is wholly ASCII are mapped; the mapping of every other one holds a
    non-ASCII character, so comparing the result with an ASCII literal, which is
    all the sources do with it, does not depend on it. *)
Definition upper_unit (u : N) : jstr :=
  if is_lower u then [u - 32]
  else if u =? 0xDF then js "SS"
  else if u =? 0x131 then js "I"
  else if u =? 0x17F then js "S"
  else if u =? 0xFB00 then js "FF"
  else if u =? 0xFB01 then js "FI"
  else if u =? 0xFB02 then js "FL"
  else if u =? 0xFB03 then js "FFI"
  else if u =? 0xFB04 then js "FFL"
  else if (u =? 0xFB05) || (u =? 0xFB06) then js "ST"
  else [u].
Definition toUpperCase (s : jstr) : jstr := s ≫= upper_unit.
Definition lower_unit (u : N) : N :=
  if is_upper u then u + 32 else if u =? 0x212A then 107 else u.
Definition toLowerCase (s : jstr) : jstr := map lower_unit s.

Fixpoint startsWith (p s : jstr) : bool :=
  match p, s with
  | [], _ => true
  | a :: p', b :: s' => (a =? b) && startsWith p' s'
  | _ :: _, [] => false
  end.

(** [s.indexOf(c)] for a one-unit needle, [None] for -1, and [s.split(c)[0]]. *)
Fixpoint indexOf (c : N) (s : jstr) : option nat :=
  match s with
  | [] => None
  | u :: s' => if u =? c then Some O else S <$> indexOf c s'
  end.
Definition before (c : N) (s : jstr) : jstr :=
  if indexOf c s is Some i then take i s else s.

Definition padStart (n : nat) (c : N) (s : jstr) : jstr := replicate (n - length s) c ++ s.

(** [String(n)] for a natural number. *)
Fixpoint digits_fuel (fuel : nat) (n : N) (acc : jstr) : jstr :=
  match fuel with
  | O => acc
  | S f => let acc' := (48 + n mod 10) :: acc in
           if n <? 10 then acc' else digits_fuel f (n / 10) acc'
  end.
Definition number_to_string (n : N) : jstr := digits_fuel (S (N.to_nat (N.log2 n))) n [].

(** [a < b] on strings compares code units. *)
Fixpoint str_ltb (a b : jstr) : bool :=
  match a, b with
  | _, [] => false
  | [], _ :: _ => true
  | x :: a', y :: b' => (x <? y) || ((x =? y) && str_ltb a' b')
  end.

(** * Regular expressions *)

Inductive regex :=
| RVoid
| REps
| RCls (p : N -> bool)
| RCat (a b : regex)
| RAlt (a b : regex)
| RStar (a : regex).

Inductive in_regex : regex -> jstr -> Prop :=
| in_eps : in_regex REps []
| in_cls p u : p u = true -> in_regex (RCls p) [u]
| in_cat a b s t : in_regex a s -> in_regex b t -> in_regex (RCat a b) (s ++ t)
| in_alt_l a b s : in_regex a s -> in_regex (RAlt a b) s
| in_alt_r a b s : in_regex b s -> in_regex (RAlt a b) s
| in_star_nil a : in_regex (RStar a) []
| in_star_app a s t : in_regex a s -> in_regex (RStar a) t -> in_regex (RStar a) (s ++ t).

Fixpoint nullable (r : regex) : bool :=
  match r with
  | RVoid | RCls _ => false
  | REps | RStar _ => true
  | RCat a b => nullable a && nullable b
  | RAlt a b => nullable a || nullable b
  end.

Definition cat (a b : regex) : regex :=
  match a with RVoid => RVoid | REps => b | _ => RCat a b end.
Definition alt (a b : regex) : regex :=
  match a, b with RVoid, _ => b | _, RVoid => a | _, _ => RAlt a b end.

(** The derivative of a regular expression by a code unit. *)
Fixpoint deriv (u : N) (r : regex) : regex :=
  match r with
  | RVoid | REps => RVoid
  | RCls p => if p u then REps else RVoid
  | RCat a b => if nullable a then alt (cat (deriv u a) b) (deriv u b) else cat (deriv u a) b
  | RAlt a b => alt (deriv u a) (deriv u b)
  | RStar a => cat (deriv u a) (RStar a)
  end.

(** [/^r$/.test(s)]: the sources anchor every expression at both ends. *)
Definition matchb (r : regex) (s : jstr) : bool := nullable (foldl (fun r u => deriv u r) r s).

Definition RChr (u : N) : regex := RCls (fun v => v =? u).
Definition RPlus (a : regex) : regex := RCat a (RStar a).
Definition ROpt (a : regex) : regex := RAlt REps a.
Fixpoint RRep (n : nat) (a : regex) : regex :=
  match n with O => REps | S n' => RCat a (RRep n' a) end.
Fixpoint RStr (s : jstr) : regex :=
  match s with [] => REps | u :: s' => RCat (RChr u) (RStr s') end.

(** * Lemmas *)

(** ** The matcher decides the language *)

#[local] Hint Constructors in_regex : core.

Lemma nullable_spec r : nullable r = true <-> in_regex r [].
Proof.
  induction r; simpl; split; intros H; try done; auto.
  - inversion H.
  - inversion H.
  - apply andb_true_iff in H as [H1 H2]. change (@nil N) with (@nil N ++ []).
    constructor; [by apply IHr1|by apply IHr2].
  - inversion H as [| |? ? s t Ha Hb E1 E2| | | |]. apply app_eq_nil in E2 as [-> ->].
    apply andb_true_iff. split; [by apply IHr1|by apply IHr2].
  - apply orb_true_iff in H as [H|H]; [apply in_alt_l, IHr1|apply in_alt_r, IHr2]; done.
  - apply orb_true_iff. inversion H; subst; [left; by apply IHr1|right; by apply IHr2].
Qed.

Lemma in_cat_iff a b s : in_regex (cat a b) s <-> in_regex (RCat a b) s.
Proof.
  destruct a; simpl; try done.
  - split; intros H; [inversion H|]. inversion H as [| |? ? x y Ha| | | |]. inversion Ha.
  - split; intros H.
    + change s with ([] ++ s). auto.
    + inversion H as [| |? ? x y Ha Hb| | | |]. inversion Ha; subst. done.
Qed.

Lemma in_alt_iff a b s : in_regex (alt a b) s <-> in_regex (RAlt a b) s.
Proof.
  assert (forall x, in_regex x s <-> in_regex (RAlt RVoid x) s) as Hl.
  { intros x. split; intros H; [auto|]. inversion H as [| | |? ? ? H'|? ? ? H'| |]; [inversion H'|done]. }
  assert (forall x, in_regex x s <-> in_regex (RAlt x RVoid) s) as Hr.
  { intros x. split; intros H; [auto|]. inversion H as [| | |? ? ? H'|? ? ? H'| |]; [done|inversion H']. }
  destruct a; simpl; [apply Hl|destruct b; done || apply Hr..].
Qed.

Lemma in_alt_or a b s : in_regex (RAlt a b) s <-> in_regex a s \/ in_regex b s.
Proof. split; [|intros [?|?]; auto]. intros H. inversion H; subst; auto. Qed.

Lemma in_cat_cons a b u s :
  in_regex (RCat a b) (u :: s) <->
  (exists s1 s2, s = s1 ++ s2 /\ in_regex a (u :: s1) /\ in_regex b s2)
  \/ (in_regex a [] /\ in_regex b (u :: s)).
Proof.
  split.
  - intros H. inversion H as [| |? ? x y Ha Hb E1 E2| | | |]; subst.
    destruct x as [|v x]; simpl in *; simplify_eq; [auto|]. left. eauto.
  - intros [(s1 & s2 & -> & Ha & Hb)|[Ha Hb]].
    + change (u :: s1 ++ s2) with ((u :: s1) ++ s2). auto.
    + change (u :: s) with ([] ++ u :: s). auto.
Qed.

Lemma in_star_cons a u s :
  in_regex (RStar a) (u :: s) ->
  exists s1 s2, s = s1 ++ s2 /\ in_regex a (u :: s1) /\ in_regex (RStar a) s2.
Proof.
  remember (RStar a) as r eqn:Er. remember (u :: s) as w eqn:Ew.
  intros H. induction H as [| | | | | |a' s' t' Ha _ Hs IH]; try done.
  simplify_eq. destruct s' as [|v s']; simpl in *; [by apply IH|]. simplify_eq. eauto.
Qed.

Lemma deriv_spec r u s : in_regex (deriv u r) s <-> in_regex r (u :: s).
Proof.
  revert s. induction r as [| |p|a IHa b IHb|a IHa b IHb|a IHa]; intros s; simpl.
  - split; intros H; inversion H.
  - split; intros H; inversion H.
  - destruct (p u) eqn:E; split; intros H; inversion H; subst; auto. congruence.
  - rewrite in_cat_cons, <- nullable_spec. destruct (nullable a) eqn:Ena.
    + rewrite in_alt_iff, in_alt_or, in_cat_iff, IHb. split.
      * intros [H|H]; [left|auto]. inversion H as [| |? ? x y Hx Hy| | | |]; subst.
        exists x, y. by rewrite <- IHa.
      * intros [(x & y & -> & Hx & Hy)|[_ H]]; [left|auto]. constructor; [by apply IHa|done].
    + rewrite in_cat_iff. split.
      * intros H. left. inversion H as [| |? ? x y Hx Hy| | | |]; subst.
        exists x, y. by rewrite <- IHa.
      * intros [(x & y & -> & Hx & Hy)|[? _]]; [|done]. constructor; [by apply IHa|done].
  - by rewrite in_alt_iff, !in_alt_or, IHa, IHb.
  - rewrite in_cat_iff. split.
    + intros H. inversion H as [| |? ? x y Hx Hy| | | |]; subst.
      change (u :: x ++ y) with ((u :: x) ++ y). constructor; [by apply IHa|done].
    + intros (x & y & -> & Hx & Hy)%in_star_cons. constructor; [by apply IHa|done].
Qed.

(** The derivative matcher accepts exactly the strings of the expression. *)
Lemma matchb_spec r s : matchb r s = true <-> in_regex r s.
Proof.
  unfold matchb. revert r. induction s as [|u s IH]; intros r; simpl.
  - apply nullable_spec.
  - by rewrite IH, deriv_spec.
Qed.

(** [/^[0-9a-f]{8}-[0-9a-f]{4}-[1-5][0-9a-f]{3}-[89ab][0-9a-f]{3}-[0-9a-f]{12}$/i] *)
Definition UUID_PATTERN : regex :=
  let hex := RCls is_hex in
  let dash := RChr 45%N in
  RCat (RRep 8 hex) (RCat dash (RCat (RRep 4 hex) (RCat dash
    (RCat (RCls (fun u => ((49 <=? u) && (u <=? 53))%N)) (RCat (RRep 3 hex) (RCat dash
    (RCat (RCls (fun u => ((u =? 56) || (u =? 57) || (u =? 97) || (u =? 98) || (u =? 65) || (u =? 66))%N))
    (RCat (RRep 3 hex) (RCat dash (RRep 12 hex)))))))))).

(** ** Trimming *)

(** No white space at the front. *)
Definition no_lead (s : jstr) : Prop := if s is u :: _ then is_space u = false else True.

Lemma trimStart_no_lead s : no_lead (trimStart s).
Proof. induction s as [|u s IH]; simpl; [done|]. by destruct (is_space u) eqn:E. Qed.
Lemma trimStart_id s : no_lead s -> trimStart s = s.
Proof. destruct s as [|u s]; simpl; [done|]. by intros ->. Qed.
Lemma trimStart_suffix s : exists p, s = p ++ trimStart s /\ Forall (fun u => is_space u = true) p.
Proof.
  induction s as [|u s (p & E & Hp)]; simpl; [by exists []|]. destruct (is_space u) eqn:Eu.
  - exists (u :: p). simpl. by rewrite <- E; auto.
  - by exists [].
Qed.

(** The ends of a trimmed string are no white space, and trimming it again is
    the identity. *)
Lemma trim_ends s : no_lead (trim s) /\ no_lead (rev (trim s)).
Proof.
  unfold trim, trimEnd. rewrite rev_involutive. split; [|apply trimStart_no_lead].
  pose proof (trimStart_no_lead s) as Ha. destruct (trimStart_suffix (rev (trimStart s))) as (p & E & _).
  destruct (trimStart (rev (trimStart s))) as [|x b] eqn:Eb; [done|].
  assert (trimStart s = rev (x :: b) ++ rev p) as Es by (by rewrite <- rev_app_distr, <- E, rev_involutive).
  rewrite Es in Ha. simpl in *. destruct (rev b); done.
Qed.
Lemma trim_fixed s : no_lead s -> no_lead (rev s) -> trim s = s.
Proof. intros H1 H2. unfold trim, trimEnd. rewrite (trimStart_id s H1), (trimStart_id _ H2). apply rev_involutive. Qed.
Lemma trim_trim s : trim (trim s) = trim s.
Proof. destruct (trim_ends s). by apply trim_fixed. Qed.

(** ** Code points *)

Definition code_unit (u : N) : Prop := u < 0x10000.

Lemma code_points_cons u s :
  code_points (u :: s) = match s with
    | v :: s' => if high_surrogate u && low_surrogate v
                 then (0x10000 + (u - 0xD800) * 0x400 + (v - 0xDC00)) :: code_points s'
                 else u :: code_points s
    | [] => [u]
    end.
Proof. destruct s; reflexivity. Qed.

Lemma units_of_pair u v :
  high_surrogate u = true -> low_surrogate v = true ->
  units_of (0x10000 + (u - 0xD800) * 0x400 + (v - 0xDC00)) = [u; v].
Proof.
  unfold high_surrogate, low_surrogate. rewrite !andb_true_iff, !N.leb_le. intros [? ?] [? ?].
  unfold units_of. destruct (_ <? _) eqn:E; [apply N.ltb_lt in E; lia|].
  replace (0x10000 + (u - 0xD800) * 0x400 + (v - 0xDC00) - 0x10000) with ((v - 0xDC00) + (u - 0xD800) * 0x400) by lia.
  rewrite N.div_add, N.Div0.mod_add, N.div_small, N.mod_small by lia. f_equal; [lia|f_equal; lia].
Qed.
Lemma units_of_unit u : code_unit u -> units_of u = [u].
Proof. unfold units_of, code_unit. intros Hu. by rewrite (proj2 (N.ltb_lt _ _) Hu). Qed.

(** A prefix of the code points is a prefix of the string, with those code points. *)
Lemma code_points_take n s :
  Forall code_unit s -> code_points (of_code_points (take n (code_points s))) = take n (code_points s) /\
    exists t, s = of_code_points (take n (code_points s)) ++ t.
Proof.
  remember (length s) as k eqn:Ek. assert (length s <= k)%nat as Hk by lia. clear Ek. revert n s Hk.
  induction k as [|k IH]; intros n s Hk Hs;
    (destruct s as [|u s]; [simpl; rewrite take_nil; split; [done|by exists []]|]); simpl in Hk; [lia|].
  destruct n as [|n]; [split; [done|by exists (u :: s)]|].
  apply Forall_cons in Hs as [Hu Hs]. rewrite code_points_cons.
  destruct s as [|v s].
  - simpl. destruct n; simpl; rewrite (units_of_unit u) by done; (split; [done|by exists []]).
  - destruct (high_surrogate u && low_surrogate v) eqn:E.
    + apply Forall_cons in Hs as [Hv Hs]. destruct (IH n s) as [H1 [t H2]]; [simpl in Hk; lia|done|].
      pose proof E as [Ehi Elo]%andb_true_iff.
      cbn [take]. unfold of_code_points in *. rewrite bind_cons, units_of_pair by done. split.
      * cbn [app]. rewrite code_points_cons, E. f_equal. exact H1.
      * exists t. cbn [app]. do 2 f_equal. exact H2.
    + destruct (IH n (v :: s)) as [H1 [t H2]]; [simpl in *; lia|done|].
      cbn [take]. unfold of_code_points in *. rewrite bind_cons, (units_of_unit u) by done. cbn [app]. split.
      * rewrite code_points_cons. destruct (take n (code_points (v :: s)) ≫= units_of) as [|x l] eqn:El.
        -- destruct (take n (code_points (v :: s))) as [|c cs] eqn:Ec; [done|].
           exfalso. rewrite bind_cons in El. apply app_eq_nil in El as [El _].
           unfold units_of in El. by destruct (c <? 0x10000).
        -- assert (x = v) as -> by (rewrite ?El in H2; simpl in H2; congruence). rewrite E.
           f_equal. exact H1.
      * exists t. cbn [app]. f_equal. exact H2.
Qed.

Lemma trim_Forall (P : N -> Prop) s : Forall P s -> Forall P (trim s).
Proof.
  assert (forall l, Forall P l -> Forall P (trimStart l)) as Hs.
  { intros l Hl. destruct (trimStart_suffix l) as (p & E & _). rewrite E in Hl. by apply Forall_app in Hl as [_ ?]. }
  intros H. unfold trim, trimEnd. by apply List.Forall_rev, Hs, List.Forall_rev, Hs.
Qed.

(** ** Comparing strings *)

Lemma str_ltb_irrefl a : str_ltb a a = false.
Proof. induction a as [|x a IH]; simpl; [done|]. by rewrite N.ltb_irrefl, N.eqb_refl, IH. Qed.
Lemma str_ltb_asym a b : str_ltb a b = true -> str_ltb b a = false.
Proof.
  revert b. induction a as [|x a IH]; intros [|y b]; simpl; try done.
  intros [Hlt%N.ltb_lt|[->%N.eqb_eq Hab]%andb_true_iff]%orb_true_iff.
  - apply orb_false_iff. split; [apply N.ltb_ge; lia|]. by rewrite (proj2 (N.eqb_neq y x)) by lia.
  - by rewrite N.ltb_irrefl, N.eqb_refl, (IH _ Hab).
Qed.
Lemma str_ltb_trans a b c : str_ltb b a = false -> str_ltb c b = false -> str_ltb c a = false.
Proof.
  revert b c. induction a as [|x a IH]; intros [|y b] [|z c]; simpl; try done.
  intros [H1%N.ltb_ge H2]%orb_false_iff [H3%N.ltb_ge H4]%orb_false_iff. apply orb_false_iff. split; [apply N.ltb_ge; lia|].
  destruct (z =? x) eqn:E; [|done]. apply N.eqb_eq in E as ->. assert (x = y) as -> by lia.
  rewrite N.eqb_refl in *. simpl in *. by apply (IH b).
Qed.
Lemma str_ltb_total a b : str_ltb a b = false -> str_ltb b a = false -> a = b.
Proof.
  revert b. induction a as [|x a IH]; intros [|y b]; simpl; try done.
  intros [H1%N.ltb_ge H2]%orb_false_iff [H3%N.ltb_ge H4]%orb_false_iff. assert (x = y) as -> by lia.
  rewrite N.eqb_refl in *. simpl in *. f_equal. by apply IH.
Qed.

Lemma startsWith_prefix p s : startsWith p s = true -> exists t, s = p ++ t.
Proof.
  revert s. induction p as [|a p IH]; intros s; simpl; [by exists s|].
  destruct s as [|b s]; [done|]. intros [->%N.eqb_eq Hs]%andb_true_iff. destruct (IH s Hs) as [t ->]. by exists t.
Qed.
Lemma startsWith_app p s : startsWith p (p ++ s) = true.
Proof. induction p as [|u p IH]; simpl; [done|]. by rewrite N.eqb_refl. Qed.

Lemma toLowerCase_idem s : toLowerCase (toLowerCase s) = toLowerCase s.
Proof.
  unfold toLowerCase. rewrite map_map. apply map_ext. intros u. unfold lower_unit, is_upper.
  destruct ((65 <=? u) && (u <=? 90)) eqn:E.
  - apply andb_true_iff in E as [E1%N.leb_le E2%N.leb_le].
    destruct ((65 <=? u + 32) && (u + 32 <=? 90)) eqn:E3; [|destruct (u + 32 =? 0x212A) eqn:E4; [|done]].
    + apply andb_true_iff in E3 as [_ E3%N.leb_le]. lia.
    + apply N.eqb_eq in E4. lia.
  - destruct (u =? 0x212A) eqn:E2; [done|]. by rewrite E, E2.
Qed.

(** Comparing the strings of rows. *)
Lemma total_order_str {A} (f : A -> jstr) : total_order (fun a b => negb (str_ltb (f b) (f a))).
Proof.
  split.
  - intros a b Hab%negb_false_iff. apply negb_true_iff. by apply str_ltb_asym.
  - intros a b c Hab%negb_true_iff Hbc%negb_true_iff. apply negb_true_iff. by apply (str_ltb_trans (f a) (f b)).
Qed.
