(* ===== verification/JsDate.v ===== *)
(** [Date]: a time value is the number of milliseconds since the epoch, in UTC.
    The civil fields follow ECMAScript (proleptic Gregorian calendar); a stored
    [timestamp] column holds microseconds, the resolution of PostgreSQL. *)
From S2P Require Import Prelude JsString.
Local Open Scope Z_scope.

(** * Time values *)

Definition msPerDay : Z := 24 * 60 * 60 * 1000.
Definition msPerHour : Z := 60 * 60 * 1000.

Definition Day (t : Z) : Z := t / msPerDay.
Definition TimeWithinDay (t : Z) : Z := t mod msPerDay.

(** Years are counted from the first of March inside 400-year eras, so that
    leap days fall at the end of a year. *)
Definition daysPerEra : Z := 146097.
Definition epochShift : Z := 719468.

Definition dayOfEra (day : Z) : Z := (day + epochShift) mod daysPerEra.
Definition yearOfEra (doe : Z) : Z := (doe - doe / 1460 + doe / 36524 - doe / 146096) / 365.
Definition dayOfYear (doe : Z) : Z :=
  let yoe := yearOfEra doe in doe - (365 * yoe + yoe / 4 - yoe / 100).
Definition marchMonth (doe : Z) : Z := (5 * dayOfYear doe + 2) / 153.

Definition monthOfDay (day : Z) : Z :=
  let mp := marchMonth (dayOfEra day) in if mp <? 10 then mp + 2 else mp - 10.
Definition dateOfDay (day : Z) : Z :=
  let doe := dayOfEra day in dayOfYear doe - (153 * marchMonth doe + 2) / 5 + 1.
Definition yearOfDay (day : Z) : Z :=
  yearOfEra (dayOfEra day) + (day + epochShift) / daysPerEra * 400
  + (if monthOfDay day <=? 1 then 1 else 0).

Definition getUTCFullYear (t : Z) : Z := yearOfDay (Day t).
Definition getUTCMonth (t : Z) : Z := monthOfDay (Day t).
Definition getUTCDate (t : Z) : Z := dateOfDay (Day t).
Definition getUTCHours (t : Z) : Z := TimeWithinDay t / msPerHour.

(** The day number of year [y], month [m] (0 is January) and date [d]. *)
Definition MakeDay (y m d : Z) : Z :=
  let y' := y - (if m <=? 1 then 1 else 0) in
  let mp := if 1 <? m then m - 2 else m + 10 in
  let yoe := y' mod 400 in
  let doy := (153 * mp + 2) / 5 + d - 1 in
  y' / 400 * daysPerEra + (yoe * 365 + yoe / 4 - yoe / 100 + doy) - epochShift.

(** [Date.UTC(y, m, d, h)] for a month in range. *)
Definition Date_UTC (y m d h : Z) : Z := MakeDay y m d * msPerDay + h * msPerHour.

(** [date.setUTCDate(d)] *)
Definition setUTCDate (t d : Z) : Z :=
  MakeDay (getUTCFullYear t) (getUTCMonth t) d * msPerDay + TimeWithinDay t.

(** ** [toISOString] *)

Definition pad (n : nat) (z : Z) : jstr := padStart n 48%N (number_to_string (Z.to_N z)).
Definition isoYear (y : Z) : jstr :=
  if (0 <=? y) && (y <=? 9999) then pad 4 y
  else (if y <? 0 then js "-" else js "+") ++ pad 6 (Z.abs y).
Definition isoDate (t : Z) : jstr :=
  isoYear (getUTCFullYear t) ++ js "-" ++ pad 2 (getUTCMonth t + 1) ++ js "-" ++ pad 2 (getUTCDate t).
Definition toISOString (t : Z) : jstr :=
  let ms := TimeWithinDay t in
  isoDate t ++ js "T" ++ pad 2 (ms / msPerHour) ++ js ":" ++ pad 2 (ms / 60000 mod 60)
    ++ js ":" ++ pad 2 (ms / 1000 mod 60) ++ js "." ++ pad 3 (ms mod 1000) ++ js "Z".

(** ** Columns *)

(** A [Date] written to a column, and a column read back as a [Date]. *)
Definition to_column (ms : Z) : Z := ms * 1000.
Definition of_column (us : Z) : Z := us / 1000.

Example iso_sample : toISOString 1788004800123 = js "2026-08-29T12:00:00.123Z".
Proof. vm_compute. reflexivity. Qed.
Example iso_leap : toISOString 951782400000 = js "2000-02-29T00:00:00.000Z".
Proof. vm_compute. reflexivity. Qed.

(** * Lemmas *)

Lemma of_to_column ms : of_column (to_column ms) = ms.
Proof. unfold of_column, to_column. by rewrite Z.div_mul by lia. Qed.

(** The first day of a year of an era. *)
Definition yearStart (yoe : Z) : Z := 365 * yoe + yoe / 4 - yoe / 100.

Lemma yearOfEra_mono a b : a <= b -> yearOfEra a <= yearOfEra b.
Proof.
  intros Hab. unfold yearOfEra. apply Z.div_le_mono; [done|].
  assert (forall d, d / 146096 = d / 36524 / 4) as Hd by (intros; by rewrite Z.div_div).
  rewrite !Hd. pose proof (Z.div_le_mono a b 36524 ltac:(done) Hab) as Hk.
  assert (a - a / 1460 <= b - b / 1460) by (Z.to_euclidean_division_equations; lia).
  assert (forall x y, x <= y -> x - x / 4 <= y - y / 4) as H4 by (intros; Z.to_euclidean_division_equations; lia).
  specialize (H4 _ _ Hk). lia.
Qed.

(** The year is right on the first and the last day of each of the 400 years. *)
Fixpoint years_ok (fuel : nat) (yoe : Z) : bool :=
  match fuel with
  | O => true
  | S f => (yearOfEra (yearStart yoe) =? yoe) && (yearOfEra (yearStart (yoe + 1) - 1) =? yoe)
           && years_ok f (yoe + 1)
  end.

Lemma years_checked : years_ok 399 0 = true /\ yearOfEra (yearStart 399) = 399 /\ yearOfEra (daysPerEra - 1) = 399.
Proof. vm_compute. done. Qed.

Lemma years_ok_spec fuel yoe doe :
  years_ok fuel yoe = true -> yearStart yoe <= doe < yearStart (yoe + Z.of_nat fuel) ->
  yoe <= yearOfEra doe < yoe + Z.of_nat fuel /\ yearStart (yearOfEra doe) <= doe < yearStart (yearOfEra doe + 1).
Proof.
  revert yoe. induction fuel as [|f IH]; intros yoe Hok Hd; [rewrite Z.add_0_r in Hd; lia|].
  simpl in Hok. rewrite !andb_true_iff, !Z.eqb_eq in Hok. destruct Hok as [[H1 H2] H3].
  destruct (Z_lt_ge_dec doe (yearStart (yoe + 1))) as [Hlt|Hge].
  - pose proof (yearOfEra_mono (yearStart yoe) doe ltac:(lia)).
    pose proof (yearOfEra_mono doe (yearStart (yoe + 1) - 1) ltac:(lia)).
    assert (yearOfEra doe = yoe) as -> by lia. lia.
  - destruct (IH (yoe + 1) H3) as [? ?]; [|lia].
    replace (yoe + 1 + Z.of_nat f) with (yoe + Z.of_nat (S f)) by lia. lia.
Qed.

(** Every day of an era has its year in 0..399, its March-based month in 0..11
    and its date in 1..31. *)
Lemma era_bounds doe :
  0 <= doe < daysPerEra ->
  0 <= yearOfEra doe < 400 /\ 0 <= marchMonth doe < 12
  /\ 1 <= dayOfYear doe - (153 * marchMonth doe + 2) / 5 + 1 <= 31.
Proof.
  intros H. destruct years_checked as (Hok & H1 & H2).
  assert (0 <= yearOfEra doe < 400 /\ yearStart (yearOfEra doe) <= doe <= yearStart (yearOfEra doe) + 365)
    as [Hy Hs].
  { destruct (Z_lt_ge_dec doe (yearStart 399)) as [Hlt|Hge].
    - destruct (years_ok_spec 399 0 doe Hok) as [? ?]; [change (yearStart 0) with 0; change (0 + Z.of_nat 399) with 399; lia|].
      split; [lia|]. unfold yearStart in *. set (y := yearOfEra doe) in *.
      assert ((y + 1) / 4 <= y / 4 + 1 /\ y / 100 <= (y + 1) / 100) by (Z.to_euclidean_division_equations; lia).
      lia.
    - pose proof (yearOfEra_mono (yearStart 399) doe ltac:(lia)).
      pose proof (yearOfEra_mono doe (daysPerEra - 1) ltac:(lia)).
      assert (yearOfEra doe = 399) as -> by lia. split; [lia|]. change (yearStart 399) with 145731 in *.
      unfold daysPerEra in *. lia. }
  split; [done|].
  assert (0 <= dayOfYear doe <= 365) as Hdoy by (unfold dayOfYear, yearStart in *; lia).
  unfold marchMonth. generalize dependent (dayOfYear doe). intros doy Hdoy.
  Z.to_euclidean_division_equations. lia.
Qed.

Lemma dayOfEra_bounds day : 0 <= dayOfEra day < daysPerEra.
Proof. apply Z.mod_pos_bound. done. Qed.

Lemma monthOfDay_bounds day : 0 <= monthOfDay day <= 11.
Proof.
  pose proof (era_bounds _ (dayOfEra_bounds day)). unfold monthOfDay.
  destruct (Z.ltb_spec (marchMonth (dayOfEra day)) 10); lia.
Qed.

Lemma dateOfDay_bounds day : 1 <= dateOfDay day <= 31.
Proof. pose proof (era_bounds _ (dayOfEra_bounds day)). unfold dateOfDay. lia. Qed.

(** The civil fields of a day name that day. *)
Lemma MakeDay_fields day : MakeDay (yearOfDay day) (monthOfDay day) (dateOfDay day) = day.
Proof.
  pose proof (era_bounds _ (dayOfEra_bounds day)) as (Hy & Hm & _).
  set (doe := dayOfEra day) in *.
  set (era := (day + epochShift) / daysPerEra).
  assert (day + epochShift = era * daysPerEra + doe) as Hsplit
    by (subst doe era; unfold dayOfEra; rewrite Z.mul_comm; by apply Z.div_mod).
  assert (yearOfDay day - (if monthOfDay day <=? 1 then 1 else 0) = yearOfEra doe + era * 400) as Hy'
    by (unfold yearOfDay; fold doe era; lia).
  assert ((if 1 <? monthOfDay day then monthOfDay day - 2 else monthOfDay day + 10) = marchMonth doe) as Hm'.
  { unfold monthOfDay. fold doe. destruct (Z.ltb_spec (marchMonth doe) 10);
      destruct (Z.ltb_spec 1 (marchMonth doe + 2)); destruct (Z.ltb_spec 1 (marchMonth doe - 10)); lia. }
  unfold MakeDay. cbv zeta. rewrite Hy', Hm'.
  rewrite Z_div_plus_full, Z_mod_plus_full by done.
  rewrite Z.div_small, Z.mod_small by done.
  unfold dateOfDay, dayOfYear. cbv zeta. fold doe. lia.
Qed.

(** The fields of a time value rebuild its UTC midnight. *)
Lemma Date_UTC_fields t h :
  Date_UTC (getUTCFullYear t) (getUTCMonth t) (getUTCDate t) h = Day t * msPerDay + h * msPerHour.
Proof. unfold Date_UTC, getUTCFullYear, getUTCMonth, getUTCDate. by rewrite MakeDay_fields. Qed.

Lemma Day_bounds t : Day t * msPerDay <= t < Day t * msPerDay + msPerDay.
Proof. unfold Day. pose proof (Z.div_mod t msPerDay). pose proof (Z.mod_pos_bound t msPerDay). unfold msPerDay in *. lia. Qed.

(** Moving the date moves the time value by whole days, across months and years. *)
Lemma setUTCDate_add t n : setUTCDate t (getUTCDate t + n) = t + n * msPerDay.
Proof.
  unfold setUTCDate, getUTCFullYear, getUTCMonth, getUTCDate.
  assert (forall y m d, MakeDay y m (d + n) = MakeDay y m d + n) as -> by (intros; unfold MakeDay; lia).
  rewrite MakeDay_fields. unfold Day, TimeWithinDay. pose proof (Z.div_mod t msPerDay). unfold msPerDay in *. lia.
Qed.
