(* ===== verification/Json.v ===== *)
(** The values [JSON.parse] gives and what the sources do with them: [typeof],
    the [in] operator, property access, and the integers among the numbers. *)
From Stdlib Require Export SpecFloat.
From S2P Require Import Prelude JsString.
Local Open Scope Z_scope.

(** What [JSON.parse] gives, or [undefined]; a number is an IEEE double. *)
Inductive json :=
| JUndefined
| JNull
| JBool (b : bool)
| JNumber (f : spec_float)
| JString (s : jstr)
| JArray (l : list json)
| JObject (l : list (jstr * json)).

Fixpoint property (key : jstr) (l : list (jstr * json)) : option json :=
  match l with
  | [] => None
  | (k, v) :: l' => if k =?? key then Some v else property key l'
  end.
Definition member (key : jstr) (l : list (jstr * json)) : json := default JUndefined (property key l).

(** [typeof value === "object" && value !== null]: the fields [in] and property
    access see.  An array has none of the names the sources ask for. *)
Definition object_fields (value : json) : option (list (jstr * json)) :=
  match value with
  | JObject l => Some l
  | JArray _ => Some []
  | _ => None
  end.

(** [Number.isSafeInteger], with the integer. *)
Definition MAX_SAFE_INTEGER : Z := 2 ^ 53 - 1.
Definition isSafeInteger (z : Z) : bool := Z.abs z <=? MAX_SAFE_INTEGER.
Definition float_integer (f : spec_float) : option Z :=
  match f with
  | S754_zero _ => Some 0
  | S754_finite s m e =>
      let sg (z : Z) := if s then - z else z in
      if 0 <=? e then Some (sg (Z.pos m * 2 ^ e))
      else if Z.pos m mod 2 ^ (- e) =? 0 then Some (sg (Z.pos m / 2 ^ (- e))) else None
  | _ => None
  end.
