(* ===== verification/Text.v ===== *)
(** Text read from files and settings: splitting and joining, and the numbers
    [Number] reads in a string. *)
From Stdlib Require Import SpecFloat.
From S2P Require Import Prelude JsString Json.
Local Open Scope N_scope.

(** * Splitting *)

(** [s.split(c)] and [l.join(sep)] *)
Fixpoint split_on (c : N) (s : jstr) : list jstr :=
  match s with
  | [] => [[]]
  | u :: s' =>
      if u =? c then [] :: split_on c s'
      else match split_on c s' with
           | word :: words => (u :: word) :: words
           | [] => [[u]]
           end
  end.
Fixpoint join (sep : jstr) (l : list jstr) : jstr :=
  match l with
  | [] => []
  | [word] => word
  | word :: words => word ++ sep ++ join sep words
  end.

(** [s.lastIndexOf(c)] for a one-unit needle, [None] for -1. *)
Fixpoint lastIndexOf (c : N) (s : jstr) : option nat :=
  match s with
  | [] => None
  | u :: s' =>
      match lastIndexOf c s' with
      | Some i => Some (S i)
      | None => if u =? c then Some O else None
      end
  end.

Definition endsWith (p s : jstr) : bool := startsWith (rev p) (rev s).

(** [s.split(/\r?\n/)]: a line break takes the carriage return before it. *)
Definition strip_return (line : jstr) : jstr :=
  if rev line is u :: rest then (if u =? 13 then rev rest else line) else line.
Fixpoint strip_returns (l : list jstr) : list jstr :=
  match l with
  | [] => []
  | [last] => [last]
  | line :: l' => strip_return line :: strip_returns l'
  end.
Definition lines (s : jstr) : list jstr := strip_returns (split_on 10 s).

(** The longest prefix of units in a class, and the rest. *)
Fixpoint span (p : N -> bool) (s : jstr) : jstr * jstr :=
  match s with
  | u :: s' => if p u then let '(a, b) := span p s' in (u :: a, b) else ([], s)
  | [] => ([], [])
  end.

(** The maximal runs of units outside a class. *)
Definition words (p : N -> bool) (s : jstr) : list jstr :=
  List.filter (fun w => negb (w =?? [])) (split_on 32 (map (fun u => if p u then 32 else u) s)).

(** A literal, given in lower case, under the flag [i]. *)
Definition RIgnoreCase (s : string) : regex :=
  foldr (fun u r => RCat (RCls (fun v => (v =? u) || (is_lower u && (v =? u - 32)))%N) r) REps (js s).

(** * [Number] of a string *)

Local Open Scope Z_scope.

(** The value of digits in a base. *)
Definition digit_value (u : N) : Z := Z.of_N (if is_digit u then u - 48 else if (u <=? 90)%N then u - 55 else u - 87)%N.
Definition digits_value (base : Z) (s : jstr) : Z := foldl (fun n u => n * base + digit_value u) 0 s.

(** The double nearest to [n * 10 ^ e], for [n] not negative. *)
Definition nearest (n e : Z) : spec_float :=
  match n with
  | Z.pos m =>
      if 0 <=? e then binary_normalize 53 1024 (n * 10 ^ e) 0 false
      else SFdiv 53 1024 (S754_finite false m 0) (S754_finite false (Z.to_pos (10 ^ (- e))) 0)
  | _ => S754_zero false
  end.

Definition signed_digits (s : jstr) : option Z :=
  let '(neg, ds) := match s with 45%N :: t => (true, t) | 43%N :: t => (false, t) | _ => (false, s) end in
  if negb (ds =?? []) && forallb is_digit ds then Some (let n := digits_value 10 ds in if neg : bool then - n else n) else None.

(** StrUnsignedDecimalLiteral *)
Definition decimal_literal (s : jstr) : spec_float :=
  if s =?? js "Infinity" then S754_infinity false
  else
    let '(whole, s1) := span is_digit s in
    let '(fraction, s2) := match s1 with 46%N :: t => span is_digit t | _ => ([], s1) end in
    if whole ++ fraction =?? [] then S754_nan
    else
      match (match s2 with
             | [] => Some 0
             | u :: t => if (u =? 101)%N || (u =? 69)%N then signed_digits t else None
             end) with
      | Some e => nearest (digits_value 10 (whole ++ fraction)) (e - Z.of_nat (length fraction))
      | None => S754_nan
      end.

(** A literal in another base, after its prefix. *)
Definition based_literal (base : Z) (s : jstr) : spec_float :=
  if negb (s =?? []) && forallb (fun u => is_hex u && (digit_value u <? base)) s
  then binary_normalize 53 1024 (digits_value base s) 0 false else S754_nan.

(** StringToNumber *)
Definition Number (s : jstr) : spec_float :=
  match trim s with
  | [] => S754_zero false
  | 48%N :: u :: t =>
      if (u =? 120)%N || (u =? 88)%N then based_literal 16 t
      else if (u =? 111)%N || (u =? 79)%N then based_literal 8 t
      else if (u =? 98)%N || (u =? 66)%N then based_literal 2 t
      else decimal_literal (48%N :: u :: t)
  | 43%N :: t => decimal_literal t
  | 45%N :: t => SFopp (decimal_literal t)
  | t => decimal_literal t
  end.

Example number_forms :
  map (fun s => float_integer (Number (js s))) ["5432"; " 80 "; "0x50"; "1e3"; ""; "5432.0"; "12a"; "1.5"; "-1"; "80.00000000000000000001"]
  = [Some 5432; Some 80; Some 80; Some 1000; Some 0; Some 5432; None; None; Some (-1); Some 80].
Proof. vm_compute. reflexivity. Qed.
