(* ===== verification/Libraries.v ===== *)
(** The third-party code the sources call, as type classes of operations: every
    component is proved for any implementation of them.  What a theorem needs
    of one of them is a hypothesis of that theorem. *)
From S2P Require Import Prelude JsString.
Local Open Scope Z_scope.

(** The uuid package: [validate] and [version]. *)
Class UuidLib := { isUuid : jstr -> bool; uuidVersion : jstr -> Z }.

(** [ConfigService] of Nest over the validated environment: an entry is a string
    or, for ports and token lifetimes, a number, or a flag. *)
Class ConfigService := {
  config_string : jstr -> option jstr;
  config_number : jstr -> option Z;
  config_boolean : jstr -> option bool
}.

(** The claims and options given to [JwtService.signAsync]. *)
Inductive JwtClaims :=
| AccessClaims (userId : jstr)
| RefreshClaims (userId deviceId : jstr)
| KakaoClaims (providerUserId : jstr)
| PhoneClaims (phoneE164 verificationId nonce : jstr).
Record JwtOptions := mkJwtOptions {
  jwt_audience : option jstr;
  jwt_issuer : option jstr;
  jwt_secret : jstr;
  jwt_expiresIn : Z
}.
(** [jwt_sign now] is the token signed at time [now], [None] when signing fails;
    [jwt_exp] is the [exp] claim, in seconds, that [decode] finds in a token. *)
Class JwtService := {
  jwt_sign : Z -> JwtClaims -> JwtOptions -> option jstr;
  jwt_exp : jstr -> option Z
}.

(** The WHATWG URL parser: [new URL(s)], [None] when it throws. *)
Record Url := mkUrl { url_protocol : jstr; url_username : jstr; url_password : jstr; url_search : jstr; url_hash : jstr; url_href : jstr }.
Class UrlLib := { parse_url : jstr -> option Url }.

(** [isIP] of node:net: 4, 6, or 0 for no address. *)
Class NetLib := { isIP : jstr -> Z }.
