(* ===== verification/Schema.v ===== *)
(** The data model: one record per table of src/src/modules/database/schema.ts, in a
    module named after the drizzle table, so that [pushOutbox.status] names the
    same column here and there, and the database as the record of all tables.
    Timestamps are microseconds since the epoch; uuid and text columns are
    [jstr]; a nullable column is an [option].  Columns declared with an [enum]
    are inductive types. *)
From S2P Require Import Prelude JsString.
Local Open Scope Z_scope.

(** * Enumerated columns *)

Inductive Gender := male | female.
Inductive InterestedGender := interested_male | interested_female | everyone.
Inductive ProfileUploadStatus := pending | processing | verified | failed.
Inductive NotificationType := like_notification | match_notification | message_notification
| comment_notification | purchase_notification.
Inductive PushOutboxStatus :=
| queued | sending | receipt_pending | receipt_checking
| delivered | failed_permanent | exhausted | cancelled.
Inductive RevenueCatTransactionState := granted | refunded.
(** The CHECK of migration 0007 on [match_actions.action]. *)
Inductive MatchActionKind := skip | like | superlike.

#[export] Instance Gender_eq_dec : EqDecision Gender.
Proof. solve_decision. Defined.
#[export] Instance InterestedGender_eq_dec : EqDecision InterestedGender.
Proof. solve_decision. Defined.
#[export] Instance ProfileUploadStatus_eq_dec : EqDecision ProfileUploadStatus.
Proof. solve_decision. Defined.
#[export] Instance NotificationType_eq_dec : EqDecision NotificationType.
Proof. solve_decision. Defined.
#[export] Instance PushOutboxStatus_eq_dec : EqDecision PushOutboxStatus.
Proof. solve_decision. Defined.
#[export] Instance RevenueCatTransactionState_eq_dec : EqDecision RevenueCatTransactionState.
Proof. solve_decision. Defined.
#[export] Instance MatchActionKind_eq_dec : EqDecision MatchActionKind.
Proof. solve_decision. Defined.

(** [isGender] and [isInterestedGender], with the value they narrow to. *)
Definition isGender (value : jstr) : option Gender :=
  if value =?? js "male" then Some male
  else if value =?? js "female" then Some female else None.
Definition isInterestedGender (value : jstr) : option InterestedGender :=
  if value =?? js "male" then Some interested_male
  else if value =?? js "female" then Some interested_female
  else if value =?? js "everyone" then Some everyone else None.

(** * Rows *)

Module users.
Record User := mkUser {
  userId : jstr;
  email : jstr;
  phone : option jstr;
  password : jstr;
  userName : jstr;
  gender : Gender;
  intro : jstr;
  birthDate : option jstr;
  region : option jstr;
  interestedGender : option InterestedGender;
  profileCompletedAt : option Z;
  hiddenAt : option Z;
  deletionScheduledAt : option Z;
  deletionLeaseExpiresAt : option Z;
  deletionAttempts : Z;
  deletedAt : option Z;
  createdAt : Z;
  updatedAt : Z
}.
#[export] Instance eta_User : Eta User := fun r => mkUser (userId r) (email r) (phone r)
  (password r) (userName r) (gender r) (intro r) (birthDate r) (region r) (interestedGender r)
  (profileCompletedAt r) (hiddenAt r) (deletionScheduledAt r) (deletionLeaseExpiresAt r)
  (deletionAttempts r) (deletedAt r) (createdAt r) (updatedAt r).
#[export] Instance User_eq_dec : EqDecision User.
Proof. solve_decision. Defined.
End users.
Export (hints) users.
Abbreviation User := users.User.

Module profileUploads.
Record ProfileUpload := mkProfileUpload {
  id : jstr;
  userId : jstr;
  status : ProfileUploadStatus;
  stagingKey : jstr;
  finalKey : option jstr;
  expectedContentType : jstr;
  expectedSizeBytes : Z;
  finalContentType : option jstr;
  finalSizeBytes : option Z;
  publicUrl : option jstr;
  expiresAt : Z;
  processingLeaseExpiresAt : option Z;
  cleanupLeaseExpiresAt : option Z;
  cleanupAttempts : Z;
  failureCode : option jstr;
  stagingDeletedAt : option Z;
  finalDeletionPendingAt : option Z;
  finalDeletedAt : option Z;
  verifiedAt : option Z;
  createdAt : Z;
  updatedAt : Z
}.
#[export] Instance eta_ProfileUpload : Eta ProfileUpload := fun r => mkProfileUpload (id r)
  (userId r) (status r) (stagingKey r) (finalKey r) (expectedContentType r) (expectedSizeBytes
  r) (finalContentType r) (finalSizeBytes r) (publicUrl r) (expiresAt r)
  (processingLeaseExpiresAt r) (cleanupLeaseExpiresAt r) (cleanupAttempts r) (failureCode r)
  (stagingDeletedAt r) (finalDeletionPendingAt r) (finalDeletedAt r) (verifiedAt r) (createdAt
  r) (updatedAt r).
#[export] Instance ProfileUpload_eq_dec : EqDecision ProfileUpload.
Proof. solve_decision. Defined.
End profileUploads.
Export (hints) profileUploads.
Abbreviation ProfileUpload := profileUploads.ProfileUpload.

Module userProfilePhotos.
Record UserProfilePhoto := mkUserProfilePhoto {
  id : jstr;
  userId : jstr;
  uploadId : option jstr;
  url : jstr;
  position : Z;
  createdAt : Z
}.
#[export] Instance eta_UserProfilePhoto : Eta UserProfilePhoto := fun r => mkUserProfilePhoto
  (id r) (userId r) (uploadId r) (url r) (position r) (createdAt r).
#[export] Instance UserProfilePhoto_eq_dec : EqDecision UserProfilePhoto.
Proof. solve_decision. Defined.
End userProfilePhotos.
Export (hints) userProfilePhotos.
Abbreviation UserProfilePhoto := userProfilePhotos.UserProfilePhoto.

Module refreshTokens.
Record RefreshToken := mkRefreshToken {
  id : jstr;
  userId : jstr;
  deviceId : jstr;
  refreshToken : jstr;
  refreshTokenExp : Z;
  createdAt : Z;
  updatedAt : Z
}.
#[export] Instance eta_RefreshToken : Eta RefreshToken := fun r => mkRefreshToken (id r) (userId
  r) (deviceId r) (refreshToken r) (refreshTokenExp r) (createdAt r) (updatedAt r).
#[export] Instance RefreshToken_eq_dec : EqDecision RefreshToken.
Proof. solve_decision. Defined.
End refreshTokens.
Export (hints) refreshTokens.
Abbreviation RefreshToken := refreshTokens.RefreshToken.

Module authIdentities.
Record AuthIdentity := mkAuthIdentity {
  id : jstr;
  userId : jstr;
  provider : jstr;
  providerUserId : jstr;
  createdAt : Z
}.
#[export] Instance eta_AuthIdentity : Eta AuthIdentity := fun r => mkAuthIdentity (id r) (userId
  r) (provider r) (providerUserId r) (createdAt r).
#[export] Instance AuthIdentity_eq_dec : EqDecision AuthIdentity.
Proof. solve_decision. Defined.
End authIdentities.
Export (hints) authIdentities.
Abbreviation AuthIdentity := authIdentities.AuthIdentity.

Module phoneVerifications.
Record PhoneVerification := mkPhoneVerification {
  id : jstr;
  phoneE164 : jstr;
  codeHash : jstr;
  purpose : jstr;
  expiresAt : Z;
  verifiedAt : option Z;
  attemptCount : Z;
  requestIpHash : option jstr;
  userAgentHash : option jstr;
  createdAt : Z
}.
#[export] Instance eta_PhoneVerification : Eta PhoneVerification := fun r => mkPhoneVerification
  (id r) (phoneE164 r) (codeHash r) (purpose r) (expiresAt r) (verifiedAt r) (attemptCount r)
  (requestIpHash r) (userAgentHash r) (createdAt r).
#[export] Instance PhoneVerification_eq_dec : EqDecision PhoneVerification.
Proof. solve_decision. Defined.
End phoneVerifications.
Export (hints) phoneVerifications.
Abbreviation PhoneVerification := phoneVerifications.PhoneVerification.

Module phoneVerificationTokens.
Record PhoneVerificationToken := mkPhoneVerificationToken {
  tokenHash : jstr;
  phoneE164 : jstr;
  verificationId : jstr;
  expiresAt : Z;
  usedAt : option Z;
  createdAt : Z
}.
#[export] Instance eta_PhoneVerificationToken : Eta PhoneVerificationToken := fun r =>
  mkPhoneVerificationToken (tokenHash r) (phoneE164 r) (verificationId r) (expiresAt r) (usedAt
  r) (createdAt r).
#[export] Instance PhoneVerificationToken_eq_dec : EqDecision PhoneVerificationToken.
Proof. solve_decision. Defined.
End phoneVerificationTokens.
Export (hints) phoneVerificationTokens.
Abbreviation PhoneVerificationToken := phoneVerificationTokens.PhoneVerificationToken.

Module kakaoPhoneVerificationTokens.
Record KakaoPhoneVerificationToken := mkKakaoPhoneVerificationToken {
  tokenHash : jstr;
  userId : option jstr;
  providerUserId : jstr;
  email : option jstr;
  expiresAt : Z;
  usedAt : option Z;
  createdAt : Z
}.
#[export] Instance eta_KakaoPhoneVerificationToken : Eta KakaoPhoneVerificationToken := fun r =>
  mkKakaoPhoneVerificationToken (tokenHash r) (userId r) (providerUserId r) (email r) (expiresAt
  r) (usedAt r) (createdAt r).
#[export] Instance KakaoPhoneVerificationToken_eq_dec : EqDecision KakaoPhoneVerificationToken.
Proof. solve_decision. Defined.
End kakaoPhoneVerificationTokens.
Export (hints) kakaoPhoneVerificationTokens.
Abbreviation KakaoPhoneVerificationToken := kakaoPhoneVerificationTokens.KakaoPhoneVerificationToken.

Module rooms.
Record Room := mkRoom {
  id : jstr;
  name : jstr;
  createdAt : Z;
  updatedAt : Z
}.
#[export] Instance eta_Room : Eta Room := fun r => mkRoom (id r) (name r) (createdAt r)
  (updatedAt r).
#[export] Instance Room_eq_dec : EqDecision Room.
Proof. solve_decision. Defined.
End rooms.
Export (hints) rooms.
Abbreviation Room := rooms.Room.

Module roomMembers.
Record RoomMember := mkRoomMember {
  roomId : jstr;
  userId : jstr;
  joinedAt : Z
}.
#[export] Instance eta_RoomMember : Eta RoomMember := fun r => mkRoomMember (roomId r) (userId
  r) (joinedAt r).
#[export] Instance RoomMember_eq_dec : EqDecision RoomMember.
Proof. solve_decision. Defined.
End roomMembers.
Export (hints) roomMembers.
Abbreviation RoomMember := roomMembers.RoomMember.

Module messages.
Record Message := mkMessage {
  id : jstr;
  roomId : jstr;
  senderUserId : option jstr;
  text : jstr;
  idempotencyKey : option jstr;
  deletedAt : option Z;
  createdAt : Z;
  updatedAt : Z
}.
#[export] Instance eta_Message : Eta Message := fun r => mkMessage (id r) (roomId r)
  (senderUserId r) (text r) (idempotencyKey r) (deletedAt r) (createdAt r) (updatedAt r).
#[export] Instance Message_eq_dec : EqDecision Message.
Proof. solve_decision. Defined.
End messages.
Export (hints) messages.
Abbreviation Message := messages.Message.

Module readReceipts.
Record ReadReceipt := mkReadReceipt {
  roomId : jstr;
  userId : jstr;
  lastReadMessageId : option jstr;
  readAt : Z
}.
#[export] Instance eta_ReadReceipt : Eta ReadReceipt := fun r => mkReadReceipt (roomId r)
  (userId r) (lastReadMessageId r) (readAt r).
#[export] Instance ReadReceipt_eq_dec : EqDecision ReadReceipt.
Proof. solve_decision. Defined.
End readReceipts.
Export (hints) readReceipts.
Abbreviation ReadReceipt := readReceipts.ReadReceipt.

Module userBlocks.
Record UserBlock := mkUserBlock {
  blockerUserId : jstr;
  blockedUserId : jstr;
  createdAt : Z
}.
#[export] Instance eta_UserBlock : Eta UserBlock := fun r => mkUserBlock (blockerUserId r)
  (blockedUserId r) (createdAt r).
#[export] Instance UserBlock_eq_dec : EqDecision UserBlock.
Proof. solve_decision. Defined.
End userBlocks.
Export (hints) userBlocks.
Abbreviation UserBlock := userBlocks.UserBlock.

Module messageReports.
Record MessageReport := mkMessageReport {
  id : jstr;
  messageId : jstr;
  reporterUserId : jstr;
  reason : jstr;
  createdAt : Z
}.
#[export] Instance eta_MessageReport : Eta MessageReport := fun r => mkMessageReport (id r)
  (messageId r) (reporterUserId r) (reason r) (createdAt r).
#[export] Instance MessageReport_eq_dec : EqDecision MessageReport.
Proof. solve_decision. Defined.
End messageReports.
Export (hints) messageReports.
Abbreviation MessageReport := messageReports.MessageReport.

Module userLikes.
Record UserLike := mkUserLike {
  likerUserId : jstr;
  likedUserId : jstr;
  createdAt : Z
}.
#[export] Instance eta_UserLike : Eta UserLike := fun r => mkUserLike (likerUserId r)
  (likedUserId r) (createdAt r).
#[export] Instance UserLike_eq_dec : EqDecision UserLike.
Proof. solve_decision. Defined.
End userLikes.
Export (hints) userLikes.
Abbreviation UserLike := userLikes.UserLike.

Module userLikedMeAccesses.
Record UserLikedMeAccess := mkUserLikedMeAccess {
  userId : jstr;
  periodStart : Z;
  viewedCount : Z;
  updatedAt : Z
}.
#[export] Instance eta_UserLikedMeAccess : Eta UserLikedMeAccess := fun r => mkUserLikedMeAccess
  (userId r) (periodStart r) (viewedCount r) (updatedAt r).
#[export] Instance UserLikedMeAccess_eq_dec : EqDecision UserLikedMeAccess.
Proof. solve_decision. Defined.
End userLikedMeAccesses.
Export (hints) userLikedMeAccesses.
Abbreviation UserLikedMeAccess := userLikedMeAccesses.UserLikedMeAccess.

Module userSubscriptions.
Record UserSubscription := mkUserSubscription {
  id : jstr;
  userId : jstr;
  planId : jstr;
  status : jstr;
  provider : option jstr;
  providerCustomerId : option jstr;
  providerProductId : option jstr;
  providerEventTimestampMs : option Z;
  currentPeriodStartsAt : option Z;
  currentPeriodEndsAt : option Z;
  createdAt : Z;
  updatedAt : Z
}.
#[export] Instance eta_UserSubscription : Eta UserSubscription := fun r => mkUserSubscription
  (id r) (userId r) (planId r) (status r) (provider r) (providerCustomerId r) (providerProductId
  r) (providerEventTimestampMs r) (currentPeriodStartsAt r) (currentPeriodEndsAt r) (createdAt
  r) (updatedAt r).
#[export] Instance UserSubscription_eq_dec : EqDecision UserSubscription.
Proof. solve_decision. Defined.
End userSubscriptions.
Export (hints) userSubscriptions.
Abbreviation UserSubscription := userSubscriptions.UserSubscription.

Module userConsumableBalances.
Record UserConsumableBalance := mkUserConsumableBalance {
  userId : jstr;
  superLikeCredits : Z;
  boostCredits : Z;
  updatedAt : Z
}.
#[export] Instance eta_UserConsumableBalance : Eta UserConsumableBalance := fun r =>
  mkUserConsumableBalance (userId r) (superLikeCredits r) (boostCredits r) (updatedAt r).
#[export] Instance UserConsumableBalance_eq_dec : EqDecision UserConsumableBalance.
Proof. solve_decision. Defined.
End userConsumableBalances.
Export (hints) userConsumableBalances.
Abbreviation UserConsumableBalance := userConsumableBalances.UserConsumableBalance.

Module userBoosts.
Record UserBoost := mkUserBoost {
  id : jstr;
  userId : jstr;
  source : jstr;
  startsAt : Z;
  endsAt : Z;
  createdAt : Z
}.
#[export] Instance eta_UserBoost : Eta UserBoost := fun r => mkUserBoost (id r) (userId r)
  (source r) (startsAt r) (endsAt r) (createdAt r).
#[export] Instance UserBoost_eq_dec : EqDecision UserBoost.
Proof. solve_decision. Defined.
End userBoosts.
Export (hints) userBoosts.
Abbreviation UserBoost := userBoosts.UserBoost.

Module matchActions.
Record MatchAction := mkMatchAction {
  id : jstr;
  actorUserId : jstr;
  targetUserId : jstr;
  action : MatchActionKind;
  revertedAt : option Z;
  createdAt : Z
}.
#[export] Instance eta_MatchAction : Eta MatchAction := fun r => mkMatchAction (id r)
  (actorUserId r) (targetUserId r) (action r) (revertedAt r) (createdAt r).
#[export] Instance MatchAction_eq_dec : EqDecision MatchAction.
Proof. solve_decision. Defined.
End matchActions.
Export (hints) matchActions.
Abbreviation MatchAction := matchActions.MatchAction.

Module notifications.
Record Notification := mkNotification {
  id : jstr;
  userId : jstr;
  type : NotificationType;
  title : jstr;
  body : jstr;
  route : option jstr;
  sourceId : option jstr;
  readAt : option Z;
  createdAt : Z
}.
#[export] Instance eta_Notification : Eta Notification := fun r => mkNotification (id r) (userId
  r) (type r) (title r) (body r) (route r) (sourceId r) (readAt r) (createdAt r).
#[export] Instance Notification_eq_dec : EqDecision Notification.
Proof. solve_decision. Defined.
End notifications.
Export (hints) notifications.
Abbreviation Notification := notifications.Notification.

Module pushTokens.
Record PushToken := mkPushToken {
  id : jstr;
  userId : jstr;
  deviceId : jstr;
  token : jstr;
  platform : jstr;
  updatedAt : Z;
  createdAt : Z
}.
#[export] Instance eta_PushToken : Eta PushToken := fun r => mkPushToken (id r) (userId r)
  (deviceId r) (token r) (platform r) (updatedAt r) (createdAt r).
#[export] Instance PushToken_eq_dec : EqDecision PushToken.
Proof. solve_decision. Defined.
End pushTokens.
Export (hints) pushTokens.
Abbreviation PushToken := pushTokens.PushToken.

Module pushOutbox.
Record PushOutbox := mkPushOutbox {
  id : jstr;
  notificationId : jstr;
  pushTokenId : option jstr;
  tokenSnapshot : jstr;
  title : jstr;
  body : jstr;
  route : option jstr;
  status : PushOutboxStatus;
  ticketId : option jstr;
  sendAttempts : Z;
  receiptAttempts : Z;
  nextAttemptAt : Z;
  receiptAvailableAt : option Z;
  leaseExpiresAt : option Z;
  lastErrorCode : option jstr;
  lastErrorMessage : option jstr;
  sentAt : option Z;
  completedAt : option Z;
  createdAt : Z;
  updatedAt : Z
}.
#[export] Instance eta_PushOutbox : Eta PushOutbox := fun r => mkPushOutbox (id r)
  (notificationId r) (pushTokenId r) (tokenSnapshot r) (title r) (body r) (route r) (status r)
  (ticketId r) (sendAttempts r) (receiptAttempts r) (nextAttemptAt r) (receiptAvailableAt r)
  (leaseExpiresAt r) (lastErrorCode r) (lastErrorMessage r) (sentAt r) (completedAt r)
  (createdAt r) (updatedAt r).
#[export] Instance PushOutbox_eq_dec : EqDecision PushOutbox.
Proof. solve_decision. Defined.
End pushOutbox.
Export (hints) pushOutbox.
Abbreviation PushOutbox := pushOutbox.PushOutbox.

Module billingEvents.
Record BillingEvent := mkBillingEvent {
  id : jstr;
  providerEventId : jstr;
  provider : jstr;
  payloadHash : jstr;
  receivedAt : Z
}.
#[export] Instance eta_BillingEvent : Eta BillingEvent := fun r => mkBillingEvent (id r)
  (providerEventId r) (provider r) (payloadHash r) (receivedAt r).
#[export] Instance BillingEvent_eq_dec : EqDecision BillingEvent.
Proof. solve_decision. Defined.
End billingEvents.
Export (hints) billingEvents.
Abbreviation BillingEvent := billingEvents.BillingEvent.

Module revenueCatTransactions.
Record RevenueCatTransaction := mkRevenueCatTransaction {
  id : jstr;
  provider : jstr;
  providerTransactionId : jstr;
  originalTransactionId : jstr;
  userId : jstr;
  canonicalProductId : jstr;
  providerProductId : jstr;
  superLikeUnits : Z;
  boostUnits : Z;
  state : RevenueCatTransactionState;
  stateEventTimestampMs : Z;
  createdAt : Z;
  updatedAt : Z
}.
#[export] Instance eta_RevenueCatTransaction : Eta RevenueCatTransaction := fun r =>
  mkRevenueCatTransaction (id r) (provider r) (providerTransactionId r) (originalTransactionId
  r) (userId r) (canonicalProductId r) (providerProductId r) (superLikeUnits r) (boostUnits r)
  (state r) (stateEventTimestampMs r) (createdAt r) (updatedAt r).
#[export] Instance RevenueCatTransaction_eq_dec : EqDecision RevenueCatTransaction.
Proof. solve_decision. Defined.
End revenueCatTransactions.
Export (hints) revenueCatTransactions.
Abbreviation RevenueCatTransaction := revenueCatTransactions.RevenueCatTransaction.

Module revenueCatTransactionLedger.
Record RevenueCatTransactionLedgerEntry := mkRevenueCatTransactionLedgerEntry {
  id : jstr;
  providerEventId : jstr;
  revenuecatTransactionId : jstr;
  eventTimestampMs : Z;
  requestedState : RevenueCatTransactionState;
  effectiveState : RevenueCatTransactionState;
  superLikeDelta : Z;
  boostDelta : Z;
  applied : bool;
  createdAt : Z
}.
#[export] Instance eta_RevenueCatTransactionLedgerEntry : Eta RevenueCatTransactionLedgerEntry
  := fun r => mkRevenueCatTransactionLedgerEntry (id r) (providerEventId r)
  (revenuecatTransactionId r) (eventTimestampMs r) (requestedState r) (effectiveState r)
  (superLikeDelta r) (boostDelta r) (applied r) (createdAt r).
#[export] Instance RevenueCatTransactionLedgerEntry_eq_dec : EqDecision RevenueCatTransactionLedgerEntry.
Proof. solve_decision. Defined.
End revenueCatTransactionLedger.
Export (hints) revenueCatTransactionLedger.
Abbreviation RevenueCatTransactionLedgerEntry := revenueCatTransactionLedger.RevenueCatTransactionLedgerEntry.

Module matches.
Record Match := mkMatch {
  userLowId : jstr;
  userHighId : jstr;
  roomId : jstr;
  createdAt : Z
}.
#[export] Instance eta_Match : Eta Match := fun r => mkMatch (userLowId r) (userHighId r)
  (roomId r) (createdAt r).
#[export] Instance Match_eq_dec : EqDecision Match.
Proof. solve_decision. Defined.
End matches.
Export (hints) matches.
Abbreviation Match := matches.Match.

Module communityPosts.
Record CommunityPost := mkCommunityPost {
  id : jstr;
  authorUserId : jstr;
  title : jstr;
  body : jstr;
  deletedAt : option Z;
  createdAt : Z;
  updatedAt : Z
}.
#[export] Instance eta_CommunityPost : Eta CommunityPost := fun r => mkCommunityPost (id r)
  (authorUserId r) (title r) (body r) (deletedAt r) (createdAt r) (updatedAt r).
#[export] Instance CommunityPost_eq_dec : EqDecision CommunityPost.
Proof. solve_decision. Defined.
End communityPosts.
Export (hints) communityPosts.
Abbreviation CommunityPost := communityPosts.CommunityPost.

Module communityProfiles.
Record CommunityProfile := mkCommunityProfile {
  userId : jstr;
  name : jstr;
  createdAt : Z;
  updatedAt : Z
}.
#[export] Instance eta_CommunityProfile : Eta CommunityProfile := fun r => mkCommunityProfile
  (userId r) (name r) (createdAt r) (updatedAt r).
#[export] Instance CommunityProfile_eq_dec : EqDecision CommunityProfile.
Proof. solve_decision. Defined.
End communityProfiles.
Export (hints) communityProfiles.
Abbreviation CommunityProfile := communityProfiles.CommunityProfile.

Module communityComments.
Record CommunityComment := mkCommunityComment {
  id : jstr;
  postId : jstr;
  authorUserId : jstr;
  body : jstr;
  deletedAt : option Z;
  createdAt : Z;
  updatedAt : Z
}.
#[export] Instance eta_CommunityComment : Eta CommunityComment := fun r => mkCommunityComment
  (id r) (postId r) (authorUserId r) (body r) (deletedAt r) (createdAt r) (updatedAt r).
#[export] Instance CommunityComment_eq_dec : EqDecision CommunityComment.
Proof. solve_decision. Defined.
End communityComments.
Export (hints) communityComments.
Abbreviation CommunityComment := communityComments.CommunityComment.

Module communityPostReports.
Record CommunityPostReport := mkCommunityPostReport {
  id : jstr;
  postId : jstr;
  reporterUserId : jstr;
  reason : jstr;
  createdAt : Z
}.
#[export] Instance eta_CommunityPostReport : Eta CommunityPostReport := fun r =>
  mkCommunityPostReport (id r) (postId r) (reporterUserId r) (reason r) (createdAt r).
#[export] Instance CommunityPostReport_eq_dec : EqDecision CommunityPostReport.
Proof. solve_decision. Defined.
End communityPostReports.
Export (hints) communityPostReports.
Abbreviation CommunityPostReport := communityPostReports.CommunityPostReport.

Module communityCommentReports.
Record CommunityCommentReport := mkCommunityCommentReport {
  id : jstr;
  commentId : jstr;
  reporterUserId : jstr;
  reason : jstr;
  createdAt : Z
}.
#[export] Instance eta_CommunityCommentReport : Eta CommunityCommentReport := fun r =>
  mkCommunityCommentReport (id r) (commentId r) (reporterUserId r) (reason r) (createdAt r).
#[export] Instance CommunityCommentReport_eq_dec : EqDecision CommunityCommentReport.
Proof. solve_decision. Defined.
End communityCommentReports.
Export (hints) communityCommentReports.
Abbreviation CommunityCommentReport := communityCommentReports.CommunityCommentReport.

Module scores.
Record Score := mkScore {
  scorerUserId : jstr;
  scoredUserId : jstr;
  score : Z;
  createdAt : Z;
  updatedAt : Z
}.
#[export] Instance eta_Score : Eta Score := fun r => mkScore (scorerUserId r) (scoredUserId r)
  (score r) (createdAt r) (updatedAt r).
#[export] Instance Score_eq_dec : EqDecision Score.
Proof. solve_decision. Defined.
End scores.
Export (hints) scores.
Abbreviation Score := scores.Score.

(** * The database *)

Record Db := mkDb {
  users : list User;
  profileUploads : list ProfileUpload;
  userProfilePhotos : list UserProfilePhoto;
  refreshTokens : list RefreshToken;
  authIdentities : list AuthIdentity;
  phoneVerifications : list PhoneVerification;
  phoneVerificationTokens : list PhoneVerificationToken;
  kakaoPhoneVerificationTokens : list KakaoPhoneVerificationToken;
  rooms : list Room;
  roomMembers : list RoomMember;
  messages : list Message;
  readReceipts : list ReadReceipt;
  userBlocks : list UserBlock;
  messageReports : list MessageReport;
  userLikes : list UserLike;
  userLikedMeAccesses : list UserLikedMeAccess;
  userSubscriptions : list UserSubscription;
  userConsumableBalances : list UserConsumableBalance;
  userBoosts : list UserBoost;
  matchActions : list MatchAction;
  notifications : list Notification;
  pushTokens : list PushToken;
  pushOutbox : list PushOutbox;
  billingEvents : list BillingEvent;
  revenueCatTransactions : list RevenueCatTransaction;
  revenueCatTransactionLedger : list RevenueCatTransactionLedgerEntry;
  matches : list Match;
  communityPosts : list CommunityPost;
  communityProfiles : list CommunityProfile;
  communityComments : list CommunityComment;
  communityPostReports : list CommunityPostReport;
  communityCommentReports : list CommunityCommentReport;
  scores : list Score
}.
#[export] Instance eta_Db : Eta Db := fun d => mkDb (users d) (profileUploads d)
  (userProfilePhotos d) (refreshTokens d) (authIdentities d) (phoneVerifications d)
  (phoneVerificationTokens d) (kakaoPhoneVerificationTokens d) (rooms d) (roomMembers d)
  (messages d) (readReceipts d) (userBlocks d) (messageReports d) (userLikes d)
  (userLikedMeAccesses d) (userSubscriptions d) (userConsumableBalances d) (userBoosts d)
  (matchActions d) (notifications d) (pushTokens d) (pushOutbox d) (billingEvents d)
  (revenueCatTransactions d) (revenueCatTransactionLedger d) (matches d) (communityPosts d)
  (communityProfiles d) (communityComments d) (communityPostReports d) (communityCommentReports
  d) (scores d).

Definition emptyDb : Db :=
  mkDb [] [] [] [] [] [] [] [] [] [] [] [] [] [] [] [] [] [] [] [] [] [] [] [] [] [] [] []
    [] [] [] [] [].
