(* ===== verification/World.v ===== *)
(** The state and effects of a request handler: a world holds the database and
    the log of what left the process, handlers run in a state-and-exception
    monad over it, and the SQL statements drizzle builds are its primitive
    operations.  A weakest-precondition calculus [wp] reasons about handlers. *)
From S2P Require Import Prelude JsString JsDate Schema.
Local Open Scope Z_scope.

(** * Oracles *)

(** What a handler reads that is not in the database.  Every reading advances a
    counter, so two calls of [new Date()] may give different times. *)
Class Env := {
  (** [new Date()], [Date.now()], in milliseconds *)
  date_now : nat -> Z;
  (** [clock_timestamp()] and the default [now()] of a column, in microseconds *)
  pg_clock : nat -> Z;
  (** [uuidv4()], [randomUUID()], [gen_random_uuid()] *)
  random_uuid : nat -> jstr;
  (** [crypto.randomInt(0, 1_000_000)] *)
  random_int : nat -> Z;
  (** rows a concurrent transaction holds: SKIP LOCKED passes over them *)
  row_locked : nat -> jstr -> bool;
  (** [createHash("sha256").update(s).digest("hex")] *)
  sha256_hex : jstr -> jstr;
  (** [bcrypt.hash(s, 10)] with the salt drawn at this point, [bcrypt.compare] *)
  bcrypt_hash : nat -> jstr -> jstr;
  bcrypt_compare : jstr -> jstr -> bool
}.

(** * Exceptions and results *)

Inductive ErrorClass :=
| PlainError
| BadRequestException
| UnauthorizedException
| TooManyRequestsHttpException
| CustomBadRequestException
| CustomUnauthorizedException
| CustomNotFoundException
| CustomTooManyRequestsException
| CustomServiceUnavailableException
| NotImplementedException
| ConflictException
| UploadObjectValidationError
| PhoneVerificationTokenConsumeFailedError
| KakaoPhoneVerificationTokenConsumeFailedError
| PgError.
#[export] Instance ErrorClass_eq_dec : EqDecision ErrorClass.
Proof. solve_decision. Defined.

(** [message] is the error text; for [PgError] it is the SQLSTATE. *)
Record Exn := mkExn { exn_class : ErrorClass; message : jstr }.
#[export] Instance Exn_eq_dec : EqDecision Exn.
Proof. solve_decision. Defined.

Definition UNIQUE_VIOLATION : Exn := mkExn PgError (js "23505").
Definition FOREIGN_KEY_VIOLATION : Exn := mkExn PgError (js "23503").
Definition CHECK_VIOLATION : Exn := mkExn PgError (js "23514").
Definition NOT_NULL_VIOLATION : Exn := mkExn PgError (js "23502").

Inductive Result (A : Type) :=
| Ok (a : A)
| Err (e : Exn).
Arguments Ok {A} a.
Arguments Err {A} e.

Definition is_ok {A} (r : Result A) : Prop := if r is Ok _ then True else False.

(** * Worlds *)

(** What the maintenance worker reports, writes and gives back. *)
Inductive MaintenanceEvent :=
| JobCompleted (job : jstr) (claimed succeeded retryScheduled permanentlyFailed : Z) (hasMore : bool) (durationMs : Z)
| JobFailed (job error : jstr) (durationMs : Z)
| CycleSkipped
| CycleFailed (error : jstr)
| HeartbeatWritten
| HeartbeatReset
| ClientReleased (destroyed : bool)
| ListenersOn
| ListenersOff
| ContextCreated
| ContextClosed
| ProcessFailed (error : jstr).

(** What leaves the process. *)
Inductive Effect :=
| SmsSent (phoneE164 code : jstr)
| PushSent (to title body : jstr) (route : option jstr)
| ChatPublished (event : jstr) (messageId roomId text : jstr)
| ObjectPut (key contentType : jstr) (size : Z)
| ObjectDeleted (key : jstr)
| Maintenance (event : MaintenanceEvent).

Record World := mkWorld { db : Db; tick : nat; effects : list Effect }.
#[export] Instance eta_World : Eta World := fun w => mkWorld (db w) (tick w) (effects w).

(** * The monad *)

Definition M (A : Type) : Type := World -> World * Result A.

#[export] Instance M_ret : MRet M := fun A a w => (w, Ok a).
#[export] Instance M_bind : MBind M := fun A B k m w =>
  let '(w', r) := m w in
  match r with
  | Ok a => k a w'
  | Err e => (w', Err e)
  end.

#[export] Instance M_fmap : FMap M := fun A B f m => m ≫= fun a => mret (f a).

Definition raise {A} (e : Exn) : M A := fun w => (w, Err e).
Definition throw {A} (c : ErrorClass) (msg : jstr) : M A := raise (mkExn c msg).

(** [try { m } catch (error) { h(error) }] *)
Definition try_catch {A} (m : M A) (h : Exn -> M A) : M A := fun w =>
  let '(w', r) := m w in
  match r with
  | Ok a => (w', Ok a)
  | Err e => h e w'
  end.

(** One branch of [Promise.allSettled]. *)
Definition attempt {A} (m : M A) : M (Result A) := fun w => let '(w', r) := m w in (w', Ok r).

(** [db.transaction(m)]: an exception rolls the database back, and nothing else. *)
Definition transaction {A} (m : M A) : M A := fun w =>
  let '(w', r) := m w in
  match r with
  | Ok a => (w', Ok a)
  | Err e => (w' <| db := db w |>, Err e)
  end.

(** [if (!c) throw ...] *)
Definition require (c : bool) (cls : ErrorClass) (msg : jstr) : M unit :=
  if c then mret tt else throw cls msg.

(** [for (const x of l) body(x)] *)
Fixpoint for_each {A} (l : list A) (body : A -> M unit) : M unit :=
  match l with
  | [] => mret tt
  | x :: l' => body x ;; for_each l' body
  end.

(** [await Promise.all(l.map(body))]: the branches run in list order; the model
    has no other interleaving of them. *)
Fixpoint map_all {A B} (l : list A) (body : A -> M B) : M (list B) :=
  match l with
  | [] => mret []
  | x :: l' => y ← body x; ys ← map_all l' body; mret (y :: ys)
  end.

(** The first rejection of [allSettled] is rethrown after all jobs have run. *)
Fixpoint settle {A} (l : list (Result A)) : M (list A) :=
  match l with
  | [] => mret []
  | Err e :: _ => raise e
  | Ok a :: l' => rest ← settle l'; mret (a :: rest)
  end.

Section statements.
Context `{Env}.

Definition oracle {A} (f : nat -> A) : M A := fun w => (w <| tick ::= S |>, Ok (f (tick w))).
Definition Date_now : M Z := oracle date_now.
Definition clock_timestamp : M Z := oracle pg_clock.
Definition randomUUID : M jstr := oracle random_uuid.
Definition randomInt : M Z := oracle random_int.
Definition bcryptHash (s : jstr) : M jstr := oracle (fun n => bcrypt_hash n s).

Definition emit (e : Effect) : M unit := fun w => (w <| effects ::= fun l => l ++ [e] |>, Ok tt).
Definition get_db : M Db := fun w => (w, Ok (db w)).
Definition put_db (f : Db -> Db) : M unit := fun w => (w <| db ::= f |>, Ok tt).

(** ** Parameters *)

(** A parameter bound to a uuid column: Postgres reads either case, stores and
    compares the lower case one. *)
Definition uuid_param (id : jstr) : jstr := toLowerCase id.
(** The same for a text nothing has validated: the statement fails when it is
    not a uuid.  Of the spellings Postgres reads only the usual one is modelled. *)
Definition INVALID_TEXT_REPRESENTATION : Exn := mkExn PgError (js "22P02").
Definition UUID_TEXT : regex :=
  let hex := RCls is_hex in
  RCat (RRep 8 hex) (RCat (RChr 45%N) (RCat (RRep 4 hex) (RCat (RChr 45%N) (RCat (RRep 4 hex)
    (RCat (RChr 45%N) (RCat (RRep 4 hex) (RCat (RChr 45%N) (RRep 12 hex)))))))).
Definition uuid_text (id : jstr) : M jstr :=
  if matchb UUID_TEXT id then mret (uuid_param id) else raise INVALID_TEXT_REPRESENTATION.

(** ** SELECT *)

Definition select {R} (t : Db -> list R) (p : R -> bool) : M (list R) :=
  d ← get_db; mret (sel p (t d)).
(** [findFirst({ where })] *)
Definition findFirst {R} (t : Db -> list R) (p : R -> bool) : M (option R) :=
  d ← get_db; mret (first p (t d)).
(** [findFirst({ where, orderBy })] *)
Definition findFirstBy {R} (t : Db -> list R) (p : R -> bool) (le : R -> R -> bool) : M (option R) :=
  d ← get_db; mret (head (order_by le (sel p (t d)))).
(** [select({ count: count() })] *)
Definition select_count {R} (t : Db -> list R) (p : R -> bool) : M Z :=
  d ← get_db; mret (countw p (t d)).
(** [orderBy(...).limit(n).for("update", { skipLocked: true })] *)
Definition select_skip_locked {R} (t : Db -> list R) (rowid : R -> jstr)
    (p : R -> bool) (le : R -> R -> bool) (n : nat) : M (list R) :=
  locked ← oracle row_locked;
  d ← get_db;
  mret (take n (order_by le (sel (fun r => p r && negb (locked (rowid r))) (t d)))).

(** ** INSERT, UPDATE, DELETE *)

(** The constraints of a table.  [conflicts new old] holds when the two rows
    violate a unique constraint; [insertable d new] is [None] when the row
    satisfies the CHECK and foreign-key constraints. *)
Class Table {R} (t : Db -> list R) := {
  table_set :: Setter t;
  conflicts : R -> R -> bool;
  insertable : Db -> R -> option Exn
}.

Definition insert {R} (t : Db -> list R) `{!Table t} (new : R) : M R :=
  d ← get_db;
  if insertable d new is Some e then raise e
  else if existsb (conflicts new) (t d) then raise UNIQUE_VIOLATION
  else put_db (upd t (fun rows => rows ++ [new])) ;; mret new.

(** [onConflictDoNothing({ target })]: the row, or nothing on a conflict in
    the target; a conflict elsewhere is still an error. *)
Definition insertOrNothing {R} (t : Db -> list R) `{!Table t} (target : R -> R -> bool) (new : R)
    : M (option R) :=
  d ← get_db;
  if existsb (target new) (t d) then mret None
  else new' ← insert t new; mret (Some new').

(** [onConflictDoUpdate({ target, set, setWhere })] with [returning]. *)
Definition insertOrUpdate {R} (t : Db -> list R) `{!Table t} (target : R -> R -> bool)
    (f : R -> R) (setWhere : R -> bool) (new : R) : M (list R) :=
  d ← get_db;
  if existsb (target new) (t d) then
    put_db (upd t (mapif (fun r => target new r && setWhere r) f)) ;;
    mret (map f (sel (fun r => target new r && setWhere r) (t d)))
  else new' ← insert t new; mret [new'].

(** [update(t).set(f).where(p).returning()], for columns under no unique or
    CHECK constraint. *)
Definition update {R} (t : Db -> list R) `{!Setter t} (p : R -> bool) (f : R -> R) : M (list R) :=
  d ← get_db;
  put_db (upd t (mapif p f)) ;;
  mret (map f (sel p (t d))).

(** The same for columns under a unique, CHECK or foreign-key constraint: the
    statement fails when an updated row breaks one. *)
Fixpoint has_conflict {R} (c : R -> R -> bool) (l : list R) : bool :=
  match l with
  | [] => false
  | r :: l' => existsb (c r) l' || has_conflict c l'
  end.
Definition updateChecked {R} (t : Db -> list R) `{!Table t} (p : R -> bool) (f : R -> R) : M (list R) :=
  d ← get_db;
  match omap (fun r => insertable d (f r)) (sel p (t d)) with
  | e :: _ => raise e
  | [] =>
      if has_conflict conflicts (mapif p f (t d)) then raise UNIQUE_VIOLATION
      else put_db (upd t (mapif p f)) ;; mret (map f (sel p (t d)))
  end.

Definition delete_from {R} (t : Db -> list R) `{!Setter t} (p : R -> bool) : M unit :=
  put_db (upd t (del p)).
End statements.

(** * Weakest preconditions *)

(** [wp m Q w]: running [m] in [w] ends with a result and a world in [Q]. *)
Definition wp {A} (m : M A) (Q : Result A -> World -> Prop) (w : World) : Prop :=
  Q (m w).2 (m w).1.

Lemma wp_run {A} (m : M A) Q w w' r : m w = (w', r) -> wp m Q w -> Q r w'.
Proof. unfold wp. by intros ->. Qed.

Lemma wp_elim {A} (m : M A) Q w : wp m Q w -> forall w' r, m w = (w', r) -> Q r w'.
Proof. intros Hm w' r E. by eapply wp_run. Qed.
(** Turn a goal about the outcome of the run [E] into a weakest precondition. *)
Ltac to_wp E :=
  lazymatch type of E with
  | _ _ = (?w', ?r) => revert w' r E; apply wp_elim
  end.

(** A run that returns [a] whatever happens. *)
Lemma wp_total {A} (m : M A) (P : World -> Prop) a w :
  wp m (fun r w' => r = Ok a /\ P w') w -> exists w', m w = (w', Ok a) /\ P w'.
Proof. unfold wp. destruct (m w) as [w' r]. intros [Hr HP]. simpl in *. exists w'. by rewrite Hr. Qed.

(** The answer of a run that succeeds. *)
Definition answer {A} (d : A) (r : Result A) : A := if r is Ok a then a else d.
Lemma run_answer {A} (m : M A) w d : is_ok (m w).2 -> m w = ((m w).1, Ok (answer d (m w).2)).
Proof. by destruct (m w) as [w' [a|e]]. Qed.

Lemma run_wp {A} (m : M A) (Q : Result A -> World -> Prop) w :
  (forall w' r, m w = (w', r) -> Q r w') -> wp m Q w.
Proof. intros HQ. unfold wp. apply HQ. by destruct (m w). Qed.

Lemma wp_mono {A} (m : M A) (Q Q' : Result A -> World -> Prop) w :
  wp m Q w -> (forall r w', Q r w' -> Q' r w') -> wp m Q' w.
Proof. unfold wp. auto. Qed.

Lemma wp_and {A} (m : M A) (Q Q' : Result A -> World -> Prop) w :
  wp m Q w -> wp m Q' w -> wp m (fun r w' => Q r w' /\ Q' r w') w.
Proof. unfold wp. auto. Qed.

Lemma wp_ret {A} (a : A) Q w : Q (Ok a) w -> wp (mret a) Q w.
Proof. done. Qed.

Lemma wp_raise {A} e (Q : Result A -> World -> Prop) w : Q (Err e) w -> wp (raise e) Q w.
Proof. done. Qed.

Lemma wp_throw {A} c s (Q : Result A -> World -> Prop) w :
  Q (Err (mkExn c s)) w -> wp (throw c s) Q w.
Proof. done. Qed.

Lemma wp_bind {A B} (m : M A) (k : A -> M B) Q w :
  wp m (fun r w' => match r with Ok a => wp (k a) Q w' | Err e => Q (Err e) w' end) w ->
  wp (m ≫= k) Q w.
Proof. unfold wp, mbind, M_bind. by destruct (m w) as [w' [a|e]]. Qed.

Lemma wp_assoc {A B C} (m : M A) (k1 : A -> M B) (k2 : B -> M C) Q w :
  wp ((m ≫= k1) ≫= k2) Q w -> wp (m ≫= fun a => k1 a ≫= k2) Q w.
Proof. unfold wp, mbind, M_bind. by destruct (m w) as [w' [a|e]]. Qed.

Lemma wp_try_catch {A} (m : M A) h Q w :
  wp m (fun r w' => match r with Ok a => Q (Ok a) w' | Err e => wp (h e) Q w' end) w ->
  wp (try_catch m h) Q w.
Proof. unfold wp, try_catch. by destruct (m w) as [w' [a|e]]. Qed.

Lemma wp_attempt {A} (m : M A) Q w : wp m (fun r w' => Q (Ok r) w') w -> wp (attempt m) Q w.
Proof. unfold wp, attempt. by destruct (m w). Qed.

Lemma wp_transaction {A} (m : M A) Q w :
  wp m (fun r w' => match r with
                    | Ok a => Q (Ok a) w'
                    | Err e => Q (Err e) (w' <| db := db w |>)
                    end) w ->
  wp (transaction m) Q w.
Proof. unfold wp, transaction. by destruct (m w) as [w' [a|e]]. Qed.

Lemma wp_require c cls s Q w :
  (c = true -> Q (Ok tt) w) -> (c = false -> Q (Err (mkExn cls s)) w) -> wp (require c cls s) Q w.
Proof. intros HT HF. destruct c; [by apply HT|by apply HF]. Qed.

Lemma wp_for_each_inv {A} (l : list A) body (I : World -> Prop) (Q : Result unit -> World -> Prop) w :
  I w ->
  (forall x w0, x ∈ l -> I w0 ->
     wp (body x) (fun r w1 => match r with Ok _ => I w1 | Err e => Q (Err e) w1 end) w0) ->
  (forall w0, I w0 -> Q (Ok tt) w0) ->
  wp (for_each l body) Q w.
Proof.
  intros Hw Hb HQ. revert w Hw Hb. induction l as [|x l IH]; intros w Hw Hb; simpl; [by apply HQ|].
  apply wp_bind. eapply wp_mono; [apply Hb; [set_solver|done]|].
  intros [[]|e] w1 H1; [|done]. apply IH; [done|]. intros y w0 Hy. apply Hb. set_solver.
Qed.

Section wp_statements.
Context `{Env}.

Lemma wp_oracle {A} (f : nat -> A) Q w :
  Q (Ok (f (tick w))) (w <| tick ::= S |>) -> wp (oracle f) Q w.
Proof. done. Qed.

Lemma wp_emit e Q w : Q (Ok tt) (w <| effects ::= fun l => l ++ [e] |>) -> wp (emit e) Q w.
Proof. done. Qed.

Lemma wp_get_db Q w : Q (Ok (db w)) w -> wp get_db Q w.
Proof. done. Qed.

Lemma wp_put_db f Q w : Q (Ok tt) (w <| db ::= f |>) -> wp (put_db f) Q w.
Proof. done. Qed.

Lemma wp_select {R} (t : Db -> list R) p Q w : Q (Ok (sel p (t (db w)))) w -> wp (select t p) Q w.
Proof. done. Qed.

Lemma wp_findFirst {R} (t : Db -> list R) p Q w :
  Q (Ok (first p (t (db w)))) w -> wp (findFirst t p) Q w.
Proof. done. Qed.

Lemma wp_findFirstBy {R} (t : Db -> list R) p le Q w :
  Q (Ok (head (order_by le (sel p (t (db w)))))) w -> wp (findFirstBy t p le) Q w.
Proof. done. Qed.

Lemma wp_select_count {R} (t : Db -> list R) p Q w :
  Q (Ok (countw p (t (db w)))) w -> wp (select_count t p) Q w.
Proof. done. Qed.

Lemma wp_select_skip_locked {R} (t : Db -> list R) rowid p le n Q w :
  Q (Ok (take n (order_by le (sel (fun r => p r && negb (row_locked (tick w) (rowid r))) (t (db w))))))
    (w <| tick ::= S |>) ->
  wp (select_skip_locked t rowid p le n) Q w.
Proof. done. Qed.

Lemma wp_update {R} (t : Db -> list R) `{!Setter t} p f Q w :
  Q (Ok (map f (sel p (t (db w))))) (w <| db ::= upd t (mapif p f) |>) -> wp (update t p f) Q w.
Proof. done. Qed.

Lemma wp_delete {R} (t : Db -> list R) `{!Setter t} p Q w :
  Q (Ok tt) (w <| db ::= upd t (del p) |>) -> wp (delete_from t p) Q w.
Proof. done. Qed.

Lemma wp_insert {R} (t : Db -> list R) `{!Table t} new Q w :
  (insertable (db w) new = None -> existsb (conflicts new) (t (db w)) = false ->
   Q (Ok new) (w <| db ::= upd t (fun rows => rows ++ [new]) |>)) ->
  (forall e, insertable (db w) new = Some e -> Q (Err e) w) ->
  (existsb (conflicts new) (t (db w)) = true -> Q (Err UNIQUE_VIOLATION) w) ->
  wp (insert t new) Q w.
Proof.
  intros Hok Hins Huniq. apply wp_bind, wp_get_db.
  destruct (insertable (db w) new) as [e|] eqn:Ei; [by apply wp_raise, Hins|].
  destruct (existsb (conflicts new) (t (db w))) eqn:Ec; [by apply wp_raise, Huniq|].
  apply wp_bind, wp_put_db, wp_ret. by apply Hok.
Qed.

Lemma wp_updateChecked {R} (t : Db -> list R) `{!Table t} p f Q w :
  ((forall r, r ∈ sel p (t (db w)) -> insertable (db w) (f r) = None) ->
   has_conflict conflicts (mapif p f (t (db w))) = false ->
   Q (Ok (map f (sel p (t (db w))))) (w <| db ::= upd t (mapif p f) |>)) ->
  (forall r e, r ∈ sel p (t (db w)) -> insertable (db w) (f r) = Some e -> Q (Err e) w) ->
  (has_conflict conflicts (mapif p f (t (db w))) = true -> Q (Err UNIQUE_VIOLATION) w) ->
  wp (updateChecked t p f) Q w.
Proof.
  intros Hok Hins Huniq. apply wp_bind, wp_get_db.
  destruct (omap _ _) as [|e l] eqn:E.
  - assert (forall r, r ∈ sel p (t (db w)) -> insertable (db w) (f r) = None) as Hn.
    { intros r Hr. destruct (insertable (db w) (f r)) as [e|] eqn:Ei; [|done].
      assert (e ∈ omap (fun r => insertable (db w) (f r)) (sel p (t (db w)))) as Hin
        by (apply list_elem_of_omap; eauto).
      rewrite E in Hin. set_solver. }
    destruct (has_conflict _ _) eqn:Ec; [by apply wp_raise, Huniq|].
    apply wp_bind, wp_put_db, wp_ret. by apply Hok.
  - assert (e ∈ omap (fun r => insertable (db w) (f r)) (sel p (t (db w)))) as Hin by (rewrite E; set_solver).
    apply list_elem_of_omap in Hin as (r & Hr & Hi). by apply wp_raise, (Hins r).
Qed.

Lemma wp_insertOrNothing {R} (t : Db -> list R) `{!Table t} target new Q w :
  (existsb (target new) (t (db w)) = true -> Q (Ok None) w) ->
  (existsb (target new) (t (db w)) = false ->
   wp (insert t new) (fun r w' => match r with Ok a => Q (Ok (Some a)) w' | Err e => Q (Err e) w' end) w) ->
  wp (insertOrNothing t target new) Q w.
Proof.
  intros Hc Hi. apply wp_bind, wp_get_db.
  destruct (existsb (target new) (t (db w))) eqn:E; [by apply wp_ret, Hc|].
  apply wp_bind. eapply wp_mono; [by apply Hi|]. intros [a|e] w' HQ; [by apply wp_ret|done].
Qed.

Lemma wp_insertOrUpdate {R} (t : Db -> list R) `{!Table t} target f setWhere new Q w :
  (existsb (target new) (t (db w)) = true ->
   Q (Ok (map f (sel (fun r => target new r && setWhere r) (t (db w)))))
     (w <| db ::= upd t (mapif (fun r => target new r && setWhere r) f) |>)) ->
  (existsb (target new) (t (db w)) = false ->
   wp (insert t new) (fun r w' => match r with Ok a => Q (Ok [a]) w' | Err e => Q (Err e) w' end) w) ->
  wp (insertOrUpdate t target f setWhere new) Q w.
Proof.
  intros Hc Hi. apply wp_bind, wp_get_db.
  destruct (existsb (target new) (t (db w))) eqn:E.
  - apply wp_bind, wp_put_db, wp_ret. by apply Hc.
  - apply wp_bind. eapply wp_mono; [by apply Hi|]. intros [a|e] w' HQ; [by apply wp_ret|done].
Qed.
End wp_statements.

(** * Automation *)

(** One step of symbolic execution: the head statement's rule, or a case split
    on the test or option the handler branches on. *)
Ltac wp_step :=
  lazymatch goal with
  | |- forall _, _ => intro
  | |- wp (mbind _ _) _ _ => apply wp_bind
  | |- wp (fmap _ _) _ _ => apply wp_bind
  | |- wp (mret _) _ _ => apply wp_ret
  | |- wp (raise _) _ _ => apply wp_raise
  | |- wp (throw _ _) _ _ => apply wp_throw
  | |- wp (require _ _ _) _ _ => apply wp_require
  | |- wp (try_catch _ _) _ _ => apply wp_try_catch
  | |- wp (transaction _) _ _ => apply wp_transaction
  | |- wp (attempt _) _ _ => apply wp_attempt
  | |- wp (oracle _) _ _ => apply wp_oracle
  | |- wp Date_now _ _ => apply wp_oracle
  | |- wp clock_timestamp _ _ => apply wp_oracle
  | |- wp randomUUID _ _ => apply wp_oracle
  | |- wp randomInt _ _ => apply wp_oracle
  | |- wp (bcryptHash _) _ _ => apply wp_oracle
  | |- wp (emit _) _ _ => apply wp_emit
  | |- wp get_db _ _ => apply wp_get_db
  | |- wp (put_db _) _ _ => apply wp_put_db
  | |- wp (select _ _) _ _ => apply wp_select
  | |- wp (findFirst _ _) _ _ => apply wp_findFirst
  | |- wp (findFirstBy _ _ _) _ _ => apply wp_findFirstBy
  | |- wp (select_count _ _) _ _ => apply wp_select_count
  | |- wp (select_skip_locked _ _ _ _ _) _ _ => apply wp_select_skip_locked
  | |- wp (update _ _ _) _ _ => apply wp_update
  | |- wp (updateChecked _ _ _) _ _ => apply wp_updateChecked
  | |- wp (delete_from _ _) _ _ => apply wp_delete
  | |- wp (insert _ _) _ _ => apply wp_insert
  | |- wp (insertOrNothing _ _ _) _ _ => apply wp_insertOrNothing
  | |- wp (insertOrUpdate _ _ _ _ _) _ _ => apply wp_insertOrUpdate
  | |- wp (if ?b then _ else _) _ _ => destruct b eqn:?
  | |- wp (match ?o with _ => _ end) _ _ => destruct o eqn:?
  | |- wp (let _ := _ in _) _ _ => cbv zeta
  end; cbv beta iota.

Ltac wp_steps := repeat wp_step.

(** * Frames *)

(** [keeps t m]: the part [t] of the world is the same after [m], whatever it
    returns. *)
Definition keeps {T A} (t : World -> T) (m : M A) : Prop := forall w, wp m (fun _ w' => t w' = t w) w.

Lemma keeps_run {T A} (t : World -> T) (m : M A) w w' r : keeps t m -> m w = (w', r) -> t w' = t w.
Proof. intros Hk E. by apply (wp_run _ _ _ _ _ E (Hk w)). Qed.

Lemma keeps_bind {T A B} (t : World -> T) (m : M A) (k : A -> M B) :
  keeps t m -> (forall a, keeps t (k a)) -> keeps t (m ≫= k).
Proof.
  intros Hm Hk w. apply wp_bind. eapply wp_mono; [apply Hm|]. intros [a|e] w1 E; [|done].
  eapply wp_mono; [apply Hk|]. simpl. congruence.
Qed.

Lemma keeps_try_catch {T A} (t : World -> T) (m : M A) h :
  keeps t m -> (forall e, keeps t (h e)) -> keeps t (try_catch m h).
Proof.
  intros Hm Hk w. apply wp_try_catch. eapply wp_mono; [apply Hm|]. intros [a|e] w1 E; [done|].
  eapply wp_mono; [apply Hk|]. simpl. congruence.
Qed.

(** Rolling the database back must not change the part either. *)
Lemma keeps_transaction {T A} (t : World -> T) (m : M A) :
  (forall w w', t w' = t w -> t (w' <| db := db w |>) = t w) -> keeps t m -> keeps t (transaction m).
Proof.
  intros Hr Hm w. apply wp_transaction. eapply wp_mono; [apply Hm|]. intros [a|e] w1 E; [done|].
  by apply Hr.
Qed.

Lemma keeps_attempt {T A} (t : World -> T) (m : M A) : keeps t m -> keeps t (attempt m).
Proof. intros Hm w. apply wp_attempt, Hm. Qed.

Lemma keeps_for_each {T A} (t : World -> T) (l : list A) body :
  (forall x, keeps t (body x)) -> keeps t (for_each l body).
Proof. intros Hb. induction l; simpl; [by intros w|]. by apply keeps_bind. Qed.

Lemma keeps_map_all {T A B} (t : World -> T) (l : list A) (body : A -> M B) :
  (forall x, keeps t (body x)) -> keeps t (map_all l body).
Proof.
  intros Hb. induction l; simpl; [by intros w|]. apply keeps_bind; [done|]. intros y.
  apply keeps_bind; [done|]. by intros ys w.
Qed.

Lemma keeps_settle {T A} (t : World -> T) (l : list (Result A)) : keeps t (settle l).
Proof. induction l as [|[a|e] l IH]; simpl; [by intros w| |by intros w]. apply keeps_bind; [done|]. by intros rest w. Qed.

(** What a handler may leave behind. *)
Definition footprint (w : World) : Db * list Effect := (db w, effects w).

(** A computation that reads no state: parsing, validation. *)
Definition pure {A} (m : M A) : Prop := exists r, forall w, m w = (w, r).

Lemma pure_bind {A B} (m : M A) (k : A -> M B) : pure m -> (forall a, pure (k a)) -> pure (m ≫= k).
Proof.
  intros [[a|e] Hm] Hk.
  - destruct (Hk a) as [r Hr]. exists r. intros w. unfold mbind, M_bind. by rewrite Hm.
  - exists (Err e). intros w. unfold mbind, M_bind. by rewrite Hm.
Qed.
Lemma wp_pure {A} (m : M A) r Q w : (forall w, m w = (w, r)) -> Q r w -> wp m Q w.
Proof. intros E. unfold wp. by rewrite E. Qed.

Lemma wp_pure_at {A} (m : M A) r (Q : Result A -> World -> Prop) w : m w = (w, r) -> Q r w -> wp m Q w.
Proof. intros E. unfold wp. by rewrite E. Qed.

Ltac solve_pure := repeat first
  [ intro | apply pure_bind | progress cbv zeta
  | match goal with |- pure (if ?b then _ else _) => destruct b end
  | match goal with |- pure (match ?o with _ => _ end) => destruct o end
  | eexists; intros; reflexivity ].

Create HintDb keeps.
Ltac keeps_leaf := let w := fresh "w" in intros w; repeat wp_step; reflexivity.
Ltac keeps_step :=
  lazymatch goal with
  | |- forall _, _ => intro
  | |- keeps _ (mbind _ _) => apply keeps_bind
  | |- keeps _ (fmap _ _) => apply keeps_bind
  | |- keeps _ (try_catch _ _) => apply keeps_try_catch
  | |- keeps _ (transaction _) => apply keeps_transaction; [intros ? ? ?; first [reflexivity|assumption]|]
  | |- keeps _ (attempt _) => apply keeps_attempt
  | |- keeps _ (for_each _ _) => apply keeps_for_each
  | |- keeps _ (map_all _ _) => apply keeps_map_all
  | |- keeps _ (if ?b then _ else _) => destruct b
  | |- keeps _ (match ?o with _ => _ end) => destruct o
  | |- keeps _ (let _ := _ in _) => cbv zeta
  | |- keeps _ _ => first [solve [eauto with keeps nocore] | solve [keeps_leaf]]
  end; cbv beta iota.
(** Decide a frame by symbolic execution; the frames of the handlers called are
    hints. *)
Ltac solve_keeps := repeat keeps_step.
