(* ===== verification/Config.v ===== *)
(** The environment: which settings are accepted and what they become
    (environment.ts), and the options of the database connection made of them
    (postgres.ts, database-pool.ts). *)
From stdpp Require Import gmap.
From Stdlib Require Import SpecFloat.
From S2P Require Import Prelude JsString Json Libraries World Text.
Local Open Scope Z_scope.

(** An object of settings; an absent key reads as [undefined]. *)
Abbreviation Settings := (gmap jstr json).
Definition setting (config : Settings) (key : jstr) : json := default JUndefined (config !! key).
Definition is_undefined (value : json) : bool := if value is JUndefined then true else false.
Definition is_string (value : json) (s : jstr) : bool := if value is JString t then t =?? s else false.

(** The keys the code names one by one. *)
Definition PORT : jstr := js "POSTGRES_PORT".
Definition ACCESS_EXP : jstr := js "JWT_ACCESS_TOKEN_EXP".
Definition REFRESH_EXP : jstr := js "JWT_REFRESH_TOKEN_EXP".
Definition SSL : jstr := js "POSTGRES_SSL".
Definition EXPO : jstr := js "EXPO_PUSH_ENABLED".
Definition PROXY : jstr := js "TRUST_PROXY".
Definition HOST : jstr := js "POSTGRES_HOST".
Definition IOS_APP : jstr := js "REVENUECAT_IOS_APP_ID".
Definition ANDROID_APP : jstr := js "REVENUECAT_ANDROID_APP_ID".
Definition ACCESS_SECRET : jstr := js "JWT_ACCESS_TOKEN_SECRET".
Definition REFRESH_SECRET : jstr := js "JWT_REFRESH_TOKEN_SECRET".

Definition REQUIRED_PRODUCTION_KEYS : list jstr := [
  HOST; PORT; js "POSTGRES_USERNAME"; js "POSTGRES_PASSWORD"; js "POSTGRES_DATABASE";
  SSL; ACCESS_SECRET; REFRESH_SECRET; ACCESS_EXP;
  REFRESH_EXP; js "SIGNUP_TOKEN_SECRET"; js "KAKAO_SIGNUP_TOKEN_SECRET"; js "KAKAO_CLIENT_ID";
  js "KAKAO_CALLBACK_URL"; js "PHONE_CODE_PEPPER"; js "SMS_PROVIDER_URL"; js "SMS_PROVIDER_AUTHORIZATION";
  js "SMS_SENDER_ID"; js "R2_ACCOUNT_ID"; js "R2_ACCESS_KEY_ID"; js "R2_SECRET_ACCESS_KEY"; js "R2_BUCKET";
  js "R2_PUBLIC_BASE_URL"; js "REVENUECAT_WEBHOOK_SECRET"; IOS_APP;
  ANDROID_APP; js "CLIENT_URL"; PROXY
].
Definition PRODUCTION_SECRET_KEYS : list jstr := [
  js "POSTGRES_PASSWORD"; ACCESS_SECRET; REFRESH_SECRET; js "SIGNUP_TOKEN_SECRET";
  js "KAKAO_SIGNUP_TOKEN_SECRET"; js "PHONE_CODE_PEPPER"; js "SMS_PROVIDER_AUTHORIZATION";
  js "R2_SECRET_ACCESS_KEY"; js "REVENUECAT_WEBHOOK_SECRET"
].
Definition HTTPS_URL_KEYS : list jstr :=
  [js "KAKAO_CALLBACK_URL"; js "SMS_PROVIDER_URL"; js "R2_PUBLIC_BASE_URL"; js "CLIENT_URL"].
Definition PRODUCTION_IDENTIFIER_KEYS : list jstr :=
  [js "KAKAO_CLIENT_ID"; js "SMS_SENDER_ID"; IOS_APP; ANDROID_APP].
Definition TRUST_PROXY_NAMES : list jstr := [js "loopback"; js "linklocal"; js "uniquelocal"].
Definition TOKEN_LIFETIME_MAX_SECONDS : Z := 365 * 24 * 60 * 60.

(** The suffix is matched by [[smhd]?]: [None] stands for the empty match. *)
Definition tokenLifetimeMultiplier (unit : option N) : option Z :=
  match unit with
  | None => Some 1
  | Some 115%N => Some 1
  | Some 109%N => Some 60
  | Some 104%N => Some (60 * 60)
  | Some 100%N => Some (24 * 60 * 60)
  | Some _ => None
  end.

Definition valueFor (config : Settings) (key : jstr) : jstr :=
  if setting config key is JString s then trim s else [].

(** [typeof x === "number" && Number.isInteger(x) && x >= 1 && x <= limit] of a double. *)
Definition whole_between_1 (limit : Z) (f : spec_float) : bool :=
  if float_integer f is Some z then (1 <=? z) && (z <=? limit) else false.

Definition parsePort (value : json) : option spec_float :=
  let parsed := match value with JNumber f => f | JString s => Number (trim s) | _ => Number [] end in
  if whole_between_1 65535 parsed then Some parsed else None.

(** [/^(\d+)([smhd]?)$/]: the digits and the suffix. *)
Definition matchLifetime (s : jstr) : option (jstr * option N) :=
  match span is_digit s with
  | ([], _) => None
  | (digits, []) => Some (digits, None)
  | (digits, [u]) => if bool_decide (u ∈ js "smhd") then Some (digits, Some u) else None
  | _ => None
  end.

(** Multiplying rounds as the product of two doubles does. *)
Definition parseTokenLifetime (value : json) : option spec_float :=
  match value with
  | JNumber f => if whole_between_1 TOKEN_LIFETIME_MAX_SECONDS f then Some f else None
  | JString s =>
      '(digits, unit) ← matchLifetime (trim s);
      multiplier ← tokenLifetimeMultiplier unit;
      let seconds := SFmul 53 1024 (Number digits) (binary_normalize 53 1024 multiplier 0 false) in
      if (if float_integer seconds is Some z then isSafeInteger z else false)
         && whole_between_1 TOKEN_LIFETIME_MAX_SECONDS seconds
      then Some seconds else None
  | _ => None
  end.

(** [/^(?:dev|test)(?:-|$)/i] *)
Definition DEVELOPMENT_PATTERN : regex :=
  RCat (RAlt (RIgnoreCase "dev") (RIgnoreCase "test")) (RAlt REps (RCat (RChr 45%N) (RStar (RCls (fun _ => true))))).
Definition development_value (s : jstr) : bool := matchb DEVELOPMENT_PATTERN s.

(** * The database connection's TLS options *)

Record SslOptions := mkSsl { rejectUnauthorized : bool; ssl_ca : option jstr }.

(** [s.replaceAll("\\n", "\n")]: a backslash and an n become a line feed. *)
Fixpoint unescape_newlines (s : jstr) : jstr :=
  match s with
  | 92%N :: ((110%N :: s') as rest) => 10%N :: unescape_newlines s'
  | u :: s' => u :: unescape_newlines s'
  | [] => []
  end.

Definition createPostgresSslOptions (enabled : json) (ca : option jstr) : Result (option SslOptions) :=
  if is_undefined enabled || (if enabled is JBool false then true else false) || is_string enabled (js "false")
  then Ok None
  else if negb (if enabled is JBool true then true else false) && negb (is_string enabled (js "true"))
  then Err (mkExn PlainError (js "POSTGRES_SSL_INVALID"))
  else
    let normalizedCa := unescape_newlines ∘ trim <$> ca in
    Ok (Some (mkSsl true (if normalizedCa is Some (_ :: _) then normalizedCa else None))).

(** * Validation *)

Section validation.
Context `{UrlLib} `{NetLib}.

Definition isHttpsUrl (value : jstr) : bool :=
  match parse_url value with
  | Some url => (url_protocol url =?? js "https:") && (url_username url =?? []) && (url_password url =?? [])
  | None => false
  end.

Definition valid_proxy (entry : jstr) : bool :=
  negb (entry =?? [])
  && (bool_decide (entry ∈ TRUST_PROXY_NAMES) || negb (isIP entry =? 0)
      || match lastIndexOf 47%N entry with
         | None | Some O => false
         | Some separator =>
             let bits := drop (S separator) entry in
             negb (bits =?? []) && forallb is_digit bits
             && (let family := isIP (take separator entry) in
                 let prefix := digits_value 10 bits in
                 (0 <? prefix) && (prefix <=? if family =? 4 then 32 else if family =? 6 then 128 else 0))
         end).

(** [false], a list of entries, or [undefined] ([None]). *)
Inductive TrustedProxy := TrustNone | TrustEntries (entries : list jstr).
Definition parseTrustedProxy (value : json) : option TrustedProxy :=
  match value with
  | JString s =>
      let normalized := toLowerCase (trim s) in
      if normalized =?? js "false" then Some TrustNone
      else if normalized =?? [] then None
      else
        let entries := map trim (split_on 44%N normalized) in
        if forallb valid_proxy entries then Some (TrustEntries entries) else None
  | _ => None
  end.

(** The set of invalid keys, and the settings as they are handed on. *)
Record Validation := mkValidation { invalid : list jstr; normalized : Settings }.
Definition add_invalid (key : jstr) (v : Validation) : Validation :=
  mkValidation (if bool_decide (key ∈ invalid v) then invalid v else invalid v ++ [key]) (normalized v).
Definition set_normalized (key : jstr) (value : json) (v : Validation) : Validation :=
  mkValidation (invalid v) (<[key := value]> (normalized v)).
Definition invalid_if (condition : bool) (key : jstr) (v : Validation) : Validation :=
  if condition then add_invalid key v else v.

(** [if (config.key !== undefined) if (parsed === undefined) invalid.add(key) else normalized.key = parsed] *)
Definition normalize (config : Settings) (key : jstr) (parsed : option json) (v : Validation) : Validation :=
  if is_undefined (setting config key) then v
  else match parsed with
       | None => add_invalid key v
       | Some value => set_normalized key value v
       end.

Definition parseSsl (config : Settings) : option json :=
  let postgresSsl := setting config SSL in
  match postgresSsl with
  | JBool _ | JString _ =>
      if createPostgresSslOptions postgresSsl (Some (valueFor config (js "POSTGRES_SSL_CA"))) is Ok _
      then Some (JBool ((if postgresSsl is JBool true then true else false) || is_string postgresSsl (js "true")))
      else None
  | _ => None
  end.

(** An undefined flag is off. *)
Definition normalize_expo (config : Settings) (v : Validation) : Validation :=
  let value := setting config EXPO in
  let expoPushEnabled := if is_undefined value then JBool false else value in
  match expoPushEnabled with
  | JBool b => set_normalized EXPO (JBool b) v
  | _ =>
      if is_string expoPushEnabled (js "true") || is_string expoPushEnabled (js "false")
      then set_normalized EXPO (JBool (is_string expoPushEnabled (js "true"))) v
      else add_invalid EXPO v
  end.

Definition proxy_text (proxy : TrustedProxy) : jstr :=
  match proxy with TrustNone => js "false" | TrustEntries entries => join (js ",") entries end.

(** The checks of the body, one after the other. *)
Local Notation "v ;> f" := (f v) (at level 61, left associativity, only parsing).

Definition validate_always (config : Settings) : Validation :=
  mkValidation [] config
  ;> normalize config PORT (JNumber <$> parsePort (setting config PORT))
  ;> normalize config ACCESS_EXP
       (JNumber <$> parseTokenLifetime (setting config ACCESS_EXP))
  ;> normalize config REFRESH_EXP
       (JNumber <$> parseTokenLifetime (setting config REFRESH_EXP))
  ;> normalize config SSL (parseSsl config)
  ;> normalize_expo config
  ;> normalize config PROXY
       (JString ∘ proxy_text <$> parseTrustedProxy (setting config PROXY)).

Definition weak_secret (value : jstr) : bool :=
  Nat.ltb (length value) 16 || development_value value || (value =?? js "chattea-dev").

Definition each (keys : list jstr) (wrong : jstr -> bool) (v : Validation) : Validation :=
  foldl (fun v key => invalid_if (wrong key) key v) v keys.

Definition validate_production (config : Settings) (v : Validation) : Validation :=
  let value := valueFor config in
  let same_apps := value IOS_APP =?? value ANDROID_APP in
  let same_secrets := value ACCESS_SECRET =?? value REFRESH_SECRET in
  v
  ;> each REQUIRED_PRODUCTION_KEYS (fun key => value key =?? [])
  ;> each PRODUCTION_SECRET_KEYS (fun key => weak_secret (value key))
  ;> each HTTPS_URL_KEYS (fun key => negb (isHttpsUrl (value key)))
  ;> each PRODUCTION_IDENTIFIER_KEYS (fun key => development_value (value key))
  ;> invalid_if same_apps IOS_APP
  ;> invalid_if same_apps ANDROID_APP
  ;> invalid_if same_secrets ACCESS_SECRET
  ;> invalid_if same_secrets REFRESH_SECRET
  ;> invalid_if (is_null (parseTrustedProxy (setting config PROXY))) PROXY
  ;> (fun v => invalid_if ((if setting (normalized v) SSL is JBool false then true else false)
                           && negb (value HOST =?? js "postgres")) SSL v).

(** [if (invalid.size) throw new Error(...)]: the keys in the order of [sort]. *)
Definition conclude (prefix : string) (v : Validation) : Result Settings :=
  match invalid v with
  | [] => Ok (normalized v)
  | _ => Err (mkExn PlainError (js prefix ++ join (js ",") (order_by (fun a b => negb (str_ltb b a)) (invalid v))))
  end.

Definition production (config : Settings) : bool := is_string (setting config (js "NODE_ENV")) (js "production").
Definition validateEnvironment (config : Settings) : Result Settings :=
  let v := validate_always config in
  if negb (production config) then conclude "CONFIG_INVALID:" v
  else conclude "PRODUCTION_CONFIG_INVALID:" (validate_production config v).
End validation.

(** * The pool of the application *)

Record PoolOptions := mkPool {
  pool_host : json; pool_port : json; pool_user : json; pool_password : json; pool_database : json;
  pool_ssl : option SslOptions
}.

(** The constructor of [DatabasePool], over the settings that were accepted. *)
Definition databasePool (settings : Settings) : Result PoolOptions :=
  match createPostgresSslOptions (setting settings SSL)
          (if setting settings (js "POSTGRES_SSL_CA") is JString ca then Some ca else None) with
  | Err e => Err e
  | Ok ssl =>
      Ok (mkPool (setting settings HOST) (setting settings PORT)
            (setting settings (js "POSTGRES_USERNAME")) (setting settings (js "POSTGRES_PASSWORD"))
            (setting settings (js "POSTGRES_DATABASE")) ssl)
  end.
