(* ===== verification/ConfigProofs.v ===== *)
(** The environment: which settings are accepted, what they become, and that
    accepting them is stable. *)
From stdpp Require Import gmap.
From Stdlib Require Import SpecFloat.
From S2P Require Import Prelude JsString Json Libraries World Text Config.
Local Open Scope Z_scope.

(** * Splitting and joining *)

Lemma split_on_pieces c s : Forall (fun w => c ∉ w) (split_on c s) /\ split_on c s <> [].
Proof.
  induction s as [|u s [IH Hne]]; simpl; [by split; [repeat constructor; apply not_elem_of_nil|]|].
  destruct (N.eqb_spec u c) as [->|Hu]; [by split; [constructor; [apply not_elem_of_nil|]|]|].
  destruct (split_on c s) as [|w ws]; [done|]. apply Forall_cons in IH as [Hw Hws].
  split; [|done]. constructor; [|done]. apply not_elem_of_cons. by split.
Qed.
Lemma split_on_Forall (P : N -> Prop) c s : Forall P s -> Forall (Forall P) (split_on c s).
Proof.
  induction 1 as [|u s Hu Hs IH]; simpl; [by repeat constructor|].
  destruct (u =? c)%N; [by constructor|]. destruct (split_on c s) as [|w ws]; [by repeat constructor|].
  apply Forall_cons in IH as [Hw Hws]. constructor; [|done]. by constructor.
Qed.
Lemma split_on_one c s w : split_on c s = [w] -> w = s.
Proof.
  revert w. induction s as [|u s IH]; intros w; simpl; [by intros [= <-]|]. pose proof (split_on_pieces c s) as [_ Hne].
  destruct (u =? c)%N; [by intros [= _ E]|]. destruct (split_on c s) as [|x xs] eqn:E; [done|].
  intros [= <- ->]. f_equal. by apply IH.
Qed.
Lemma split_on_plain c w : c ∉ w -> split_on c w = [w].
Proof.
  induction w as [|u w IH]; [done|]. intros [Hu Hw]%not_elem_of_cons. simpl.
  destruct (N.eqb_spec u c) as [->|_]; [done|]. by rewrite IH.
Qed.
Lemma split_on_app c w s : c ∉ w -> split_on c (w ++ c :: s) = w :: split_on c s.
Proof.
  induction w as [|u w IH]; simpl; [by rewrite N.eqb_refl|]. intros [Hu Hw]%not_elem_of_cons.
  destruct (N.eqb_spec u c) as [->|_]; [done|]. by rewrite IH.
Qed.
Lemma split_join c l : l <> [] -> Forall (fun w => c ∉ w) l -> split_on c (join [c] l) = l.
Proof.
  induction l as [|w l IH]; [done|]. intros _ [Hw Hl]%Forall_cons. destruct l as [|w2 l]; [by apply split_on_plain|].
  change (split_on c (w ++ c :: join [c] (w2 :: l)) = w :: w2 :: l). rewrite split_on_app by done. f_equal. by apply IH.
Qed.

(** * A list of proxies is read back as it was written *)

Lemma is_space_lower u : is_space (lower_unit u) = is_space u.
Proof.
  unfold lower_unit, is_upper. destruct (((65 <=? u) && (u <=? 90))%N) eqn:E.
  - apply andb_true_iff in E as [E1%N.leb_le E2%N.leb_le]. apply eq_true_iff_eq. unfold is_space.
    rewrite !orb_true_iff, !andb_true_iff, !N.leb_le, !N.eqb_eq. lia.
  - destruct (N.eqb_spec u 0x212A) as [->|_]; done.
Qed.
Lemma no_lead_lower s : no_lead s -> no_lead (toLowerCase s).
Proof. destruct s as [|u s]; [done|]. simpl. by rewrite is_space_lower. Qed.
Lemma trim_lower s : trim (toLowerCase (trim s)) = toLowerCase (trim s).
Proof.
  destruct (trim_ends s) as [H1 H2]. apply trim_fixed; [by apply no_lead_lower|].
  unfold toLowerCase. rewrite <- map_rev. by apply no_lead_lower.
Qed.
Lemma lower_fixed s : Forall (fun u => lower_unit u = u) s <-> toLowerCase s = s.
Proof.
  induction s as [|u s IH]; [by split|]. rewrite Forall_cons, IH. simpl. split; [by intros [-> ->]|by intros [= -> ->]].
Qed.

(** What is kept of an entry: it has no space at its ends, no comma, no capital. *)
Definition proxy_entry (e : jstr) : Prop := trim e = e /\ (44%N ∉ e) /\ Forall (fun u => lower_unit u = u) e.

Lemma entries_of s : toLowerCase s = s -> Forall proxy_entry (map trim (split_on 44%N s)).
Proof.
  intros Hs%lower_fixed. destruct (split_on_pieces 44%N s) as [Hp _]. apply (split_on_Forall _ 44%N) in Hs.
  apply Forall_map. apply Forall_forall. intros w Hw. rewrite Forall_forall in Hp, Hs. split_and!; [apply trim_trim| |].
  - assert (Forall (fun u => u <> 44%N) (trim w)) as Hf.
    { apply trim_Forall, Forall_forall. intros u Hu ->. by apply (Hp w). }
    intros Hin. rewrite Forall_forall in Hf. by apply (Hf 44%N).
  - by apply trim_Forall, Hs.
Qed.

Lemma join_ends l : Forall (fun e => trim e = e /\ e <> []) l -> no_lead (join [44%N] l) /\ no_lead (rev (join [44%N] l)).
Proof.
  assert (forall e t, trim e = e -> e <> [] -> no_lead (e ++ t) /\ no_lead (rev (t ++ e))) as Hend.
  { intros e t He Hne. destruct (trim_ends e) as [H1 H2]. rewrite He in H1, H2. rewrite rev_app_distr. split; [by destruct e|].
    destruct (rev e) eqn:Er; [|done]. by destruct Hne; rewrite <- (rev_involutive e), Er. }
  induction l as [|e l IH]; [by split|]. intros [[He Hne] Hl]%Forall_cons. destruct l as [|e2 l].
  - simpl. split; [by rewrite <- (app_nil_r e); apply Hend|by apply (Hend e [])].
  - change (join [44%N] (e :: e2 :: l)) with (e ++ [44%N] ++ join [44%N] (e2 :: l)). split; [by apply Hend|].
    destruct (IH Hl) as [_ Hr]. rewrite app_assoc, rev_app_distr. destruct (rev (join _ _)) eqn:Er; [|done].
    apply (f_equal (@rev N)) in Er. rewrite rev_involutive in Er. destruct e2; [by apply Forall_cons in Hl as [[_ ?] _]|by destruct l].
Qed.

Lemma join_lower l : Forall proxy_entry l -> toLowerCase (join [44%N] l) = join [44%N] l.
Proof.
  intros Hl. apply lower_fixed. induction Hl as [|e l (_ & _ & He) Hl IH]; [constructor|]. destruct l as [|e2 l]; [done|].
  change (join [44%N] (e :: e2 :: l)) with (e ++ 44%N :: join [44%N] (e2 :: l)). apply Forall_app. split; [done|]. by constructor.
Qed.

Section config.
Context `{UrlLib} `{NetLib}.

Lemma parse_proxy_text value proxy :
  parseTrustedProxy value = Some proxy -> parseTrustedProxy (JString (proxy_text proxy)) = Some proxy.
Proof.
  destruct value as [| | | |s| |]; try done. unfold parseTrustedProxy at 1. cbv zeta. set (t := toLowerCase (trim s)).
  assert (toLowerCase t = t) as Hlow by apply toLowerCase_idem. assert (trim t = t) as Htrim by apply trim_lower.
  destruct (bool_decide_reflect (t = js "false")) as [|Hf]; [by intros [= <-]|].
  destruct (bool_decide_reflect (t = [])) as [|Hne]; [done|]. destruct (forallb _ _) eqn:Hv; [|done]. intros [= <-].
  set (l := map trim (split_on 44%N t)) in *. assert (Forall proxy_entry l) as Hl by (by apply entries_of).
  assert (Forall (fun e => trim e = e /\ e <> []) l) as Hends.
  { apply Forall_forall. intros e He. rewrite Forall_forall in Hl. split; [by apply Hl|].
    rewrite forallb_forall in Hv. apply list_elem_of_In in He. specialize (Hv e He). by intros ->. }
  assert (l <> []) as Hnil by (unfold l; destruct (split_on_pieces 44%N t) as [_ ?]; by destruct (split_on 44%N t)).
  unfold parseTrustedProxy, proxy_text. change (js ",") with [44%N]. destruct (join_ends l Hends) as [Hj1 Hj2].
  rewrite (trim_fixed _ Hj1 Hj2), (join_lower l Hl), split_join; [|done|by eapply Forall_impl; [exact Hl|]; intros e (_ & ? & _)].
  assert (map trim l = l) as -> by (rewrite <- (map_id l) at 2; apply map_ext_in; intros e He%list_elem_of_In;
    rewrite Forall_forall in Hl; by apply Hl).
  rewrite Hv, !bool_decide_eq_false_2; [done| |].
  - destruct l as [|e [|e2 l2]]; [done|apply Forall_cons in Hends as [[_ ?] _]; done|]. by destruct e.
  - intros Ej. destruct l as [|e l2] eqn:El; [done|]. destruct l2 as [|e2 l2].
    + simpl in Ej. subst e. destruct (split_on 44%N t) as [|w [|w2 ws]] eqn:Es; [done| |done].
      apply split_on_one in Es as ->. unfold l in El. simpl in El. injection El as El. congruence.
    + assert (44%N ∈ js "false") as Hin; [|by vm_compute in Hin; repeat (apply elem_of_cons in Hin as [?|Hin]; [done|]); apply elem_of_nil in Hin].
      rewrite <- Ej. change (44%N ∈ e ++ 44%N :: join [44%N] (e2 :: l2)). apply elem_of_app. right. by left.
Qed.
End config.

(** * What the checks leave *)

Section validated.
Context `{UrlLib} `{NetLib}.

Lemma invalid_if_nil c key v : invalid (invalid_if c key v) = [] <-> c = false /\ invalid v = [].
Proof.
  destruct c; simpl; [|tauto]. split; [|by intros []]. destruct (bool_decide_reflect (key ∈ invalid v)) as [Hk|_].
  - intros E. rewrite E in Hk. by apply elem_of_nil in Hk.
  - by destruct (invalid v).
Qed.
Lemma normalized_if c key v : normalized (invalid_if c key v) = normalized v.
Proof. by destruct c. Qed.
Lemma each_nil keys wrong v : invalid (each keys wrong v) = [] <-> Forall (fun key => wrong key = false) keys /\ invalid v = [].
Proof.
  unfold each. revert v. induction keys as [|key keys IH]; intros v; simpl; [by split; [split; [constructor|]|intros []]|].
  rewrite IH, invalid_if_nil, Forall_cons. tauto.
Qed.
Lemma normalized_each keys wrong v : normalized (each keys wrong v) = normalized v.
Proof. unfold each. revert v. induction keys as [|key keys IH]; intros v; simpl; [done|]. by rewrite IH, normalized_if. Qed.

(** A setting that may be left out. *)
Definition readable (value : json) (parsed : option json) : Prop := is_undefined value = true \/ is_Some parsed.

Lemma normalize_nil config key parsed v :
  invalid (normalize config key parsed v) = [] <-> readable (setting config key) parsed /\ invalid v = [].
Proof.
  unfold normalize, readable. destruct (is_undefined _); [tauto|]. destruct parsed as [x|]; simpl.
  - split; [|by intros []]. intros ?. split; [|done]. right. by eexists.
  - change (invalid (invalid_if true key v) = [] <-> (false = true \/ is_Some (@None json)) /\ invalid v = []).
    rewrite invalid_if_nil. split; [by intros []|]. by intros [[?|[? ?]] _].
Qed.
Lemma lookup_skip config key parsed v k : k <> key -> normalized (normalize config key parsed v) !! k = normalized v !! k.
Proof. intros Hk. unfold normalize. destruct (is_undefined _); [done|]. destruct parsed; [by apply lookup_insert_ne|done]. Qed.

Definition expo_flag (value : json) : option bool :=
  match value with
  | JUndefined => Some false
  | JBool b => Some b
  | JString s => if s =?? js "true" then Some true else if s =?? js "false" then Some false else None
  | _ => None
  end.
Lemma normalize_expo_spec config v :
  normalize_expo config v =
  match expo_flag (setting config EXPO) with
  | Some b => set_normalized EXPO (JBool b) v
  | None => add_invalid EXPO v
  end.
Proof.
  unfold normalize_expo. destruct (setting config _) as [| | | |s| |]; try done. unfold is_string. simpl.
  destruct (bool_decide_reflect (s = js "true")) as [->|]; [done|]. simpl. by destruct (s =?? js "false").
Qed.

(** ** The keys that are rewritten *)

Definition REWRITTEN : list jstr := [PORT; ACCESS_EXP; REFRESH_EXP; SSL; EXPO; PROXY].
Lemma rewritten_keys : NoDup REWRITTEN.
Proof. apply (bool_decide_unpack _). by vm_compute. Qed.
Lemma env_not_rewritten : js "NODE_ENV" ∉ REWRITTEN.
Proof. apply (bool_decide_unpack _). by vm_compute. Qed.
Lemma ssl_required : SSL ∈ REQUIRED_PRODUCTION_KEYS.
Proof. apply (bool_decide_unpack _). by vm_compute. Qed.
#[local] Opaque PORT ACCESS_EXP REFRESH_EXP SSL EXPO PROXY HOST IOS_APP ANDROID_APP ACCESS_SECRET REFRESH_SECRET.

Definition parsed_port (value : json) : option json := JNumber <$> parsePort value.
Definition parsed_lifetime (value : json) : option json := JNumber <$> parseTokenLifetime value.
Definition parsed_proxy (value : json) : option json := JString ∘ proxy_text <$> parseTrustedProxy value.

Lemma lookup_set_ne key x v k : k <> key -> normalized (set_normalized key x v) !! k = normalized v !! k.
Proof. intros Hk. by apply lookup_insert_ne. Qed.

(** A setting is as it was when undefined, and otherwise what was read. *)
Definition kept (config n : Settings) (key : jstr) (parsed : option json) : Prop :=
  if is_undefined (setting config key) then n !! key = config !! key
  else exists x, parsed = Some x /\ n !! key = Some x.

Lemma kept_here config key parsed v :
  readable (setting config key) parsed -> normalized v !! key = config !! key ->
  kept config (normalized (normalize config key parsed v)) key parsed.
Proof.
  unfold readable, kept, normalize. destruct (is_undefined _); [done|]. intros [?|[x ->]] _; [done|].
  exists x. split; [done|]. apply lookup_insert_eq.
Qed.
Lemma kept_skip config key key' parsed parsed' v :
  key <> key' -> kept config (normalized v) key parsed -> kept config (normalized (normalize config key' parsed' v)) key parsed.
Proof. intros Hk. unfold kept. by rewrite lookup_skip. Qed.
Lemma kept_set config key key' parsed x v :
  key <> key' -> kept config (normalized v) key parsed -> kept config (normalized (set_normalized key' x v)) key parsed.
Proof. intros Hk. unfold kept. simpl. by rewrite lookup_insert_ne. Qed.

Record rewritten (config n : Settings) : Prop := {
  rw_port : kept config n PORT (parsed_port (setting config PORT));
  rw_access : kept config n ACCESS_EXP (parsed_lifetime (setting config ACCESS_EXP));
  rw_refresh : kept config n REFRESH_EXP (parsed_lifetime (setting config REFRESH_EXP));
  rw_ssl : kept config n SSL (parseSsl config);
  rw_expo : exists b, expo_flag (setting config EXPO) = Some b /\ n !! EXPO = Some (JBool b);
  rw_proxy : kept config n PROXY (parsed_proxy (setting config PROXY));
  rw_other : forall k, k ∉ REWRITTEN -> n !! k = config !! k
}.

Lemma always_rewritten config :
  invalid (validate_always config) = [] -> rewritten config (normalized (validate_always config)).
Proof.
  unfold validate_always. rewrite normalize_nil. intros [Hproxy Hv].
  assert (exists b, expo_flag (setting config EXPO) = Some b) as [b Hb].
  { revert Hv. rewrite normalize_expo_spec. destruct (expo_flag _) as [b|]; [eauto|].
    intros Hv. by apply (invalid_if_nil true) in Hv as [? _]. }
  revert Hv. rewrite normalize_expo_spec. rewrite Hb. simpl. rewrite !normalize_nil.
  intros (Hssl & Hrefresh & Haccess & Hport & _).
  assert (forall key parsed, readable (setting config key) parsed -> is_undefined (setting config key) = false -> is_Some parsed) as Hread.
  { intros key parsed [E|?] E2; [congruence|done]. }
  pose proof rewritten_keys as Hne. unfold REWRITTEN in Hne.
  rewrite !NoDup_cons, !not_elem_of_cons in Hne. destruct_and! Hne.
  split; [| | | |exists b; split; [done|]| |intros k Hk].
  7: unfold REWRITTEN in Hk; rewrite !not_elem_of_cons in Hk; destruct_and! Hk.
  all: repeat lazymatch goal with
    | |- kept _ (normalized (normalize _ ?k _ _)) ?k _ => apply kept_here; [assumption|]
    | |- kept _ (normalized (normalize _ _ _ _)) _ _ => apply kept_skip; [congruence|]
    | |- kept _ (normalized (set_normalized _ _ _)) _ _ => apply kept_set; [congruence|]
    end.
  all: repeat first [rewrite lookup_skip by congruence | rewrite lookup_set_ne by congruence]; try reflexivity.
  apply lookup_insert_eq.
Qed.

(** ** Reading the settings again *)

Lemma stage_again n key (parse : json -> option json) config v :
  kept config n key (parse (setting config key)) -> (forall value x, parse value = Some x -> parse x = Some x) ->
  (forall value x, parse value = Some x -> is_undefined x = false) ->
  v = mkValidation [] n -> normalize n key (parse (setting n key)) v = v.
Proof.
  unfold kept, normalize. intros Hk Hid Hdef ->. unfold setting at 1 in Hk. unfold setting.
  destruct (is_undefined (default JUndefined (config !! key))) eqn:Eu.
  - by rewrite Hk, Eu.
  - destruct Hk as (x & Hx & Hn). rewrite Hn. simpl. rewrite (Hdef _ _ Hx), (Hid _ _ Hx).
    unfold set_normalized. simpl. by rewrite insert_id.
Qed.

Lemma parsed_port_again value x : parsed_port value = Some x -> parsed_port x = Some x /\ is_undefined x = false.
Proof.
  unfold parsed_port, parsePort. destruct (whole_between_1 _ _) eqn:E; [|done]. intros [= <-]. by rewrite E.
Qed.
Lemma parseTokenLifetime_bounds value f :
  parseTokenLifetime value = Some f -> whole_between_1 TOKEN_LIFETIME_MAX_SECONDS f = true.
Proof.
  destruct value as [| | |g|s| |]; try done; unfold parseTokenLifetime; [by destruct (whole_between_1 _ g) eqn:E; [intros [= <-]|]|].
  destruct (matchLifetime _) as [[digits unit]|]; [|done]. simpl. destruct (tokenLifetimeMultiplier unit); [|done]. simpl.
  destruct (_ && _) eqn:E; [|done]. apply andb_true_iff in E as [_ E]. by intros [= <-].
Qed.
Lemma parsed_lifetime_again value x : parsed_lifetime value = Some x -> parsed_lifetime x = Some x /\ is_undefined x = false.
Proof.
  unfold parsed_lifetime. destruct (parseTokenLifetime value) as [f|] eqn:E; [|done]. intros [= <-].
  apply parseTokenLifetime_bounds in E. simpl. by rewrite E.
Qed.
Lemma parsed_proxy_again value x : parsed_proxy value = Some x -> parsed_proxy x = Some x /\ is_undefined x = false.
Proof.
  unfold parsed_proxy. destruct (parseTrustedProxy value) as [proxy|] eqn:E; [|done]. intros [= <-].
  split; [|done]. unfold compose. by rewrite (parse_proxy_text _ _ E).
Qed.

Lemma ssl_again config n : kept config n SSL (parseSsl config) ->
  normalize n SSL (parseSsl n) (mkValidation [] n) = mkValidation [] n.
Proof.
  intros Hs. unfold kept in Hs. unfold normalize. destruct (is_undefined (setting config SSL)) eqn:Eu.
  - unfold setting in *. by rewrite Hs, Eu.
  - destruct Hs as (x & Hx' & Hn). unfold setting at 1. rewrite Hn. simpl.
    assert (exists c, x = JBool c) as [c ->].
    { revert Hx'. unfold parseSsl. destruct (setting config SSL); try done;
        destruct (createPostgresSslOptions _ _); try done; intros [= <-]; by eexists. }
    unfold parseSsl, setting at 1 2 3 4 5. rewrite Hn. simpl.
    destruct c; simpl; unfold set_normalized; simpl; by rewrite insert_id.
Qed.
#[local] Opaque normalize.

Lemma always_again config n : rewritten config n -> validate_always n = mkValidation [] n.
Proof.
  intros [Hp Ha Hr Hs (b & Hb & He) Hx _]. unfold validate_always.
  change (JNumber <$> parsePort ?v) with (parsed_port v). change (JNumber <$> parseTokenLifetime ?v) with (parsed_lifetime v).
  change (JString ∘ proxy_text <$> parseTrustedProxy ?v) with (parsed_proxy v).
  rewrite (stage_again n PORT parsed_port config); [|done|by intros ? ? [? ?]%parsed_port_again..|done].
  rewrite (stage_again n ACCESS_EXP parsed_lifetime config); [|done|by intros ? ? [? ?]%parsed_lifetime_again..|done].
  rewrite (stage_again n REFRESH_EXP parsed_lifetime config); [|done|by intros ? ? [? ?]%parsed_lifetime_again..|done].
  rewrite (ssl_again config) by done.
  rewrite normalize_expo_spec.
  assert (setting n EXPO = JBool b) as -> by (unfold setting; by rewrite He). simpl.
  assert (set_normalized EXPO (JBool b) (mkValidation [] n) = mkValidation [] n) as -> by (unfold set_normalized; simpl; by rewrite insert_id).
  by rewrite (stage_again n PROXY parsed_proxy config); [|done|by intros ? ? [? ?]%parsed_proxy_again..|].
Qed.

(** ** Acceptance *)

(** The settings that have a form of their own have it, when they are given. *)
Record well_formed (config : Settings) : Prop := {
  wf_port : readable (setting config PORT) (parsed_port (setting config PORT));
  wf_access : readable (setting config ACCESS_EXP) (parsed_lifetime (setting config ACCESS_EXP));
  wf_refresh : readable (setting config REFRESH_EXP) (parsed_lifetime (setting config REFRESH_EXP));
  wf_ssl : readable (setting config SSL) (parseSsl config);
  wf_expo : is_Some (expo_flag (setting config EXPO));
  wf_proxy : readable (setting config PROXY) (parsed_proxy (setting config PROXY))
}.

(** What production asks for on top. *)
Record production_safe (config : Settings) : Prop := {
  ps_required : forall key, key ∈ REQUIRED_PRODUCTION_KEYS -> valueFor config key <> [];
  ps_secrets : forall key, key ∈ PRODUCTION_SECRET_KEYS ->
    (16 <= length (valueFor config key))%nat /\ development_value (valueFor config key) = false;
  ps_urls : forall key, key ∈ HTTPS_URL_KEYS -> exists url, parse_url (valueFor config key) = Some url /\
    url_protocol url = js "https:" /\ url_username url = [] /\ url_password url = [];
  ps_identifiers : forall key, key ∈ PRODUCTION_IDENTIFIER_KEYS -> development_value (valueFor config key) = false;
  ps_apps : valueFor config IOS_APP <> valueFor config ANDROID_APP;
  ps_jwt : valueFor config ACCESS_SECRET <> valueFor config REFRESH_SECRET;
  ps_proxy : is_Some (parseTrustedProxy (setting config PROXY));
  ps_tls : parseSsl config = Some (JBool false) -> valueFor config HOST = js "postgres"
}.

Lemma always_nil config : invalid (validate_always config) = [] <-> well_formed config.
Proof.
  unfold validate_always. rewrite normalize_nil, normalize_expo_spec.
  destruct (expo_flag (setting config EXPO)) as [b|] eqn:Eb.
  - simpl. rewrite !normalize_nil. split; [intros (? & ? & ? & ? & ? & _); split; try done; by eexists|].
    by intros [? ? ? ? _ ?].
  - split; [|intros [_ _ _ _ Hx _]; rewrite Eb in Hx; by destruct Hx]. intros [_ Hv].
    by apply (invalid_if_nil true) in Hv as [? _].
Qed.

Lemma weak_secret_false value :
  weak_secret value = false <-> (16 <= length value)%nat /\ development_value value = false.
Proof.
  unfold weak_secret. rewrite !orb_false_iff, Nat.ltb_ge, bool_decide_eq_false. split; [by intros [[? ?] _]|].
  intros [Hl Hd]. split; [done|]. intros ->. simpl in Hl. lia.
Qed.
Lemma isHttpsUrl_true value : negb (isHttpsUrl value) = false <-> exists url, parse_url value = Some url /\
  url_protocol url = js "https:" /\ url_username url = [] /\ url_password url = [].
Proof.
  rewrite negb_false_iff. unfold isHttpsUrl. destruct (parse_url value) as [url|]; [|by split; [|intros (? & ? & _)]].
  rewrite !andb_true_iff, !bool_decide_eq_true. split; [intros [[? ?] ?]; by exists url|]. by intros (? & [= <-] & ? & ? & ?).
Qed.
Lemma tls_off config n : rewritten config n ->
  (if setting n SSL is JBool false then true else false) = true <-> parseSsl config = Some (JBool false).
Proof.
  intros [_ _ _ Hs _ _ _]. unfold kept in Hs. destruct (is_undefined (setting config SSL)) eqn:Eu.
  - assert (setting n SSL = setting config SSL) as -> by (unfold setting; by rewrite Hs). unfold parseSsl.
    by destruct (setting config SSL).
  - destruct Hs as (x & -> & Hn). unfold setting. rewrite Hn. simpl. destruct x as [| |[]| | | |]; by split.
Qed.
Lemma production_nil config v : invalid v = [] -> rewritten config (normalized v) ->
  invalid (validate_production config v) = [] <-> production_safe config.
Proof.
  intros Hv Hrw. unfold validate_production. cbv zeta.
  rewrite !normalized_if, !normalized_each, !invalid_if_nil, !each_nil, !Forall_forall, Hv.
  rewrite andb_false_iff, negb_false_iff, !bool_decide_eq_false, bool_decide_eq_true.
  pose proof (tls_off config _ Hrw) as Htls.
  split.
  - intros (Hs & Hp & Hj & _ & Ha & _ & Hi & Hu & Hw & Hr & _). split.
    + intros key Hk. specialize (Hr key Hk). by apply bool_decide_eq_false in Hr.
    + intros key Hk. by apply weak_secret_false, Hw.
    + intros key Hk. by apply isHttpsUrl_true, Hu.
    + exact Hi.
    + exact Ha.
    + exact Hj.
    + destruct (parseTrustedProxy _); [by eexists|done].
    + intros E%Htls. destruct Hs as [Hs|]; [congruence|done].
  - intros [Hr Hw Hu Hi Ha Hj [proxy Hp] Hs]. rewrite Hp.
    split_and!; [|reflexivity|exact Hj|exact Hj|exact Ha|exact Ha|exact Hi| | | |reflexivity].
    + destruct (if setting (normalized v) SSL is JBool false then true else false); [right; apply Hs, Htls; reflexivity|left; reflexivity].
    + intros key Hk. by apply isHttpsUrl_true, Hu.
    + intros key Hk. by apply weak_secret_false, Hw.
    + intros key Hk. specialize (Hr key Hk). by apply bool_decide_eq_false.
Qed.
Lemma production_normalized config v : normalized (validate_production config v) = normalized v.
Proof. unfold validate_production. cbv zeta. by rewrite !normalized_if, !normalized_each. Qed.
Lemma conclude_ok prefix v n : conclude prefix v = Ok n <-> invalid v = [] /\ n = normalized v.
Proof. unfold conclude. destruct (invalid v); [split; [by intros [= <-]|by intros [_ ->]]|by split; [|intros [? _]]]. Qed.

Lemma validate_ok config n : validateEnvironment config = Ok n <->
  well_formed config /\ (production config = true -> production_safe config) /\ n = normalized (validate_always config).
Proof.
  rewrite <- always_nil. unfold validateEnvironment. cbv zeta. destruct (production config) eqn:Ep; simpl; rewrite conclude_ok.
  - rewrite production_normalized. split; intros (H1 & H2).
    + assert (invalid (validate_always config) = []) as Hv.
      { unfold validate_production in H1. cbv zeta in H1. rewrite !invalid_if_nil, !each_nil in H1.
        repeat match type of H1 with _ /\ _ => destruct H1 as [_ H1] end. exact H1. }
      split; [done|]. split; [|done]. intros _. apply (production_nil config _ Hv); [by apply always_rewritten|done].
    + destruct H2 as [H2 ->]. split; [|done]. apply production_nil; [done|by apply always_rewritten|by apply H2].
  - split; [intros [? ->]; by split_and!|by intros (? & _ & ->)].
Qed.

Lemma production_kept config n : rewritten config n -> production n = production config.
Proof. intros Hrw. unfold production, setting. rewrite (rw_other _ _ Hrw); [done|]. apply (bool_decide_unpack _). by vm_compute. Qed.

Definition whole_setting (value : json) (low high : Z) : Prop :=
  exists f z, value = JNumber f /\ float_integer f = Some z /\ low <= z <= high.
Lemma whole_spec limit f : whole_between_1 limit f = true -> whole_setting (JNumber f) 1 limit.
Proof.
  unfold whole_between_1. destruct (float_integer f) as [z|] eqn:E; [|done]. intros [?%Z.leb_le ?%Z.leb_le]%andb_true_iff.
  by exists f, z.
Qed.

Lemma whole_kept config n key parsed high : kept config n key parsed -> setting config key <> JUndefined ->
  (forall x, parsed = Some x -> whole_setting x 1 high) -> whole_setting (setting n key) 1 high.
Proof.
  unfold kept. intros Hk Hd Hx. destruct (is_undefined (setting config key)) eqn:Eu; [by destruct (setting config key)|].
  destruct Hk as (x & Ex & Hn). unfold setting. rewrite Hn. by apply Hx.
Qed.
Lemma port_whole value x : parsed_port value = Some x -> whole_setting x 1 65535.
Proof. unfold parsed_port, parsePort. destruct (whole_between_1 _ _) eqn:E; [|done]. intros [= <-]. by apply whole_spec. Qed.
Lemma lifetime_whole value x : parsed_lifetime value = Some x -> whole_setting x 1 TOKEN_LIFETIME_MAX_SECONDS.
Proof.
  unfold parsed_lifetime. destruct (parseTokenLifetime value) as [f|] eqn:E; [|done]. intros [= <-].
  by apply whole_spec, (parseTokenLifetime_bounds value).
Qed.

(** The pool can be made of accepted settings; it goes without TLS only when told so. *)
Lemma pool_of config n : rewritten config n -> readable (setting config SSL) (parseSsl config) ->
  exists pool, databasePool n = Ok pool /\
    (setting config SSL <> JUndefined -> parseSsl config <> Some (JBool false) -> exists ca, pool_ssl pool = Some (mkSsl true ca)).
Proof.
  intros [_ _ _ Hs _ _ _] Hr. unfold kept in Hs. unfold databasePool. change SSL with SSL.
  destruct (is_undefined (setting config SSL)) eqn:Eu.
  - assert (setting n SSL = JUndefined) as -> by (unfold setting in *; rewrite Hs; by destruct (default JUndefined _)).
    eexists. split; [done|]. intros Hd. by destruct (setting config SSL).
  - destruct Hs as (x & Hx & Hn). assert (exists c, x = JBool c) as [c ->].
    { revert Hx. unfold parseSsl. destruct (setting config SSL); try done;
        destruct (createPostgresSslOptions _ _); try done; intros [= <-]; by eexists. }
    assert (setting n SSL = JBool c) as -> by (unfold setting; by rewrite Hn).
    destruct c; (eexists; split; [reflexivity|]); intros _ Hf; [by eexists|congruence].
Qed.

(** C38: the environment is accepted on its merits.  It is accepted exactly when
    every setting with a form of its own has it and, in production, nothing needed
    is missing, weak or insecure.  What is handed on then differs only in those
    settings: the port and the token lifetimes are whole numbers in range, the
    flags are booleans; in production the database is reached over verified TLS
    unless its host is the compose file's.  Outside production, checking the
    outcome again changes nothing. *)
Theorem environment_accepted config :
  (is_ok (validateEnvironment config) <-> well_formed config /\ (production config = true -> production_safe config)) /\
  forall n, validateEnvironment config = Ok n ->
    (forall key, key ∉ REWRITTEN -> n !! key = config !! key) /\
    (setting config PORT <> JUndefined -> whole_setting (setting n PORT) 1 65535) /\
    (forall key, key ∈ [ACCESS_EXP; REFRESH_EXP] -> setting config key <> JUndefined ->
       whole_setting (setting n key) 1 TOKEN_LIFETIME_MAX_SECONDS) /\
    (exists flag, setting n EXPO = JBool flag) /\
    (exists pool, databasePool n = Ok pool /\
       (production config = true -> valueFor config HOST <> js "postgres" ->
        exists ca, pool_ssl pool = Some (mkSsl true ca))) /\
    (production config = false -> validateEnvironment n = Ok n).
Proof.
  split.
  { destruct (validateEnvironment config) as [n|e] eqn:E; simpl.
    - apply validate_ok in E as (? & ? & _). tauto.
    - split; [done|]. intros [H1 H2].
      assert (validateEnvironment config = Ok (normalized (validate_always config))) by (by apply validate_ok). congruence. }
  intros n (Hwf & Hsafe & ->)%validate_ok. pose proof (always_rewritten config (proj2 (always_nil config) Hwf)) as Hrw.
  set (n := normalized (validate_always config)) in *. split_and!.
  - apply (rw_other _ _ Hrw).
  - intros Hd. apply (whole_kept _ _ _ _ _ (rw_port _ _ Hrw) Hd), port_whole.
  - intros key Hk Hd. apply elem_of_cons in Hk as [->|Hk]; [apply (whole_kept _ _ _ _ _ (rw_access _ _ Hrw) Hd), lifetime_whole|].
    apply list_elem_of_singleton in Hk as ->. apply (whole_kept _ _ _ _ _ (rw_refresh _ _ Hrw) Hd), lifetime_whole.
  - destruct (rw_expo _ _ Hrw) as (b & _ & Hb). exists b. unfold setting. by rewrite Hb.
  - destruct (pool_of config n Hrw (wf_ssl _ Hwf)) as (pool & Hpool & Htls). exists pool. split; [done|]. intros Hp Hhost.
    destruct (Hsafe Hp) as [Hreq _ _ _ _ _ _ Hoff]. apply Htls; [|by intros ?%Hoff].
    intros E. apply (Hreq SSL); [apply ssl_required|]. unfold valueFor. by rewrite E.
  - intros Hp. unfold validateEnvironment. cbv zeta. rewrite (production_kept _ _ Hrw), Hp. simpl.
    by rewrite (always_again _ _ Hrw).
Qed.
End validated.

(** A development environment as docker-compose gives it. *)
Definition test_url_lib : UrlLib := {|
  parse_url s := if startsWith (js "https://") s then Some (mkUrl (js "https:") [] [] [] [] s) else None
|}.
Definition test_net_lib : NetLib := {| isIP s := if s =?? js "10.0.0.0" then 4 else 0 |}.
Local Existing Instances test_url_lib test_net_lib.
Definition dev_settings : Settings :=
  list_to_map [(js "POSTGRES_PORT", JString (js " 5432 ")); (js "JWT_ACCESS_TOKEN_EXP", JString (js "15m"));
               (js "POSTGRES_SSL", JString (js "false")); (js "TRUST_PROXY", JString (js "Loopback, 10.0.0.0/8"))].
Example dev_accepted :
  match validateEnvironment dev_settings with
  | Ok n => (match setting n PORT with JNumber f => float_integer f | _ => None end,
             match setting n ACCESS_EXP with JNumber f => float_integer f | _ => None end,
             setting n SSL, setting n EXPO, setting n PROXY)
  | Err _ => (None, None, JNull, JNull, JNull)
  end = (Some 5432, Some 900, JBool false, JBool false, JString (js "loopback,10.0.0.0/8")).
Proof. vm_compute. reflexivity. Qed.
Example dev_refused :
  validateEnvironment (<[js "POSTGRES_PORT" := JString (js "70000")]> (<[js "JWT_ACCESS_TOKEN_EXP" := JString (js "2y")]> dev_settings))
  = Err (mkExn PlainError (js "CONFIG_INVALID:JWT_ACCESS_TOKEN_EXP,POSTGRES_PORT")).
Proof. vm_compute. reflexivity. Qed.

(** Production settings that are all strong, and the same without TLS. *)
Definition prod_settings : Settings :=
  <[js "NODE_ENV" := JString (js "production")]> (<[js "POSTGRES_SSL" := JString (js "true")]>
  (<[js "POSTGRES_PORT" := JString (js "5432")]> (<[js "JWT_ACCESS_TOKEN_EXP" := JString (js "15m")]>
  (<[js "JWT_REFRESH_TOKEN_EXP" := JString (js "30d")]> (<[js "TRUST_PROXY" := JString (js "loopback")]>
  (list_to_map (map (fun key => (key, JString (js "https://value-of-" ++ key))) REQUIRED_PRODUCTION_KEYS))))))).
Example prod_accepted :
  match validateEnvironment prod_settings with
  | Ok n => match databasePool n with Ok pool => pool_ssl pool | Err _ => None end
  | Err _ => None
  end = Some (mkSsl true None).
Proof. vm_compute. reflexivity. Qed.
Example prod_refused :
  validateEnvironment (<[js "POSTGRES_SSL" := JString (js "false")]> (<[js "JWT_REFRESH_TOKEN_SECRET" := JString (js "dev-secret-0123456789")]> prod_settings))
  = Err (mkExn PlainError (js "PRODUCTION_CONFIG_INVALID:JWT_REFRESH_TOKEN_SECRET,POSTGRES_SSL")).
Proof. vm_compute. reflexivity. Qed.
