(* ===== verification/Migrations.v ===== *)
(** The migration script (migrate.ts): under an advisory lock, the files not yet
    recorded are applied in the order of their names, each in a transaction or,
    for a concurrent index, step by step with a marker that lets a later run take
    up where one was cut off. *)
From stdpp Require Import gmap.
From Stdlib Require Import SpecFloat.
From S2P Require Import Prelude JsString Json Libraries World Text Config.
Local Open Scope Z_scope.

(** * The file's form *)

Definition nonTransactionalHeader : jstr := js "-- chattea:migration-mode=non-transactional".
Definition migrationModePrefix : jstr := js "-- chattea:migration-mode=".

Definition is_sql_space (u : N) : bool := ((u =? 32) || (u =? 9) || (u =? 13) || (u =? 10))%N.
Definition ws : regex := RCls is_sql_space.
Definition ws1 : regex := RPlus ws.
Definition ws0 : regex := RStar ws.
Definition is_letter_ (u : N) : bool := is_lower u || is_upper u || (u =? 95)%N.
Definition is_word_ (u : N) : bool := is_letter_ u || is_digit u || (u =? 36)%N.
Definition bareIdentifier : regex := RCat (RCls is_letter_) (RStar (RCls is_word_)).
Definition sqlIdentifier : regex := RAlt (RCat (RChr 34%N) (RCat bareIdentifier (RChr 34%N))) bareIdentifier.
Definition keyword (s : string) : regex := RIgnoreCase s.
Definition seq_ (l : list regex) : regex := foldr RCat REps l.
Definition indexColumn : regex := RCat sqlIdentifier (ROpt (RCat ws1 (RAlt (keyword "asc") (keyword "desc")))).
Definition nullPredicate : regex :=
  seq_ [sqlIdentifier; ws1; keyword "is"; ws1; ROpt (RCat (keyword "not") ws1); keyword "null"].
Definition concurrentIndexStatement : regex :=
  seq_ [ws0; keyword "create"; ws1; ROpt (RCat (keyword "unique") ws1); keyword "index"; ws1;
        keyword "concurrently"; ws1; keyword "if"; ws1; keyword "not"; ws1; keyword "exists"; ws1;
        bareIdentifier; ws1; keyword "on"; ws1; sqlIdentifier; ws0;
        RChr 40%N; ws0; indexColumn; RStar (seq_ [ws0; RChr 44%N; ws0; indexColumn]); ws0; RChr 41%N;
        ROpt (seq_ [ws1; keyword "where"; ws1; nullPredicate; RStar (seq_ [ws1; keyword "and"; ws1; nullPredicate])]);
        ws0; RChr 59%N; ws0].

(** The group of a match: the word after EXISTS, the sixth or seventh before it
    being UNIQUE or not. *)
Definition index_name (statement : jstr) : jstr :=
  let l := words is_sql_space statement in
  nth (if toUpperCase (nth 1 l []) =?? js "UNIQUE" then 7 else 6)%nat l [].

(** [/--|\/\*/] *)
Fixpoint sqlBodyComment (s : jstr) : bool :=
  match s with
  | a :: ((b :: _) as s') => ((a =? 45) && (b =? 45) || (a =? 47) && (b =? 42))%N || sqlBodyComment s'
  | _ => false
  end.

Definition parseConcurrentIndex (executableSql : jstr) : Result jstr :=
  let statement := join [10%N] (drop 1 (lines executableSql)) in
  if sqlBodyComment statement then Err (mkExn PlainError (js "unsupported non-transactional SQL comment"))
  else if negb (matchb concurrentIndexStatement statement)
  then Err (mkExn PlainError (js "unsupported concurrent index syntax"))
  else Ok (toLowerCase (index_name statement)).

(** The SQL to run, and the index it builds when it is not transactional. *)
Record Migration := mkMigration { executableSql : jstr; concurrentIndex : option jstr }.
Definition parseMigration (sql : jstr) : Result Migration :=
  let executableSql := if sql is 0xFEFF%N :: rest then rest else sql in
  let firstLine := default [] (head (lines executableSql)) in
  if firstLine =?? nonTransactionalHeader then
    match parseConcurrentIndex executableSql with
    | Ok name => Ok (mkMigration executableSql (Some name))
    | Err e => Err e
    end
  else if startsWith migrationModePrefix firstLine
  then Err (mkExn PlainError (js "invalid migration mode: " ++ firstLine))
  else Ok (mkMigration executableSql None).

(** * The server *)

Record IndexState := mkIndexState { ix_valid : bool; ix_ready : bool; ix_marker : option jstr }.

(** PostgreSQL, as far as the script relies on it: running SQL, which may leave
    something behind when it fails outside a transaction, and the catalogue. *)
Class PgServer (D : Type) := {
  exec_sql : jstr -> D -> D * option jstr;
  index_state : D -> jstr -> option IndexState;
  drop_index : jstr -> D -> D;
  comment_index : jstr -> jstr -> D -> D
}.
(** node-postgres: the message of the n-th request's own failure, before it has any
    effect, or of the failure to connect; the files of the directory; SHA-256. *)
Class MigrationHost := {
  connect_fails : nat -> option jstr;
  query_fails : nat -> option jstr;
  readdir : list jstr;
  readFile : jstr -> jstr + jstr;
  sha256 : jstr -> jstr
}.

Record AppliedRow := mkApplied_ { row_name : jstr; row_checksum : jstr }.
Record Session (D : Type) := mkSession {
  (** the database apart from the table of migrations, and that table *)
  base : D;
  rows : list AppliedRow;
  (** the requests made so far *)
  queries : nat;
  (** the variable [locked], and whether the client was given back *)
  locked_ : bool;
  released : bool;
  ended : bool
}.
Arguments mkSession {D}.
Arguments base {D}.
Arguments rows {D}.
Arguments queries {D}.
Arguments locked_ {D}.
Arguments released {D}.
Arguments ended {D}.
#[export] Instance eta_Session D : Eta (Session D) :=
  fun s => mkSession (base s) (rows s) (queries s) (locked_ s) (released s) (ended s).

(** * The session's monad *)

Definition S_ (D A : Type) : Type := Session D -> Session D * Result A.
#[export] Instance S_ret D : MRet (S_ D) := fun A a s => (s, Ok a).
#[export] Instance S_bind D : MBind (S_ D) := fun A B k m s =>
  match m s with
  | (s', Ok a) => k a s'
  | (s', Err e) => (s', Err e)
  end.

Section session.
Context {D : Type} `{PgServer D} `{MigrationHost}.

Definition fail {A} (message : jstr) : S_ D A := fun s => (s, Err (mkExn PlainError message)).
Definition lift {A} (r : Result A) : S_ D A := fun s => (s, r).
Definition gets {A} (f : Session D -> A) : S_ D A := fun s => (s, Ok (f s)).
Definition step {A} (f : Session D -> Session D * Result A) : S_ D A := f.
Definition modify (f : Session D -> Session D) : S_ D unit := fun s => (f s, Ok tt).
(** [try m catch handler], and [try m finally cleanup]. *)
Definition catch {A} (m : S_ D A) (handler : Session D -> Exn -> S_ D A) : S_ D A := fun s =>
  match m s with
  | (s', Ok a) => (s', Ok a)
  | (s', Err e) => handler s e s'
  end.
Definition finally {A} (m : S_ D A) (cleanup : S_ D unit) : S_ D A := fun s =>
  match m s with
  | (s', r) => match cleanup s' with
               | (s'', Ok _) => (s'', r)
               | (s'', Err e) => (s'', Err e)
               end
  end.
Fixpoint for_each_ {A} (l : list A) (body : A -> S_ D unit) : S_ D unit :=
  match l with
  | [] => mret tt
  | x :: l' => body x ;; for_each_ l' body
  end.

(** A query that the connection may fail. *)
Definition query_ : S_ D unit := fun s =>
  (s <| queries ::= S |>, if query_fails (queries s) is Some message then Err (mkExn PlainError message) else Ok tt).
Definition run_sql (sql : jstr) : S_ D unit :=
  query_ ;;
  step (fun s =>
    let '(b, error) := exec_sql sql (base s) in
    (s <| base := b |>, if error is Some message then Err (mkExn PlainError message) else Ok tt)).

(** * The script *)

Definition concurrentIndexMarker (file checksum : jstr) : jstr :=
  js "chattea:migration:" ++ sha256 (file ++ [0%N] ++ checksum).

Definition concurrentIndexState (name : jstr) : S_ D (option IndexState) :=
  query_ ;; gets (fun s => index_state (base s) name).

Definition prepareConcurrentIndexTarget (name marker : jstr) : S_ D bool :=
  state ← concurrentIndexState name;
  match state with
  | None => mret false
  | Some state =>
      if ix_valid state && ix_ready state then
        if ix_marker state =?? Some marker then mret true
        else fail (js "concurrent index marker mismatch: " ++ name)
      else query_ ;; modify (fun s => s <| base ::= drop_index name |>) ;; mret false
  end.

Definition markConcurrentIndexReady (name marker : jstr) : S_ D unit :=
  state ← concurrentIndexState name;
  if (if state is Some st then ix_valid st && ix_ready st else false) then
    query_ ;; modify (fun s => s <| base ::= comment_index name marker |>) ;;
    marked ← concurrentIndexState name;
    if (if marked is Some st then ix_marker st =?? Some marker else false) then mret tt
    else fail (js "concurrent index marker postcondition failed: " ++ name)
  else fail (js "concurrent index postcondition failed: " ++ name).

(** [INSERT INTO "_migrations"]; the name is the primary key. *)
Definition record_migration (file checksum : jstr) : S_ D unit :=
  query_ ;;
  step (fun s =>
    if existsb (fun r => row_name r =?? file) (rows s) then (s, Err UNIQUE_VIOLATION)
    else (s <| rows ::= fun l => l ++ [mkApplied_ file checksum] |>, Ok tt)).

(** BEGIN, the statements and COMMIT; when one of them fails the database is as
    it was at BEGIN, and ROLLBACK may fail as well. *)
Definition transactional (body : S_ D unit) : S_ D unit :=
  query_ ;;
  catch (body ;; query_)
    (fun before e =>
       modify (fun s => s <| base := base before |> <| rows := rows before |>) ;; query_ ;; lift (Err e)).

Definition applyFile (file : jstr) : S_ D unit :=
  match readFile file with
  | inl message => fail message
  | inr sql =>
      let checksum := sha256 sql in
      migrationMode ← lift (parseMigration sql);
      query_ ;;
      applied ← gets (fun s => first (fun r => row_name r =?? file) (rows s));
      match applied with
      | Some migration =>
          if row_checksum migration =?? checksum then mret tt
          else fail (js "migration checksum changed: " ++ file)
      | None =>
          match concurrentIndex migrationMode with
          | None => transactional (run_sql (executableSql migrationMode) ;; record_migration file checksum)
          | Some name =>
              let marker := concurrentIndexMarker file checksum in
              concurrentIndexAlreadyExecuted ← prepareConcurrentIndexTarget name marker;
              (if (concurrentIndexAlreadyExecuted : bool) then mret tt
               else run_sql (executableSql migrationMode) ;; markConcurrentIndexReady name marker) ;;
              record_migration file checksum
          end
      end
  end.

Definition migration_files : list jstr :=
  order_by (fun a b => negb (str_ltb b a)) (sel (endsWith (js ".sql")) readdir).

Definition connect : S_ D unit :=
  step (fun s => (s <| queries ::= S |>,
                  if connect_fails (queries s) is Some message then Err (mkExn PlainError message) else Ok tt)).
Definition runMigrations : S_ D unit :=
  connect ;;
  modify (fun s => s <| locked_ := false |> <| released := false |>) ;;
  finally
    (query_ ;; modify (fun s => s <| locked_ := true |>) ;;
     query_ ;;
     for_each_ migration_files applyFile)
    (finally
       (locked ← gets locked_;
        if (locked : bool) then query_ else mret tt)
       (modify (fun s => s <| released := true |>))).

(** The pool of the script is made of the environment itself, whose values are text. *)
Definition requiredEnv (env : Settings) (name : jstr) : Result jstr :=
  match setting env name with
  | JString (_ :: _ as value) => Ok value
  | _ => Err (mkExn PlainError (name ++ js " is required"))
  end.
Definition migrationPool (env : Settings) : Result PoolOptions :=
  match requiredEnv env (js "POSTGRES_DATABASE") with
  | Err e => Err e
  | Ok database =>
      match createPostgresSslOptions (setting env SSL)
              (if setting env (js "POSTGRES_SSL_CA") is JString ca then Some ca else None) with
      | Err e => Err e
      | Ok ssl =>
          Ok (mkPool (setting env HOST)
                (JNumber (if setting env PORT is JString port then Number port else Number (js "5432")))
                (setting env (js "POSTGRES_USERNAME")) (setting env (js "POSTGRES_PASSWORD")) (JString database) ssl)
      end
  end.

Definition main `{UrlLib} `{NetLib} (env : Settings) : S_ D unit :=
  lift (validateEnvironment env) ;;
  lift (migrationPool env) ;;
  finally runMigrations (modify (fun s => s <| ended := true |>)).
End session.
