(* ===== verification/MigrationsProofs.v ===== *)
(** The migration script: files are applied once and in order, a failure leaves
    the record true, and a later run takes up where one was cut off. *)
From stdpp Require Import gmap.
From Stdlib Require Import SpecFloat.
From S2P Require Import Prelude JsString Json Libraries World Text Config Migrations.
Local Open Scope Z_scope.

Section migrations.
Context {D : Type} `{PgServer D} `{MigrationHost}.

(** * What a file does *)

Definition checksum_of (file : jstr) : jstr := if readFile file is inr sql then sha256 sql else [].
Definition form_of (file : jstr) : Result Migration :=
  match readFile file with inr sql => parseMigration sql | inl message => Err (mkExn PlainError message) end.
Definition row_of (file : jstr) : AppliedRow := mkApplied_ file (checksum_of file).
(** The file is recorded, as it is, and can be read. *)
Definition settled (l : list AppliedRow) (file : jstr) : Prop :=
  first (fun r => row_name r =?? file) l = Some (row_of file) /\ is_ok (form_of file).
Definition stepwise (file : jstr) : Prop := exists m name, form_of file = Ok m /\ concurrentIndex m = Some name.

(** An index that is in the way, since it was left unfinished, is dropped first. *)
Definition cleared (name : jstr) (b b0 : D) : Prop :=
  (index_state b name = None /\ b0 = b) \/
  (exists st, index_state b name = Some st /\ ix_valid st && ix_ready st = false /\ b0 = drop_index name b).
Definition usable (name : jstr) (b : D) (st : IndexState) : Prop :=
  index_state b name = Some st /\ ix_valid st = true /\ ix_ready st = true.

(** The database a file is applied to, and the one it leaves: the whole file ran;
    or the index was there already, built and marked by this very file; or it was
    built now and then marked. *)
Inductive migrates (file : jstr) (b : D) : D -> Prop :=
| migrates_transaction m b' :
    form_of file = Ok m -> concurrentIndex m = None -> exec_sql (executableSql m) b = (b', None) -> migrates file b b'
| migrates_built m name st :
    form_of file = Ok m -> concurrentIndex m = Some name -> usable name b st ->
    ix_marker st = Some (concurrentIndexMarker file (checksum_of file)) -> migrates file b b
| migrates_builds m name b0 b1 st st' :
    form_of file = Ok m -> concurrentIndex m = Some name -> cleared name b b0 ->
    exec_sql (executableSql m) b0 = (b1, None) -> usable name b1 st ->
    let marker := concurrentIndexMarker file (checksum_of file) in
    index_state (comment_index name marker b1) name = Some st' -> ix_marker st' = Some marker ->
    migrates file b (comment_index name marker b1).
Inductive migrates_all : list jstr -> D -> D -> Prop :=
| migrates_none b : migrates_all [] b b
| migrates_next file files b b1 b2 :
    migrates file b b1 -> migrates_all files b1 b2 -> migrates_all (file :: files) b b2.

Definition recorded (l : list AppliedRow) (file : jstr) : bool := existsb (fun r => row_name r =?? file) l.
Definition pending (l : list AppliedRow) (files : list jstr) : list jstr := del (recorded l) files.

(** * Reasoning about the session *)

Definition swp {A} (m : S_ D A) (Q : Result A -> Session D -> Prop) (s : Session D) : Prop := Q (m s).2 (m s).1.

Lemma swp_ret {A} (a : A) (Q : Result A -> Session D -> Prop) s : Q (Ok a) s -> swp (mret a) Q s.
Proof. done. Qed.
Lemma swp_gets {A} (f : Session D -> A) (Q : Result A -> Session D -> Prop) s : Q (Ok (f s)) s -> swp (gets f) Q s.
Proof. done. Qed.
Lemma swp_modify f Q s : Q (Ok tt) (f s) -> swp (modify f) Q s.
Proof. done. Qed.
Lemma swp_fail {A} message (Q : Result A -> Session D -> Prop) s : Q (Err (mkExn PlainError message)) s -> swp (fail message) Q s.
Proof. done. Qed.
Lemma swp_lift {A} (r : Result A) (Q : Result A -> Session D -> Prop) s : Q r s -> swp (lift r) Q s.
Proof. done. Qed.
Lemma swp_bind {A B} (m : S_ D A) (k : A -> S_ D B) Q s :
  swp m (fun r s' => match r with Ok a => swp (k a) Q s' | Err e => Q (Err e) s' end) s -> swp (m ≫= k) Q s.
Proof. unfold swp, mbind, S_bind. by destruct (m s) as [s' [a|e]]. Qed.
Lemma swp_mono {A} (m : S_ D A) (P Q : Result A -> Session D -> Prop) s :
  swp m P s -> (forall r s', P r s' -> Q r s') -> swp m Q s.
Proof. unfold swp. auto. Qed.
Lemma swp_finally {A} (m : S_ D A) cleanup Q s :
  swp m (fun r s' => swp cleanup (fun r2 s'' => Q (match r2 with Ok _ => r | Err e => Err e end) s'') s') s -> swp (finally m cleanup) Q s.
Proof. unfold swp, finally. destruct (m s) as [s' r]. simpl. by destruct (cleanup s') as [s'' [u|e]]. Qed.
Lemma swp_catch {A} (m : S_ D A) handler Q s :
  swp m (fun r s' => match r with Ok a => Q (Ok a) s' | Err e => swp (handler s e) Q s' end) s -> swp (catch m handler) Q s.
Proof. unfold swp, catch. by destruct (m s) as [s' [a|e]]. Qed.
Lemma swp_query Q s :
  (forall e, Q (Err e) (s <| queries ::= S |>)) -> (query_fails (queries s) = None -> Q (Ok tt) (s <| queries ::= S |>)) ->
  swp query_ Q s.
Proof. intros H1 H2. unfold swp, query_. simpl. destruct (query_fails _); [apply H1|by apply H2]. Qed.

(** The state apart from the number of requests. *)
Definition same (s s' : Session D) : Prop :=
  base s' = base s /\ rows s' = rows s /\ released s' = released s.

Ltac swp_step :=
  lazymatch goal with
  | |- swp (mbind _ _) _ _ => apply swp_bind
  | |- swp query_ _ _ => apply swp_query; [intros ?e|intros _]
  | |- swp (finally _ _) _ _ => apply swp_finally
  | |- swp (catch _ _) _ _ => apply swp_catch
  | |- swp (mret _) _ _ => apply swp_ret
  | |- swp (gets _) _ _ => apply swp_gets
  | |- swp (modify _) _ _ => apply swp_modify
  | |- swp (fail _) _ _ => apply swp_fail
  | |- swp (lift _) _ _ => apply swp_lift
  | |- swp (if ?b then _ else _) _ _ => destruct b eqn:?
  | |- swp (match ?o with _ => _ end) _ _ => destruct o eqn:?
  end; cbv beta iota.

Lemma swp_run_sql sql Q s :
  (forall e b, Q (Err e) (s <| queries ::= S |> <| base := b |>)) ->
  (forall e, Q (Err e) (s <| queries ::= S |>)) ->
  (forall b, exec_sql sql (base s) = (b, None) -> Q (Ok tt) (s <| queries ::= S |> <| base := b |>)) -> swp (run_sql sql) Q s.
Proof.
  intros H1 H2 H3. unfold run_sql. do 2 swp_step; [apply H2|]. unfold swp, step. simpl.
  destruct (exec_sql sql (base s)) as [b [message|]] eqn:E; [apply H1|by apply H3].
Qed.
Lemma swp_record file checksum Q s : recorded (rows s) file = false ->
  (forall e, Q (Err e) (s <| queries ::= S |>)) ->
  Q (Ok tt) (s <| queries ::= S |> <| rows ::= fun l => l ++ [mkApplied_ file checksum] |>) ->
  swp (record_migration file checksum) Q s.
Proof.
  intros Hr H1 H2. unfold record_migration. do 2 swp_step; [apply H1|]. unfold swp, step. simpl.
  unfold recorded in Hr. by rewrite Hr.
Qed.

(** The index is there and carries this file's marker, or it is out of the way. *)
Lemma swp_prepare name marker s :
  swp (prepareConcurrentIndexTarget name marker) (fun r s' => rows s' = rows s /\ released s' = released s /\
    match r with
    | Ok true => base s' = base s /\ exists st, usable name (base s) st /\ ix_marker st = Some marker
    | Ok false => cleared name (base s) (base s')
    | Err _ => base s' = base s
    end) s.
Proof.
  unfold prepareConcurrentIndexTarget, concurrentIndexState. do 3 swp_step; [done|]. swp_step. simpl.
  destruct (index_state (base s) name) as [st|] eqn:Est.
  - destruct (ix_valid st && ix_ready st) eqn:Ev.
    + swp_step; swp_step; [|done]. split_and!; [done..|]. apply andb_true_iff in Ev as [? ?].
      match goal with E : bool_decide _ = true |- _ => apply bool_decide_eq_true in E end. by exists st.
    + do 2 swp_step; [done|]. do 2 swp_step. swp_step. split_and!; [done..|]. right. by exists st.
  - swp_step. split_and!; [done..|]. by left.
Qed.

Lemma swp_mark name marker s :
  swp (markConcurrentIndexReady name marker) (fun r s' => rows s' = rows s /\ released s' = released s /\
    if r is Ok _ then exists st st', usable name (base s) st /\ base s' = comment_index name marker (base s) /\
      index_state (base s') name = Some st' /\ ix_marker st' = Some marker
    else True) s.
Proof.
  unfold markConcurrentIndexReady, concurrentIndexState. do 3 swp_step; [done|]. swp_step. simpl.
  destruct (index_state (base s) name) as [st|] eqn:Est; [|by swp_step].
  destruct (ix_valid st && ix_ready st) eqn:Ev; [|by swp_step]. apply andb_true_iff in Ev as [? ?].
  do 2 swp_step; [done|]. do 2 swp_step. do 3 swp_step; [done|]. swp_step. simpl.
  destruct (index_state (comment_index _ _ _) _) as [st'|] eqn:Est'; [|by swp_step].
  destruct (bool_decide_reflect (ix_marker st' = Some marker)) as [Hm|]; [|by swp_step]. swp_step.
  split_and!; [done..|]. by exists st, st'.
Qed.

(** One file: what is recorded is what was done. *)
Lemma swp_applyFile file s :
  swp (applyFile file) (fun r s' => released s' = released s /\
    match r with
    | Ok _ =>
        if recorded (rows s) file then base s' = base s /\ rows s' = rows s /\ settled (rows s) file
        else migrates file (base s) (base s') /\ rows s' = rows s ++ [row_of file] /\ is_ok (form_of file)
    | Err _ => rows s' = rows s /\ (base s' = base s \/ stepwise file)
    end) s.
Proof.
  unfold applyFile. destruct (readFile file) as [message|sql] eqn:Ef; [swp_step; split; [done|]; split; [done|by left]|].
  assert (checksum_of file = sha256 sql) as Ec by (unfold checksum_of; by rewrite Ef).
  assert (form_of file = parseMigration sql) as Efo by (unfold form_of; by rewrite Ef).
  do 2 swp_step. destruct (parseMigration sql) as [m|e] eqn:Em; [|by auto].
  do 2 swp_step; [by auto|]. do 2 swp_step. simpl.
  destruct (first (fun r => row_name r =?? file) (rows s)) as [row|] eqn:Er.
  - pose proof Er as [Hin Hn]%first_Some. rewrite bool_decide_eq_true in Hn.
    assert (recorded (rows s) file = true) as -> by (apply existsb_true; exists row; by rewrite bool_decide_eq_true).
    destruct (bool_decide_reflect (row_checksum row = sha256 sql)) as [Hc|]; swp_step; [|by auto]. split_and!; [done..|].
    split; [|by rewrite Efo]. rewrite Er. unfold row_of. rewrite Ec, <- Hc, <- Hn. by destruct row.
  - assert (recorded (rows s) file = false) as Hno.
    { apply existsb_false. intros r Hr. by apply (proj1 (first_None _ _) Er). }
    rewrite Hno. destruct (concurrentIndex m) as [name|] eqn:Ei.
    + assert (stepwise file) as Hst by (by exists m, name; rewrite Efo).
      swp_step. eapply swp_mono; [apply swp_prepare|]. intros [[]|e] s1 (E1 & E2 & Hp).
      * swp_step. swp_step. apply swp_record; [by rewrite E1|by auto|]. simpl. rewrite E1, E2. split; [done|].
        destruct Hp as (E3 & st & Hu & Hm). rewrite E3, Efo. unfold row_of. rewrite Ec. split; [|done].
        apply (migrates_built _ _ m name st); [congruence|done|done|by rewrite Ec].
      * swp_step. swp_step. apply swp_run_sql; [by auto|by auto|]. intros b Hb. eapply swp_mono; [apply swp_mark|].
        simpl. intros [u|e] s2 (E3 & E4 & Hm); [|by rewrite E3, E4, E1, E2; auto].
        destruct Hm as (st & st' & Hu & E5 & Hst' & Hmk). apply swp_record; [by rewrite E3, E1|by simpl; rewrite E3, E4, E1, E2; auto|].
        simpl. rewrite E3, E4, E1, E2, E5, Efo. unfold row_of. rewrite Ec. split_and!; [done| |done..].
        rewrite E5 in Hst'. rewrite <- Ec in *. apply (migrates_builds file (base s) m name (base s1) b st st'); [congruence|done..].
      * rewrite E1, E2. auto.
    + unfold transactional. do 2 swp_step; [by auto|]. do 3 swp_step.
      apply swp_run_sql.
      * intros e b. do 2 swp_step. do 2 swp_step; [by auto|]. swp_step. by auto.
      * intros e. do 2 swp_step. do 2 swp_step; [by auto|]. swp_step. by auto.
      * intros b Hb. apply swp_record; [done| |].
        -- intros e. do 2 swp_step. do 2 swp_step; [by auto|]. swp_step. by auto.
        -- swp_step.
           ++ do 2 swp_step. do 2 swp_step; [by auto|]. swp_step. by auto.
           ++ simpl. split_and!; [done| |by unfold row_of; rewrite Ec|by rewrite Efo]. apply (migrates_transaction _ _ m); [congruence|done|done].
Qed.

(** * A run *)

Lemma recorded_snoc l row file : file <> row_name row -> recorded (l ++ [row]) file = recorded l file.
Proof.
  intros Hn. unfold recorded. rewrite existsb_app. simpl. by rewrite bool_decide_eq_false_2, !orb_false_r by congruence.
Qed.
Lemma pending_cons l f files : pending l (f :: files) = if recorded l f then pending l files else f :: pending l files.
Proof. unfold pending. rewrite del_cons. by destruct (recorded l f). Qed.
Lemma pending_snoc l row files : row_name row ∉ files -> pending (l ++ [row]) files = pending l files.
Proof.
  induction files as [|f files IH]; [done|]. intros [Hf Hfs]%not_elem_of_cons. 
  rewrite !pending_cons, recorded_snoc by congruence. by rewrite IH.
Qed.
Lemma pending_app l files1 files2 : pending l (files1 ++ files2) = pending l files1 ++ pending l files2.
Proof. apply del_app. Qed.

(** What a run has done: the files up to some point, those recorded before left alone. *)
Definition progress (files : list jstr) (s s' : Session D) (r : Result unit) : Prop :=
  exists past rest b, files = past ++ rest /\
    rows s' = rows s ++ map row_of (pending (rows s) past) /\ migrates_all (pending (rows s) past) (base s) b /\
    (forall f, f ∈ past -> settled (rows s') f) /\
    match r with
    | Ok _ => rest = [] /\ base s' = b
    | Err _ => base s' = b \/ exists f rest', rest = f :: rest' /\ stepwise f
    end.

Lemma settled_app l l' f : settled l f -> settled (l ++ l') f.
Proof. intros [Hf ?]. split; [|done]. by apply first_app_l. Qed.
Lemma settled_snoc l f : recorded l f = false -> is_ok (form_of f) -> settled (l ++ [row_of f]) f.
Proof.
  intros Hno Hok. split; [|done]. rewrite first_app, (proj2 (first_None _ _)).
  - rewrite first_cons. simpl. by rewrite bool_decide_eq_true_2.
  - intros r Hr. by apply (proj1 (existsb_false _ _) Hno).
Qed.
Lemma progress_none files s s' r : rows s' = rows s ->
  match r with
  | Ok _ => files = [] /\ base s' = base s
  | Err _ => base s' = base s \/ exists f rest, files = f :: rest /\ stepwise f
  end -> progress files s s' r.
Proof.
  intros Er Hr. exists [], files, (base s). split_and!; [done|by rewrite Er; simpl; rewrite app_nil_r|constructor|by intros ? ?%elem_of_nil|done].
Qed.

Lemma swp_loop files s : NoDup files ->
  swp (for_each_ files applyFile) (fun r s' => released s' = released s /\ progress files s s' r) s.
Proof.
  revert s. induction files as [|f files IH]; intros s; simpl.
  { intros _. swp_step. split; [done|]. by apply progress_none. }
  intros [Hf Hfs]%NoDup_cons. swp_step. eapply swp_mono; [apply swp_applyFile|]. intros [u|e] s1 [E1 Hr]; [destruct u|].
  - eapply swp_mono; [by apply IH|]. intros r s2 (E2 & past & rest & b & Efs & Erows & Hmig & Hrec & Hend).
    split; [congruence|]. destruct (recorded (rows s) f) eqn:Ere.
    + destruct Hr as (Eb & Er & Hset). rewrite Er, Eb in *. exists (f :: past), rest, b.
      rewrite pending_cons, Ere. split_and!; try done; [by rewrite Efs|].
      intros g [->|Hg]%elem_of_cons; [|by apply Hrec]. rewrite Erows. by apply settled_app.
    + destruct Hr as (Hm & Er & Hok). rewrite Er in *.
      rewrite pending_snoc in Erows, Hmig by (simpl; intros Hp; apply Hf; rewrite Efs; apply elem_of_app; by left).
      exists (f :: past), rest, b. rewrite pending_cons, Ere.
      split_and!; [by rewrite Efs|by rewrite Erows, <- app_assoc|by eapply migrates_next| |done].
      intros g [->|Hg]%elem_of_cons; [|by apply Hrec]. rewrite Erows. by apply settled_app, settled_snoc.
  - destruct Hr as (Er & Hb). split; [done|]. apply progress_none; [done|]. destruct Hb as [?|?]; [by left|right; eauto].
Qed.

Lemma NoDup_insert_by {A} (le : A -> A -> bool) x l : x ∉ l -> NoDup l -> NoDup (insert_by le x l).
Proof.
  induction l as [|y l IH]; simpl; [intros; apply NoDup_singleton|]. intros [Hx Hl]%not_elem_of_cons [Hy Hn]%NoDup_cons.
  destruct (le x y); apply NoDup_cons; (split; [|]).
  - by apply not_elem_of_cons.
  - by apply NoDup_cons.
  - intros [->|?]%elem_of_insert_by; done.
  - by apply IH.
Qed.
Lemma NoDup_order_by {A} (le : A -> A -> bool) l : NoDup l -> NoDup (order_by le l).
Proof.
  induction 1 as [|x l Hx Hl IH]; simpl; [constructor|]. apply NoDup_insert_by; [by rewrite elem_of_order_by|done].
Qed.
Lemma NoDup_migration_files : NoDup readdir -> NoDup migration_files.
Proof. intros Hn. apply NoDup_order_by, NoDup_ListNoDup, List.NoDup_filter. by apply NoDup_ListNoDup. Qed.

Lemma swp_connect Q s :
  (forall message, connect_fails (queries s) = Some message -> Q (Err (mkExn PlainError message)) (s <| queries ::= S |>)) ->
  (connect_fails (queries s) = None -> Q (Ok tt) (s <| queries ::= S |>)) -> swp connect Q s.
Proof. intros H1 H2. unfold swp, connect, step. simpl. destruct (connect_fails _); [by apply H1|by apply H2]. Qed.

(** There was no client to give back: connecting failed, and nothing was done. *)
Definition not_connected (s s' : Session D) (r : Result unit) : Prop :=
  exists message, connect_fails (queries s) = Some message /\ r = Err (mkExn PlainError message) /\ s' = s <| queries ::= S |>.

Lemma swp_runMigrations s : NoDup readdir ->
  swp runMigrations (fun r s' =>
    (not_connected s s' r \/ (connect_fails (queries s) = None /\ released s' = true) /\
     exists r', progress migration_files s s' r' /\ (r = Ok tt -> r' = Ok tt))) s.
Proof.
  intros Hn%NoDup_migration_files. unfold runMigrations. swp_step. apply swp_connect; [intros message Hc; left; by exists message|intros Hconn].
  do 2 swp_step. swp_step.
  set (s0 := s <| queries ::= S |> <| locked_ := false |> <| released := false |>).
  apply (swp_mono _ (fun r s' => exists r', progress migration_files s s' r' /\ (r = Ok tt -> r' = Ok tt)) _ s0).
  - assert (forall e s', base s' = base s -> rows s' = rows s -> exists r', progress migration_files s s' r' /\ (Err e = Ok tt -> r' = Ok tt)) as Hnone.
    { intros e s' E1 E2. exists (Err e). split; [|done]. apply progress_none; [done|by left]. }
    do 2 swp_step; [by apply Hnone|]. do 2 swp_step. do 2 swp_step; [by apply Hnone|].
    eapply swp_mono; [by apply swp_loop|]. intros r s' [_ Hp]. exists r. split; [exact Hp|]. by intros ->.
  - intros r s' (r' & Hp & Hr). eapply swp_mono; [|intros r2 s'' Hx; right; apply and_assoc; split; [exact Hconn|exact Hx]].
    assert (forall s'', base s'' = base s' -> rows s'' = rows s' -> progress migration_files s s'' r') as Hkeep.
    { intros s'' E1 E2. unfold progress. by rewrite E1, E2. }
    assert (forall (r2 : Result unit) s'', base s'' = base s' -> rows s'' = rows s' -> released s'' = true ->
      released s'' = true /\ exists r', progress migration_files s s'' r' /\
        (match r2 with Ok _ => r | Err e => Err e end = Ok tt -> r' = Ok tt)) as Hend.
    { intros r2 s'' E1 E2 E3. split; [done|]. exists r'. split; [by apply Hkeep|]. by destruct r2. }
    do 3 swp_step. swp_step; [swp_step|swp_step]; swp_step; [by apply (Hend (Err e))|by apply (Hend (Ok tt))..].
Qed.

(** * Runs, one after the other *)

Lemma migrates_all_app l1 l2 b b1 b2 : migrates_all l1 b b1 -> migrates_all l2 b1 b2 -> migrates_all (l1 ++ l2) b b2.
Proof. intros Hm. revert b2. induction Hm; simpl; [done|]. intros b3 H3. eapply migrates_next; [done|auto]. Qed.

Lemma recorded_app l p f : recorded (l ++ map row_of (pending l p)) f = recorded l f || bool_decide (f ∈ p).
Proof.
  apply eq_true_iff_eq. unfold recorded at 1. rewrite existsb_app, !orb_true_iff. change (existsb _ l) with (recorded l f).
  rewrite !existsb_true, bool_decide_eq_true. split.
  - intros [?|(r & Hr & E)]; [by left|]. right. apply list_elem_of_fmap in Hr as (g & -> & Hg).
    rewrite bool_decide_eq_true in E. simpl in E. subst g. by apply elem_of_del in Hg as [? _].
  - intros [?|Hf]; [by left|]. destruct (recorded l f) eqn:E; [by left|right]. exists (row_of f).
    split; [|by apply bool_decide_eq_true]. apply list_elem_of_fmap. exists f. split; [done|]. by apply elem_of_del.
Qed.
Lemma pending_after l p q : (forall f, f ∈ q -> f ∉ p) -> pending (l ++ map row_of (pending l p)) q = pending l q.
Proof.
  intros Hq. induction q as [|f q IH]; [done|]. rewrite !pending_cons, recorded_app.
  rewrite (bool_decide_eq_false_2 (f ∈ p)), orb_false_r by (apply Hq; by left). rewrite IH; [done|]. intros g Hg. apply Hq. by right.
Qed.
Lemma pending_done l p q : (forall f, f ∈ q -> f ∈ p) -> pending (l ++ map row_of (pending l p)) q = [].
Proof.
  intros Hq. induction q as [|f q IH]; [done|]. rewrite pending_cons, recorded_app.
  rewrite (bool_decide_eq_true_2 (f ∈ p)), orb_true_r by (apply Hq; by left). apply IH. intros g Hg. apply Hq. by right.
Qed.

(** The session after any number of runs. *)
Definition reached (s s1 : Session D) : Prop := exists past rest, migration_files = past ++ rest /\
  rows s1 = rows s ++ map row_of (pending (rows s) past) /\
  ((forall f, f ∈ migration_files -> ~ stepwise f) -> migrates_all (pending (rows s) past) (base s) (base s1)).
Lemma reached_progress s s1 s2 r : NoDup readdir -> reached s s1 -> progress migration_files s1 s2 r -> reached s s2.
Proof.
  intros Hnd%NoDup_migration_files (p & rest1 & Ep & Er1 & Hm1) (q & rest2 & b & Eq & Er2 & Hm2 & _ & Hb).
  assert ((forall f, f ∈ migration_files -> ~ stepwise f) -> base s2 = b) as Hbase.
  { intros Hno. destruct r; [by destruct Hb|]. destruct Hb as [?|(f & rest' & Erest & Hst)]; [done|]. destruct (Hno f); [|done].
    rewrite Eq, Erest. apply elem_of_app. right. by left. }
  rewrite Ep in Eq. rewrite Er1 in Er2, Hm2. apply app_eq_inv in Eq as [(k & -> & ->)|(k & -> & ->)].
  - rewrite pending_done in Er2, Hm2 by (intros f Hf; apply elem_of_app; by left).
    exists (q ++ k), rest1. split_and!; [done|by rewrite Er2, app_nil_r|]. intros Hno. rewrite (Hbase Hno). inversion Hm2. by apply Hm1.
  - rewrite Ep in Hnd. apply NoDup_app in Hnd as (_ & Hdisj & _).
    assert (pending (rows s ++ map row_of (pending (rows s) p)) (p ++ k) = pending (rows s) k) as Epk.
    { rewrite pending_app, pending_done, pending_after; [done| |done]. intros f Hk Hp.
      apply (Hdisj f Hp), elem_of_app. by left. }
    rewrite Epk in Er2, Hm2.
    exists (p ++ k), rest2. rewrite pending_app, map_app. split_and!; [by rewrite Ep, <- app_assoc|by rewrite Er2, <- app_assoc|].
    intros Hno. rewrite (Hbase Hno). by eapply migrates_all_app; [apply Hm1|].
Qed.

Inductive runs (s : Session D) : Session D -> Prop :=
| runs_none : runs s s
| runs_more s1 s2 r : runs s s1 -> runMigrations s1 = (s2, r) -> runs s s2.
Lemma runs_reached s s1 : NoDup readdir -> runs s s1 -> reached s s1.
Proof.
  intros Hnd. induction 1 as [|s1 s2 r _ IH E].
  - exists [], migration_files. split_and!; [done|by rewrite app_nil_r|intros _; constructor].
  - pose proof (swp_runMigrations s1 Hnd) as Hr. unfold swp in Hr. rewrite E in Hr. simpl in Hr.
    destruct Hr as [(? & _ & _ & ->)|(_ & r' & Hp & _)]; [exact IH|by eapply reached_progress].
Qed.

Lemma settled_pending l p rest : NoDup readdir -> migration_files = p ++ rest ->
  (forall f, f ∈ migration_files -> settled (l ++ map row_of (pending l p)) f) -> pending l rest = [].
Proof.
  intros Hnd%NoDup_migration_files Ep Hset. rewrite Ep in Hnd, Hset. apply NoDup_app in Hnd as (_ & Hdisj & _).
  apply elem_of_nil_inv. intros f [Hf Hno]%elem_of_del.
  destruct (Hset f) as [[Hin Hn]%first_Some _]; [apply elem_of_app; by right|]. rewrite bool_decide_eq_true in Hn. simpl in Hn.
  assert (recorded (l ++ map row_of (pending l p)) f = true) as Hrec.
  { apply existsb_true. eexists. split; [exact Hin|]. by apply bool_decide_eq_true. }
  rewrite recorded_app, Hno in Hrec. apply bool_decide_eq_true in Hrec. by apply (Hdisj f Hrec).
Qed.

(** With nothing left to do and a connection that holds, nothing happens. *)
Definition sound_from (n : nat) : Prop := forall k, (n <= k)%nat -> query_fails k = None /\ connect_fails k = None.
Definition idle (s : Session D) (r : Result unit) (s' : Session D) : Prop :=
  r = Ok tt /\ base s' = base s /\ rows s' = rows s /\ (queries s <= queries s')%nat.
Lemma swp_query_sound Q s : query_fails (queries s) = None -> Q (Ok tt) (s <| queries ::= S |>) -> swp query_ Q s.
Proof. intros Hs HQ. unfold swp, query_. simpl. by rewrite Hs. Qed.
Lemma sound_more n m : sound_from n -> (n <= m)%nat -> sound_from m.
Proof. intros Hs Hm k Hk. apply Hs. lia. Qed.

Lemma swp_applyFile_idle f s : settled (rows s) f -> sound_from (queries s) -> swp (applyFile f) (idle s) s.
Proof.
  intros [Hrow Hok] Hs. unfold applyFile. unfold form_of in Hok. unfold row_of, checksum_of in Hrow.
  destruct (readFile f) as [message|sql] eqn:Ef; [done|]. do 2 swp_step. destruct (parseMigration sql) as [m|]; [|done].
  swp_step. apply swp_query_sound; [by apply Hs|]. do 2 swp_step. simpl. rewrite Hrow. simpl.
  rewrite bool_decide_eq_true_2 by done. swp_step. by unfold idle; simpl; split_and!; [| | |lia].
Qed.
Lemma swp_loop_idle files s : (forall f, f ∈ files -> settled (rows s) f) -> sound_from (queries s) ->
  swp (for_each_ files applyFile) (idle s) s.
Proof.
  revert s. induction files as [|f files IH]; intros s Hset Hs; simpl; [by swp_step; unfold idle; split_and!|].
  swp_step. eapply swp_mono; [apply swp_applyFile_idle; [apply Hset; by left|done]|]. intros r s1 (-> & E1 & E2 & Hq).
  eapply swp_mono; [apply IH|].
  - intros g Hg. rewrite E2. apply Hset. by right.
  - by eapply sound_more.
  - intros r s2 (-> & E3 & E4 & Hq2). unfold idle. split_and!; [done|congruence|congruence|lia].
Qed.
Lemma swp_connect_sound Q s : connect_fails (queries s) = None -> Q (Ok tt) (s <| queries ::= S |>) -> swp connect Q s.
Proof. intros Hs HQ. unfold swp, connect, step. simpl. by rewrite Hs. Qed.
Lemma swp_run_idle s : (forall f, f ∈ migration_files -> settled (rows s) f) -> sound_from (queries s) ->
  swp runMigrations (fun r s' => r = Ok tt /\ base s' = base s /\ rows s' = rows s) s.
Proof.
  intros Hset Hs. unfold runMigrations. swp_step. apply swp_connect_sound; [by apply Hs|]. do 2 swp_step. do 2 swp_step.
  apply swp_query_sound; [by apply Hs; simpl; lia|]. do 2 swp_step. swp_step. apply swp_query_sound; [by apply Hs; simpl; lia|].
  eapply swp_mono; [apply swp_loop_idle; [exact Hset|eapply sound_more; [exact Hs|simpl; lia]]|].
  intros r s1 (-> & E1 & E2 & Hq). simpl in E1, E2, Hq. do 3 swp_step. swp_step.
  - apply swp_query_sound; [by apply Hs; lia|]. by swp_step.
  - do 2 swp_step. done.
Qed.

(** C39: the record of migrations is true.  Whatever fails, a run goes through
    the files in the order of their names up to some point: those not recorded
    before were applied one after the other, each to what the one before left, and
    exactly they are added to the record; a file that fails inside its transaction
    leaves no trace, and only an index built outside one can.  A run that succeeds
    has come to the end, with every file recorded under its present checksum.  The
    client is given back however the run ends, unless there is none because
    connecting failed, and then nothing was done. *)
Theorem migrations_recorded s s' r :
  NoDup readdir -> runMigrations s = (s', r) ->
  (exists past rest b, migration_files = past ++ rest /\
     rows s' = rows s ++ map row_of (pending (rows s) past) /\ migrates_all (pending (rows s) past) (base s) b /\
     (base s' = b \/ exists f rest', rest = f :: rest' /\ stepwise f) /\
     (r = Ok tt -> rest = [] /\ base s' = b)) /\
  (r = Ok tt -> forall f, f ∈ migration_files -> settled (rows s') f) /\
  match connect_fails (queries s) with
  | None => released s' = true
  | Some message => r = Err (mkExn PlainError message) /\ s' = s <| queries ::= S |>
  end.
Proof.
  intros Hnd E. pose proof (swp_runMigrations s Hnd) as Hr. unfold swp in Hr. rewrite E in Hr. simpl in Hr.
  destruct Hr as [(message & -> & -> & ->)|([-> Hrel] & r' & (past & rest & b & Ef & Erows & Hm & Hset & Hend) & Hr)].
  - split; [|by split]. exists [], migration_files, (base s). simpl. rewrite app_nil_r.
    split_and!; [done|done|constructor|by left|done].
  - split; [|split; [|exact Hrel]].
    + exists past, rest, b. split_and!; [done..| |].
      * destruct r'; [left; by apply Hend|done].
      * intros ->. by rewrite (Hr eq_refl) in Hend.
    + intros -> f Hf. rewrite (Hr eq_refl) in Hend. destruct Hend as [-> _]. rewrite app_nil_r in Ef. apply Hset. congruence.
Qed.

(** C40: interrupted runs add up.  However many runs came before and wherever
    they broke off, once one succeeds the record is what a single run would have
    made of the first state, and so is the database when every file runs in a
    transaction; and another run over a connection that holds succeeds without
    changing anything. *)
Theorem migrations_resume s s1 s2 :
  NoDup readdir -> runs s s1 -> runMigrations s1 = (s2, Ok tt) ->
  rows s2 = rows s ++ map row_of (pending (rows s) migration_files) /\
  ((forall f, f ∈ migration_files -> ~ stepwise f) ->
   migrates_all (pending (rows s) migration_files) (base s) (base s2)) /\
  (sound_from (queries s2) ->
   exists s3, runMigrations s2 = (s3, Ok tt) /\ base s3 = base s2 /\ rows s3 = rows s2).
Proof.
  intros Hnd Hruns E. pose proof (swp_runMigrations s1 Hnd) as Hr. unfold swp in Hr. rewrite E in Hr. simpl in Hr.
  destruct Hr as [(? & _ & ? & _)|(_ & r' & Hp & Hr)]; [done|]. rewrite (Hr eq_refl) in Hp.
  destruct (reached_progress _ _ _ _ Hnd (runs_reached _ _ Hnd Hruns) Hp) as (p & rest & Ep & Er & Hm).
  assert (forall f, f ∈ migration_files -> settled (rows s2) f) as Hset.
  { destruct Hp as (q & rest' & b & Eq & _ & _ & Hset & -> & _). rewrite app_nil_r in Eq. rewrite Eq. exact Hset. }
  assert (pending (rows s) rest = []) as Erest by (by apply (settled_pending (rows s) p); [| |rewrite <- Er]).
  rewrite Ep, pending_app, Erest, app_nil_r. split_and!; [done|by intros Hno; apply Hm; rewrite Ep|].
  intros Hs. pose proof (swp_run_idle s2 Hset Hs) as Hidle. unfold swp in Hidle.
  destruct (runMigrations s2) as [s3 r3]. simpl in Hidle. destruct Hidle as (-> & ? & ?). by exists s3.
Qed.
End migrations.

(** * Witnesses *)

Section witnesses.
(** A server that remembers what it ran, and the indexes it was asked to build. *)
Definition test_server : PgServer (list jstr * list (jstr * IndexState)) := {|
  exec_sql sql b :=
    (if startsWith nonTransactionalHeader sql
     then (b.1, (js "probe_idx", mkIndexState true true None) :: b.2) else (b.1 ++ [sql], b.2), None);
  index_state b name := snd <$> first (fun p => p.1 =?? name) b.2;
  drop_index name b := (b.1, del (fun p => p.1 =?? name) b.2);
  comment_index name marker b := (b.1, (name, mkIndexState true true (Some marker)) :: b.2)
|}.
Definition index_file : jstr :=
  nonTransactionalHeader ++ [10%N] ++ js "create index concurrently if not exists probe_idx on probe (id);".

(** A directory out of order, and a connection that breaks at one request. *)
Definition test_host (files : list jstr) (broken : nat) : MigrationHost := {|
  connect_fails _ := None;
  query_fails n := if Nat.eqb n broken then Some (js "Connection terminated") else None;
  readdir := files;
  readFile f := inr (if f =?? js "3.sql" then index_file else js "create " ++ f);
  sha256 s := s
|}.
Definition fresh_session : Session (list jstr * list (jstr * IndexState)) := mkSession ([], []) [] 0 false false false.

(** The connection breaks while the index is being marked: the tables are
    recorded, the index is not. *)
Definition marking_host : MigrationHost := test_host [js "2.sql"; js "notes"; js "1.sql"; js "3.sql"] 17.
(** It breaks before the second table; the next run finishes. *)
Definition tables_host : MigrationHost := test_host [js "2.sql"; js "1.sql"] 9.
Local Existing Instances test_server.

Lemma migrations_recorded_witness : let host := marking_host in exists s r,
  runMigrations fresh_session = (s, r) /\ r = Err (mkExn PlainError (js "Connection terminated")) /\
  map row_name (rows s) = [js "1.sql"; js "2.sql"] /\ base s <> base fresh_session /\
  exists past rest b, migration_files = past ++ rest /\ migrates_all (pending [] past) (base fresh_session) b.
Proof.
  intros host. exists (runMigrations fresh_session).1, (runMigrations fresh_session).2.
  assert (NoDup readdir) as Hnd by (apply (bool_decide_unpack _); vm_compute; exact I).
  split; [apply surjective_pairing|]. split; [vm_compute; reflexivity|]. split; [vm_compute; reflexivity|].
  split; [vm_compute; discriminate|].
  destruct (migrations_recorded fresh_session _ _ Hnd (surjective_pairing _)) as ((past & rest & b & E & _ & Hm & _) & _).
  by exists past, rest, b.
Defined.

Lemma migrations_resume_witness : let host := tables_host in exists s1 s2 s3,
  runMigrations fresh_session = (s1, Err (mkExn PlainError (js "Connection terminated"))) /\
  runMigrations s1 = (s2, Ok tt) /\ rows s2 = rows fresh_session ++ map row_of (pending (rows fresh_session) migration_files) /\
  runMigrations s2 = (s3, Ok tt) /\ base s3 = base s2.
Proof.
  intros host. set (s1 := (runMigrations fresh_session).1). set (s2 := (runMigrations s1).1).
  assert (NoDup readdir) as Hnd by (apply (bool_decide_unpack _); vm_compute; exact I).
  assert (runMigrations fresh_session = (s1, Err (mkExn PlainError (js "Connection terminated")))) as E1 by (vm_compute; reflexivity).
  assert (runMigrations s1 = (s2, Ok tt)) as E2 by (vm_compute; reflexivity).
  destruct (migrations_resume fresh_session s1 s2 Hnd (runs_more _ _ _ _ (runs_none _) E1) E2) as (Hrows & _ & Hagain).
  destruct Hagain as (s3 & E3 & Hb & _).
  - intros k Hk. split; [|done]. assert (9 < k)%nat as H9 by (vm_compute in Hk; lia). simpl.
    rewrite (proj2 (Nat.eqb_neq k 9)); [done|lia].
  - exists s1, s2, s3. exact (conj E1 (conj E2 (conj Hrows (conj E3 Hb)))).
Defined.
End witnesses.

(** The form of an index file. *)
Example index_name_read :
  parseConcurrentIndex (nonTransactionalHeader ++ [10%N]
    ++ js "CREATE UNIQUE INDEX CONCURRENTLY IF NOT EXISTS Idx_1 ON t (a DESC , b) WHERE a IS NOT NULL AND b is null ;") = Ok (js "idx_1").
Proof. vm_compute. reflexivity. Qed.
Example index_comment_refused :
  parseConcurrentIndex (nonTransactionalHeader ++ [10%N] ++ js "CREATE INDEX CONCURRENTLY IF NOT EXISTS i ON t (a); -- done")
  = Err (mkExn PlainError (js "unsupported non-transactional SQL comment")).
Proof. vm_compute. reflexivity. Qed.
