(* ===== verification/Constraints.v ===== *)
(** The constraints of every table the components write, from schema.ts and the
    migrations that add CHECKs: primary keys, UNIQUE constraints, CHECKs and
    foreign keys, as the [Table] instance the statements of World.v consult.
    Lengths of varchar columns are not modelled. *)
From S2P Require Import Prelude JsString JsDate Schema World.
Local Open Scope Z_scope.

(** The first constraint that fails, if any. *)
Fixpoint violated (l : list (bool * Exn)) : option Exn :=
  match l with
  | [] => None
  | (ok, e) :: l' => if ok then violated l' else Some e
  end.
Definition CHECK (ok : bool) : bool * Exn := (ok, CHECK_VIOLATION).
Definition REFERENCES (ok : bool) : bool * Exn := (ok, FOREIGN_KEY_VIOLATION).

(** Two NULLs never conflict. *)
Definition same_not_null (a b : option jstr) : bool :=
  match a, b with Some x, Some y => x =?? y | _, _ => false end.

(** ** Referenced rows *)
Definition user_exists (d : Db) (id : jstr) : bool :=
  existsb (fun u => users.userId u =?? id) (users d).
Definition room_exists (d : Db) (id : jstr) : bool :=
  existsb (fun r => rooms.id r =?? id) (rooms d).
Definition message_exists (d : Db) (id : jstr) : bool :=
  existsb (fun r => messages.id r =?? id) (messages d).
Definition post_exists (d : Db) (id : jstr) : bool :=
  existsb (fun r => communityPosts.id r =?? id) (communityPosts d).
Definition comment_exists (d : Db) (id : jstr) : bool :=
  existsb (fun r => communityComments.id r =?? id) (communityComments d).
Definition upload_exists (d : Db) (id : jstr) : bool :=
  existsb (fun r => profileUploads.id r =?? id) (profileUploads d).
Definition verification_exists (d : Db) (id : jstr) : bool :=
  existsb (fun r => phoneVerifications.id r =?? id) (phoneVerifications d).
Definition notification_exists (d : Db) (id : jstr) : bool :=
  existsb (fun r => notifications.id r =?? id) (notifications d).
Definition pushToken_exists (d : Db) (id : jstr) : bool :=
  existsb (fun r => pushTokens.id r =?? id) (pushTokens d).
Definition billingEvent_exists (d : Db) (providerEventId : jstr) : bool :=
  existsb (fun r => billingEvents.providerEventId r =?? providerEventId) (billingEvents d).
Definition transaction_exists (d : Db) (id : jstr) : bool :=
  existsb (fun r => revenueCatTransactions.id r =?? id) (revenueCatTransactions d).
Definition opt_ref (f : jstr -> bool) (o : option jstr) : bool := if o is Some x then f x else true.

(** ** Accounts *)

Definition users_conflict (a b : User) : bool :=
  (users.userId a =?? users.userId b) || (users.email a =?? users.email b)
  || same_not_null (users.phone a) (users.phone b).
#[export] Instance users_table : Table users :=
  {| conflicts := users_conflict; insertable _ _ := None |}.

Definition refreshTokens_conflict (a b : RefreshToken) : bool :=
  (refreshTokens.id a =?? refreshTokens.id b)
  || ((refreshTokens.userId a =?? refreshTokens.userId b)
      && (refreshTokens.deviceId a =?? refreshTokens.deviceId b)).
#[export] Instance refreshTokens_table : Table refreshTokens :=
  {| conflicts := refreshTokens_conflict;
     insertable d r := violated [REFERENCES (user_exists d (refreshTokens.userId r))] |}.

Definition authIdentities_conflict (a b : AuthIdentity) : bool :=
  (authIdentities.id a =?? authIdentities.id b)
  || ((authIdentities.provider a =?? authIdentities.provider b)
      && (authIdentities.providerUserId a =?? authIdentities.providerUserId b)).
#[export] Instance authIdentities_table : Table authIdentities :=
  {| conflicts := authIdentities_conflict;
     insertable d r := violated [REFERENCES (user_exists d (authIdentities.userId r))] |}.

Definition phoneVerifications_conflict (a b : PhoneVerification) : bool :=
  phoneVerifications.id a =?? phoneVerifications.id b.
#[export] Instance phoneVerifications_table : Table phoneVerifications :=
  {| conflicts := phoneVerifications_conflict; insertable _ _ := None |}.

Definition phoneVerificationTokens_conflict (a b : PhoneVerificationToken) : bool :=
  phoneVerificationTokens.tokenHash a =?? phoneVerificationTokens.tokenHash b.
#[export] Instance phoneVerificationTokens_table : Table phoneVerificationTokens :=
  {| conflicts := phoneVerificationTokens_conflict;
     insertable d r :=
       violated [REFERENCES (verification_exists d (phoneVerificationTokens.verificationId r))] |}.

Definition kakaoPhoneVerificationTokens_conflict (a b : KakaoPhoneVerificationToken) : bool :=
  kakaoPhoneVerificationTokens.tokenHash a =?? kakaoPhoneVerificationTokens.tokenHash b.
#[export] Instance kakaoPhoneVerificationTokens_table : Table kakaoPhoneVerificationTokens :=
  {| conflicts := kakaoPhoneVerificationTokens_conflict;
     insertable d r :=
       violated [REFERENCES (opt_ref (user_exists d) (kakaoPhoneVerificationTokens.userId r))] |}.

(** ** Matching *)

Definition rooms_conflict (a b : Room) : bool := rooms.id a =?? rooms.id b.
#[export] Instance rooms_table : Table rooms :=
  {| conflicts := rooms_conflict; insertable _ _ := None |}.

Definition roomMembers_conflict (a b : RoomMember) : bool :=
  (roomMembers.roomId a =?? roomMembers.roomId b) && (roomMembers.userId a =?? roomMembers.userId b).
#[export] Instance roomMembers_table : Table roomMembers :=
  {| conflicts := roomMembers_conflict;
     insertable d r := violated [REFERENCES (room_exists d (roomMembers.roomId r));
                                 REFERENCES (user_exists d (roomMembers.userId r))] |}.

Definition userLikes_conflict (a b : UserLike) : bool :=
  (userLikes.likerUserId a =?? userLikes.likerUserId b)
  && (userLikes.likedUserId a =?? userLikes.likedUserId b).
#[export] Instance userLikes_table : Table userLikes :=
  {| conflicts := userLikes_conflict;
     insertable d r :=
       violated [CHECK (negb (userLikes.likerUserId r =?? userLikes.likedUserId r));
                 REFERENCES (user_exists d (userLikes.likerUserId r));
                 REFERENCES (user_exists d (userLikes.likedUserId r))] |}.

Definition matchActions_active_pair (a b : MatchAction) : bool :=
  (matchActions.actorUserId a =?? matchActions.actorUserId b)
  && (matchActions.targetUserId a =?? matchActions.targetUserId b)
  && is_null (matchActions.revertedAt a) && is_null (matchActions.revertedAt b).
Definition matchActions_conflict (a b : MatchAction) : bool :=
  (matchActions.id a =?? matchActions.id b) || matchActions_active_pair a b.
#[export] Instance matchActions_table : Table matchActions :=
  {| conflicts := matchActions_conflict;
     insertable d r :=
       violated [CHECK (negb (matchActions.actorUserId r =?? matchActions.targetUserId r));
                 REFERENCES (user_exists d (matchActions.actorUserId r));
                 REFERENCES (user_exists d (matchActions.targetUserId r))] |}.

Definition matches_conflict (a b : Match) : bool :=
  ((matches.userLowId a =?? matches.userLowId b) && (matches.userHighId a =?? matches.userHighId b))
  || (matches.roomId a =?? matches.roomId b).
#[export] Instance matches_table : Table matches :=
  {| conflicts := matches_conflict;
     insertable d r :=
       violated [CHECK (negb (matches.userLowId r =?? matches.userHighId r));
                 REFERENCES (user_exists d (matches.userLowId r));
                 REFERENCES (user_exists d (matches.userHighId r));
                 REFERENCES (room_exists d (matches.roomId r))] |}.

Definition userLikedMeAccesses_conflict (a b : UserLikedMeAccess) : bool :=
  (userLikedMeAccesses.userId a =?? userLikedMeAccesses.userId b)
  && (userLikedMeAccesses.periodStart a =?? userLikedMeAccesses.periodStart b).
#[export] Instance userLikedMeAccesses_table : Table userLikedMeAccesses :=
  {| conflicts := userLikedMeAccesses_conflict;
     insertable d r := violated [CHECK (0 <=? userLikedMeAccesses.viewedCount r);
                                 REFERENCES (user_exists d (userLikedMeAccesses.userId r))] |}.

Definition userBoosts_conflict (a b : UserBoost) : bool := userBoosts.id a =?? userBoosts.id b.
#[export] Instance userBoosts_table : Table userBoosts :=
  {| conflicts := userBoosts_conflict;
     insertable d r := violated [CHECK (userBoosts.startsAt r <? userBoosts.endsAt r);
                                 REFERENCES (user_exists d (userBoosts.userId r))] |}.

(** ** Billing *)

Definition userSubscriptions_conflict (a b : UserSubscription) : bool :=
  (userSubscriptions.id a =?? userSubscriptions.id b)
  || ((userSubscriptions.userId a =?? userSubscriptions.userId b)
      && same_not_null (userSubscriptions.provider a) (userSubscriptions.provider b)).
Definition planIds : list jstr := [js "free"; js "basic"; js "gold"; js "black"].
Definition subscriptionStatuses : list jstr := [js "active"; js "canceled"; js "expired"].
#[export] Instance userSubscriptions_table : Table userSubscriptions :=
  {| conflicts := userSubscriptions_conflict;
     insertable d r :=
       violated [CHECK (bool_decide (userSubscriptions.planId r ∈ planIds));
                 CHECK (bool_decide (userSubscriptions.status r ∈ subscriptionStatuses));
                 REFERENCES (user_exists d (userSubscriptions.userId r))] |}.

(** Migration 0012 drops the CHECKs that kept the credits non-negative. *)
Definition userConsumableBalances_conflict (a b : UserConsumableBalance) : bool :=
  userConsumableBalances.userId a =?? userConsumableBalances.userId b.
#[export] Instance userConsumableBalances_table : Table userConsumableBalances :=
  {| conflicts := userConsumableBalances_conflict;
     insertable d r := violated [REFERENCES (user_exists d (userConsumableBalances.userId r))] |}.

Definition billingEvents_conflict (a b : BillingEvent) : bool :=
  (billingEvents.id a =?? billingEvents.id b)
  || (billingEvents.providerEventId a =?? billingEvents.providerEventId b).
#[export] Instance billingEvents_table : Table billingEvents :=
  {| conflicts := billingEvents_conflict; insertable _ _ := None |}.

Definition revenueCatTransactions_conflict (a b : RevenueCatTransaction) : bool :=
  (revenueCatTransactions.id a =?? revenueCatTransactions.id b)
  || ((revenueCatTransactions.provider a =?? revenueCatTransactions.provider b)
      && (revenueCatTransactions.providerTransactionId a
          =?? revenueCatTransactions.providerTransactionId b)).
#[export] Instance revenueCatTransactions_table : Table revenueCatTransactions :=
  {| conflicts := revenueCatTransactions_conflict;
     insertable d r :=
       violated [CHECK ((0 <=? revenueCatTransactions.superLikeUnits r)
                        && (0 <=? revenueCatTransactions.boostUnits r));
                 CHECK ((0 <? revenueCatTransactions.superLikeUnits r)
                        || (0 <? revenueCatTransactions.boostUnits r));
                 REFERENCES (user_exists d (revenueCatTransactions.userId r))] |}.

Definition revenueCatTransactionLedger_conflict (a b : RevenueCatTransactionLedgerEntry) : bool :=
  (revenueCatTransactionLedger.id a =?? revenueCatTransactionLedger.id b)
  || (revenueCatTransactionLedger.providerEventId a =?? revenueCatTransactionLedger.providerEventId b).
#[export] Instance revenueCatTransactionLedger_table : Table revenueCatTransactionLedger :=
  {| conflicts := revenueCatTransactionLedger_conflict;
     insertable d r :=
       violated [REFERENCES (billingEvent_exists d (revenueCatTransactionLedger.providerEventId r));
                 REFERENCES (transaction_exists d
                               (revenueCatTransactionLedger.revenuecatTransactionId r))] |}.

(** ** Notifications *)

Definition notifications_conflict (a b : Notification) : bool := notifications.id a =?? notifications.id b.
#[export] Instance notifications_table : Table notifications :=
  {| conflicts := notifications_conflict;
     insertable d r := violated [REFERENCES (user_exists d (notifications.userId r))] |}.

Definition pushTokens_conflict (a b : PushToken) : bool :=
  (pushTokens.id a =?? pushTokens.id b) || (pushTokens.token a =?? pushTokens.token b)
  || ((pushTokens.userId a =?? pushTokens.userId b) && (pushTokens.deviceId a =?? pushTokens.deviceId b)).
#[export] Instance pushTokens_table : Table pushTokens :=
  {| conflicts := pushTokens_conflict;
     insertable d r :=
       violated [CHECK (bool_decide (pushTokens.platform r ∈ [js "ios"; js "android"]));
                 REFERENCES (user_exists d (pushTokens.userId r))] |}.

Definition pushOutbox_conflict (a b : PushOutbox) : bool :=
  (pushOutbox.id a =?? pushOutbox.id b)
  || ((pushOutbox.notificationId a =?? pushOutbox.notificationId b)
      && same_not_null (pushOutbox.pushTokenId a) (pushOutbox.pushTokenId b))
  || same_not_null (pushOutbox.ticketId a) (pushOutbox.ticketId b).
#[export] Instance pushOutbox_table : Table pushOutbox :=
  {| conflicts := pushOutbox_conflict;
     insertable d r :=
       violated [CHECK ((0 <=? pushOutbox.sendAttempts r) && (0 <=? pushOutbox.receiptAttempts r));
                 REFERENCES (notification_exists d (pushOutbox.notificationId r));
                 REFERENCES (opt_ref (pushToken_exists d) (pushOutbox.pushTokenId r))] |}.

(** ** Uploads *)

Definition profileUploads_conflict (a b : ProfileUpload) : bool :=
  (profileUploads.id a =?? profileUploads.id b)
  || (profileUploads.stagingKey a =?? profileUploads.stagingKey b)
  || same_not_null (profileUploads.finalKey a) (profileUploads.finalKey b).
(** The CHECKs of migrations 0014 and 0015b. *)
Definition profileUploads_check (r : ProfileUpload) : bool :=
  ((1 <=? profileUploads.expectedSizeBytes r) && (profileUploads.expectedSizeBytes r <=? 10485760))
  && (if profileUploads.finalSizeBytes r is Some n then 0 <? n else true)
  && (0 <=? profileUploads.cleanupAttempts r)
  && (negb (profileUploads.status r =?? verified)
      || (is_not_null (profileUploads.finalKey r) && is_not_null (profileUploads.finalContentType r)
          && is_not_null (profileUploads.finalSizeBytes r) && is_not_null (profileUploads.publicUrl r)
          && is_not_null (profileUploads.verifiedAt r)))
  && ((is_null (profileUploads.finalDeletionPendingAt r) && is_null (profileUploads.finalDeletedAt r))
      || (is_not_null (profileUploads.finalDeletionPendingAt r)
          && (is_not_null (profileUploads.finalKey r) || is_not_null (profileUploads.finalDeletedAt r)))).
#[export] Instance profileUploads_table : Table profileUploads :=
  {| conflicts := profileUploads_conflict;
     insertable d r := violated [CHECK (profileUploads_check r);
                                 REFERENCES (user_exists d (profileUploads.userId r))] |}.

Definition userProfilePhotos_conflict (a b : UserProfilePhoto) : bool :=
  (userProfilePhotos.id a =?? userProfilePhotos.id b)
  || ((userProfilePhotos.userId a =?? userProfilePhotos.userId b)
      && (userProfilePhotos.position a =?? userProfilePhotos.position b))
  || same_not_null (userProfilePhotos.uploadId a) (userProfilePhotos.uploadId b).
#[export] Instance userProfilePhotos_table : Table userProfilePhotos :=
  {| conflicts := userProfilePhotos_conflict;
     insertable d r :=
       violated [CHECK ((0 <=? userProfilePhotos.position r) && (userProfilePhotos.position r <=? 2));
                 REFERENCES (user_exists d (userProfilePhotos.userId r));
                 REFERENCES (opt_ref (upload_exists d) (userProfilePhotos.uploadId r))] |}.

(** ** Chat *)

Definition messages_key (a b : Message) : bool :=
  (messages.roomId a =?? messages.roomId b)
  && same_not_null (messages.senderUserId a) (messages.senderUserId b)
  && same_not_null (messages.idempotencyKey a) (messages.idempotencyKey b).
Definition messages_conflict (a b : Message) : bool :=
  (messages.id a =?? messages.id b) || messages_key a b.
(** [char_length] counts code points; the key is stored trimmed and non-empty. *)
Definition messages_check (r : Message) : bool :=
  (Nat.leb (length (code_points (messages.text r))) 90)
  && (if messages.idempotencyKey r is Some k
      then (Nat.leb 1 (length (code_points k))) && (Nat.leb (length (code_points k)) 128) && (k =?? trim k)
      else true).
#[export] Instance messages_table : Table messages :=
  {| conflicts := messages_conflict;
     insertable d r :=
       violated [CHECK (messages_check r);
                 REFERENCES (room_exists d (messages.roomId r));
                 REFERENCES (opt_ref (user_exists d) (messages.senderUserId r))] |}.

Definition readReceipts_conflict (a b : ReadReceipt) : bool :=
  (readReceipts.roomId a =?? readReceipts.roomId b) && (readReceipts.userId a =?? readReceipts.userId b).
#[export] Instance readReceipts_table : Table readReceipts :=
  {| conflicts := readReceipts_conflict;
     insertable d r :=
       violated [REFERENCES (room_exists d (readReceipts.roomId r));
                 REFERENCES (user_exists d (readReceipts.userId r));
                 REFERENCES (opt_ref (message_exists d) (readReceipts.lastReadMessageId r))] |}.

Definition userBlocks_conflict (a b : UserBlock) : bool :=
  (userBlocks.blockerUserId a =?? userBlocks.blockerUserId b)
  && (userBlocks.blockedUserId a =?? userBlocks.blockedUserId b).
#[export] Instance userBlocks_table : Table userBlocks :=
  {| conflicts := userBlocks_conflict;
     insertable d r :=
       violated [CHECK (negb (userBlocks.blockerUserId r =?? userBlocks.blockedUserId r));
                 REFERENCES (user_exists d (userBlocks.blockerUserId r));
                 REFERENCES (user_exists d (userBlocks.blockedUserId r))] |}.

Definition messageReports_conflict (a b : MessageReport) : bool :=
  (messageReports.id a =?? messageReports.id b)
  || ((messageReports.messageId a =?? messageReports.messageId b)
      && (messageReports.reporterUserId a =?? messageReports.reporterUserId b)).
#[export] Instance messageReports_table : Table messageReports :=
  {| conflicts := messageReports_conflict;
     insertable d r :=
       violated [REFERENCES (message_exists d (messageReports.messageId r));
                 REFERENCES (user_exists d (messageReports.reporterUserId r))] |}.

(** ** Community *)

Definition communityPosts_conflict (a b : CommunityPost) : bool :=
  communityPosts.id a =?? communityPosts.id b.
#[export] Instance communityPosts_table : Table communityPosts :=
  {| conflicts := communityPosts_conflict;
     insertable d r :=
       violated [CHECK (Nat.leb (length (code_points (communityPosts.title r))) 80);
                 CHECK (Nat.leb (length (code_points (communityPosts.body r))) 1000);
                 REFERENCES (user_exists d (communityPosts.authorUserId r))] |}.

Definition communityComments_conflict (a b : CommunityComment) : bool :=
  communityComments.id a =?? communityComments.id b.
#[export] Instance communityComments_table : Table communityComments :=
  {| conflicts := communityComments_conflict;
     insertable d r :=
       violated [CHECK (Nat.leb (length (code_points (communityComments.body r))) 500);
                 REFERENCES (post_exists d (communityComments.postId r));
                 REFERENCES (user_exists d (communityComments.authorUserId r))] |}.

Definition communityPostReports_pair (a b : CommunityPostReport) : bool :=
  (communityPostReports.postId a =?? communityPostReports.postId b)
  && (communityPostReports.reporterUserId a =?? communityPostReports.reporterUserId b).
#[export] Instance communityPostReports_table : Table communityPostReports :=
  {| conflicts a b := (communityPostReports.id a =?? communityPostReports.id b)
                      || communityPostReports_pair a b;
     insertable d r :=
       violated [CHECK (Nat.leb (length (code_points (communityPostReports.reason r))) 120);
                 REFERENCES (post_exists d (communityPostReports.postId r));
                 REFERENCES (user_exists d (communityPostReports.reporterUserId r))] |}.

Definition communityCommentReports_pair (a b : CommunityCommentReport) : bool :=
  (communityCommentReports.commentId a =?? communityCommentReports.commentId b)
  && (communityCommentReports.reporterUserId a =?? communityCommentReports.reporterUserId b).
#[export] Instance communityCommentReports_table : Table communityCommentReports :=
  {| conflicts a b := (communityCommentReports.id a =?? communityCommentReports.id b)
                      || communityCommentReports_pair a b;
     insertable d r :=
       violated [REFERENCES (comment_exists d (communityCommentReports.commentId r));
                 REFERENCES (user_exists d (communityCommentReports.reporterUserId r))] |}.

(** * Deletes with referential actions *)

Definition del_by {R} (t : Db -> list R) `{!Setter t} (p : R -> bool) (d : Db) : Db := upd t (del p) d.

(** A room takes its members, messages, receipts and match with it, a message
    its reports (migration 0004). *)
Definition cascade_rooms (p : Room -> bool) (d : Db) : Db :=
  let gone (id : jstr) := existsb (fun r => p r && (rooms.id r =?? id)) (rooms d) in
  let gone_message (id : jstr) :=
    existsb (fun m => gone (messages.roomId m) && (messages.id m =?? id)) (messages d) in
  let d := del_by messageReports (fun r => gone_message (messageReports.messageId r)) d in
  let d := upd readReceipts (mapif (fun r => opt_ref gone_message (readReceipts.lastReadMessageId r))
                              (fun r => r <| readReceipts.lastReadMessageId := None |>)) d in
  let d := del_by readReceipts (fun r => gone (readReceipts.roomId r)) d in
  let d := del_by messages (fun r => gone (messages.roomId r)) d in
  let d := del_by roomMembers (fun r => gone (roomMembers.roomId r)) d in
  let d := del_by matches (fun r => gone (matches.roomId r)) d in
  del_by rooms p d.
Definition delete_rooms (p : Room -> bool) : M unit := put_db (cascade_rooms p).

(** A notification takes its outbox rows with it (migration 0013). *)
Definition cascade_notifications (p : Notification -> bool) (d : Db) : Db :=
  let gone (id : jstr) := existsb (fun r => p r && (notifications.id r =?? id)) (notifications d) in
  del_by notifications p (del_by pushOutbox (fun r => gone (pushOutbox.notificationId r)) d).
Definition delete_notifications (p : Notification -> bool) : M unit := put_db (cascade_notifications p).

(** An outbox row outlives its push token, with a NULL reference (migration 0013). *)
Definition cascade_pushTokens (p : PushToken -> bool) (d : Db) : Db :=
  let gone (id : jstr) := existsb (fun r => p r && (pushTokens.id r =?? id)) (pushTokens d) in
  del_by pushTokens p
    (upd pushOutbox (mapif (fun r => opt_ref gone (pushOutbox.pushTokenId r) && is_not_null (pushOutbox.pushTokenId r))
                       (fun r => r <| pushOutbox.pushTokenId := None |>)) d).
Definition delete_pushTokens (p : PushToken -> bool) : M unit := put_db (cascade_pushTokens p).

(** A verification that has issued a token cannot be deleted. *)
Definition delete_phoneVerifications (p : PhoneVerification -> bool) : M unit :=
  d ← get_db;
  if existsb (fun t => existsb (fun v => p v && (phoneVerifications.id v =?? phoneVerificationTokens.verificationId t))
                         (phoneVerifications d)) (phoneVerificationTokens d)
  then raise FOREIGN_KEY_VIOLATION
  else delete_from phoneVerifications p.

(** Writing back the rows a table has does not change the database. *)
Class TableLaw {R} (t : Db -> list R) `{!Setter t} : Prop := upd_same : forall g d, g (t d) = t d -> upd t g d = d.
#[export] Hint Extern 1 (TableLaw _) =>
  (let g := fresh in let d := fresh in let E := fresh in
   intros g d; destruct d; unfold upd; simpl; intros E; rewrite E; reflexivity) : typeclass_instances.

Lemma update_none {R} (t : Db -> list R) `{!Setter t} `{!TableLaw t} p f d :
  (forall r, r ∈ t d -> p r = false) -> upd t (mapif p f) d = d.
Proof. intros Hn. apply upd_same. by apply mapif_id. Qed.
Lemma delete_none {R} (t : Db -> list R) `{!Setter t} `{!TableLaw t} p d :
  (forall r, r ∈ t d -> p r = false) -> upd t (del p) d = d.
Proof. intros Hn. apply upd_same. by apply del_none. Qed.

(** Read a table through the updates of a statement. *)
Ltac tables := repeat match goal with
  | |- context [?t (@upd Db _ ?s ?i ?f ?d)] =>
      first [ change (t (@upd Db _ s i f d)) with (f (t d)) | change (t (@upd Db _ s i f d)) with (t d) ]
  end; cbv beta.
