(* ===== verification/NotificationApi.v ===== *)
(** What the notification service promises to its callers (matching, billing,
    chat, community): a call of [notify] may add notification and outbox rows
    and touches no other table.  The clients are proved against this interface;
    Notification.v discharges it. *)
From S2P Require Import Prelude JsString Schema World.
Local Open Scope Z_scope.

(** The argument of [NotificationService.notify]. *)
Record CreateNotificationInput := mkCreateNotificationInput {
  n_userId : jstr;
  n_type : NotificationType;
  n_title : jstr;
  n_body : jstr;
  n_route : option jstr;
  n_sourceId : option jstr
}.

(** The database without the two tables notifications are written to. *)
Definition forget_notifications (d : Db) : Db := d <| notifications := [] |> <| pushOutbox := [] |>.

(** Databases that differ at most in notifications and outbox rows. *)
Definition db_same (d d' : Db) : Prop := forget_notifications d = forget_notifications d'.
Infix "≈db" := db_same (at level 70, no associativity).

Class NotificationService := {
  notify : CreateNotificationInput -> M Notification;
  notify_frame : forall input w w' r, notify input w = (w', r) -> db w ≈db db w'
}.

(** A table the notification service does not write. *)
Class NotNotification {R} (t : Db -> list R) : Prop :=
  table_forget : forall d, t (forget_notifications d) = t d.

Ltac solve_not_notification := intros ?; reflexivity.
#[export] Hint Extern 1 (NotNotification _) => solve_not_notification : typeclass_instances.

#[export] Instance db_same_equiv : Equivalence db_same.
Proof. split; unfold db_same; intros ?; congruence. Qed.

Lemma db_same_table {R} (t : Db -> list R) `{!NotNotification t} d d' : d ≈db d' -> t d = t d'.
Proof.
  intros E. transitivity (t (forget_notifications d)); [symmetry; apply table_forget|].
  rewrite E. apply table_forget.
Qed.

Lemma wp_notify `{NotificationService} input (Q : Result Notification -> World -> Prop) w :
  (forall r w', db w ≈db db w' -> Q r w') -> wp (notify input) Q w.
Proof. intros HQ. apply run_wp. intros w' r E. apply HQ. by eapply notify_frame. Qed.

(** A part of the database the service does not write. *)
Lemma keeps_notify `{NotificationService} {T} (t : Db -> T) input :
  (forall d, t (forget_notifications d) = t d) -> keeps (fun w => t (db w)) (notify input).
Proof.
  intros Ht w. apply wp_notify. intros _ w' E. rewrite <- Ht, <- (Ht (db w)). by rewrite E.
Qed.
