(* ===== verification/Fixtures.v ===== *)
(** A concrete environment and concrete rows: the inputs at which the witnesses
    evaluate the theorems. *)
From S2P Require Import Prelude JsString JsDate Libraries Schema World Constraints NotificationApi.
Local Open Scope Z_scope.

(** Ids in the shape of a UUID, numbered by the draw. *)
Definition test_uuid (n : nat) : jstr :=
  js "00000000-0000-4000-8000-" ++ padStart 12 48%N (number_to_string (N.of_nat n)).

(** The clocks advance a millisecond per reading from 2026-01-01T00:00:00Z. *)
Definition T0 : Z := 1767225600000.
Definition test_env : Env := {|
  date_now n := T0 + Z.of_nat n;
  pg_clock n := 1000 * (T0 + Z.of_nat n);
  random_uuid := test_uuid;
  random_int n := Z.of_nat n;
  row_locked _ _ := false;
  sha256_hex s := js "h:" ++ s;
  bcrypt_hash _ s := js "b:" ++ s;
  bcrypt_compare s h := js "b:" ++ s =?? h
|}.

Definition ALICE : jstr := js "0a11ce00-0000-4000-8000-000000000001".
Definition BOB : jstr := js "0b0b0000-0000-4000-8000-000000000002".

Definition test_user (id name : jstr) (phone : option jstr) : User :=
  users.mkUser id (name ++ js "@example.com") phone (js "b:password") name female [] None None
    (Some everyone) (Some (to_column T0)) None None None 0 None (to_column T0) (to_column T0).

Definition test_db : Db :=
  emptyDb <| users := [test_user ALICE (js "alice") (Some (js "+821012345678"));
                       test_user BOB (js "bob") (Some (js "+821087654321"))] |>.
Definition world_of (d : Db) : World := mkWorld d 0 [].

(** A notification service that stores the notification and queues no push. *)
Definition test_notify (input : CreateNotificationInput) : M Notification :=
  insert notifications
    (notifications.mkNotification (n_userId input ++ js "!") (n_userId input) (n_type input)
       (n_title input) (n_body input) (n_route input) (n_sourceId input) None (to_column T0)).
Lemma test_notify_frame input w w' r : test_notify input w = (w', r) -> db w ≈db db w'.
Proof.
  intros E. refine (wp_run _ (fun _ w' => db w ≈db db w') _ _ _ E _).
  apply wp_insert; intros; reflexivity.
Qed.
Definition test_notifications : NotificationService :=
  {| notify := test_notify; notify_frame := test_notify_frame |}.

(** A configuration, and tokens that spell out their claims and live an hour. *)
Definition test_config : ConfigService :=
  {| config_string key := Some (js "secret " ++ key); config_number _ := Some 3600;
     config_boolean _ := Some true |}.
Definition test_jwt : JwtService := {|
  jwt_sign now claims options := Some (match claims with
    | AccessClaims userId => js "access:" ++ userId
    | RefreshClaims userId deviceId => js "refresh:" ++ userId ++ js ":" ++ deviceId
    | KakaoClaims providerUserId => js "kakao:" ++ providerUserId
    | PhoneClaims phoneE164 verificationId nonce => js "phone:" ++ phoneE164 ++ js ":" ++ nonce
    end);
  jwt_exp _ := Some (T0 / 1000 + 3600)
|}.
