(* ===== verification/Billing.v ===== *)
(** Billing: the RevenueCat webhook (billing.service.ts), the event log, the
    subscription row and the consumable ledger (billing.repository.ts). *)
From S2P Require Import Prelude JsString JsDate Json Schema World Constraints NotificationApi.
Local Open Scope Z_scope.

(** * Data *)

Inductive ProductKind := Subscription (planId : jstr) | Boost | SuperLike.
Record BillingProduct := mkProduct { product_id : jstr; product_kind : ProductKind; product_name : jstr }.

Definition BILLING_PRODUCTS : list BillingProduct :=
  [ mkProduct (js "chattea_basic_monthly") (Subscription (js "basic")) (js "Basic");
    mkProduct (js "chattea_gold_monthly") (Subscription (js "gold")) (js "Gold");
    mkProduct (js "chattea_black_monthly") (Subscription (js "black")) (js "Black");
    mkProduct (js "chattea_boost_30m") Boost (js "30분 부스트");
    mkProduct (js "chattea_superlikes_5") SuperLike (js "슈퍼라이크 5개") ].

Definition REVENUECAT_SIGNATURE_TOLERANCE_SECONDS : Z := 300.
Definition REVENUECAT_MUTATION_EVENT_TYPES : list jstr :=
  [js "INITIAL_PURCHASE"; js "RENEWAL"; js "UNCANCELLATION"; js "NON_RENEWING_PURCHASE";
   js "SUBSCRIPTION_EXTENDED"; js "REFUND_REVERSED"; js "EXPIRATION"; js "CANCELLATION"].
Definition REVENUECAT_NOOP_EVENT_TYPES : list jstr :=
  [js "BILLING_ISSUE"; js "SUBSCRIPTION_PAUSED"; js "PRODUCT_CHANGE"; js "INVOICE_ISSUANCE";
   js "EXPERIMENT_ENROLLMENT"; js "TEST"].
Definition REVENUECAT_UNIMPLEMENTED_EVENT_TYPES : list jstr :=
  [js "TRANSFER"; js "TEMPORARY_ENTITLEMENT_GRANT"; js "VIRTUAL_CURRENCY_TRANSACTION"].

Record RevenueCatEvent := mkRevenueCatEvent {
  ev_id : option jstr;
  ev_type : option jstr;
  ev_event_timestamp_ms : option Z;
  ev_environment : option jstr;
  ev_app_id : option jstr;
  ev_app_user_id : option jstr;
  ev_product_id : option jstr;
  ev_original_transaction_id : option jstr;
  ev_transaction_id : option jstr;
  ev_cancel_reason : option jstr;
  ev_expiration_at_ms : option Z;
  ev_purchased_at_ms : option Z
}.

(** ** revenuecat.types.ts *)

Record ConsumableUnits := mkUnits { superLikeCredits : Z; boostCredits : Z }.
Definition ZERO_DELTA : ConsumableUnits := mkUnits 0 0.

Inductive SubscriptionStatus := active | expired.
Definition status_text (s : SubscriptionStatus) : jstr :=
  match s with active => js "active" | expired => js "expired" end.

Record RevenueCatSubscription := mkSubscription {
  s_planId : jstr;
  s_providerCustomerId : jstr;
  s_providerProductId : jstr;
  s_eventTimestampMs : Z;
  s_startsAt : Z;
  s_endsAt : option Z;
  s_status : SubscriptionStatus
}.

Record RevenueCatConsumableTransition := mkTransition {
  t_providerTransactionId : jstr;
  t_originalTransactionId : jstr;
  t_userId : jstr;
  t_canonicalProductId : jstr;
  t_providerProductId : jstr;
  t_eventTimestampMs : Z;
  t_targetState : RevenueCatTransactionState;
  t_units : ConsumableUnits
}.

Record RevenueCatRecordedEvent := mkRecorded { providerEventId : jstr; payloadHash : jstr }.

Inductive RevenueCatEventInput :=
| RecordedEvent (e : RevenueCatRecordedEvent)
| SubscriptionEvent (e : RevenueCatRecordedEvent) (userId : jstr) (s : RevenueCatSubscription)
| ConsumableEvent (e : RevenueCatRecordedEvent) (t : RevenueCatConsumableTransition).
Definition recorded (i : RevenueCatEventInput) : RevenueCatRecordedEvent :=
  match i with RecordedEvent e | SubscriptionEvent e _ _ | ConsumableEvent e _ => e end.

Inductive ApplyOutcome := applied | duplicate | stale.
Record RevenueCatApplyResult := mkApplied {
  outcome : ApplyOutcome;
  effectiveState : option RevenueCatTransactionState;
  balanceDelta : ConsumableUnits
}.

(** * Parsing the payload *)

Abbreviation error400 msg := (throw BadRequestException msg).

Definition isRecord (value : json) : option (list (jstr * json)) :=
  if value is JObject l then Some l else None.

Definition optionalString (value : json) : M (option jstr) :=
  match value with
  | JUndefined | JNull => mret None
  | JString s => mret (Some s)
  | _ => error400 (js "REVENUECAT_EVENT_INVALID")
  end.

Definition MAX_TIME_VALUE : Z := 8640000000000000.
Definition optionalTimestamp (value : json) : M (option Z) :=
  match value with
  | JUndefined | JNull => mret None
  | JNumber f =>
      match float_integer f with
      | Some z => if isSafeInteger z && (0 <=? z) && (z <=? MAX_TIME_VALUE) then mret (Some z)
                  else error400 (js "REVENUECAT_EVENT_INVALID")
      | None => error400 (js "REVENUECAT_EVENT_INVALID")
      end
  | _ => error400 (js "REVENUECAT_EVENT_INVALID")
  end.

Definition requiredString (value : option jstr) (error : jstr) : M jstr :=
  match trim <$> value with
  | None | Some [] => error400 error
  | Some s => mret s
  end.

Definition requiredUuid (value : option jstr) (error : jstr) : M jstr :=
  normalized ← requiredString value error;
  if matchb UUID_PATTERN normalized then mret normalized else error400 error.

Definition requiredTimestamp (value : option Z) (error : jstr) : M Z :=
  if value is Some z then mret z else error400 error.

Definition getRevenueCatEvent (payload : json) : M RevenueCatEvent :=
  match isRecord payload with
  | None => error400 (js "REVENUECAT_PAYLOAD_INVALID")
  | Some fields =>
      match isRecord (default payload (property (js "event") fields)) with
      | None => error400 (js "REVENUECAT_EVENT_INVALID")
      | Some event =>
          id ← optionalString (member (js "id") event);
          type ← optionalString (member (js "type") event);
          event_timestamp_ms ← optionalTimestamp (member (js "event_timestamp_ms") event);
          environment ← optionalString (member (js "environment") event);
          app_id ← optionalString (member (js "app_id") event);
          app_user_id ← optionalString (member (js "app_user_id") event);
          product_id ← optionalString (member (js "product_id") event);
          original_transaction_id ← optionalString (member (js "original_transaction_id") event);
          transaction_id ← optionalString (member (js "transaction_id") event);
          cancel_reason ← optionalString (member (js "cancel_reason") event);
          expiration_at_ms ← optionalTimestamp (member (js "expiration_at_ms") event);
          purchased_at_ms ← optionalTimestamp (member (js "purchased_at_ms") event);
          mret (mkRevenueCatEvent id type event_timestamp_ms environment app_id app_user_id product_id
                  original_transaction_id transaction_id cancel_reason expiration_at_ms purchased_at_ms)
      end
  end.

Definition revenueCatConsumableTargetState (eventType : jstr) (cancelReason : option jstr)
    : option RevenueCatTransactionState :=
  if bool_decide (eventType ∈ [js "INITIAL_PURCHASE"; js "NON_RENEWING_PURCHASE"; js "REFUND_REVERSED"])
  then Some granted
  else if (eventType =?? js "CANCELLATION")
          && ((toUpperCase ∘ trim <$> cancelReason) =?? Some (js "CUSTOMER_SUPPORT"))
  then Some refunded
  else None.

Definition revenueCatSubscriptionStatus (eventType : jstr) : option SubscriptionStatus :=
  if eventType =?? js "EXPIRATION" then Some expired
  else if bool_decide (eventType ∈ [js "INITIAL_PURCHASE"; js "RENEWAL"; js "UNCANCELLATION";
                                    js "NON_RENEWING_PURCHASE"; js "SUBSCRIPTION_EXTENDED";
                                    js "REFUND_REVERSED"])
  then Some active
  else None.

(** * The repository *)

Section repository.
Context `{Env}.

Definition balance_conflict (a b : UserConsumableBalance) : bool :=
  userConsumableBalances.userId a =?? userConsumableBalances.userId b.

Definition transitionDelta (currentState : option RevenueCatTransactionState)
    (targetState : RevenueCatTransactionState) (units : ConsumableUnits) : ConsumableUnits :=
  if currentState =?? Some targetState then ZERO_DELTA
  else if targetState =?? granted then units
  else if currentState =?? Some granted
  then mkUnits (if superLikeCredits units =? 0 then 0 else - superLikeCredits units)
               (if boostCredits units =? 0 then 0 else - boostCredits units)
  else ZERO_DELTA.

(** The owner is compared as the event spells it, with the stored spelling. *)
Definition assertTransactionIdentity (current : RevenueCatTransaction)
    (transition : RevenueCatConsumableTransition) : M unit :=
  require (revenueCatTransactions.userId current =?? t_userId transition)
    PlainError (js "REVENUECAT_TRANSACTION_OWNER_CONFLICT") ;;
  require ((revenueCatTransactions.originalTransactionId current =?? t_originalTransactionId transition)
           && (revenueCatTransactions.canonicalProductId current =?? t_canonicalProductId transition)
           && (revenueCatTransactions.providerProductId current =?? t_providerProductId transition))
    PlainError (js "REVENUECAT_TRANSACTION_PRODUCT_CONFLICT") ;;
  require ((revenueCatTransactions.superLikeUnits current =? superLikeCredits (t_units transition))
           && (revenueCatTransactions.boostUnits current =? boostCredits (t_units transition)))
    PlainError (js "REVENUECAT_TRANSACTION_UNITS_CONFLICT").

Definition is_transaction (providerTransactionId : jstr) (r : RevenueCatTransaction) : bool :=
  (revenueCatTransactions.provider r =?? js "revenuecat")
  && (revenueCatTransactions.providerTransactionId r =?? providerTransactionId).

(** The row written for this transition, and its id. *)
Definition recordTransaction (current : option RevenueCatTransaction) (isStale : bool) (now : Z)
    (transition : RevenueCatConsumableTransition) : M jstr :=
  match current with
  | None =>
      id ← randomUUID;
      createdAt ← clock_timestamp;
      created ← insert revenueCatTransactions
        (revenueCatTransactions.mkRevenueCatTransaction id (js "revenuecat")
           (t_providerTransactionId transition) (t_originalTransactionId transition)
           (uuid_param (t_userId transition)) (t_canonicalProductId transition) (t_providerProductId transition)
           (superLikeCredits (t_units transition)) (boostCredits (t_units transition))
           (t_targetState transition) (t_eventTimestampMs transition) createdAt createdAt);
      mret (revenueCatTransactions.id created)
  | Some current =>
      (if isStale then mret []
       else update revenueCatTransactions
              (fun r => revenueCatTransactions.id r =?? revenueCatTransactions.id current)
              (fun r => r <| revenueCatTransactions.state := t_targetState transition |>
                          <| revenueCatTransactions.stateEventTimestampMs := t_eventTimestampMs transition |>
                          <| revenueCatTransactions.updatedAt := to_column now |>)) ;;
      mret (revenueCatTransactions.id current)
  end.

(** [insert(userConsumableBalances)...onConflictDoUpdate], skipped for a zero delta. *)
Definition creditBalance (userId : jstr) (delta : ConsumableUnits) (now : Z) : M unit :=
  let userId := uuid_param userId in
  if negb (superLikeCredits delta =? 0) || negb (boostCredits delta =? 0) then
    updatedAt ← clock_timestamp;
    insertOrUpdate userConsumableBalances balance_conflict
      (fun r => r <| userConsumableBalances.superLikeCredits ::= fun n => n + superLikeCredits delta |>
                  <| userConsumableBalances.boostCredits ::= fun n => n + boostCredits delta |>
                  <| userConsumableBalances.updatedAt := to_column now |>)
      (fun _ => true)
      (userConsumableBalances.mkUserConsumableBalance userId
         (superLikeCredits delta) (boostCredits delta) updatedAt) ;;
    mret tt
  else mret tt.

Definition applyConsumableTransition (providerEventId : jstr)
    (transition : RevenueCatConsumableTransition) : M RevenueCatApplyResult :=
  current ← findFirst revenueCatTransactions (is_transaction (t_providerTransactionId transition));
  (if current is Some c then assertTransactionIdentity c transition else mret tt) ;;
  (if current is Some c then
     require (negb ((revenueCatTransactions.stateEventTimestampMs c =? t_eventTimestampMs transition)
                    && negb (revenueCatTransactions.state c =?? t_targetState transition)))
       PlainError (js "REVENUECAT_EVENT_TIMESTAMP_CONFLICT")
   else mret tt) ;;
  let isStale :=
    if current is Some c then t_eventTimestampMs transition <=? revenueCatTransactions.stateEventTimestampMs c
    else false in
  let effective :=
    if isStale then revenueCatTransactions.state <$> current else Some (t_targetState transition) in
  match effective with
  | None => throw PlainError (js "REVENUECAT_TRANSACTION_STATE_INVALID")
  | Some effectiveState =>
      let delta :=
        if isStale then ZERO_DELTA
        else transitionDelta (revenueCatTransactions.state <$> current) (t_targetState transition)
               (t_units transition) in
      now ← Date_now;
      transactionId ← recordTransaction current isStale now transition;
      require (negb (transactionId =?? [])) PlainError (js "REVENUECAT_TRANSACTION_CREATE_FAILED") ;;
      creditBalance (t_userId transition) delta now ;;
      ledgerId ← randomUUID;
      createdAt ← clock_timestamp;
      insert revenueCatTransactionLedger
        (revenueCatTransactionLedger.mkRevenueCatTransactionLedgerEntry ledgerId providerEventId
           transactionId (t_eventTimestampMs transition) (t_targetState transition) effectiveState
           (superLikeCredits delta) (boostCredits delta) (negb isStale) createdAt) ;;
      mret (mkApplied (if isStale then stale else applied) (Some effectiveState) delta)
  end.

Definition is_revenuecat_subscription (userId : jstr) (r : UserSubscription) : bool :=
  (userSubscriptions.userId r =?? userId) && (userSubscriptions.provider r =?? Some (js "revenuecat")).

(** The [subscription] branch.  drizzle leaves a column alone when its new
    value is [undefined], so an event without an end date keeps the old one. *)
Definition applySubscription (userId : jstr) (s : RevenueCatSubscription) : M RevenueCatApplyResult :=
  let userId := uuid_param userId in
  current ← findFirst userSubscriptions (is_revenuecat_subscription userId);
  if s_eventTimestampMs s <=? default (-1) (current ≫= userSubscriptions.providerEventTimestampMs)
  then mret (mkApplied stale None ZERO_DELTA)
  else
    updatedAt ← Date_now;
    match current with
    | Some c =>
        update userSubscriptions (fun r => userSubscriptions.id r =?? userSubscriptions.id c)
          (fun r => r <| userSubscriptions.userId := userId |>
                      <| userSubscriptions.planId := s_planId s |>
                      <| userSubscriptions.status := status_text (s_status s) |>
                      <| userSubscriptions.provider := Some (js "revenuecat") |>
                      <| userSubscriptions.providerCustomerId := Some (s_providerCustomerId s) |>
                      <| userSubscriptions.providerProductId := Some (s_providerProductId s) |>
                      <| userSubscriptions.providerEventTimestampMs := Some (s_eventTimestampMs s) |>
                      <| userSubscriptions.currentPeriodStartsAt := Some (to_column (s_startsAt s)) |>
                      <| userSubscriptions.currentPeriodEndsAt ::=
                           fun old => if s_endsAt s is Some e then Some (to_column e) else old |>
                      <| userSubscriptions.updatedAt := to_column updatedAt |>) ;;
        mret (mkApplied applied None ZERO_DELTA)
    | None =>
        id ← randomUUID;
        createdAt ← clock_timestamp;
        insert userSubscriptions
          (userSubscriptions.mkUserSubscription id userId (s_planId s) (status_text (s_status s))
             (Some (js "revenuecat")) (Some (s_providerCustomerId s)) (Some (s_providerProductId s))
             (Some (s_eventTimestampMs s)) (Some (to_column (s_startsAt s)))
             (to_column <$> s_endsAt s) createdAt (to_column updatedAt)) ;;
        mret (mkApplied applied None ZERO_DELTA)
    end.

(** [insert(billingEvents)...onConflictDoNothing().returning()], and the check
    of a replayed event. [true] when the event is new. *)
Definition recordEvent (e : RevenueCatRecordedEvent) : M bool :=
  id ← randomUUID;
  receivedAt ← clock_timestamp;
  inserted ← insertOrNothing billingEvents billingEvents_conflict
    (billingEvents.mkBillingEvent id (providerEventId e) (js "revenuecat") (payloadHash e) receivedAt);
  match inserted with
  | Some _ => mret true
  | None =>
      existing ← findFirst billingEvents
        (fun r => billingEvents.providerEventId r =?? providerEventId e);
      match existing with
      | Some r =>
          if (billingEvents.provider r =?? js "revenuecat") && (billingEvents.payloadHash r =?? payloadHash e)
          then mret false
          else throw PlainError (js "REVENUECAT_EVENT_PAYLOAD_CONFLICT")
      | None => throw PlainError (js "REVENUECAT_EVENT_PAYLOAD_CONFLICT")
      end
  end.

Definition applyRevenueCatEvent (input : RevenueCatEventInput) : M RevenueCatApplyResult :=
  transaction (
    isNew ← recordEvent (recorded input);
    if (isNew : bool) then
      match input with
      | SubscriptionEvent _ userId s => applySubscription userId s
      | ConsumableEvent e t => applyConsumableTransition (providerEventId e) t
      | RecordedEvent _ => mret (mkApplied applied None ZERO_DELTA)
      end
    else mret (mkApplied duplicate None ZERO_DELTA)).

(** [balance] of the repository and of the service. *)
Definition repositoryBalance (userId : jstr) : M (option UserConsumableBalance * option Z) :=
  balance ← findFirst userConsumableBalances (fun r => userConsumableBalances.userId r =?? userId);
  now ← Date_now;
  activeBoost ← findFirstBy userBoosts
    (fun r => (userBoosts.userId r =?? userId) && (to_column now <? userBoosts.endsAt r))
    (fun a b => userBoosts.endsAt b <=? userBoosts.endsAt a);
  mret (balance, userBoosts.endsAt <$> activeBoost).

Record BalancePayload := mkBalance {
  b_superLikeCredits : Z; b_boostCredits : Z; b_activeBoostUntil : option jstr
}.
Definition balance (userId : jstr) : M BalancePayload :=
  '(balance, activeBoostUntil) ← repositoryBalance userId;
  mret (mkBalance (default 0 (userConsumableBalances.superLikeCredits <$> balance))
          (default 0 (userConsumableBalances.boostCredits <$> balance))
          (toISOString ∘ of_column <$> activeBoostUntil)).
End repository.

(** * The webhook *)

(** Configuration and the primitives of node's [crypto]; bytes are [N]. *)
Class BillingConfig := {
  REVENUECAT_WEBHOOK_SECRET : option jstr;
  NODE_ENV : option jstr;
  REVENUECAT_IOS_APP_ID : option jstr;
  REVENUECAT_ANDROID_APP_ID : option jstr;
  hmac_sha256 : jstr -> list N -> list N;
  sha256_bytes_hex : list N -> jstr
}.

(** [/^t=(\d+),v1=([0-9a-f]{64})$/i] *)
Definition SIGNATURE_PATTERN : regex :=
  RCat (RCls (fun u => ((u =? 116) || (u =? 84))%N)) (RCat (RChr 61%N) (RCat (RPlus (RCls is_digit))
    (RCat (RChr 44%N) (RCat (RCls (fun u => ((u =? 118) || (u =? 86))%N)) (RCat (RStr (js "1="))
    (RRep 64 (RCls is_hex))))))).

(** The two groups of a match: the digits up to the comma and the text after "v1=". *)
Definition matchSignature (s : jstr) : option (jstr * jstr) :=
  if matchb SIGNATURE_PATTERN s then
    let timestampText := before 44%N (drop 2 s) in
    Some (timestampText, drop (2 + length timestampText + 4) s)
  else None.

(** [Number(digits)]; above [MAX_SAFE_INTEGER] the rounding of the double does not
    matter, since it stays above. *)
Definition decimal (digits : jstr) : Z :=
  foldl (fun acc u => acc * 10 + (Z.of_N u - 48)) 0 digits.

Definition hex_value (u : N) : N :=
  if is_digit u then (u - 48)%N else if (u <=? 70)%N then (u - 55)%N else (u - 87)%N.
(** [Buffer.from(s, "hex")] *)
Fixpoint hex_bytes (s : jstr) : list N :=
  match s with
  | a :: b :: s' => (hex_value a * 16 + hex_value b)%N :: hex_bytes s'
  | _ => []
  end.

(** [crypto.timingSafeEqual] *)
Definition timingSafeEqual (a b : list N) : M bool :=
  if Nat.eqb (length a) (length b) then mret (a =?? b)
  else throw PlainError (js "ERR_CRYPTO_TIMING_SAFE_EQUAL_LENGTH").

Abbreviation error401 msg := (throw UnauthorizedException msg).

Section webhook.
Context `{Env} `{NotificationService} `{BillingConfig}.

Definition assertSignature (rawBody : list N) (signature : option jstr) : M unit :=
  match REVENUECAT_WEBHOOK_SECRET with
  | None | Some [] => throw PlainError (js "REVENUECAT_WEBHOOK_SECRET_REQUIRED")
  | Some secret =>
      match signature ≫= matchSignature with
      | None => error401 (js "REVENUECAT_SIGNATURE_INVALID")
      | Some (timestampText, receivedHex) =>
          let timestamp := decimal timestampText in
          require (isSafeInteger timestamp) UnauthorizedException (js "REVENUECAT_SIGNATURE_INVALID") ;;
          let expected := hmac_sha256 secret (timestampText ++ js "." ++ rawBody) in
          equal ← timingSafeEqual (hex_bytes receivedHex) expected;
          require equal UnauthorizedException (js "REVENUECAT_SIGNATURE_INVALID") ;;
          now ← Date_now;
          require (Z.abs (now - 1000 * timestamp) <=? 1000 * REVENUECAT_SIGNATURE_TOLERANCE_SECONDS)
            UnauthorizedException (js "REVENUECAT_SIGNATURE_TIMESTAMP_INVALID")
      end
  end.

(** The checks of [NODE_ENV === "production"]. *)
Definition assertProductionEvent (event : RevenueCatEvent) : M unit :=
  if NODE_ENV =?? Some (js "production") then
    let iosAppId := trim <$> REVENUECAT_IOS_APP_ID in
    let androidAppId := trim <$> REVENUECAT_ANDROID_APP_ID in
    require (negb (default [] iosAppId =?? [])) PlainError (js "REVENUECAT_IOS_APP_ID_REQUIRED") ;;
    require (negb (default [] androidAppId =?? [])) PlainError (js "REVENUECAT_ANDROID_APP_ID_REQUIRED") ;;
    require (negb (iosAppId =?? androidAppId)) PlainError (js "REVENUECAT_APP_IDS_MUST_DIFFER") ;;
    environment ← requiredString (ev_environment event) (js "REVENUECAT_ENVIRONMENT_INVALID");
    require (toUpperCase environment =?? js "PRODUCTION")
      BadRequestException (js "REVENUECAT_ENVIRONMENT_INVALID") ;;
    appId ← requiredString (ev_app_id event) (js "REVENUECAT_APP_ID_INVALID");
    require ((Some appId =?? iosAppId) || (Some appId =?? androidAppId))
      BadRequestException (js "REVENUECAT_APP_ID_INVALID")
  else mret tt.

(** The [subscription] value built from the event, if the event carries one. *)
Definition eventSubscription (event : RevenueCatEvent) (eventType productId : jstr)
    (product : BillingProduct) : M (option RevenueCatSubscription) :=
  match product_kind product, revenueCatSubscriptionStatus eventType with
  | Subscription planId, Some status =>
      providerCustomerId ← requiredString (ev_original_transaction_id event)
        (js "REVENUECAT_ORIGINAL_TRANSACTION_ID_REQUIRED");
      eventTimestampMs ← requiredTimestamp (ev_event_timestamp_ms event)
        (js "REVENUECAT_EVENT_TIMESTAMP_REQUIRED");
      startsAt ← (match ev_purchased_at_ms event with
                  | None | Some 0 => Date_now
                  | Some ms => mret ms
                  end);
      let endsAt := match ev_expiration_at_ms event with None | Some 0 => None | Some ms => Some ms end in
      mret (Some (mkSubscription planId providerCustomerId productId eventTimestampMs startsAt endsAt status))
  | _, _ => mret None
  end.

(** The [consumableTransition] value built from the event, if it carries one. *)
Definition eventTransition (event : RevenueCatEvent) (eventType userId canonicalProductId productId : jstr)
    (product : BillingProduct) : M (option RevenueCatConsumableTransition) :=
  let units := match product_kind product with
               | Subscription _ => ZERO_DELTA
               | SuperLike => mkUnits 5 0
               | Boost => mkUnits 0 1
               end in
  let consumableState := match product_kind product with
                         | Subscription _ => None
                         | _ => revenueCatConsumableTargetState eventType (ev_cancel_reason event)
                         end in
  match consumableState with
  | None => mret None
  | Some targetState =>
      providerTransactionId ← requiredString (ev_transaction_id event) (js "REVENUECAT_TRANSACTION_ID_REQUIRED");
      originalTransactionId ← requiredString (ev_original_transaction_id event)
        (js "REVENUECAT_ORIGINAL_TRANSACTION_ID_REQUIRED");
      eventTimestampMs ← requiredTimestamp (ev_event_timestamp_ms event)
        (js "REVENUECAT_EVENT_TIMESTAMP_REQUIRED");
      mret (Some (mkTransition providerTransactionId originalTransactionId userId canonicalProductId
                    productId eventTimestampMs targetState units))
  end.

Record WebhookResponse := mkResponse { accepted : bool; is_duplicate : bool }.

Definition purchaseNotification (eventId userId : jstr) (product : BillingProduct)
    (subscription : option RevenueCatSubscription)
    (transition : option RevenueCatConsumableTransition) : option CreateNotificationInput :=
  if (s_status <$> subscription) is Some active then
    Some (mkCreateNotificationInput userId purchase_notification
            (product_name product ++ js "을 시작했어요") (js "새 혜택을 바로 이용할 수 있어요.")
            (Some (js "/premium")) (Some eventId))
  else if (t_targetState <$> transition) is Some granted then
    Some (mkCreateNotificationInput userId purchase_notification
            (product_name product ++ js "을 준비했어요") (js "필요한 순간에 사용해 보세요.")
            (Some (js "/profile")) (Some eventId))
  else None.

(** A failed notification is logged and swallowed. *)
Definition notifyQuietly (input : CreateNotificationInput) : M unit :=
  try_catch (notify input ;; mret tt) (fun _ => mret tt).

Definition handleMutationEvent (eventRecord : RevenueCatRecordedEvent) (eventId eventType : jstr)
    (event : RevenueCatEvent) : M WebhookResponse :=
  assertProductionEvent event ;;
  userId ← requiredUuid (ev_app_user_id event) (js "REVENUECAT_APP_USER_ID_INVALID");
  productId ← requiredString (ev_product_id event) (js "REVENUECAT_PRODUCT_ID_REQUIRED");
  let canonicalProductId := before 58%N productId in
  match first (fun candidate => product_id candidate =?? canonicalProductId) BILLING_PRODUCTS with
  | None => error400 (js "REVENUECAT_PRODUCT_UNSUPPORTED")
  | Some product =>
      subscription ← eventSubscription event eventType productId product;
      consumableTransition ← eventTransition event eventType userId canonicalProductId productId product;
      result ← applyRevenueCatEvent
        (match subscription, consumableTransition with
         | Some s, _ => SubscriptionEvent eventRecord userId s
         | None, Some t => ConsumableEvent eventRecord t
         | None, None => RecordedEvent eventRecord
         end);
      match outcome result with
      | duplicate => mret (mkResponse true true)
      | stale => mret (mkResponse true false)
      | applied =>
          (if purchaseNotification eventId userId product subscription consumableTransition is Some n
           then notifyQuietly n else mret tt) ;;
          mret (mkResponse true false)
      end
  end.

Definition handleRevenueCatWebhook (rawBody : list N) (signature : option jstr) (payload : json)
    : M WebhookResponse :=
  assertSignature rawBody signature ;;
  event ← getRevenueCatEvent payload;
  eventId ← requiredString (ev_id event) (js "REVENUECAT_EVENT_ID_REQUIRED");
  eventType ← toUpperCase <$> requiredString (ev_type event) (js "REVENUECAT_EVENT_TYPE_REQUIRED");
  let eventRecord := mkRecorded eventId (sha256_bytes_hex rawBody) in
  if bool_decide (eventType ∈ REVENUECAT_NOOP_EVENT_TYPES) then
    result ← applyRevenueCatEvent (RecordedEvent eventRecord);
    mret (mkResponse true (if outcome result is duplicate then true else false))
  else if bool_decide (eventType ∈ REVENUECAT_UNIMPLEMENTED_EVENT_TYPES) then
    throw NotImplementedException (js "REVENUECAT_EVENT_TYPE_NOT_IMPLEMENTED")
  else if negb (bool_decide (eventType ∈ REVENUECAT_MUTATION_EVENT_TYPES)) then
    error400 (js "REVENUECAT_EVENT_TYPE_UNSUPPORTED")
  else handleMutationEvent eventRecord eventId eventType event.

(** [BillingController.receive] *)
Definition receive (rawBody : option (list N)) (signature : option jstr) (payload : json)
    : M WebhookResponse :=
  match rawBody with
  | None => error400 (js "REVENUECAT_RAW_BODY_REQUIRED")
  | Some body => handleRevenueCatWebhook body signature payload
  end.
End webhook.
