(* ===== verification/BillingProofs.v ===== *)
(** Billing: the abstract ledger the consumable repository implements, and the
    theorems about events, subscriptions and the webhook. *)
From stdpp Require Import gmap.
From Stdlib Require Import SpecFloat.
From S2P Require Import Prelude JsString JsDate Json Schema World Constraints NotificationApi Billing Fixtures.
Local Open Scope Z_scope.

(** * The abstract ledger *)

(** What the code promises: one entry per store transaction, holding the state
    of the newest event seen for it, and credits that follow the entries. *)
Record Txn := mkTxn {
  x_owner : jstr; x_original : jstr; x_canonical : jstr; x_product : jstr;
  x_units : ConsumableUnits; x_state : RevenueCatTransactionState; x_timestamp : Z
}.
Abbreviation Key := (jstr * jstr)%type.
Abbreviation Ledger := (gmap (jstr * jstr) Txn).

Definition units_add (a b : ConsumableUnits) : ConsumableUnits :=
  mkUnits (superLikeCredits a + superLikeCredits b) (boostCredits a + boostCredits b).
Definition units_sub (a b : ConsumableUnits) : ConsumableUnits :=
  mkUnits (superLikeCredits a - superLikeCredits b) (boostCredits a - boostCredits b).
#[export] Instance ConsumableUnits_eq_dec : EqDecision ConsumableUnits.
Proof. solve_decision. Defined.

(** The units a transaction is worth to its owner. *)
Definition value (x : Txn) : ConsumableUnits :=
  if x_state x is granted then x_units x else ZERO_DELTA.
Definition worth (x : Txn) (userId : jstr) : ConsumableUnits :=
  if x_owner x =?? userId then value x else ZERO_DELTA.
Definition grants (L : Ledger) (userId : jstr) : ConsumableUnits :=
  map_fold (fun _ x acc => units_add (worth x userId) acc) ZERO_DELTA L.

Definition event_key (t : RevenueCatConsumableTransition) : Key :=
  (js "revenuecat", t_providerTransactionId t).
(** The owner as the database spells it. *)
Definition event_owner (t : RevenueCatConsumableTransition) : jstr := uuid_param (t_userId t).
Definition event_txn (t : RevenueCatConsumableTransition) : Txn :=
  mkTxn (event_owner t) (t_originalTransactionId t) (t_canonicalProductId t) (t_providerProductId t)
    (t_units t) (t_targetState t) (t_eventTimestampMs t).
Definition same_identity (x y : Txn) : bool :=
  (x_owner x =?? x_owner y) && (x_original x =?? x_original y) && (x_canonical x =?? x_canonical y)
  && (x_product x =?? x_product y) && (x_units x =?? x_units y).

(** The event is about the entry: same identity, and the owner in the stored
    spelling. *)
Definition recognised (x : Txn) (t : RevenueCatConsumableTransition) : bool :=
  same_identity x (event_txn t) && (t_userId t =?? x_owner x).

(** One consumable event on the ledger; [None] when the event is refused. *)
Definition ledger_step (t : RevenueCatConsumableTransition) (L : Ledger)
    : option (Ledger * RevenueCatApplyResult) :=
  let e := event_txn t in
  match L !! event_key t with
  | None => Some (<[event_key t := e]> L, mkApplied applied (Some (x_state e)) (value e))
  | Some x =>
      if negb (recognised x t) then None
      else if (x_timestamp x =? x_timestamp e) && negb (x_state x =?? x_state e) then None
      else if x_timestamp e <=? x_timestamp x
      then Some (L, mkApplied stale (Some (x_state x)) ZERO_DELTA)
      else Some (<[event_key t := e]> L,
                 mkApplied applied (Some (x_state e)) (units_sub (value e) (value x)))
  end.

(** ** The ledger and the credits of a database *)
Definition row_key (r : RevenueCatTransaction) : Key :=
  (revenueCatTransactions.provider r, revenueCatTransactions.providerTransactionId r).
Definition row_txn (r : RevenueCatTransaction) : Txn :=
  mkTxn (revenueCatTransactions.userId r) (revenueCatTransactions.originalTransactionId r)
    (revenueCatTransactions.canonicalProductId r) (revenueCatTransactions.providerProductId r)
    (mkUnits (revenueCatTransactions.superLikeUnits r) (revenueCatTransactions.boostUnits r))
    (revenueCatTransactions.state r) (revenueCatTransactions.stateEventTimestampMs r).
Definition row_entry (r : RevenueCatTransaction) : Key * Txn := (row_key r, row_txn r).
Definition ledger (d : Db) : Ledger := list_to_map (map row_entry (revenueCatTransactions d)).

Definition balance_units (r : UserConsumableBalance) : ConsumableUnits :=
  mkUnits (userConsumableBalances.superLikeCredits r) (userConsumableBalances.boostCredits r).
Definition credits (d : Db) (userId : jstr) : ConsumableUnits :=
  default ZERO_DELTA
    (balance_units <$> first (fun r => userConsumableBalances.userId r =?? userId) (userConsumableBalances d)).

(** The unique constraints the theorems use, and the spelling of a uuid column. *)
Record billing_wf (d : Db) : Prop := {
  wf_owners : forall r, r ∈ revenueCatTransactions d ->
    uuid_param (revenueCatTransactions.userId r) = revenueCatTransactions.userId r;
  wf_keys : NoDup (map row_key (revenueCatTransactions d));
  wf_ids : NoDup (map revenueCatTransactions.id (revenueCatTransactions d));
  wf_balances : NoDup (map userConsumableBalances.userId (userConsumableBalances d));
  wf_events : NoDup (map billingEvents.providerEventId (billingEvents d))
}.

Lemma units_ext a b :
  superLikeCredits a = superLikeCredits b -> boostCredits a = boostCredits b -> a = b.
Proof. destruct a, b; simpl; congruence. Qed.
Ltac units := apply units_ext; simpl; lia.

(** * The ledger alone *)

Lemma grants_insert_fresh L k x u :
  L !! k = None -> grants (<[k := x]> L) u = units_add (worth x u) (grants L u).
Proof. intros Hk. unfold grants. apply (map_fold_insert_L (fun (_ : Key) y acc => units_add (worth y u) acc)); [intros; units|done]. Qed.

Lemma grants_insert L k x u :
  grants (<[k := x]> L) u
  = units_add (grants L u) (units_sub (worth x u) (default ZERO_DELTA ((fun y => worth y u) <$> L !! k))).
Proof.
  destruct (L !! k) as [y|] eqn:E; simpl.
  - rewrite <- (insert_delete_eq L k x).
    assert (grants L u = units_add (worth y u) (grants (delete k L) u)) as ->.
    { rewrite <- (insert_delete_id L k y E) at 1. by rewrite grants_insert_fresh by apply lookup_delete_eq. }
    rewrite grants_insert_fresh by apply lookup_delete_eq. units.
  - rewrite grants_insert_fresh by done. units.
Qed.

Lemma same_identity_owner x y : same_identity x y = true -> x_owner x = x_owner y.
Proof. unfold same_identity. by rewrite !andb_true_iff, !bool_decide_eq_true; intros [[[[? ?] ?] ?] ?]. Qed.

(** A step credits exactly what it adds to the owner's grants. *)
Lemma ledger_step_conserves t L L' res u :
  ledger_step t L = Some (L', res) ->
  grants L' u = units_add (grants L u) (if event_owner t =?? u then balanceDelta res else ZERO_DELTA).
Proof.
  unfold ledger_step. destruct (L !! event_key t) as [x|] eqn:E.
  - destruct (recognised x t) eqn:Hid; simpl; [|done]. apply andb_true_iff in Hid as [Hid _].
    destruct (_ && _); [done|]. destruct (_ <=? _); intros [= <- <-]; simpl.
    + destruct (_ =?? _); units.
    + rewrite grants_insert, E. simpl. unfold worth. apply same_identity_owner in Hid as ->. simpl.
      destruct (_ =?? _); units.
  - intros [= <- <-]. simpl. rewrite grants_insert, E. simpl. unfold worth. simpl.
    destruct (_ =?? _); units.
Qed.

(** ** Events in any order *)

(** [x] is at least as new as [y], and agrees with it if they are equally new. *)
Definition covers (x y : Txn) : Prop :=
  same_identity x y = true /\ x_timestamp y <= x_timestamp x /\
  (x_timestamp y = x_timestamp x -> x_state y = x_state x).

Lemma same_identity_true x y :
  same_identity x y = true <->
  x_owner x = x_owner y /\ x_original x = x_original y /\ x_canonical x = x_canonical y /\
  x_product x = x_product y /\ x_units x = x_units y.
Proof. unfold same_identity. rewrite !andb_true_iff, !bool_decide_eq_true. tauto. Qed.

#[export] Instance covers_preorder : PreOrder covers.
Proof.
  split.
  - intros x. split; [by apply same_identity_true|]. split; [lia|done].
  - intros x y z (H1 & H2 & H3) (H4 & H5 & H6). rewrite same_identity_true in *.
    split; [apply same_identity_true; intuition congruence|]. split; [lia|].
    intros E. rewrite H6, H3 by lia. done.
Qed.

Lemma covers_antisymm x y : covers x y -> covers y x -> x = y.
Proof.
  intros (H1 & H2 & H3) (_ & H5 & _). apply same_identity_true in H1 as (? & ? & ? & ? & ?).
  assert (x_timestamp x = x_timestamp y) by lia.
  destruct x, y; simpl in *; subst. f_equal. symmetry. by apply H3.
Qed.

Lemma ledger_step_covers t L L' res :
  ledger_step t L = Some (L', res) ->
  (exists x, L' !! event_key t = Some x /\ covers x (event_txn t) /\
     (L !! event_key t = Some x \/ x = event_txn t)) /\
  (forall k x, L !! k = Some x -> exists x', L' !! k = Some x' /\ covers x' x) /\
  (forall k, k <> event_key t -> L' !! k = L !! k).
Proof.
  unfold ledger_step. destruct (L !! event_key t) as [x|] eqn:E.
  - destruct (recognised x t) eqn:Hid; simpl; [|done]. apply andb_true_iff in Hid as [Hid _].
    destruct (_ && _) eqn:Hts; [done|].
    assert (x_timestamp x = x_timestamp (event_txn t) -> x_state x = x_state (event_txn t)) as Hst.
    { intros Heq. simpl in Heq. apply andb_false_iff in Hts as [Hts|Hts]; [lia|].
      by apply negb_false_iff, bool_decide_eq_true in Hts. }
    destruct (_ <=? _) eqn:Hle; intros [= <- <-].
    + split_and!; [|intros k y Hy; by exists y|done].
      exists x. split_and!; [done|split_and!; [done|simpl; lia|intros ?; symmetry; auto]|by left].
    + split_and!.
      * exists (event_txn t). rewrite lookup_insert_eq. by split_and!; [| |right].
      * intros k y Hy. destruct (decide (k = event_key t)) as [->|Hne].
        -- rewrite lookup_insert_eq. exists (event_txn t). split; [done|].
           assert (y = x) as -> by congruence. rewrite same_identity_true in Hid.
           split_and!; [apply same_identity_true; intuition congruence|simpl; lia|intros ?; auto].
        -- rewrite lookup_insert_ne by done. exists y. done.
      * intros k Hk. by rewrite lookup_insert_ne.
  - intros [= <- <-]. split_and!.
    + exists (event_txn t). rewrite lookup_insert_eq. by split_and!; [| |right].
    + intros k y Hy. destruct (decide (k = event_key t)) as [->|Hne]; [congruence|].
      rewrite lookup_insert_ne by done. exists y. done.
    + intros k Hk. by rewrite lookup_insert_ne.
Qed.

Fixpoint ledger_replay (l : list RevenueCatConsumableTransition) (L : Ledger) : option Ledger :=
  match l with
  | [] => Some L
  | t :: l' => ledger_step t L ≫= fun '(L', _) => ledger_replay l' L'
  end.

(** The entry of a key covers all events and comes from one of them. *)
Lemma ledger_replay_covers l L L' :
  ledger_replay l L = Some L' ->
  (forall t, t ∈ l -> exists x, L' !! event_key t = Some x /\ covers x (event_txn t)) /\
  (forall k x, L !! k = Some x -> exists x', L' !! k = Some x' /\ covers x' x) /\
  (forall k x, L' !! k = Some x ->
     L !! k = Some x \/ exists t, t ∈ l /\ event_key t = k /\ x = event_txn t).
Proof.
  revert L. induction l as [|t l IH]; simpl; intros L.
  - intros [= <-]. split_and!; [set_solver|intros k x Hx; by exists x|by left].
  - destruct (ledger_step t L) as [[L1 res]|] eqn:Hs; simpl; [|done].
    intros (H1 & H2 & H3)%IH. apply ledger_step_covers in Hs as ((x & Hx & Hc & Ho) & Hm & Hf).
    split_and!.
    + intros t' [->|Ht']%elem_of_cons; [|auto].
      destruct (H2 _ _ Hx) as (x' & Hx' & Hc'). exists x'. split; [done|]. by trans x.
    + intros k y Hy. destruct (Hm _ _ Hy) as (y' & Hy' & Hc1), (H2 k y') as (y2 & ? & Hc2); [done|].
      exists y2. split; [done|]. by trans y'.
    + intros k y Hy. destruct (H3 _ _ Hy) as [HL|(t' & Ht' & ? & ?)]; [|right; exists t'; set_solver].
      destruct (decide (k = event_key t)) as [->|Hne]; [|left; by rewrite <- Hf].
      assert (y = x) as -> by congruence. destruct Ho as [Ho| ->]; [by left|]. right. exists t. set_solver.
Qed.

Lemma ledger_replay_below l1 l2 L L1 L2 k x :
  (forall t, t ∈ l1 -> t ∈ l2) ->
  ledger_replay l1 L = Some L1 -> ledger_replay l2 L = Some L2 ->
  L1 !! k = Some x -> exists y, L2 !! k = Some y /\ covers y x.
Proof.
  intros Hsub (_ & _ & H1)%ledger_replay_covers (H2 & H3 & _)%ledger_replay_covers Hx.
  destruct (H1 _ _ Hx) as [HL|(t & Ht & <- & ->)]; [by apply H3|]. apply H2. auto.
Qed.

Lemma ledger_replay_order l1 l2 L L1 L2 :
  (forall t, t ∈ l1 <-> t ∈ l2) ->
  ledger_replay l1 L = Some L1 -> ledger_replay l2 L = Some L2 -> L1 = L2.
Proof.
  intros Hl H1 H2. apply map_eq. intros k.
  assert (forall t, t ∈ l1 -> t ∈ l2) as Ha by (intros; by apply Hl).
  assert (forall t, t ∈ l2 -> t ∈ l1) as Hb by (intros; by apply Hl).
  destruct (L1 !! k) as [x|] eqn:Ex, (L2 !! k) as [y|] eqn:Ey; [| | |done].
  - destruct (ledger_replay_below _ _ _ _ _ _ _ Ha H1 H2 Ex) as (y' & ? & ?).
    destruct (ledger_replay_below _ _ _ _ _ _ _ Hb H2 H1 Ey) as (x' & ? & ?).
    f_equal. apply covers_antisymm; congruence.
  - destruct (ledger_replay_below _ _ _ _ _ _ _ Ha H1 H2 Ex) as (y' & ? & ?). congruence.
  - destruct (ledger_replay_below _ _ _ _ _ _ _ Hb H2 H1 Ey) as (y' & ? & ?). congruence.
Qed.

(** * The repository implements the ledger *)

Lemma ledger_lookup d k :
  ledger d !! k = row_txn <$> first (fun r => row_key r =?? k) (revenueCatTransactions d).
Proof.
  unfold ledger. induction (revenueCatTransactions d) as [|r l IH]; [done|].
  simpl. rewrite first_cons. case_bool_decide as E.
  - by rewrite E, lookup_insert_eq.
  - by rewrite lookup_insert_ne by done.
Qed.

Lemma is_transaction_key t r :
  is_transaction (t_providerTransactionId t) r = (row_key r =?? event_key t).
Proof.
  unfold is_transaction, row_key, event_key. apply eq_true_iff_eq.
  rewrite andb_true_iff, !bool_decide_eq_true. split; [intros [-> ->]; done|intros [= -> ->]; done].
Qed.

Lemma ledger_event d t :
  ledger d !! event_key t
  = row_txn <$> first (is_transaction (t_providerTransactionId t)) (revenueCatTransactions d).
Proof.
  rewrite ledger_lookup. unfold first. f_equal. f_equal. apply sel_ext.
  intros r _. by rewrite is_transaction_key.
Qed.

Lemma ledger_insert d r :
  ledger d !! row_key r = None ->
  ledger (d <| revenueCatTransactions ::= fun rows => rows ++ [r] |>) = <[row_key r := row_txn r]> (ledger d).
Proof.
  intros Hk. unfold ledger. simpl. rewrite map_app. apply list_to_map_snoc.
  by apply not_elem_of_list_to_map.
Qed.

(** An UPDATE by id changes the entry of that row. *)
Lemma ledger_update d c f :
  billing_wf d -> c ∈ revenueCatTransactions d -> (forall r, row_key (f r) = row_key r) ->
  ledger (d <| revenueCatTransactions ::=
               mapif (fun r => revenueCatTransactions.id r =?? revenueCatTransactions.id c) f |>)
  = <[row_key c := row_txn (f c)]> (ledger d).
Proof.
  intros Hwf Hc Hf. apply map_eq. intros k. rewrite ledger_lookup. simpl.
  rewrite first_mapif by (intros; by rewrite Hf).
  destruct (decide (k = row_key c)) as [->|Hne].
  - rewrite lookup_insert_eq, (first_key_unique row_key _ _ c);
      [|apply Hwf|done|apply eqb_refl_true|intros y _; by rewrite bool_decide_eq_true].
    simpl. by rewrite eqb_refl_true.
  - rewrite lookup_insert_ne, ledger_lookup by done.
    destruct (first _ _) as [y|] eqn:E; [|done]. simpl.
    apply first_Some in E as [Hy Hk]. rewrite bool_decide_eq_true in Hk.
    case_bool_decide as Hid; [|done].
    assert (y = c) as -> by (by apply (keys_inj revenueCatTransactions.id _ y c (wf_ids _ Hwf))). congruence.
Qed.

Lemma wf_update_transactions d p f :
  billing_wf d -> (forall r, row_key (f r) = row_key r) ->
  (forall r, revenueCatTransactions.userId (f r) = revenueCatTransactions.userId r) ->
  (forall r, revenueCatTransactions.id (f r) = revenueCatTransactions.id r) ->
  billing_wf (d <| revenueCatTransactions ::= mapif p f |>).
Proof.
  intros [Ho ? ? ?] Hk Hu Hi. split; simpl; [|rewrite keys_mapif by auto|rewrite keys_mapif by auto| |]; try done.
  intros r (x & Hx & ->)%elem_of_mapif. destruct (p x); rewrite ?Hu; by apply Ho.
Qed.

Lemma wf_insert_transaction d r :
  billing_wf d -> uuid_param (revenueCatTransactions.userId r) = revenueCatTransactions.userId r -> existsb (revenueCatTransactions_conflict r) (revenueCatTransactions d) = false ->
  billing_wf (d <| revenueCatTransactions ::= fun rows => rows ++ [r] |>).
Proof.
  intros [Ho ? ? ? ?] Hu Hc. rewrite existsb_false in Hc.
  assert (forall y, y ∈ revenueCatTransactions d -> row_key y <> row_key r /\
            revenueCatTransactions.id y <> revenueCatTransactions.id r) as Hne.
  { intros y Hy. specialize (Hc y Hy). unfold revenueCatTransactions_conflict in Hc.
    apply orb_false_iff in Hc as [H1%bool_decide_eq_false H2%andb_false_iff].
    rewrite !bool_decide_eq_false in H2. unfold row_key. split; [|congruence].
    intros [= E1 E2]. destruct H2; congruence. }
  split; simpl; [|apply keys_insert|apply keys_insert|done|done]; try done; try by (intros y Hy; apply Hne).
  intros y [Hy|<-%list_elem_of_singleton]%elem_of_app; [by apply Ho|done].
Qed.

Definition same_balances (d d' : Db) : Prop := userConsumableBalances d = userConsumableBalances d'.

Section refinement.
Context `{Env}.

(** What [recordTransaction] leaves in the ledger. *)
Lemma wp_recordTransaction cur isStale now t w :
  billing_wf (db w) ->
  cur = first (is_transaction (t_providerTransactionId t)) (revenueCatTransactions (db w)) ->
  (cur = None -> isStale = false) ->
  (forall c, cur = Some c -> recognised (row_txn c) t = true) ->
  wp (recordTransaction cur isStale now t) (fun r w' =>
    match r with
    | Ok _ => billing_wf (db w') /\ same_balances (db w) (db w') /\
              ledger (db w') = if isStale then ledger (db w) else <[event_key t := event_txn t]> (ledger (db w))
    | Err _ => True
    end) w.
Proof.
  intros Hwf Hcur Hst Hid. unfold recordTransaction. destruct cur as [c|].
  - symmetry in Hcur. apply first_Some in Hcur as [Hc Hk].
    rewrite is_transaction_key, bool_decide_eq_true in Hk.
    specialize (Hid c eq_refl). apply andb_true_iff in Hid as [Hid _]. apply same_identity_true in Hid as (H1 & H2 & H3 & H4 & H5).
    simpl in *. wp_steps; [done|]. simpl. split_and!.
    + by apply wf_update_transactions.
    + done.
    + rewrite ledger_update by done. rewrite Hk. f_equal. unfold event_txn, row_txn. simpl. congruence.
  - rewrite Hst by done. wp_steps; simpl; [|done|done].
    split_and!; [|done|].
    + apply wf_insert_transaction; [done|apply toLowerCase_idem|done].
    + rewrite ledger_insert; unfold row_key; simpl; [|by change (ledger (db w) !! event_key t = None); rewrite ledger_event, <- Hcur].
      f_equal. unfold event_txn, row_txn. simpl. destruct t as [? ? ? ? ? ? ? []]. done.
Qed.

Lemma credits_update d userId delta now :
  existsb (fun r => userConsumableBalances.userId r =?? userId) (userConsumableBalances d) = true ->
  forall v,
  credits (d <| userConsumableBalances ::=
    mapif (fun r => (userId =?? userConsumableBalances.userId r) && true)
      (fun r => r <| userConsumableBalances.superLikeCredits ::= fun n => n + superLikeCredits delta |>
                  <| userConsumableBalances.boostCredits ::= fun n => n + boostCredits delta |>
                  <| userConsumableBalances.updatedAt := to_column now |>) |>) v
  = units_add (credits d v) (if userId =?? v then delta else ZERO_DELTA).
Proof.
  intros He v. unfold credits. simpl. rewrite first_mapif by done.
  destruct (first _ _) as [r|] eqn:E; simpl.
  - apply first_Some in E as [_ E]. rewrite bool_decide_eq_true in E. rewrite E, andb_true_r.
    case_bool_decide; [done|]. unfold balance_units. units.
  - rewrite first_None in E. case_bool_decide as Heq; [subst v|units].
    apply existsb_true in He as (r & Hr & Hu). rewrite (E r Hr) in Hu. done.
Qed.

Lemma credits_insert d userId delta t :
  existsb (fun r => userConsumableBalances.userId r =?? userId) (userConsumableBalances d) = false ->
  forall v,
  credits (d <| userConsumableBalances ::= fun rows => rows ++
    [userConsumableBalances.mkUserConsumableBalance userId (superLikeCredits delta) (boostCredits delta) t] |>) v
  = units_add (credits d v) (if userId =?? v then delta else ZERO_DELTA).
Proof.
  intros He v. unfold credits. simpl. rewrite first_app.
  destruct (first _ _) as [r|] eqn:E; simpl.
  - apply first_Some in E as [Hr E]. rewrite existsb_false in He. specialize (He r Hr).
    rewrite bool_decide_eq_true in E. rewrite <- E. rewrite bool_decide_eq_false in He.
    rewrite bool_decide_eq_false_2 by congruence. units.
  - rewrite first_cons. simpl. case_bool_decide; simpl; [units|done].
Qed.

Lemma wp_creditBalance userId delta now w :
  billing_wf (db w) ->
  wp (creditBalance userId delta now) (fun r w' =>
    match r with
    | Ok _ => billing_wf (db w') /\ revenueCatTransactions (db w') = revenueCatTransactions (db w) /\
              (forall v, credits (db w') v
                         = units_add (credits (db w) v) (if uuid_param userId =?? v then delta else ZERO_DELTA))
    | Err _ => True
    end) w.
Proof.
  intros Hwf. unfold creditBalance. generalize (uuid_param userId) as u. clear userId. intros userId. assert (forall l : list UserConsumableBalance,
    existsb (fun r => userId =?? userConsumableBalances.userId r) l
    = existsb (fun r => userConsumableBalances.userId r =?? userId) l) as Hsym.
  { intros l. apply eq_true_iff_eq. rewrite !existsb_true. setoid_rewrite bool_decide_eq_true.
    split; intros (r & ? & ?); exists r; auto. }
  wp_steps; simpl.
  - match goal with Hx : existsb (balance_conflict _) _ = true |- _ =>
      unfold balance_conflict in Hx; simpl in Hx; rewrite Hsym in Hx end.
    split_and!; [|done|].
    + destruct Hwf. split; [done|done|done| |done]. simpl. rewrite keys_mapif; done.
    + by apply credits_update.
  - match goal with Hx : existsb (balance_conflict _) _ = false |- _ =>
      unfold balance_conflict in Hx; simpl in Hx; rename Hx into Hex end.
    split_and!; [|done|rewrite Hsym in Hex; by apply credits_insert].
    destruct Hwf. split; [done|done|done| |done]. simpl. apply keys_insert; [done|]. intros y Hy. simpl.
    rewrite existsb_false in Hex. specialize (Hex y Hy). rewrite bool_decide_eq_false in Hex. congruence.
  - done.
  - done.
  - split_and!; [done|done|]. intros v. destruct delta as [a b]; simpl in *.
    assert (a = 0 /\ b = 0) as [-> ->] by (destruct (a =? 0) eqn:?, (b =? 0) eqn:?; simpl in *; try done; lia).
    destruct (_ =?? _); units.
Qed.

Lemma wp_assertTransactionIdentity c0 t (Q : Result unit -> World -> Prop) w :
  uuid_param (revenueCatTransactions.userId c0) = revenueCatTransactions.userId c0 ->
  (recognised (row_txn c0) t = true -> Q (Ok tt) w) ->
  (forall e, recognised (row_txn c0) t = false -> Q (Err e) w) ->
  wp (assertTransactionIdentity c0 t) Q w.
Proof.
  intros Hu Hok Herr. unfold assertTransactionIdentity.
  match goal with |- wp (require ?a _ _ ;; require ?b _ _ ;; require ?c _ _) _ _ =>
    assert (recognised (row_txn c0) t = a && b && c) as E end.
  { apply eq_true_iff_eq. unfold recognised. rewrite andb_true_iff, same_identity_true, !andb_true_iff, !bool_decide_eq_true.
    unfold row_txn, event_txn, event_owner. simpl. destruct (t_units t) as [x y]. simpl.
    assert (mkUnits (revenueCatTransactions.superLikeUnits c0) (revenueCatTransactions.boostUnits c0) = mkUnits x y
            <-> revenueCatTransactions.superLikeUnits c0 = x /\ revenueCatTransactions.boostUnits c0 = y) as ->
      by (split; [intros [= -> ->]; done|intros [-> ->]; done]).
    rewrite !Z.eqb_eq. intuition congruence. }
  rewrite E in *. wp_steps; repeat match goal with Hb : _ = _ |- _ => rewrite Hb in * end; simpl in *; auto.
Qed.

(** The decisions the handler computes from the current row are the ledger step. *)
Lemma ledger_step_code d t :
  let cur := first (is_transaction (t_providerTransactionId t)) (revenueCatTransactions d) in
  let isStale := if cur is Some c
    then t_eventTimestampMs t <=? revenueCatTransactions.stateEventTimestampMs c else false in
  (forall c, cur = Some c -> recognised (row_txn c) t = true /\
     (revenueCatTransactions.stateEventTimestampMs c =? t_eventTimestampMs t)
       && negb (revenueCatTransactions.state c =?? t_targetState t) = false) ->
  forall effective,
  (if isStale then revenueCatTransactions.state <$> cur else Some (t_targetState t)) = Some effective ->
  ledger_step t (ledger d) = Some
    (if isStale then ledger d else <[event_key t := event_txn t]> (ledger d),
     mkApplied (if isStale then stale else applied) (Some effective)
       (if isStale then ZERO_DELTA
        else transitionDelta (revenueCatTransactions.state <$> cur) (t_targetState t) (t_units t))).
Proof.
  intros cur isStale Hcur eff Heff. unfold ledger_step. rewrite ledger_event.
  fold cur. destruct cur as [c|]; simpl in *.
  - destruct (Hcur c eq_refl) as [Hid Hts]. rewrite Hid, Hts. simpl. subst isStale.
    destruct (_ <=? _) eqn:Hle; [by simplify_eq|]. injection Heff as <-.
    do 2 f_equal. apply andb_true_iff in Hid as [Hid _]. apply same_identity_true in Hid as (_ & _ & _ & _ & Hu). simpl in Hu.
    unfold transitionDelta, value. simpl. rewrite Hu.
    destruct (revenueCatTransactions.state c), (t_targetState t), (t_units t) as [a b]; simpl; f_equal;
      apply units_ext; simpl; repeat case_match; lia.
  - injection Heff as <-. unfold transitionDelta, value. simpl. by destruct (t_targetState t).
Qed.

(** The handler and the ledger step agree, whenever the handler returns. *)
Lemma wp_applyConsumableTransition eventId t w :
  billing_wf (db w) ->
  wp (applyConsumableTransition eventId t) (fun r w' =>
    match r with
    | Ok res => ledger_step t (ledger (db w)) = Some (ledger (db w'), res) /\ billing_wf (db w') /\
        (forall v, credits (db w') v
                   = units_add (credits (db w) v) (if event_owner t =?? v then balanceDelta res else ZERO_DELTA))
    | Err _ => True
    end) w.
Proof.
  intros Hwf. unfold applyConsumableTransition. apply wp_bind, wp_findFirst.
  set (cur := first _ _).
  apply wp_bind, (wp_mono _ (fun r w' => match r with
    | Ok _ => w' = w /\ forall c, cur = Some c -> recognised (row_txn c) t = true
    | Err _ => True end)).
  { destruct cur as [c|] eqn:Ec; [|by apply wp_ret].
    apply wp_assertTransactionIdentity; [apply Hwf, (first_Some _ _ _ Ec)| |done]. intros Hid. split; [done|]. by intros ? [= <-]. }
  intros [_|e] w' Hw'; [|done]. destruct Hw' as [-> Hid].
  apply wp_bind, (wp_mono _ (fun r w' => match r with
    | Ok _ => w' = w /\ forall c, cur = Some c ->
       (revenueCatTransactions.stateEventTimestampMs c =? t_eventTimestampMs t)
         && negb (revenueCatTransactions.state c =?? t_targetState t) = false
    | Err _ => True end)).
  { destruct cur as [c|]; [|by apply wp_ret]. apply wp_require; [|done].
    intros Hts%negb_true_iff. split; [done|]. by intros ? [= <-]. }
  intros [_|e] w' Hw'; [|done]. destruct Hw' as [-> Hts].
  pose proof (ledger_step_code (db w) t) as Hstep. fold cur in Hstep. cbv zeta in *.
  set (isStale := if cur is Some c then _ else false) in *.
  set (effective := if isStale then _ else _) in *.
  destruct effective as [eff|]; [|done].
  specialize (Hstep (fun c Hc => conj (Hid c Hc) (Hts c Hc)) eff eq_refl). rewrite Hstep.
  set (delta := if isStale then ZERO_DELTA else _).
  wp_step. wp_step. wp_step.
  eapply wp_mono; [apply wp_recordTransaction; [done|done| |done]|].
  { intros Hc. unfold isStale. by rewrite Hc. }
  intros [id|e] w1 H1; [|done]. destruct H1 as (Hwf1 & Hb1 & HL1).
  wp_step. wp_step; [|done]. intros _. wp_step.
  eapply wp_mono; [by apply wp_creditBalance|].
  intros [_|e] w2 H2; [|done]. destruct H2 as (Hwf2 & Ht2 & Hc2).
  wp_steps; [|done|done]. simpl. split_and!.
  - do 2 f_equal. unfold ledger. simpl. rewrite Ht2. unfold ledger in HL1. by rewrite HL1.
  - destruct Hwf2. by split.
  - intros v. change (credits _ v) with (credits (db w2) v) at 1. rewrite Hc2. f_equal.
    unfold same_balances in Hb1. simpl in Hb1. unfold credits. by rewrite Hb1.
Qed.

(** ** The event log *)

Lemma wp_recordEvent e w :
  billing_wf (db w) ->
  wp (recordEvent e) (fun r w' =>
    match r with
    | Ok true => (forall x, x ∈ billingEvents (db w) -> billingEvents.providerEventId x <> providerEventId e) /\
        exists row, db w' = (db w) <| billingEvents ::= fun rows => rows ++ [row] |> /\
          billingEvents.providerEventId row = providerEventId e /\
          billingEvents.payloadHash row = payloadHash e /\ billingEvents.provider row = js "revenuecat"
    | Ok false => db w' = db w
    | Err _ => db w' = db w
    end) w.
Proof.
  intros Hwf. unfold recordEvent. wp_steps; try done. split; [|by eexists].
  intros x Hx Heq. match goal with Hc : existsb (billingEvents_conflict _) _ = false |- _ =>
    rewrite existsb_false in Hc; specialize (Hc x Hx); unfold billingEvents_conflict in Hc; simpl in Hc;
    rewrite orb_false_iff, !bool_decide_eq_false in Hc; intuition congruence end.
Qed.

(** A recorded event id: the same payload is a duplicate, another one is refused. *)
Lemma wp_recordEvent_seen e row w (Q : Result bool -> World -> Prop) :
  billing_wf (db w) -> row ∈ billingEvents (db w) ->
  billingEvents.providerEventId row = providerEventId e ->
  billingEvents.provider row = js "revenuecat" ->
  (forall w', db w' = db w -> effects w' = effects w -> Q
     (if billingEvents.payloadHash row =?? payloadHash e then Ok false
      else Err (mkExn PlainError (js "REVENUECAT_EVENT_PAYLOAD_CONFLICT"))) w') ->
  wp (recordEvent e) Q w.
Proof.
  intros Hwf Hrow Hid Hprov HQ. unfold recordEvent. do 4 wp_step.
  apply wp_bind, wp_insertOrNothing; simpl.
  - intros _. wp_step. wp_step.
    rewrite (first_key_unique billingEvents.providerEventId _ _ row); [|apply Hwf|done| |].
    + rewrite Hprov, (eqb_refl_true (js "revenuecat")). simpl. case_bool_decide; wp_step; by apply HQ.
    + by apply bool_decide_eq_true.
    + intros y _ Hy. rewrite bool_decide_eq_true in Hy. congruence.
  - intros Hno. exfalso. rewrite existsb_false in Hno. specialize (Hno row Hrow).
    unfold billingEvents_conflict in Hno. simpl in Hno.
    rewrite orb_false_iff, !bool_decide_eq_false in Hno. intuition congruence.
Qed.

(** ** Subscriptions *)

(** The columns of a user's store subscription the events determine. *)
Definition subscription_row (userId : jstr) (d : Db) : option UserSubscription :=
  first (is_revenuecat_subscription userId) (userSubscriptions d).
Definition subscription_timestamp (userId : jstr) (d : Db) : Z :=
  default (-1) (subscription_row userId d ≫= userSubscriptions.providerEventTimestampMs).

Definition subscription_reflects (s : RevenueCatSubscription) (r : UserSubscription) : Prop :=
  userSubscriptions.planId r = s_planId s /\
  userSubscriptions.status r = status_text (s_status s) /\
  userSubscriptions.providerCustomerId r = Some (s_providerCustomerId s) /\
  userSubscriptions.providerProductId r = Some (s_providerProductId s) /\
  userSubscriptions.providerEventTimestampMs r = Some (s_eventTimestampMs s) /\
  userSubscriptions.currentPeriodStartsAt r = Some (to_column (s_startsAt s)) /\
  (forall e, s_endsAt s = Some e -> userSubscriptions.currentPeriodEndsAt r = Some (to_column e)).

(** Row ids are unique (the primary key). *)
Definition subscription_ids (d : Db) : Prop := NoDup (map userSubscriptions.id (userSubscriptions d)).

Lemma wp_applySubscription userId s w :
  subscription_ids (db w) ->
  wp (applySubscription userId s) (fun r w' =>
    match r with
    | Ok res => revenueCatTransactions (db w') = revenueCatTransactions (db w) /\
        userConsumableBalances (db w') = userConsumableBalances (db w) /\
        billingEvents (db w') = billingEvents (db w) /\ subscription_ids (db w') /\
        (forall v, v <> uuid_param userId -> subscription_row v (db w') = subscription_row v (db w)) /\
        if s_eventTimestampMs s <=? subscription_timestamp (uuid_param userId) (db w)
        then res = mkApplied stale None ZERO_DELTA /\ userSubscriptions (db w') = userSubscriptions (db w)
        else res = mkApplied applied None ZERO_DELTA /\
             exists row, subscription_row (uuid_param userId) (db w') = Some row /\ subscription_reflects s row
    | Err _ => db w' = db w
    end) w.
Proof.
  intros Hids. unfold applySubscription. generalize (uuid_param userId) as u. clear userId. intros userId. cbv zeta. wp_step. wp_step.
  unfold subscription_timestamp, subscription_row. set (cur := first (is_revenuecat_subscription userId) _).
  destruct (_ <=? _) eqn:Hts; [by wp_step|].
  destruct cur as [c|] eqn:Hcur; wp_steps; simpl; try done.
  - pose proof (first_Some _ _ _ Hcur) as [Hc Hp]. unfold is_revenuecat_subscription in Hp.
    apply andb_true_iff in Hp as [Hu Hpr]. rewrite bool_decide_eq_true in Hu, Hpr.
    assert (forall r, r ∈ userSubscriptions (db w) ->
      userSubscriptions.id r = userSubscriptions.id c -> r = c) as Hinj.
    { intros r Hr Hid. by apply (keys_inj userSubscriptions.id _ r c Hids). }
    split_and!; try done.
    + unfold subscription_ids. simpl. by rewrite keys_mapif.
    + intros v Hv. rewrite first_mapif.
      * destruct (first (is_revenuecat_subscription v) _) as [y|] eqn:Ey; [|done]. simpl.
        case_bool_decide as Hid; [|done]. apply first_Some in Ey as [Hy Hpy].
        apply (Hinj _ Hy) in Hid as ->. unfold is_revenuecat_subscription in Hpy.
        apply andb_true_iff in Hpy as [Hpy _]. rewrite bool_decide_eq_true in Hpy. congruence.
      * intros y Hy Hid. rewrite bool_decide_eq_true in Hid. apply (Hinj _ Hy) in Hid as ->.
        unfold is_revenuecat_subscription. simpl. by rewrite Hu, Hpr.
    + rewrite first_mapif.
      * fold cur. rewrite Hcur. simpl. rewrite eqb_refl_true. eexists. split; [done|].
        split_and!; try done. intros e He. simpl. by rewrite He.
      * intros y Hy Hid. rewrite bool_decide_eq_true in Hid. apply (Hinj _ Hy) in Hid as ->.
        unfold is_revenuecat_subscription. simpl. by rewrite Hu, Hpr.
  - match goal with Hx : existsb (conflicts _) _ = false |- _ => rename Hx into Hc end.
    rewrite existsb_false in Hc.
    split_and!; try done.
    + unfold subscription_ids. simpl. apply keys_insert; [done|]. intros y Hy.
      specialize (Hc y Hy). simpl in Hc. unfold userSubscriptions_conflict in Hc. simpl in Hc.
      rewrite orb_false_iff, bool_decide_eq_false in Hc. simpl. intros E. destruct Hc. congruence.
    + intros v Hv. rewrite first_app. destruct (first (is_revenuecat_subscription v) (userSubscriptions (db w))); [done|]. rewrite first_cons.
      unfold is_revenuecat_subscription. simpl. rewrite bool_decide_eq_false_2 by congruence. done.
    + rewrite first_app. fold cur. rewrite Hcur, first_cons.
      unfold is_revenuecat_subscription. simpl. rewrite !eqb_refl_true. eexists. split; [done|].
      split_and!; try done. intros e He. simpl. by rewrite He.
Qed.

(** ** Whole events *)

Lemma keeps_consumable_subscriptions eventId t :
  keeps (fun w => userSubscriptions (db w)) (applyConsumableTransition eventId t).
Proof.
  unfold applyConsumableTransition, assertTransactionIdentity, recordTransaction, creditBalance.
  solve_keeps.
Qed.

(** What an event that is neither a duplicate nor refused does to the ledger. *)
Definition event_effect (input : RevenueCatEventInput) (d d' : Db) (res : RevenueCatApplyResult) : Prop :=
  match input with
  | ConsumableEvent _ t =>
      ledger_step t (ledger d) = Some (ledger d', res) /\
      (forall v, credits d' v = units_add (credits d v) (if event_owner t =?? v then balanceDelta res else ZERO_DELTA))
  | _ => ledger d' = ledger d /\ forall v, credits d' v = credits d v
  end.

Lemma ledger_step_outcome t L L' res : ledger_step t L = Some (L', res) -> outcome res <> duplicate.
Proof.
  unfold ledger_step. destruct (L !! _); [|by intros [= <- <-]].
  destruct (recognised _ _); simpl; [|done]. destruct (_ && _); [done|].
  by destruct (_ <=? _); intros [= <- <-].
Qed.

Lemma wf_same d d' :
  revenueCatTransactions d' = revenueCatTransactions d ->
  userConsumableBalances d' = userConsumableBalances d ->
  billingEvents d' = billingEvents d -> billing_wf d -> billing_wf d'.
Proof. intros E1 E2 E3 [? ? ? ? ?]. split; by rewrite ?E1, ?E2, ?E3. Qed.

Lemma wf_record d row :
  billing_wf d ->
  (forall x, x ∈ billingEvents d -> billingEvents.providerEventId x <> billingEvents.providerEventId row) ->
  billing_wf (d <| billingEvents ::= fun rows => rows ++ [row] |>).
Proof. intros [? ? ? ? ?] Hn. split; try done. simpl. by apply keys_insert. Qed.

Lemma wp_applyRevenueCatEvent input w :
  billing_wf (db w) -> subscription_ids (db w) ->
  wp (applyRevenueCatEvent input) (fun r w' =>
    match r with
    | Ok res => billing_wf (db w') /\ subscription_ids (db w') /\
        (outcome res = duplicate -> db w' = db w) /\
        (outcome res <> duplicate -> event_effect input (db w) (db w') res)
    | Err _ => db w' = db w
    end) w.
Proof.
  intros Hwf Hsub. unfold applyRevenueCatEvent. apply wp_transaction, wp_bind.
  eapply wp_mono; [by apply wp_recordEvent|].
  intros [[]|e] w1; [|intros E|done].
  - intros (Hnew & row & E & Hid & _). rewrite <- Hid in Hnew.
    pose proof (wf_record _ _ Hwf Hnew) as Hwf1. rewrite <- E in Hwf1.
    assert (subscription_ids (db w1)) as Hsub1 by by rewrite E.
    assert (ledger (db w1) = ledger (db w) /\ forall v, credits (db w1) v = credits (db w) v) as [HL HC]
      by by rewrite E.
    destruct input as [e|e u s|e t].
    + wp_step. split_and!; done.
    + eapply wp_mono; [by apply wp_applySubscription|].
      intros [res|err] w2; [|done]. intros (E1 & E2 & E3 & Hs2 & _ & Hr).
      split_and!; [by eapply wf_same|done| |].
      * destruct (_ <=? _); destruct Hr as [-> _]; done.
      * intros _. simpl. split; [rewrite <- HL; unfold ledger; by rewrite E1|].
        intros v. rewrite <- HC. unfold credits. by rewrite E2.
    + eapply wp_mono; [apply wp_and; [by apply wp_applyConsumableTransition|apply keeps_consumable_subscriptions]|].
      intros [res|err] w2; [|done]. simpl. intros [(Hstep & Hwf2 & HC2) Hf].
      rewrite HL in Hstep. split_and!; [done|by unfold subscription_ids; rewrite Hf| |].
      * intros Hd. by apply ledger_step_outcome in Hstep.
      * intros _. split; [done|]. intros v. by rewrite HC2, HC.
  - wp_step. rewrite E. simpl. split_and!; done.
Qed.
End refinement.

(** * Theorems *)

(** Events arrive one request at a time; a refused one leaves no trace. *)
Fixpoint deliver `{Env} (l : list RevenueCatEventInput) (w : World)
    : World * list (Result RevenueCatApplyResult) :=
  match l with
  | [] => (w, [])
  | input :: l' =>
      let '(w1, r) := applyRevenueCatEvent input w in
      let '(w2, rs) := deliver l' w1 in
      (w2, r :: rs)
  end.

(** The event was new and changed or confirmed the state. *)
Definition accepted_result (r : Result RevenueCatApplyResult) : bool :=
  if r is Ok res then (if outcome res is duplicate then false else true) else false.

Section theorems.
Context `{Env}.

Definition billing_inv (d : Db) : Prop := billing_wf d /\ subscription_ids d.

Lemma deliver_cons input l w w' rs :
  deliver (input :: l) w = (w', rs) ->
  exists w1 r rs', applyRevenueCatEvent input w = (w1, r) /\ deliver l w1 = (w', rs') /\ rs = r :: rs'.
Proof.
  simpl. destruct (applyRevenueCatEvent input w) as [w1 r] eqn:E1.
  destruct (deliver l w1) as [w2 rs'] eqn:E2. intros [= -> <-]. eauto 10.
Qed.

Lemma apply_inv input w w' r :
  billing_inv (db w) -> applyRevenueCatEvent input w = (w', r) -> billing_inv (db w').
Proof.
  intros [Hwf Hs] E. pose proof (wp_run _ _ _ _ _ E (wp_applyRevenueCatEvent input w Hwf Hs)) as HQ.
  destruct r as [res|e]; simpl in HQ; [by destruct HQ as (? & ? & _)|by rewrite HQ].
Qed.

Lemma apply_conserves input w w' r u :
  billing_inv (db w) -> applyRevenueCatEvent input w = (w', r) ->
  units_sub (credits (db w') u) (grants (ledger (db w')) u)
  = units_sub (credits (db w) u) (grants (ledger (db w)) u).
Proof.
  intros [Hwf Hs] E. pose proof (wp_run _ _ _ _ _ E (wp_applyRevenueCatEvent input w Hwf Hs)) as HQ.
  destruct r as [res|e]; simpl in HQ; [|by rewrite HQ]. destruct HQ as (_ & _ & Hdup & Heff).
  destruct (outcome res) eqn:Ho; [|by rewrite Hdup|]; specialize (Heff ltac:(done));
    (destruct input as [e|e v s|e t]; simpl in Heff; destruct Heff as [Hl Hc];
     [by rewrite Hl, Hc|by rewrite Hl, Hc|
      rewrite (ledger_step_conserves _ _ _ _ u Hl), Hc; units]).
Qed.

Lemma deliver_conserves l w w' rs :
  billing_inv (db w) -> deliver l w = (w', rs) ->
  billing_inv (db w') /\
  forall u, units_sub (credits (db w') u) (grants (ledger (db w')) u)
            = units_sub (credits (db w) u) (grants (ledger (db w)) u).
Proof.
  revert w rs. induction l as [|input l IH]; intros w rs Hinv E; [by simplify_eq/=|].
  apply deliver_cons in E as (w1 & r & rs' & E1 & E2 & ->).
  destruct (IH w1 rs') as [Hinv' Heq]; [by eapply apply_inv|done|].
  split; [done|]. intros u. rewrite Heq. by eapply apply_conserves.
Qed.

(** C1: credits follow grants.  However many store events arrive, in whatever
    order, replayed, stale or refused, each user's consumable credits exceed the
    units of the transactions currently in state "granted" by the same amount as
    before: no event credits a purchase twice, or debits a refund twice. *)
Theorem billing_credits_conserved l w w' rs :
  billing_inv (db w) -> deliver l w = (w', rs) ->
  billing_inv (db w') /\
  forall u, units_sub (credits (db w') u) (grants (ledger (db w')) u)
            = units_sub (credits (db w) u) (grants (ledger (db w)) u).
Proof. apply deliver_conserves. Qed.

Definition consumable_of (i : RevenueCatEventInput) : option RevenueCatConsumableTransition :=
  if i is ConsumableEvent _ t then Some t else None.

Lemma deliver_replays l w w' rs :
  billing_inv (db w) -> deliver l w = (w', rs) -> forallb accepted_result rs = true ->
  ledger_replay (omap consumable_of l) (ledger (db w)) = Some (ledger (db w')).
Proof.
  revert w rs. induction l as [|input l IH]; intros w rs Hinv E Hacc; [by simplify_eq/=|].
  apply deliver_cons in E as (w1 & r & rs' & E1 & E2 & ->).
  simpl in Hacc. apply andb_true_iff in Hacc as [Hr Hacc].
  assert (billing_inv (db w1)) as Hinv1 by eauto using apply_inv.
  pose proof (wp_run _ _ _ _ _ E1 (wp_applyRevenueCatEvent input w (proj1 Hinv) (proj2 Hinv))) as HQ.
  destruct r as [res|e]; [|done]. simpl in HQ, Hr. destruct HQ as (_ & _ & _ & Heff).
  specialize (Heff ltac:(intros Ho; by rewrite Ho in Hr)).
  specialize (IH w1 rs' Hinv1 E2 Hacc).
  destruct input as [e|e u s|e t]; simpl in *; destruct Heff as [Hl _];
    [by rewrite <- Hl|by rewrite <- Hl|by rewrite Hl].
Qed.

(** C2: the store may deliver events in any order.  If two deliveries of the
    same set of events from the same database are both accepted, they end with
    the same transaction states and the same credits for every user. *)
Theorem billing_order_independent l1 l2 w w1 w2 rs1 rs2 u :
  billing_inv (db w) -> (forall i, i ∈ l1 <-> i ∈ l2) ->
  deliver l1 w = (w1, rs1) -> forallb accepted_result rs1 = true ->
  deliver l2 w = (w2, rs2) -> forallb accepted_result rs2 = true ->
  ledger (db w1) = ledger (db w2) /\ credits (db w1) u = credits (db w2) u.
Proof.
  intros Hinv Hl E1 A1 E2 A2.
  assert (ledger (db w1) = ledger (db w2)) as HL.
  { eapply ledger_replay_order; [|by eapply deliver_replays|by eapply deliver_replays].
    intros t. rewrite !list_elem_of_omap. by setoid_rewrite Hl. }
  split; [done|].
  pose proof (proj2 (deliver_conserves l1 w w1 rs1 Hinv E1) u) as C1.
  pose proof (proj2 (deliver_conserves l2 w w2 rs2 Hinv E2) u) as C2.
  rewrite HL, <- C2 in C1. apply (f_equal superLikeCredits) in C1 as Ca.
  apply (f_equal boostCredits) in C1 as Cb. simpl in *. units.
Qed.

(** ** Accepted events *)

(** The ids drawn from now on are new. *)
Definition fresh_rows (w : World) : Prop := forall n, (tick w <= n)%nat ->
  random_uuid n <> [] /\
  random_uuid n ∉ map revenueCatTransactions.id (revenueCatTransactions (db w)) /\
  random_uuid n ∉ map revenueCatTransactionLedger.id (revenueCatTransactionLedger (db w)).
Definition fresh_ids (w : World) : Prop :=
  random_uuid (tick w) ∉ map billingEvents.id (billingEvents (db w)) /\ fresh_rows w.

(** The event can be stored: its id is new and its owner exists. *)
Record storable (e : RevenueCatRecordedEvent) (t : RevenueCatConsumableTransition) (d : Db) : Prop := {
  st_event : providerEventId e ∉ map billingEvents.providerEventId (billingEvents d);
  st_entry : providerEventId e ∉ map revenueCatTransactionLedger.providerEventId (revenueCatTransactionLedger d);
  st_user : user_exists d (event_owner t) = true;
  st_units : 0 <= superLikeCredits (t_units t) /\ 0 <= boostCredits (t_units t) /\
             0 < superLikeCredits (t_units t) + boostCredits (t_units t);
  st_ids : [] ∉ map revenueCatTransactions.id (revenueCatTransactions d)
}.

Lemma recordEvent_fresh e t w :
  fresh_ids w -> storable e t (db w) ->
  wp (recordEvent e) (fun r w' => r = Ok true /\ exists row,
    w' = w <| db ::= fun d => d <| billingEvents ::= fun rows => rows ++ [row] |> |> <| tick ::= fun n => S (S n) |>
    /\ billingEvents.id row = random_uuid (tick w) /\ billingEvents.providerEventId row = providerEventId e) w.
Proof.
  intros [Hid _] [He _ _ _ _]. unfold recordEvent.
  assert (forall row, billingEvents.id row = random_uuid (tick w) ->
    billingEvents.providerEventId row = providerEventId e ->
    existsb (billingEvents_conflict row) (billingEvents (db w)) = false) as Hno.
  { intros row E1 E2. unfold billingEvents_conflict.
    apply existsb_or; rewrite ?E1, ?E2; by apply existsb_keys. }
  do 4 wp_step. wp_step. wp_step; simpl; rewrite Hno by done; [done|]. intros _.
  wp_step; simpl; rewrite ?Hno by done; [|done|done]. intros _ _. wp_step.
  split; [done|]. exists (billingEvents.mkBillingEvent (random_uuid (tick w)) (providerEventId e)
    (js "revenuecat") (payloadHash e) (pg_clock (S (tick w)))). split; [|done]. by destruct w as [[] ? ?].
Qed.

Lemma creditBalance_ok userId delta now w :
  user_exists (db w) (uuid_param userId) = true ->
  wp (creditBalance userId delta now) (fun r w' =>
    is_ok r /\ billingEvents (db w') = billingEvents (db w) /\
    revenueCatTransactions (db w') = revenueCatTransactions (db w) /\
    revenueCatTransactionLedger (db w') = revenueCatTransactionLedger (db w) /\ (tick w <= tick w')%nat) w.
Proof.
  unfold creditBalance. generalize (uuid_param userId) as u. clear userId. intros userId Hu. cbv zeta. wp_steps; simpl; try by split_and!; auto.
  - match goal with Hi : insertable _ _ = Some _ |- _ => simpl in Hi; rewrite Hu in Hi end. done.
  - match goal with Hn : existsb (balance_conflict ?x) ?l = false, Hc : existsb (conflicts _) _ = true |- _ =>
      change (existsb (balance_conflict x) l = true) in Hc end. congruence.
Qed.

Lemma recordTransaction_ok cur isStale now t w :
  user_exists (db w) (event_owner t) = true ->
  (0 <= superLikeCredits (t_units t) /\ 0 <= boostCredits (t_units t) /\
   0 < superLikeCredits (t_units t) + boostCredits (t_units t)) ->
  fresh_rows w -> [] ∉ map revenueCatTransactions.id (revenueCatTransactions (db w)) ->
  cur = first (is_transaction (t_providerTransactionId t)) (revenueCatTransactions (db w)) ->
  wp (recordTransaction cur isStale now t) (fun r w' =>
    (exists id, r = Ok id /\ id <> [] /\ transaction_exists (db w') id = true) /\
    user_exists (db w') (event_owner t) = true /\
    billingEvents (db w') = billingEvents (db w) /\
    revenueCatTransactionLedger (db w') = revenueCatTransactionLedger (db w) /\ (tick w <= tick w')%nat) w.
Proof.
  unfold event_owner. intros Hu Hunits Hf Hnil Hcur. unfold recordTransaction. destruct cur as [c|].
  - symmetry in Hcur. apply first_Some in Hcur as [Hc _].
    assert (revenueCatTransactions.id c <> []) as Hne.
    { intros E. apply Hnil, key_elem. eauto. }
    assert (transaction_exists (db w) (revenueCatTransactions.id c) = true) as He.
    { unfold transaction_exists. apply existsb_true. exists c. by rewrite eqb_refl_true. }
    wp_steps; simpl; split_and!; try done; eexists; split_and!; try done.
    unfold transaction_exists. simpl. apply existsb_true.
    apply existsb_true in He as (x & Hx & Hxc). exists (if revenueCatTransactions.id x =?? revenueCatTransactions.id c
      then x <| revenueCatTransactions.state := t_targetState t |>
             <| revenueCatTransactions.stateEventTimestampMs := t_eventTimestampMs t |>
             <| revenueCatTransactions.updatedAt := to_column now |> else x).
    split; [apply elem_of_mapif; eauto|]. by rewrite Hxc.
  - destruct (Hf (tick w)) as (Hne & Hid & _); [lia|]. wp_steps; simpl.
    + split_and!; try done; [|lia]. eexists. split_and!; try done.
      apply existsb_self. apply eqb_refl_true.
    + match goal with Hi : insertable _ _ = Some _ |- _ => simpl in Hi; rewrite Hu in Hi;
        unfold REFERENCES, CHECK in Hi; simpl in Hi; rename Hi into Hbad end.
      repeat case_match; simplify_eq; lia.
    + match goal with Hx : existsb _ _ = true |- _ => rename Hx into Hbad end.
      simpl in Hbad. unfold revenueCatTransactions_conflict in Hbad. rewrite existsb_or in Hbad; [done| |].
      * by apply existsb_keys.
      * apply existsb_false. intros x Hx. symmetry in Hcur. rewrite first_None in Hcur.
        specialize (Hcur x Hx). unfold is_transaction in Hcur. simpl.
        rewrite andb_false_iff, !bool_decide_eq_false in *. intuition congruence.
Qed.

Lemma ledger_step_checks t d cur res :
  cur = first (is_transaction (t_providerTransactionId t)) (revenueCatTransactions d) ->
  ledger_step t (ledger d) = Some res ->
  forall c, cur = Some c ->
  recognised (row_txn c) t = true /\
  (revenueCatTransactions.stateEventTimestampMs c =? t_eventTimestampMs t)
    && negb (revenueCatTransactions.state c =?? t_targetState t) = false.
Proof.
  intros Hcur Hs c ->. unfold ledger_step in Hs. rewrite ledger_event, <- Hcur in Hs. simpl in Hs.
  destruct (recognised _ _); [|done]. simpl in Hs. by destruct (_ && _).
Qed.

Lemma applyConsumableTransition_ok e t w res :
  billing_wf (db w) -> user_exists (db w) (event_owner t) = true ->
  (0 <= superLikeCredits (t_units t) /\ 0 <= boostCredits (t_units t) /\
   0 < superLikeCredits (t_units t) + boostCredits (t_units t)) ->
  fresh_rows w -> [] ∉ map revenueCatTransactions.id (revenueCatTransactions (db w)) ->
  billingEvent_exists (db w) e = true ->
  e ∉ map revenueCatTransactionLedger.providerEventId (revenueCatTransactionLedger (db w)) ->
  ledger_step t (ledger (db w)) = Some res ->
  wp (applyConsumableTransition e t) (fun r _ => is_ok r) w.
Proof.
  intros Hwf Hu Hunits Hf Hnil He Hl Hstep. unfold applyConsumableTransition. wp_step. wp_step.
  set (cur := first _ _). pose proof (ledger_step_checks _ _ cur _ eq_refl Hstep) as Hc.
  apply wp_bind, (wp_mono _ (fun r w' => w' = w /\ r = Ok tt)).
  { destruct cur as [c|] eqn:Ec; [|by apply wp_ret]. destruct (Hc c eq_refl) as [Hid _].
    apply wp_assertTransactionIdentity; [apply Hwf, (first_Some _ _ _ Ec)|done|]. intros e' Hno. congruence. }
  intros _ _ [-> ->].
  apply wp_bind, (wp_mono _ (fun r w' => w' = w /\ r = Ok tt)).
  { destruct cur as [c|]; [|by apply wp_ret]. destruct (Hc c eq_refl) as [_ Hts]. by rewrite Hts. }
  intros _ _ [-> ->]. cbv zeta.
  set (isStale := if cur is Some c then _ else false).
  set (effective := if isStale then _ else _).
  assert (exists eff, effective = Some eff) as [eff ->].
  { unfold effective, isStale. destruct cur as [c|]; simpl; [destruct (_ <=? _)|]; eauto. }
  wp_step. wp_step. wp_step.
  eapply wp_mono.
  { apply recordTransaction_ok; [done|done| |done|done].
    intros n Hn. apply Hf. simpl in Hn. lia. }
  intros r1 w1 ((id & -> & Hne & Htx) & Hu1 & Hb1 & Hl1 & Ht1). simpl in *.
  wp_step. wp_step; [intros _|intros Hbad; by rewrite bool_decide_eq_false_2 in Hbad].
  wp_step. eapply wp_mono; [by apply creditBalance_ok|].
  intros r2 w2 (Hok & Hb2 & Htx2 & Hl2 & Ht2). destruct r2 as [[]|]; [|done].
  wp_steps; try done; simpl.
  - match goal with Hi : insertable _ _ = Some _ |- _ => rename Hi into Hbad end. simpl in Hbad.
    unfold REFERENCES, billingEvent_exists, transaction_exists in *. simpl in Hbad.
    rewrite Hb2, Hb1, He, Htx2, Htx in Hbad. done.
  - match goal with Hx : existsb _ _ = true |- _ => rename Hx into Hbad end. simpl in Hbad.
    destruct (Hf (tick w2)) as (_ & _ & Hid); [lia|].
    unfold revenueCatTransactionLedger_conflict in Hbad. rewrite Hl2, Hl1 in Hbad.
    rewrite existsb_or in Hbad; [done| |]; by apply existsb_keys.
Qed.

(** A new event takes the branch of its kind. *)
Lemma applyRevenueCatEvent_new e t w :
  billing_inv (db w) -> fresh_ids w -> storable e t (db w) ->
  wp (applyRevenueCatEvent (ConsumableEvent e t)) (fun r _ =>
    (forall res, r = Ok res -> exists L', ledger_step t (ledger (db w)) = Some (L', res)) /\
    (is_Some (ledger_step t (ledger (db w))) -> is_ok r)) w.
Proof.
  intros [Hwf Hs] Hf Hst. apply wp_transaction, wp_bind.
  eapply wp_mono; [exact (recordEvent_fresh e t w Hf Hst)|].
  intros _ w1 (-> & row & -> & _ & Hid). simpl.
  set (w1 := (w <| db ::= _ |>) <| tick ::= _ |>).
  assert (billing_wf (db w1)) as Hwf1.
  { apply (wf_record _ row Hwf). rewrite Hid. destruct Hst as [Hnew _ _ _ _].
    intros x Hx Hxe. apply Hnew, key_elem. eauto. }
  pose proof (wp_applyConsumableTransition (providerEventId e) t w1 Hwf1) as HA.
  assert (forall res, ledger_step t (ledger (db w1)) = Some res ->
    wp (applyConsumableTransition (providerEventId e) t) (fun r _ => is_ok r) w1) as HB.
  { intros res Hstep. destruct Hst as [_ Hl Hu Hun Hnil].
    apply (applyConsumableTransition_ok _ _ _ res); try done.
    - intros n Hn. apply Hf. simpl in Hn. lia.
    - apply existsb_self. by apply bool_decide_eq_true. }
  change (ledger (db w1)) with (ledger (db w)) in *.
  unfold wp in *. destruct (applyConsumableTransition _ _ w1) as [w2 [res|err]]; simpl in *.
  - destruct HA as [HA _]. split; [|done]. intros ? [= <-]. eauto.
  - split; [done|]. intros [res Hres]. by apply (HB res).
Qed.

(** C3: a new consumable event of an existing user is answered exactly by the
    ledger: the handler returns the ledger's outcome, effective state and
    balance delta, and leaves the ledger's next state and the credited balance;
    when the ledger refuses it (another owner, product or amount for the same
    store transaction, its owner in another spelling than the stored one, or a
    contradicting event at the same instant), the handler throws and the database is unchanged. *)
Theorem consumable_event_refines_ledger e t w :
  billing_inv (db w) -> fresh_ids w -> storable e t (db w) ->
  exists w' r, applyRevenueCatEvent (ConsumableEvent e t) w = (w', r) /\
  match ledger_step t (ledger (db w)) with
  | Some (L', res) => r = Ok res /\ ledger (db w') = L' /\
      forall u, credits (db w') u
                = units_add (credits (db w) u) (if event_owner t =?? u then balanceDelta res else ZERO_DELTA)
  | None => (exists err, r = Err err) /\ db w' = db w
  end.
Proof.
  intros [Hwf Hs] Hf Hst. destruct (applyRevenueCatEvent (ConsumableEvent e t) w) as [w' r] eqn:E.
  exists w', r. split; [done|].
  pose proof (wp_run _ _ _ _ _ E (wp_applyRevenueCatEvent _ w Hwf Hs)) as HQ.
  pose proof (wp_run _ _ _ _ _ E (applyRevenueCatEvent_new e t w (conj Hwf Hs) Hf Hst)) as [Hnew Hok].
  destruct (ledger_step t (ledger (db w))) as [[L' res]|] eqn:Hstep.
  - specialize (Hok ltac:(eauto)). destruct r as [res'|]; [|done].
    destruct (Hnew _ eq_refl) as [L2 Hst2]. destruct HQ as (_ & _ & _ & Heff).
    simplify_eq. destruct (Heff (ledger_step_outcome _ _ _ _ Hstep)) as [Hl Hc]. simplify_eq. auto.
  - destruct r as [res|err]; [|eauto]. destruct (Hnew _ eq_refl) as [? ?]. congruence.
Qed.

(** ** Replays *)

Definition recorded_in (e : RevenueCatRecordedEvent) (d : Db) : Prop :=
  exists row, row ∈ billingEvents d /\ billingEvents.providerEventId row = providerEventId e /\
    billingEvents.payloadHash row = payloadHash e /\ billingEvents.provider row = js "revenuecat".

Lemma wp_recordEvent_recorded e w :
  wp (recordEvent e) (fun r w' => is_ok r -> recorded_in e (db w')) w.
Proof.
  unfold recordEvent, recorded_in. wp_steps; simpl; try done.
  - match goal with Hf : first _ _ = Some _ |- _ => apply first_Some in Hf as [Hr Hid] end.
    rewrite bool_decide_eq_true in Hid.
    match goal with Hb : _ && _ = true |- _ => rewrite andb_true_iff, !bool_decide_eq_true in Hb; destruct Hb end.
    by eauto.
  - eexists. split; [apply elem_of_app; right; by apply list_elem_of_singleton|done].
Qed.

Lemma keeps_events_apply input :
  forall e, match input with
  | SubscriptionEvent _ u s => keeps (fun w => billingEvents (db w)) (applySubscription u s)
  | ConsumableEvent _ t => keeps (fun w => billingEvents (db w)) (applyConsumableTransition e t)
  | RecordedEvent _ => True
  end.
Proof.
  intros e. destruct input; [done|unfold applySubscription; solve_keeps|].
  unfold applyConsumableTransition, assertTransactionIdentity, recordTransaction, creditBalance.
  solve_keeps.
Qed.

Lemma apply_recorded input w w' res :
  applyRevenueCatEvent input w = (w', Ok res) -> recorded_in (recorded input) (db w').
Proof.
  intros E. refine (wp_run _ (fun r w' => is_ok r -> recorded_in (recorded input) (db w')) _ _ _ E _ I).
  apply wp_transaction, wp_bind. eapply wp_mono; [apply wp_recordEvent_recorded|].
  intros [[]|e] w1 Hrec; [|by wp_step|done]. specialize (Hrec I).
  pose proof (keeps_events_apply input (providerEventId (recorded input))) as Hk.
  destruct input as [e|e u s|e t]; simpl in *; [by wp_step| |];
    (eapply wp_mono; [apply Hk|]); intros [res'|] w2; simpl; try done;
    intros Hb _; unfold recorded_in in *; by rewrite Hb.
Qed.

(** C4: replays.  Once an event has been answered, any later delivery of its
    provider id changes nothing: the same payload is reported as a duplicate,
    another payload under the same id is refused. *)
Theorem billing_replay input w w1 res input' w2 w3 r :
  applyRevenueCatEvent input w = (w1, Ok res) ->
  (forall x, x ∈ billingEvents (db w1) -> x ∈ billingEvents (db w2)) -> billing_wf (db w2) ->
  providerEventId (recorded input') = providerEventId (recorded input) ->
  applyRevenueCatEvent input' w2 = (w3, r) ->
  db w3 = db w2 /\ effects w3 = effects w2 /\
  r = if payloadHash (recorded input) =?? payloadHash (recorded input')
      then Ok (mkApplied duplicate None ZERO_DELTA)
      else Err (mkExn PlainError (js "REVENUECAT_EVENT_PAYLOAD_CONFLICT")).
Proof.
  intros (row & Hrow & Hid & Hhash & Hprov)%apply_recorded Hsub Hwf Heq E.
  refine (wp_run _ (fun r w3 => db w3 = db w2 /\ effects w3 = effects w2 /\ r = _) _ _ _ E _).
  apply wp_transaction, wp_bind. eapply wp_recordEvent_seen; [done|by apply Hsub|congruence|done|].
  intros w' Ed Ee. rewrite Hhash. case_bool_decide; [by wp_step|simpl; by rewrite <- Ed at 1].
Qed.

(** ** Subscriptions *)

Lemma apply_subscription input w w' res u :
  billing_inv (db w) -> applyRevenueCatEvent input w = (w', Ok res) -> outcome res <> duplicate ->
  (exists e v s row, input = SubscriptionEvent e v s /\ uuid_param v = u /\ subscription_timestamp u (db w) < s_eventTimestampMs s /\
     subscription_row u (db w') = Some row /\ subscription_reflects s row) \/
  (subscription_row u (db w') = subscription_row u (db w) /\
   forall e v s, input = SubscriptionEvent e v s -> uuid_param v = u -> s_eventTimestampMs s <= subscription_timestamp u (db w)).
Proof.
  intros [Hwf Hs] E. refine (wp_run _ (fun r w' => forall res, r = Ok res -> outcome res <> duplicate -> _) _ _ _ E _ _ eq_refl).
  apply wp_transaction, wp_bind. eapply wp_mono; [by apply wp_recordEvent|].
  intros [[]|e'] w1; [|intros _; wp_step; intros ? [= <-]; done|done].
  intros (_ & row & E1 & _).
  assert (forall v, subscription_row v (db w1) = subscription_row v (db w)) as Hrow by (intros; by rewrite E1).
  assert (subscription_ids (db w1)) as Hs1 by by rewrite E1.
  destruct input as [e|e v s|e t].
  - wp_step. intros _ _ _. right. split; [done|]. by intros.
  - eapply wp_mono; [by apply wp_applySubscription|]. intros [res'|err] w2; [|done].
    intros (_ & _ & _ & _ & Hother & Hres) ? [= <-] _.
    destruct (decide (u = uuid_param v)) as [->|Hne].
    + assert (subscription_timestamp (uuid_param v) (db w1) = subscription_timestamp (uuid_param v) (db w)) as Hts
        by (unfold subscription_timestamp; by rewrite Hrow).
      destruct (_ <=? _) eqn:Hle; destruct Hres as [_ Hres].
      * right. split; [rewrite <- Hrow; unfold subscription_row; by rewrite Hres|].
        intros ? ? ? [= <- <- <-] _. lia.
      * left. destruct Hres as (r2 & ? & ?). exists e, v, s, r2. split_and!; [done|done|lia|done|done].
    + right. rewrite (Hother u Hne), Hrow. split; [done|]. intros ? ? ? [= <- <- <-] ?. congruence.
  - eapply wp_mono; [apply keeps_consumable_subscriptions|]. intros [res'|err] w2; [|done].
    simpl. intros Hk ? _ _. right. split; [|by intros].
    rewrite <- Hrow. unfold subscription_row. by rewrite Hk.
Qed.

(** C5: the newest store event wins.  After any accepted delivery, no event of
    the user is newer than the stored subscription, and the stored row is either
    untouched or carries the plan, status, product and period of an event with
    exactly the stored timestamp. *)
Theorem subscription_newest_wins l w w' rs u :
  billing_inv (db w) -> deliver l w = (w', rs) -> forallb accepted_result rs = true ->
  (forall e v s, SubscriptionEvent e v s ∈ l -> uuid_param v = u ->
     s_eventTimestampMs s <= subscription_timestamp u (db w')) /\
  (subscription_row u (db w') = subscription_row u (db w) \/
   exists e v s row, SubscriptionEvent e v s ∈ l /\ uuid_param v = u /\ subscription_row u (db w') = Some row /\
     subscription_reflects s row /\ s_eventTimestampMs s = subscription_timestamp u (db w')) /\
  subscription_timestamp u (db w) <= subscription_timestamp u (db w').
Proof.
  revert w rs. induction l as [|input l IH]; intros w rs Hinv E Hacc.
  { simplify_eq/=. split_and!; [set_solver|by left|lia]. }
  apply deliver_cons in E as (w1 & r & rs' & E1 & E2 & ->).
  simpl in Hacc. apply andb_true_iff in Hacc as [Hr Hacc].
  destruct r as [res|e]; [|done]. simpl in Hr.
  destruct (IH w1 rs' (apply_inv _ _ _ _ Hinv E1) E2 Hacc) as (IH1 & IH2 & IH3).
  assert (outcome res <> duplicate) as Hnd by (intros Ho; by rewrite Ho in Hr).
  destruct (apply_subscription _ _ _ _ u Hinv E1 Hnd) as [(e & v & s & row & -> & Hv & Hlt & Hrow & Hrf)|[Hrow Hle]].
  - assert (subscription_timestamp u (db w1) = s_eventTimestampMs s) as Hts.
    { unfold subscription_timestamp. rewrite Hrow. destruct Hrf as (_ & _ & _ & _ & Ht & _).
      simpl. by rewrite Ht. }
    split_and!; [|right|lia].
    + intros e' v' s' [[= -> -> ->]|Hin]%elem_of_cons Hv'; [lia|by eapply IH1].
    + destruct IH2 as [Heq|(e' & v' & s' & row' & Hin & Hv' & Hr' & Hrf' & Ht')].
      * exists e, v, s, row. split_and!; [set_solver|done|congruence|done|].
        unfold subscription_timestamp in *. congruence.
      * exists e', v', s', row'. split_and!; [set_solver|done|done|done|done].
  - assert (subscription_timestamp u (db w1) = subscription_timestamp u (db w)) as Hts
      by (unfold subscription_timestamp; by rewrite Hrow).
    split_and!; [| |lia].
    + intros e' v' s' [Hin|Hin]%elem_of_cons Hv'; [specialize (Hle _ _ _ (eq_sym Hin) Hv'); lia|by eapply IH1].
    + destruct IH2 as [Heq|(e' & v' & s' & row' & Hin & Hv' & Hr' & Hrf' & Ht')]; [left; congruence|right].
      exists e', v', s', row'. split_and!; [set_solver|done|done|done|done].
Qed.
End theorems.

(** * The webhook *)

Section webhook.
Context `{Env} `{NotificationService} `{BillingConfig}.

(** The body carries a fresh signature under the configured secret. *)
Definition authentic (rawBody : list N) (signature : option jstr) (now : Z) : Prop :=
  exists secret s digits hex,
    REVENUECAT_WEBHOOK_SECRET = Some secret /\ secret <> [] /\
    signature = Some s /\ matchSignature s = Some (digits, hex) /\
    hex_bytes hex = hmac_sha256 secret (digits ++ js "." ++ rawBody) /\
    Z.abs (now - 1000 * decimal digits) <= 1000 * REVENUECAT_SIGNATURE_TOLERANCE_SECONDS.

Lemma wp_assertSignature rawBody signature w :
  wp (assertSignature rawBody signature) (fun r w' =>
    footprint w' = footprint w /\ (is_ok r -> authentic rawBody signature (date_now (tick w)))) w.
Proof.
  unfold assertSignature. destruct REVENUECAT_WEBHOOK_SECRET as [[|c secret]|] eqn:Es; [by wp_step| |by wp_step].
  destruct signature as [s|]; simpl; [|by wp_step].
  destruct (matchSignature s) as [[digits hex]|] eqn:Em; [|by wp_step]. unfold timingSafeEqual.
  wp_steps; simpl; try done. split; [done|]. intros _. exists (c :: secret), s, digits, hex.
  match goal with Hb : bool_decide _ = true |- _ => rewrite bool_decide_eq_true in Hb end.
  split_and!; try done. lia.
Qed.

(** C6: only the store can change anything.  A request whose signature is
    missing, malformed, wrong for the body, or older or newer than five minutes
    is rejected, and neither the database nor anything outside changes. *)
Theorem webhook_rejects_unsigned rawBody signature payload w w' r :
  ~ authentic rawBody signature (date_now (tick w)) ->
  handleRevenueCatWebhook rawBody signature payload w = (w', r) ->
  (exists e, r = Err e) /\ footprint w' = footprint w.
Proof.
  intros Hno E. refine (wp_run _ (fun r w' => (exists e, r = Err e) /\ footprint w' = footprint w) _ _ _ E _).
  apply wp_bind. eapply wp_mono; [apply wp_assertSignature|].
  intros [u|e] w1 [Hf Hok]; [|eauto]. by destruct (Hno (Hok I)).
Qed.

Lemma pure_getRevenueCatEvent payload : pure (getRevenueCatEvent payload).
Proof. unfold getRevenueCatEvent, optionalString, optionalTimestamp, throw. solve_pure. Qed.
Lemma pure_requiredString v e : pure (requiredString v e).
Proof. unfold requiredString, throw. solve_pure. Qed.

Lemma wp_apply_seen input w (Q : Result RevenueCatApplyResult -> World -> Prop) :
  billing_wf (db w) -> recorded_in (recorded input) (db w) ->
  (forall w', footprint w' = footprint w -> Q (Ok (mkApplied duplicate None ZERO_DELTA)) w') ->
  wp (applyRevenueCatEvent input) Q w.
Proof.
  intros Hwf (row & Hrow & Hid & Hhash & Hprov) HQ.
  apply wp_transaction, wp_bind. eapply wp_recordEvent_seen; try done.
  intros w' Ed Ee. rewrite Hhash, eqb_refl_true. wp_step. apply HQ. unfold footprint. congruence.
Qed.

Lemma db_same_billing d d' : d ≈db d' -> billing_inv d -> billing_inv d'.
Proof.
  intros E. unfold billing_inv, subscription_ids. rewrite (db_same_table userSubscriptions _ _ E).
  intros [[? ? ? ? ?] ?]. split; [|done].
  split; rewrite <- ?(db_same_table revenueCatTransactions _ _ E), <- ?(db_same_table userConsumableBalances _ _ E),
    <- ?(db_same_table billingEvents _ _ E); done.
Qed.

Lemma wp_notifyQuietly input w :
  wp (notifyQuietly input) (fun r w' => r = Ok tt /\ db w ≈db db w') w.
Proof.
  apply wp_try_catch, wp_bind, wp_notify. intros [n|e] w' Hd; [by wp_step|by wp_step].
Qed.

Lemma keeps_parsing event eventType userId canonicalProductId productId product :
  keeps footprint (assertProductionEvent event) /\
  keeps footprint (eventSubscription event eventType productId product) /\
  keeps footprint (eventTransition event eventType userId canonicalProductId productId product).
Proof.
  unfold assertProductionEvent, eventSubscription, eventTransition, requiredString, requiredTimestamp.
  split_and!; solve_keeps.
Qed.

Ltac step_frame lem :=
  apply wp_bind; (eapply wp_mono; [apply lem|]); intros [?|?] ? ?; [|try done].

(** After a mutation event is answered, its id is recorded and the keys are
    still unique. *)
Lemma wp_handleMutationEvent e id ty event w :
  billing_inv (db w) ->
  wp (handleMutationEvent e id ty event) (fun r w' => is_ok r -> recorded_in e (db w') /\ billing_inv (db w')) w.
Proof.
  intros Hinv. unfold handleMutationEvent, requiredUuid.
  apply wp_bind. eapply wp_mono; [apply (keeps_parsing event [] [] [] [] (mkProduct [] Boost []))|].
  intros [_|err] w1 E1; [|done]. injection E1 as E1 _.
  destruct (pure_requiredString (ev_app_user_id event) (js "REVENUECAT_APP_USER_ID_INVALID")) as [ru Hru].
  destruct (pure_requiredString (ev_product_id event) (js "REVENUECAT_PRODUCT_ID_REQUIRED")) as [rp Hrp].
  wp_step. wp_step. apply (wp_pure _ ru); [done|]. destruct ru as [userId|?]; [|done].
  wp_step; wp_step; [|done]. wp_step. apply (wp_pure _ rp); [done|]. destruct rp as [productId|?]; [|done].
  cbv zeta. destruct (first _ _) as [product|]; [|by wp_step].
  wp_step. eapply wp_mono; [apply (keeps_parsing event ty [] [] productId product)|].
  intros [sub|err] w2 E2; [|done]. injection E2 as E2 _.
  wp_step. eapply wp_mono; [apply (keeps_parsing event ty userId (before 58%N productId) productId product)|].
  intros [trans|err] w3 E3; [|done]. injection E3 as E3 _.
  set (input := match sub with Some s => _ | None => _ end).
  assert (recorded input = e) as Hrec by by destruct sub, trans.
  assert (billing_inv (db w3)) as Hinv3 by (rewrite E3, E2, E1; done).
  wp_step. apply run_wp. intros w4 [res|err] Ea; [|done].
  pose proof (apply_recorded _ _ _ _ Ea) as Hr. rewrite Hrec in Hr.
  pose proof (apply_inv _ _ _ _ Hinv3 Ea) as Hinv4.
  destruct (outcome res); [|by wp_step|by wp_step].
  wp_step. destruct (purchaseNotification _ _ _ _ _) as [n|]; [|by wp_step; wp_step].
  eapply wp_mono; [apply wp_notifyQuietly|]. intros r w5 [-> Hsame]. wp_step. intros _.
  split; [|by eapply db_same_billing].
  destruct Hr as (row & Hrow & ?). exists row. by rewrite <- (db_same_table billingEvents _ _ Hsame).
Qed.

(** A mutation event seen before changes nothing and sends nothing. *)
Lemma wp_handleMutationEvent_seen e id ty event w :
  billing_wf (db w) -> recorded_in e (db w) ->
  wp (handleMutationEvent e id ty event) (fun r w' =>
    footprint w' = footprint w /\ forall resp, r = Ok resp -> is_duplicate resp = true) w.
Proof.
  intros Hwf Hrec. unfold handleMutationEvent, requiredUuid.
  apply wp_bind. eapply wp_mono; [apply (keeps_parsing event [] [] [] [] (mkProduct [] Boost []))|].
  intros [_|err] w1 E1; [|done].
  destruct (pure_requiredString (ev_app_user_id event) (js "REVENUECAT_APP_USER_ID_INVALID")) as [ru Hru].
  destruct (pure_requiredString (ev_product_id event) (js "REVENUECAT_PRODUCT_ID_REQUIRED")) as [rp Hrp].
  wp_step. wp_step. apply (wp_pure _ ru); [done|]. destruct ru as [userId|?]; [|done].
  wp_step; wp_step; [|done]. wp_step. apply (wp_pure _ rp); [done|]. destruct rp as [productId|?]; [|done].
  cbv zeta. destruct (first _ _) as [product|]; [|by wp_step].
  wp_step. eapply wp_mono; [apply (keeps_parsing event ty [] [] productId product)|].
  intros [sub|err] w2 E2; [|split; [congruence|done]].
  wp_step. eapply wp_mono; [apply (keeps_parsing event ty userId (before 58%N productId) productId product)|].
  intros [trans|err] w3 E3; [|split; [congruence|done]].
  assert (db w3 = db w) as E by (unfold footprint in *; congruence).
  wp_step. apply wp_apply_seen; [by rewrite E|rewrite E; by destruct sub, trans|].
  intros w4 E4. simpl. wp_step. split; [congruence|]. by intros ? [= <-].
Qed.

(** The store may deliver a request twice.  When the same body has been
    answered before, a second valid delivery is answered as a duplicate: the
    database is unchanged, no notification is created and nothing is sent. *)
Theorem webhook_second_delivery rawBody s1 s2 payload w w1 w2 r1 r2 :
  billing_inv (db w) ->
  handleRevenueCatWebhook rawBody s1 payload w = (w1, Ok r1) ->
  handleRevenueCatWebhook rawBody s2 payload w1 = (w2, Ok r2) ->
  is_duplicate r2 = true /\ footprint w2 = footprint w1.
Proof.
  intros Hinv E1 E2.
  destruct (pure_getRevenueCatEvent payload) as [rev Hrev].
  assert (exists event id ty, rev = Ok event /\
    (forall w, requiredString (ev_id event) (js "REVENUECAT_EVENT_ID_REQUIRED") w = (w, Ok id)) /\
    (forall w, requiredString (ev_type event) (js "REVENUECAT_EVENT_TYPE_REQUIRED") w = (w, Ok ty)) /\
    recorded_in (mkRecorded id (sha256_bytes_hex rawBody)) (db w1) /\ billing_inv (db w1))
    as (event & id & ty & -> & Hid & Hty & Hrec & Hinv1).
  { refine (wp_run _ (fun r w1 => is_ok r -> _) _ _ _ E1 _ I).
    apply wp_bind. eapply wp_mono; [apply wp_assertSignature|].
    intros [_|?] w0 [Hf _]; [|done]. injection Hf as Hf _.
    wp_step. apply (wp_pure _ rev); [done|]. destruct rev as [event|]; [|done].
    destruct (pure_requiredString (ev_id event) (js "REVENUECAT_EVENT_ID_REQUIRED")) as [rid Hid].
    destruct (pure_requiredString (ev_type event) (js "REVENUECAT_EVENT_TYPE_REQUIRED")) as [rty Hty].
    wp_step. apply (wp_pure _ rid); [done|]. destruct rid as [id|]; [|done].
    wp_step. wp_step. apply (wp_pure _ rty); [done|]. destruct rty as [ty|]; [|done].
    wp_step. cbv zeta. rewrite <- Hf in Hinv.
    apply (wp_mono _ (fun r w1 => is_ok r ->
      recorded_in (mkRecorded id (sha256_bytes_hex rawBody)) (db w1) /\ billing_inv (db w1)));
      [|intros r w' Hr Hok; destruct (Hr Hok); by exists event, id, ty].
    destruct (bool_decide (toUpperCase ty ∈ _)).
    - wp_step. apply run_wp. intros w3 [res|err] Ea; [|done]. wp_step. intros _.
      split; [exact (apply_recorded _ _ _ _ Ea)|exact (apply_inv _ _ _ _ Hinv Ea)].
    - wp_step; [by wp_step|]. wp_step; [by wp_step|]. by apply wp_handleMutationEvent. }
  destruct Hinv1 as [Hwf1 _].
  refine (wp_run _ (fun r w2 => forall r2, r = Ok r2 -> is_duplicate r2 = true /\ footprint w2 = footprint w1) _ _ _ E2 _ r2 eq_refl).
  apply wp_bind. eapply wp_mono; [apply wp_assertSignature|].
  intros [_|?] w0 [Hf _]; [|done]. assert (db w0 = db w1) as Ed by (injection Hf; done).
  wp_step. apply (wp_pure _ _ _ _ Hrev). wp_step. apply (wp_pure _ _ _ _ Hid).
  wp_step. wp_step. apply (wp_pure _ _ _ _ Hty). wp_step. cbv zeta.
  destruct (bool_decide (toUpperCase ty ∈ _)).
  - wp_step. apply wp_apply_seen; [by rewrite Ed|by rewrite Ed|]. intros w3 E3. wp_step.
    intros ? [= <-]. split; [done|congruence].
  - wp_step; [by wp_step|]. wp_step; [by wp_step|].
    eapply wp_mono; [apply wp_handleMutationEvent_seen; by rewrite Ed|].
    intros r w3 [E3 Hd] resp ->. split; [by apply Hd|congruence].
Qed.
End webhook.

(** * Witnesses *)

Section witnesses.
#[local] Existing Instance test_env.
#[local] Existing Instance test_notifications.

Definition test_purchase (n : nat) (units ts : Z) (state : RevenueCatTransactionState) : RevenueCatConsumableTransition :=
  mkTransition (js "txn-" ++ number_to_string (N.of_nat n)) (js "orig") ALICE (js "chattea_superlikes_5")
    (js "chattea_superlikes_5") ts state (mkUnits units 0).
Definition test_events : list RevenueCatEventInput :=
  [ ConsumableEvent (mkRecorded (js "ev1") (js "h1")) (test_purchase 1 5 1000 granted);
    ConsumableEvent (mkRecorded (js "ev2") (js "h2")) (test_purchase 1 5 3000 refunded);
    ConsumableEvent (mkRecorded (js "ev3") (js "h3")) (test_purchase 2 5 2000 granted) ].
Definition test_plan (ts : Z) (status : SubscriptionStatus) : RevenueCatSubscription :=
  mkSubscription (js "gold") (js "cus") (js "chattea_gold_monthly") ts T0 (Some (T0 + 1000)) status.
Definition test_subscriptions : list RevenueCatEventInput :=
  [ SubscriptionEvent (mkRecorded (js "ev4") (js "h4")) ALICE (test_plan 2000 expired);
    SubscriptionEvent (mkRecorded (js "ev5") (js "h5")) ALICE (test_plan 1000 active) ].

Lemma test_billing_inv : billing_inv (db (world_of test_db)).
Proof. split; [split; [intros r Hr; by apply elem_of_nil in Hr|..]|]; apply NoDup_nil_2. Defined.

(** A purchase of five, its refund, and another purchase of five leave five. *)
Lemma billing_credits_conserved_witness :
  credits (db (deliver test_events (world_of test_db)).1) ALICE = mkUnits 5 0 /\
  billing_inv (db (deliver test_events (world_of test_db)).1).
Proof.
  split; [vm_compute; reflexivity|].
  apply (billing_credits_conserved test_events (world_of test_db) _ (deliver test_events (world_of test_db)).2).
  - apply test_billing_inv.
  - apply surjective_pairing.
Defined.

Lemma billing_order_independent_witness :
  credits (db (deliver test_events (world_of test_db)).1) ALICE
  = credits (db (deliver (reverse test_events) (world_of test_db)).1) ALICE.
Proof.
  eapply (billing_order_independent test_events (reverse test_events) (world_of test_db)).
  - apply test_billing_inv.
  - intros i. by rewrite elem_of_reverse.
  - apply surjective_pairing.
  - vm_compute. reflexivity.
  - apply surjective_pairing.
  - vm_compute. reflexivity.
Defined.

Definition test_record : RevenueCatRecordedEvent := mkRecorded (js "ev1") (js "h1").

Lemma test_uuid_nonempty n : test_uuid n <> [].
Proof. discriminate. Qed.

Lemma consumable_event_refines_ledger_witness :
  ledger_step (test_purchase 1 5 1000 granted) (ledger test_db)
  = Some (<[event_key (test_purchase 1 5 1000 granted) := event_txn (test_purchase 1 5 1000 granted)]> ∅,
          mkApplied applied (Some granted) (mkUnits 5 0)) /\
  exists w' r, applyRevenueCatEvent (ConsumableEvent test_record (test_purchase 1 5 1000 granted))
                 (world_of test_db) = (w', r) /\
  match ledger_step (test_purchase 1 5 1000 granted) (ledger (db (world_of test_db))) with
  | Some (L', res) => r = Ok res /\ ledger (db w') = L' /\
      forall u, credits (db w') u
                = units_add (credits (db (world_of test_db)) u)
                    (if event_owner (test_purchase 1 5 1000 granted) =?? u then balanceDelta res else ZERO_DELTA)
  | None => (exists err, r = Err err) /\ db w' = db (world_of test_db)
  end.
Proof.
  split; [reflexivity|].
  apply (consumable_event_refines_ledger test_record (test_purchase 1 5 1000 granted) (world_of test_db)).
  - apply test_billing_inv.
  - split; [apply not_elem_of_nil|]. intros n _. split_and!; [apply test_uuid_nonempty| |]; apply not_elem_of_nil.
  - split; try apply not_elem_of_nil; [vm_compute; reflexivity|simpl; lia].
Defined.

(** The same event again is a duplicate; with another payload it is refused. *)
Lemma billing_replay_witness :
  let input := ConsumableEvent test_record (test_purchase 1 5 1000 granted) in
  let w1 := (applyRevenueCatEvent input (world_of test_db)).1 in
  let again := applyRevenueCatEvent (RecordedEvent (mkRecorded (js "ev1") (js "other"))) w1 in
  db again.1 = db w1 /\ effects again.1 = effects w1 /\
  again.2 = Err (mkExn PlainError (js "REVENUECAT_EVENT_PAYLOAD_CONFLICT")).
Proof.
  cbv zeta. set (input := ConsumableEvent _ _).
  apply (billing_replay input (world_of test_db) (applyRevenueCatEvent input (world_of test_db)).1
           (mkApplied applied (Some granted) (mkUnits 5 0))
           (RecordedEvent (mkRecorded (js "ev1") (js "other")))).
  - vm_compute. reflexivity.
  - done.
  - eapply apply_inv; [apply test_billing_inv|apply surjective_pairing].
  - reflexivity.
  - apply surjective_pairing.
Defined.

Lemma subscription_newest_wins_witness :
  subscription_timestamp ALICE (db (deliver test_subscriptions (world_of test_db)).1) = 2000 /\
  -1 <= subscription_timestamp ALICE (db (deliver test_subscriptions (world_of test_db)).1).
Proof.
  split; [vm_compute; reflexivity|].
  eapply (subscription_newest_wins test_subscriptions (world_of test_db)
            (deliver test_subscriptions (world_of test_db)).1
            (deliver test_subscriptions (world_of test_db)).2 ALICE).
  - apply test_billing_inv.
  - apply surjective_pairing.
  - vm_compute. reflexivity.
Defined.

(** ** A request of the store *)

(** A stand-in for HMAC-SHA256: 32 bytes that depend on the key and the text. *)
Definition test_hmac (key text : list N) : list N :=
  map (fun i => ((foldr N.add i key + 7 * foldr N.add 0 text) mod 256)%N) (map N.of_nat (seq 0 32)).
Definition hex_digit (n : N) : N := if (n <? 10)%N then (48 + n)%N else (87 + n)%N.
Definition to_hex (l : list N) : jstr := flat_map (fun b => [hex_digit (b / 16)%N; hex_digit (b mod 16)%N]) l.
#[local] Instance test_config : BillingConfig := {|
  REVENUECAT_WEBHOOK_SECRET := Some (js "secret");
  NODE_ENV := None;
  REVENUECAT_IOS_APP_ID := None;
  REVENUECAT_ANDROID_APP_ID := None;
  hmac_sha256 := test_hmac;
  sha256_bytes_hex := to_hex
|}.

Definition test_body : list N := js "body".
Definition test_signature (body : list N) : option jstr :=
  let t := js "1767225600" in
  Some (js "t=" ++ t ++ js ",v1=" ++ to_hex (test_hmac (js "secret") (t ++ js "." ++ body))).
Definition test_payload : json := JObject [(js "event", JObject
  [ (js "id", JString (js "ev1")); (js "type", JString (js "INITIAL_PURCHASE"));
    (js "event_timestamp_ms", JNumber (S754_finite false 1000 0));
    (js "app_user_id", JString ALICE); (js "product_id", JString (js "chattea_superlikes_5"));
    (js "transaction_id", JString (js "txn-1")); (js "original_transaction_id", JString (js "orig")) ])].
Definition test_request := handleRevenueCatWebhook test_body (test_signature test_body) test_payload.

(** A signature over another body. *)
Lemma webhook_rejects_unsigned_witness :
  let run := handleRevenueCatWebhook test_body (test_signature (js "other")) test_payload (world_of test_db) in
  (exists e, run.2 = Err e) /\ footprint run.1 = footprint (world_of test_db).
Proof.
  cbv zeta.
  apply (webhook_rejects_unsigned test_body (test_signature (js "other")) test_payload).
  - intros (secret & s & digits & hex & Hs & _ & Hsig & Hm & Hh & _).
    injection Hs as <-. injection Hsig as <-. vm_compute in Hm. injection Hm as <- <-. vm_compute in Hh. discriminate.
  - apply surjective_pairing.
Defined.

(** A purchase credits five super likes, and its second delivery nothing. *)
Lemma webhook_second_delivery_witness :
  let first := test_request (world_of test_db) in
  let again := test_request first.1 in
  first.2 = Ok (mkResponse true false) /\ credits (db first.1) ALICE = mkUnits 5 0 /\
  footprint again.1 = footprint first.1.
Proof.
  cbv zeta. split_and!; [vm_compute; reflexivity|vm_compute; reflexivity|].
  eapply (webhook_second_delivery test_body (test_signature test_body) (test_signature test_body)
            test_payload (world_of test_db)).
  - apply test_billing_inv.
  - instantiate (1 := mkResponse true false). vm_compute. reflexivity.
  - instantiate (1 := mkResponse true true). vm_compute. reflexivity.
Defined.
End witnesses.
