(* ===== verification/User.v ===== *)
(** Accounts: profiles, subscriptions, and deletion with its grace period
    (user.service.ts, user.repository.ts). *)
From S2P Require Import Prelude JsString JsDate Libraries Schema World Constraints.
Local Open Scope Z_scope.

Definition PROFILE_INTRO_MAX_LENGTH : nat := 60.
Definition PROFILE_PHOTO_MIN_COUNT : nat := 1.
Definition PROFILE_PHOTO_MAX_COUNT : nat := 3.
Definition DELETION_GRACE_DAYS : Z := 14.
Definition DELETION_LEASE_MS : Z := 5 * 60 * 1000.
Definition KOREAN_REGIONS : list jstr :=
  [js "서울"; js "부산"; js "대구"; js "인천"; js "광주"; js "대전"; js "울산"; js "세종"; js "경기";
   js "강원"; js "충북"; js "충남"; js "전북"; js "전남"; js "경북"; js "경남"; js "제주"].
Definition InvalidUserId : jstr := js "유저 아이디가 잘못되었습니다.".

Record UpdateUserProfileInput := mkProfileInput {
  in_userName : jstr; in_birthDate : jstr; in_region : jstr; in_interestedGender : jstr;
  in_intro : jstr; in_photoUploadIds : list jstr
}.
Record ValidProfile := mkValidProfile {
  p_userName : jstr; p_birthDate : jstr; p_region : jstr; p_interestedGender : InterestedGender;
  p_intro : jstr; p_photoUploadIds : list jstr
}.
Record UserWithPhotos := mkUserWithPhotos { profile_user : User; profile_photos : list UserProfilePhoto }.
Record DeletionJob := mkDeletionJob { job_userId : jstr; job_deletionLeaseExpiresAt : Z }.
Record AccountDeletionBatchResult := mkBatchResult {
  claimed : Z; succeeded : Z; retryScheduled : Z; permanentlyFailed : Z; hasMore : bool
}.
Record AccountDeletionPayload := mkDeletionPayload { hidden : bool; scheduledFor : jstr }.

(** * The repository *)

Section repository.
Context `{Env}.

Definition is_user (userId : jstr) (u : User) : bool := users.userId u =?? userId.

Definition repo_findUser (userId : jstr) : M (option User) := findFirst users (is_user userId).

Definition findProfilePhotos (userId : jstr) : M (list UserProfilePhoto) :=
  rows ← select userProfilePhotos (fun r => userProfilePhotos.userId r =?? userId);
  mret (order_by (fun a b => userProfilePhotos.position a <=? userProfilePhotos.position b) rows).

Definition findUserProfile (userId : jstr) : M (option UserWithPhotos) :=
  user ← repo_findUser userId;
  photos ← findProfilePhotos userId;
  mret ((fun u => mkUserWithPhotos u photos) <$> user).

Definition findCurrentSubscription (userId : jstr) : M (option UserSubscription) :=
  now ← Date_now;
  findFirstBy userSubscriptions
    (fun s => (userSubscriptions.userId s =?? userId) && (userSubscriptions.status s =?? js "active")
              && (is_null (userSubscriptions.currentPeriodEndsAt s)
                  || opt_gt (userSubscriptions.currentPeriodEndsAt s) (to_column now)))
    (fun a b => userSubscriptions.createdAt b <=? userSubscriptions.createdAt a).

(** A photo the user may keep: a verified upload, or a photo from before uploads. *)
Record PhotoAuthority := mkAuthority { au_photoId : option jstr; au_uploadId : option jstr; au_url : jstr }.
Fixpoint authority (id : jstr) (l : list (jstr * PhotoAuthority)) : option PhotoAuthority :=
  match l with
  | [] => None
  | (k, a) :: l' => if k =?? id then Some a else authority id l'
  end.

(** The two loops that fill [authorityById]. *)
Fixpoint addUploads (rows : list ProfileUpload) (acc : list (jstr * PhotoAuthority))
    : M (list (jstr * PhotoAuthority)) :=
  match rows with
  | [] => mret acc
  | r :: rows' =>
      match profileUploads.publicUrl r with
      | None | Some [] => throw PlainError (js "PROFILE_PHOTO_UPLOAD_INVALID")
      | Some url =>
          require (is_null (authority (profileUploads.id r) acc)) PlainError (js "PROFILE_PHOTO_UPLOAD_INVALID") ;;
          addUploads rows' (acc ++ [(profileUploads.id r, mkAuthority None (Some (profileUploads.id r)) url)])
      end
  end.
Fixpoint addLegacyPhotos (rows : list UserProfilePhoto) (acc : list (jstr * PhotoAuthority))
    : M (list (jstr * PhotoAuthority)) :=
  match rows with
  | [] => mret acc
  | r :: rows' =>
      require (is_null (authority (userProfilePhotos.id r) acc)) PlainError (js "PROFILE_PHOTO_UPLOAD_INVALID") ;;
      addLegacyPhotos rows'
        (acc ++ [(userProfilePhotos.id r, mkAuthority (Some (userProfilePhotos.id r)) None (userProfilePhotos.url r))])
  end.

(** [insert(userProfilePhotos).values(orderedPhotos.map(...))] *)
Fixpoint insertPhotos (userId : jstr) (position : Z) (l : list PhotoAuthority) : M (list UserProfilePhoto) :=
  match l with
  | [] => mret []
  | a :: l' =>
      generated ← randomUUID;
      createdAt ← clock_timestamp;
      photo ← insert userProfilePhotos
        (userProfilePhotos.mkUserProfilePhoto (default generated (au_photoId a)) userId (au_uploadId a)
           (au_url a) position createdAt);
      photos ← insertPhotos userId (position + 1) l';
      mret (photo :: photos)
  end.

Definition replaceProfile (userId : jstr) (input : ValidProfile) : M UserWithPhotos :=
  transaction (
    now ← Date_now;
    require (negb (p_photoUploadIds input =?? [])) PlainError (js "PROFILE_PHOTO_UPLOAD_INVALID") ;;
    uploads ← select profileUploads
      (fun r => (profileUploads.userId r =?? userId) && (profileUploads.status r =?? verified)
                && bool_decide (profileUploads.id r ∈ map uuid_param (p_photoUploadIds input)));
    legacyPhotos ← select userProfilePhotos
      (fun r => (userProfilePhotos.userId r =?? userId) && is_null (userProfilePhotos.uploadId r)
                && bool_decide (userProfilePhotos.id r ∈ map uuid_param (p_photoUploadIds input)));
    byUpload ← addUploads uploads [];
    authorityById ← addLegacyPhotos legacyPhotos byUpload;
    match mapM (fun id => authority id authorityById) (p_photoUploadIds input) with
    | None => throw PlainError (js "PROFILE_PHOTO_UPLOAD_INVALID")
    | Some orderedPhotos =>
        updated ← update users (is_user userId)
          (fun u => u <| users.userName := p_userName input |>
                      <| users.birthDate := Some (p_birthDate input) |>
                      <| users.region := Some (p_region input) |>
                      <| users.interestedGender := Some (p_interestedGender input) |>
                      <| users.intro := p_intro input |>
                      <| users.profileCompletedAt := Some (to_column now) |>
                      <| users.updatedAt := to_column now |>);
        match head updated with
        | None => throw PlainError (js "USER_NOT_FOUND")
        | Some user =>
            delete_from userProfilePhotos (fun r => userProfilePhotos.userId r =?? userId) ;;
            photos ← insertPhotos userId 0 orderedPhotos;
            mret (mkUserWithPhotos user photos)
        end
    end).

Definition open_statuses : list PushOutboxStatus := [queued; sending; receipt_pending; receipt_checking].

(** Sessions and devices of a hidden account. *)
Definition revokeDevices (userId : jstr) : M unit :=
  delete_from refreshTokens (fun r => refreshTokens.userId r =?? userId) ;;
  tokenRows ← select pushTokens (fun r => pushTokens.userId r =?? userId);
  let tokenIds := map pushTokens.id tokenRows in
  (if tokenIds is _ :: _ then
     completedAt ← Date_now;
     updatedAt ← Date_now;
     update pushOutbox
       (fun r => opt_ref (fun id => bool_decide (id ∈ tokenIds)) (pushOutbox.pushTokenId r)
                 && is_not_null (pushOutbox.pushTokenId r)
                 && bool_decide (pushOutbox.status r ∈ open_statuses))
       (fun r => r <| pushOutbox.status := cancelled |>
                   <| pushOutbox.completedAt := Some (to_column completedAt) |>
                   <| pushOutbox.leaseExpiresAt := None |>
                   <| pushOutbox.updatedAt := to_column updatedAt |>) ;;
     mret tt
   else mret tt) ;;
  delete_pushTokens (fun r => pushTokens.userId r =?? userId).

Definition scheduleDeletion (userId : jstr) (scheduledFor : Z) : M Z :=
  transaction (
    now ← Date_now;
    scheduled ← update users
      (fun u => is_user userId u && is_null (users.deletedAt u) && is_null (users.deletionScheduledAt u))
      (fun u => u <| users.hiddenAt := Some (to_column now) |>
                  <| users.deletionScheduledAt := Some (to_column scheduledFor) |>
                  <| users.updatedAt := to_column now |>);
    account ← (if head scheduled is Some u then mret (Some u)
               else findFirst users (fun u => is_user userId u && is_null (users.deletedAt u)));
    match account ≫= users.deletionScheduledAt with
    | None => throw PlainError (js "ACCOUNT_DELETION_SCHEDULE_FAILED")
    | Some deadline =>
        revokeDevices userId ;;
        mret (of_column deadline)
    end).

Definition restoreScheduledDeletion (userId : jstr) : M bool :=
  updatedAt ← Date_now;
  now ← Date_now;
  restored ← update users
    (fun u => is_user userId u && opt_gt (users.deletionScheduledAt u) (to_column now)
              && is_null (users.deletedAt u))
    (fun u => u <| users.hiddenAt := None |>
                <| users.deletionScheduledAt := None |>
                <| users.deletionLeaseExpiresAt := None |>
                <| users.deletionAttempts := 0 |>
                <| users.updatedAt := to_column updatedAt |>);
  mret (negb (is_null (head restored))).

(** An account whose grace period is over and that no worker holds. *)
Definition deletion_due (now : Z) (u : User) : bool :=
  opt_le (users.deletionScheduledAt u) (to_column now)
  && is_null (users.deletedAt u)
  && (is_null (users.deletionLeaseExpiresAt u) || opt_le (users.deletionLeaseExpiresAt u) (to_column now)).
Definition deletion_order (a b : User) : bool :=
  match users.deletionScheduledAt a, users.deletionScheduledAt b with
  | Some x, Some y => (x <? y) || ((x =? y) && negb (str_ltb (users.userId b) (users.userId a)))
  | Some _, None => true
  | None, _ => false
  end.

Definition claimDueDeletionBatch (now leaseExpiresAt : Z) (limit : nat) : M (list DeletionJob * bool) :=
  transaction (
    candidates ← select_skip_locked users users.userId (deletion_due now) deletion_order limit;
    let userIds := map users.userId candidates in
    if userIds is [] then mret ([], false)
    else
      update users (fun u => bool_decide (users.userId u ∈ userIds))
        (fun u => u <| users.deletionLeaseExpiresAt := Some (to_column leaseExpiresAt) |>
                    <| users.deletionAttempts ::= fun n => n + 1 |>
                    <| users.updatedAt := to_column now |>) ;;
      remaining ← findFirst users (deletion_due now);
      mret (map (fun userId => mkDeletionJob userId leaseExpiresAt) userIds, negb (is_null remaining))).

Definition releaseDeletionLease (job : DeletionJob) (now : Z) : M unit :=
  update users
    (fun u => is_user (job_userId job) u
              && (users.deletionLeaseExpiresAt u =?? Some (to_column (job_deletionLeaseExpiresAt job)))
              && is_null (users.deletedAt u))
    (fun u => u <| users.deletionLeaseExpiresAt := None |> <| users.updatedAt := to_column now |>) ;;
  mret tt.

(** The claim a worker must still hold. *)
Definition holds_deletion_lease (job : DeletionJob) (now : Z) (u : User) : bool :=
  is_user (job_userId job) u && is_null (users.deletedAt u)
  && opt_le (users.deletionScheduledAt u) (to_column now)
  && (users.deletionLeaseExpiresAt u =?? Some (to_column (job_deletionLeaseExpiresAt job)))
  && opt_gt (users.deletionLeaseExpiresAt u) (to_column now).

Definition anonymized (userId : jstr) (now : Z) (u : User) : User :=
  u <| users.email := js "deleted-" ++ userId ++ js "@chattea.invalid" |>
    <| users.phone := None |>
    <| users.password := [] |>
    <| users.userName := js "탈퇴한 사용자" |>
    <| users.intro := [] |>
    <| users.birthDate := None |>
    <| users.region := None |>
    <| users.interestedGender := None |>
    <| users.profileCompletedAt := None |>
    <| users.deletionScheduledAt := None |>
    <| users.deletionLeaseExpiresAt := None |>
    <| users.deletedAt := Some (to_column now) |>
    <| users.updatedAt := to_column now |>.

(** The uploads of the account are handed to the cleanup of upload.service.ts. *)
Definition failUploads (userId : jstr) (now : Z) : M unit :=
  updateChecked profileUploads (fun r => profileUploads.userId r =?? userId)
    (fun r => r <| profileUploads.status := failed |>
                <| profileUploads.failureCode := Some (js "UPLOAD_OWNER_DELETED") |>
                <| profileUploads.processingLeaseExpiresAt := None |>
                <| profileUploads.cleanupLeaseExpiresAt :=
                     if (profileUploads.status r =?? processing) && is_not_null (profileUploads.finalKey r)
                     then profileUploads.processingLeaseExpiresAt r else None |>
                <| profileUploads.cleanupAttempts := 0 |>
                <| profileUploads.updatedAt := to_column now |>) ;;
  updateChecked profileUploads
    (fun r => (profileUploads.userId r =?? userId) && is_not_null (profileUploads.finalKey r)
              && is_null (profileUploads.finalDeletedAt r))
    (fun r => r <| profileUploads.finalDeletionPendingAt := Some (to_column now) |>
                <| profileUploads.updatedAt := to_column now |>) ;;
  mret tt.

Definition anonymizeDeletedAccount (job : DeletionJob) (now : Z) : M unit :=
  let userId := job_userId job in
  transaction (
    claimed ← select users (holds_deletion_lease job now);
    require (negb (is_null (head claimed))) PlainError (js "ACCOUNT_DELETION_CLAIM_REQUIRED") ;;
    matchRooms ← select matches (fun r => (matches.userLowId r =?? userId) || (matches.userHighId r =?? userId));
    failUploads userId now ;;
    delete_from userProfilePhotos (fun r => userProfilePhotos.userId r =?? userId) ;;
    delete_pushTokens (fun r => pushTokens.userId r =?? userId) ;;
    delete_from refreshTokens (fun r => refreshTokens.userId r =?? userId) ;;
    delete_from authIdentities (fun r => authIdentities.userId r =?? userId) ;;
    delete_from userSubscriptions (fun r => userSubscriptions.userId r =?? userId) ;;
    delete_from userConsumableBalances (fun r => userConsumableBalances.userId r =?? userId) ;;
    delete_from userBoosts (fun r => userBoosts.userId r =?? userId) ;;
    delete_from userLikedMeAccesses (fun r => userLikedMeAccesses.userId r =?? userId) ;;
    delete_from userLikes (fun r => (userLikes.likerUserId r =?? userId) || (userLikes.likedUserId r =?? userId)) ;;
    delete_from matchActions
      (fun r => (matchActions.actorUserId r =?? userId) || (matchActions.targetUserId r =?? userId)) ;;
    delete_from userBlocks
      (fun r => (userBlocks.blockerUserId r =?? userId) || (userBlocks.blockedUserId r =?? userId)) ;;
    delete_notifications (fun r => notifications.userId r =?? userId) ;;
    delete_from communityPostReports (fun r => communityPostReports.reporterUserId r =?? userId) ;;
    delete_from communityCommentReports (fun r => communityCommentReports.reporterUserId r =?? userId) ;;
    delete_from messageReports (fun r => messageReports.reporterUserId r =?? userId) ;;
    (if matchRooms is _ :: _ then
       delete_rooms (fun r => bool_decide (rooms.id r ∈ map matches.roomId matchRooms))
     else mret tt) ;;
    update communityProfiles (fun r => communityProfiles.userId r =?? userId)
      (fun r => r <| communityProfiles.name := js "익명" |> <| communityProfiles.updatedAt := to_column now |>) ;;
    updateChecked users (is_user userId) (anonymized userId now) ;;
    mret tt).
End repository.

(** * The service *)

Section service.
Context `{Env} `{UuidLib}.

Definition validateUuid (input : jstr) : M unit :=
  require (matchb UUID_PATTERN input) CustomBadRequestException (js "USER_ID_INVALID").

Definition findUser (userId : jstr) : M User :=
  user ← repo_findUser userId;
  match user with
  | None => throw CustomNotFoundException InvalidUserId
  | Some u => mret u
  end.

Definition profile (userId : jstr) : M UserWithPhotos :=
  validateUuid userId ;;
  user ← findUserProfile userId;
  match user with
  | None => throw CustomNotFoundException InvalidUserId
  | Some u => mret u
  end.

Definition currentSubscription (userId : jstr) : M jstr :=
  validateUuid userId ;;
  subscription ← findCurrentSubscription userId;
  mret (default (js "free") (userSubscriptions.planId <$> subscription)).

Definition validateRequiredText (input : jstr) (maxLength : nat) (field : jstr) : M jstr :=
  let value := trim input in
  require (negb (value =?? [])) CustomBadRequestException (field ++ js "_REQUIRED") ;;
  require (Nat.leb (length value) maxLength) CustomBadRequestException (field ++ js "_TOO_LONG") ;;
  mret value.

(** [new Date("YYYY-MM-DDT00:00:00.000Z")].  An engine may roll a day past the
    end of the month over or reject it; the caller compares the result with the
    input, so both are refused. *)
Definition digits_value (s : jstr) : Z := foldl (fun acc u => acc * 10 + (Z.of_N u - 48)) 0 s.
Definition parseDate (s : jstr) : option Z :=
  let y := digits_value (take 4 s) in
  let m := digits_value (take 2 (drop 5 s)) in
  let d := digits_value (drop 8 s) in
  if (1 <=? m) && (m <=? 12) && (1 <=? d) && (d <=? 31) then Some (Date_UTC y (m - 1) d 0) else None.

(** [/^\d{4}-\d{2}-\d{2}$/] *)
Definition BIRTH_DATE_PATTERN : regex :=
  let digit := RCls is_digit in
  RCat (RRep 4 digit) (RCat (RChr 45%N) (RCat (RRep 2 digit) (RCat (RChr 45%N) (RRep 2 digit)))).

Definition age_at (today birthDate : Z) : Z :=
  let age := getUTCFullYear today - getUTCFullYear birthDate in
  let monthDelta := getUTCMonth today - getUTCMonth birthDate in
  if (monthDelta <? 0) || ((monthDelta =? 0) && (getUTCDate today <? getUTCDate birthDate)) then age - 1 else age.

Definition validateBirthDate (input : jstr) : M jstr :=
  require (matchb BIRTH_DATE_PATTERN input) CustomBadRequestException (js "PROFILE_BIRTH_DATE_INVALID") ;;
  match parseDate input with
  | None => throw CustomBadRequestException (js "PROFILE_BIRTH_DATE_INVALID")
  | Some birthDate =>
      require (take 10 (toISOString birthDate) =?? input) CustomBadRequestException (js "PROFILE_BIRTH_DATE_INVALID") ;;
      today ← Date_now;
      require (18 <=? age_at today birthDate) CustomBadRequestException (js "PROFILE_AGE_REQUIRED") ;;
      mret input
  end.

Fixpoint nodupb (l : list jstr) : bool :=
  match l with
  | [] => true
  | x :: l' => negb (bool_decide (x ∈ l')) && nodupb l'
  end.

Definition validateProfileInput (input : UpdateUserProfileInput) : M ValidProfile :=
  userName ← validateRequiredText (in_userName input) 40 (js "PROFILE_NAME");
  let intro := trim (in_intro input) in
  require (Nat.leb (length intro) PROFILE_INTRO_MAX_LENGTH) CustomBadRequestException (js "PROFILE_INTRO_TOO_LONG") ;;
  birthDate ← validateBirthDate (in_birthDate input);
  let region := trim (in_region input) in
  require (bool_decide (region ∈ KOREAN_REGIONS)) CustomBadRequestException (js "PROFILE_REGION_INVALID") ;;
  match isInterestedGender (trim (in_interestedGender input)) with
  | None => throw CustomBadRequestException (js "PROFILE_INTERESTED_GENDER_INVALID")
  | Some interestedGender =>
      let photoUploadIds := map trim (in_photoUploadIds input) in
      require (Nat.leb PROFILE_PHOTO_MIN_COUNT (length photoUploadIds)
               && Nat.leb (length photoUploadIds) PROFILE_PHOTO_MAX_COUNT)
        CustomBadRequestException (js "PROFILE_PHOTO_COUNT_INVALID") ;;
      require (nodupb photoUploadIds && forallb isUuid photoUploadIds && (photoUploadIds =?? in_photoUploadIds input))
        CustomBadRequestException (js "PROFILE_PHOTO_UPLOAD_INVALID") ;;
      mret (mkValidProfile userName birthDate region interestedGender intro photoUploadIds)
  end.

Definition updateProfile (userId : jstr) (input : UpdateUserProfileInput) : M UserWithPhotos :=
  validateUuid userId ;;
  findUser userId ;;
  profile ← validateProfileInput input;
  replaceProfile userId profile.

Definition beginAccountDeletion (userId : jstr) : M AccountDeletionPayload :=
  now ← Date_now;
  validateUuid userId ;;
  findUser userId ;;
  let scheduledFor := setUTCDate now (getUTCDate now + DELETION_GRACE_DAYS) in
  deadline ← scheduleDeletion userId scheduledFor;
  mret (mkDeletionPayload true (toISOString deadline)).

Definition restoreIfWithinGrace (userId : jstr) : M bool :=
  validateUuid userId ;;
  restoreScheduledDeletion userId.

Definition validateBatchLimit (limit : Z) : M nat :=
  require ((1 <=? limit) && (limit <=? 100)) PlainError (js "ACCOUNT_DELETION_BATCH_LIMIT_INVALID") ;;
  mret (Z.to_nat limit).

Inductive DeletionOutcome := outcome_succeeded | outcome_retry.
#[export] Instance DeletionOutcome_eq_dec : EqDecision DeletionOutcome.
Proof. solve_decision. Defined.

(** One job: a failure gives the lease back. *)
Definition processDeletionJob (now : Z) (job : DeletionJob) : M DeletionOutcome :=
  try_catch (anonymizeDeletedAccount job now ;; mret outcome_succeeded)
    (fun _ => releaseDeletionLease job now ;; mret outcome_retry).

Definition processDueAccountDeletionBatch (now limit : Z) : M AccountDeletionBatchResult :=
  limit ← validateBatchLimit limit;
  '(jobs, more) ← claimDueDeletionBatch now (now + DELETION_LEASE_MS) limit;
  settledOutcomes ← map_all jobs (fun job => attempt (processDeletionJob now job));
  outcomes ← settle settledOutcomes;
  mret (mkBatchResult (Z.of_nat (length outcomes))
          (countw (fun o => o =?? outcome_succeeded) outcomes)
          (countw (fun o => o =?? outcome_retry) outcomes) 0 more).
End service.
