(* ===== verification/UserProofs.v ===== *)
(** Accounts: what deletion erases and when, the exclusive leases of the
    deletion batch, and what a stored profile satisfies. *)
From S2P Require Import Prelude JsString JsDate Libraries Schema World Constraints NotificationApi User Fixtures.
Local Open Scope Z_scope.

(** * Erasure *)

(** No row of table [t] mentions the account in the columns [p] reads. *)
Definition absent {R} (t : Db -> list R) (p : R -> bool) (d : Db) : Prop := forall r, r ∈ t d -> p r = false.

(** The account's row holds no personal data. *)
Definition erased_user (userId : jstr) (now : Z) (u : User) : Prop :=
  users.email u = js "deleted-" ++ userId ++ js "@chattea.invalid" /\ users.phone u = None /\
  users.password u = [] /\ users.userName u = js "탈퇴한 사용자" /\ users.intro u = [] /\
  users.birthDate u = None /\ users.region u = None /\ users.interestedGender u = None /\
  users.profileCompletedAt u = None /\ users.deletionScheduledAt u = None /\ users.deletedAt u = Some (to_column now).

(** Its uploads are failed, and every stored object is marked for deletion. *)
Definition released_upload (r : ProfileUpload) : Prop :=
  profileUploads.status r = failed /\ profileUploads.processingLeaseExpiresAt r = None /\
  (is_Some (profileUploads.finalKey r) ->
   is_Some (profileUploads.finalDeletedAt r) \/ is_Some (profileUploads.finalDeletionPendingAt r)).

(** The rooms of the account's matches, their messages, and the pushes about the
    account's notifications or to its devices. *)
Definition match_room (userId : jstr) (d : Db) (id : jstr) : bool :=
  existsb (fun m => ((matches.userLowId m =?? userId) || (matches.userHighId m =?? userId)) && (matches.roomId m =?? id))
    (matches d).
Definition match_message (userId : jstr) (d : Db) (id : jstr) : bool :=
  existsb (fun m => match_room userId d (messages.roomId m) && (messages.id m =?? id)) (messages d).
Definition receipt_in (userId : jstr) (d : Db) (r : ReadReceipt) : bool :=
  match_room userId d (readReceipts.roomId r)
  || (if readReceipts.lastReadMessageId r is Some id then match_message userId d id else false).
Definition push_to (userId : jstr) (d : Db) (r : PushOutbox) : bool :=
  existsb (fun n => (notifications.userId n =?? userId) && (notifications.id n =?? pushOutbox.notificationId r)) (notifications d)
  || (if pushOutbox.pushTokenId r is Some id
      then existsb (fun t => (pushTokens.userId t =?? userId) && (pushTokens.id t =?? id)) (pushTokens d) else false).

Record erased (userId : jstr) (now : Z) (d0 d : Db) : Prop := {
  er_user : forall u, u ∈ users d -> users.userId u = userId -> erased_user userId now u;
  er_uploads : forall r, r ∈ profileUploads d -> profileUploads.userId r = userId -> released_upload r;
  er_photos : absent userProfilePhotos (fun r => userProfilePhotos.userId r =?? userId) d;
  er_push : absent pushTokens (fun r => pushTokens.userId r =?? userId) d;
  er_sessions : absent refreshTokens (fun r => refreshTokens.userId r =?? userId) d;
  er_identities : absent authIdentities (fun r => authIdentities.userId r =?? userId) d;
  er_subscriptions : absent userSubscriptions (fun r => userSubscriptions.userId r =?? userId) d;
  er_likes : absent userLikes (fun r => (userLikes.likerUserId r =?? userId) || (userLikes.likedUserId r =?? userId)) d;
  er_actions : absent matchActions
    (fun r => (matchActions.actorUserId r =?? userId) || (matchActions.targetUserId r =?? userId)) d;
  er_matches : absent matches (fun r => (matches.userLowId r =?? userId) || (matches.userHighId r =?? userId)) d;
  er_notifications : absent notifications (fun r => notifications.userId r =?? userId) d;
  er_balances : absent userConsumableBalances (fun r => userConsumableBalances.userId r =?? userId) d;
  er_boosts : absent userBoosts (fun r => userBoosts.userId r =?? userId) d;
  er_accesses : absent userLikedMeAccesses (fun r => userLikedMeAccesses.userId r =?? userId) d;
  er_blocks : absent userBlocks (fun r => (userBlocks.blockerUserId r =?? userId) || (userBlocks.blockedUserId r =?? userId)) d;
  er_post_reports : absent communityPostReports (fun r => communityPostReports.reporterUserId r =?? userId) d;
  er_comment_reports : absent communityCommentReports (fun r => communityCommentReports.reporterUserId r =?? userId) d;
  er_message_reports : absent messageReports (fun r => messageReports.reporterUserId r =?? userId) d;
  er_community : forall r, r ∈ communityProfiles d -> communityProfiles.userId r = userId ->
    communityProfiles.name r = js "익명";
  er_rooms : absent rooms (fun r => match_room userId d0 (rooms.id r)) d;
  er_members : absent roomMembers (fun r => match_room userId d0 (roomMembers.roomId r)) d;
  er_messages : absent messages (fun r => match_room userId d0 (messages.roomId r)) d;
  er_receipts : absent readReceipts (fun r => match_room userId d0 (readReceipts.roomId r)) d;
  er_pushes : absent pushOutbox (push_to userId d0) d
}.

(** The rows that [q] does not tell to be the account's are as they were. *)
Definition spared {R} (t : Db -> list R) (q : R -> bool) (d d' : Db) : Prop := del q (t d') = del q (t d).

(** What erasure leaves alone: the rows of other accounts, rooms and messages,
    and wholly the posts and comments, the store's events and transactions, and
    the phone and Kakao verifications, the account's own included. *)
Record spares (userId : jstr) (d d' : Db) : Prop := {
  sp_users : spared users (is_user userId) d d';
  sp_uploads : spared profileUploads (fun r => profileUploads.userId r =?? userId) d d';
  sp_photos : spared userProfilePhotos (fun r => userProfilePhotos.userId r =?? userId) d d';
  sp_push : spared pushTokens (fun r => pushTokens.userId r =?? userId) d d';
  sp_sessions : spared refreshTokens (fun r => refreshTokens.userId r =?? userId) d d';
  sp_identities : spared authIdentities (fun r => authIdentities.userId r =?? userId) d d';
  sp_subscriptions : spared userSubscriptions (fun r => userSubscriptions.userId r =?? userId) d d';
  sp_balances : spared userConsumableBalances (fun r => userConsumableBalances.userId r =?? userId) d d';
  sp_boosts : spared userBoosts (fun r => userBoosts.userId r =?? userId) d d';
  sp_accesses : spared userLikedMeAccesses (fun r => userLikedMeAccesses.userId r =?? userId) d d';
  sp_likes : spared userLikes (fun r => (userLikes.likerUserId r =?? userId) || (userLikes.likedUserId r =?? userId)) d d';
  sp_actions : spared matchActions
    (fun r => (matchActions.actorUserId r =?? userId) || (matchActions.targetUserId r =?? userId)) d d';
  sp_blocks : spared userBlocks (fun r => (userBlocks.blockerUserId r =?? userId) || (userBlocks.blockedUserId r =?? userId)) d d';
  sp_notifications : spared notifications (fun r => notifications.userId r =?? userId) d d';
  sp_post_reports : spared communityPostReports (fun r => communityPostReports.reporterUserId r =?? userId) d d';
  sp_comment_reports : spared communityCommentReports (fun r => communityCommentReports.reporterUserId r =?? userId) d d';
  sp_message_reports : spared messageReports
    (fun r => (messageReports.reporterUserId r =?? userId) || match_message userId d (messageReports.messageId r)) d d';
  sp_community : spared communityProfiles (fun r => communityProfiles.userId r =?? userId) d d';
  sp_rooms : spared rooms (fun r => match_room userId d (rooms.id r)) d d';
  sp_members : spared roomMembers (fun r => match_room userId d (roomMembers.roomId r)) d d';
  sp_messages : spared messages (fun r => match_room userId d (messages.roomId r)) d d';
  sp_matches : spared matches (fun r => match_room userId d (matches.roomId r)) d d';
  sp_receipts : forall r, r ∈ readReceipts d -> receipt_in userId d r = false -> r ∈ readReceipts d';
  sp_pushes : forall r, r ∈ pushOutbox d -> push_to userId d r = false -> r ∈ pushOutbox d';
  sp_rest : communityPosts d' = communityPosts d /\ communityComments d' = communityComments d /\
    billingEvents d' = billingEvents d /\ revenueCatTransactions d' = revenueCatTransactions d /\
    revenueCatTransactionLedger d' = revenueCatTransactionLedger d /\ scores d' = scores d /\
    phoneVerifications d' = phoneVerifications d /\ phoneVerificationTokens d' = phoneVerificationTokens d /\
    kakaoPhoneVerificationTokens d' = kakaoPhoneVerificationTokens d
}.

(** Every match has its room (a foreign key). *)
Definition match_rooms_exist (d : Db) : Prop := forall m, m ∈ matches d -> room_exists d (matches.roomId m) = true.

(** What [m] does only to the accounts' other data. *)
Definition others (userId : jstr) (w : World) : list User := sel (fun u => negb (users.userId u =?? userId)) (users (db w)).

Section theorems.
Context `{Env}.

Lemma absent_del {R} (l : list R) p r : r ∈ del p l -> p r = false.
Proof. by intros [_ ?]%elem_of_del. Qed.

Lemma del_by_other {R S} (t : Db -> list R) (s : Db -> list S) `{!Setter s} (p : S -> bool) :
  (forall f d, t (upd s f d) = t d) -> forall d, t (del_by s p d) = t d.
Proof. intros Hf d. apply Hf. Qed.

Lemma wp_failUploads userId now w :
  wp (failUploads userId now) (fun r w' =>
    exists l', db w' = (db w) <| profileUploads := l' |> /\ effects w' = effects w /\
      (is_ok r -> del (fun x => profileUploads.userId x =?? userId) l'
                  = del (fun x => profileUploads.userId x =?? userId) (profileUploads (db w))) /\
      (is_ok r -> forall x, x ∈ l' -> profileUploads.userId x = userId -> released_upload x)) w.
Proof.
  unfold failUploads. apply wp_bind, wp_updateChecked.
  - intros _ _. wp_steps; simpl; (eexists; split; [reflexivity|]; split; [done|]; split; try done).
    { intros _. rewrite del_mapif_sub by (by intros x _ [[? _]%andb_true_iff _]%andb_true_iff).
      simpl. by rewrite del_mapif_sub by by intros x _ Hx. }
    intros _ x Hx Hu. apply elem_of_mapif in Hx as (y & Hy & ->). apply elem_of_mapif in Hy as (z & Hz & ->).
    revert Hu. destruct (profileUploads.userId z =?? userId) eqn:Ez; simpl.
    + intros _. rewrite Ez. simpl. destruct (profileUploads.finalKey z) as [k|] eqn:Ek; simpl.
      * destruct (profileUploads.finalDeletedAt z) eqn:Ed; simpl; split_and!; simpl; rewrite ?Ed; eauto.
      * split_and!; simpl; [done|done|]. rewrite Ek. by intros [].
    + intros Hu. exfalso. rewrite Ez in Hu. simpl in Hu. rewrite bool_decide_eq_false in Ez. congruence.
  - intros. simpl. exists (profileUploads (db w)). by destruct (db w).
  - intros. simpl. exists (profileUploads (db w)). by destruct (db w).
Qed.

Lemma claim_elem job now w :
  negb (is_null (head (sel (holds_deletion_lease job now) (users (db w))))) = true ->
  exists u, u ∈ users (db w) /\ holds_deletion_lease job now u = true.
Proof.
  intros Hc. destruct (sel _ _) as [|u l] eqn:E; [done|]. exists u. apply elem_of_sel. rewrite E. set_solver.
Qed.

Lemma anonymized_rows userId now l u :
  u ∈ mapif (is_user userId) (anonymized userId now) l -> users.userId u = userId -> erased_user userId now u.
Proof.
  intros (x & _ & ->)%elem_of_mapif. unfold is_user. case_bool_decide as E; [|done].
  intros _. unfold anonymized. by split_and!.
Qed.

Lemma others_anonymized userId now l :
  sel (fun u => negb (users.userId u =?? userId)) (mapif (is_user userId) (anonymized userId now) l)
  = sel (fun u => negb (users.userId u =?? userId)) l.
Proof.
  induction l as [|u l IH]; [done|]. rewrite mapif_cons, !sel_cons.
  destruct (is_user userId u) eqn:E; unfold is_user in E;
    [change (users.userId (anonymized userId now u)) with (users.userId u)|];
    rewrite !E; simpl; congruence.
Qed.

(** ** The rooms of matches *)

Definition of_match (userId : jstr) (m : Match) : bool :=
  (matches.userLowId m =?? userId) || (matches.userHighId m =?? userId).
Definition match_room_ids (userId : jstr) (d : Db) (r : Room) : bool :=
  bool_decide (rooms.id r ∈ map matches.roomId (sel (of_match userId) (matches d))).

Lemma match_room_id userId d r : match_room_ids userId d r = match_room userId d (rooms.id r).
Proof.
  apply eq_true_iff_eq. unfold match_room_ids, match_room, of_match. rewrite bool_decide_eq_true, key_elem, existsb_true.
  split.
  - intros (m & [Hm Hu]%elem_of_sel & <-). exists m. by rewrite Hu, eqb_refl_true.
  - intros (m & Hm & [Hu <-%bool_decide_eq_true]%andb_true_iff). exists m. by rewrite elem_of_sel.
Qed.

(** Every room of a match is there to be deleted. *)
Lemma gone_room userId d id :
  match_rooms_exist d -> existsb (fun r => match_room_ids userId d r && (rooms.id r =?? id)) (rooms d) = match_room userId d id.
Proof.
  intros Hrooms. apply eq_true_iff_eq. rewrite existsb_true. split.
  - intros (r & _ & [Hr <-%bool_decide_eq_true]%andb_true_iff). by rewrite <- match_room_id.
  - intros Hm. pose proof Hm as (m & Hin & [_ Heq%bool_decide_eq_true]%andb_true_iff)%existsb_true.
    pose proof (Hrooms m Hin) as (r & Hr & Hid%bool_decide_eq_true)%existsb_true.
    assert (rooms.id r = id) as Er by congruence. exists r. split; [done|].
    rewrite match_room_id, Er, Hm. apply eqb_refl_true.
Qed.

(** The tables a room's deletion does not reach. *)
Definition without_rooms (d : Db) : Db :=
  d <| rooms := [] |> <| roomMembers := [] |> <| messages := [] |> <| matches := [] |>
    <| messageReports := [] |> <| readReceipts := [] |>.

(** What deleting the rooms of the matches removes. *)
Record rooms_closed (userId : jstr) (d0 d d' : Db) : Prop := {
  rc_rooms : rooms d' = del (fun r => match_room userId d0 (rooms.id r)) (rooms d0);
  rc_members : roomMembers d' = del (fun r => match_room userId d0 (roomMembers.roomId r)) (roomMembers d);
  rc_messages : messages d' = del (fun r => match_room userId d0 (messages.roomId r)) (messages d0);
  rc_matches : matches d' = del (fun r => match_room userId d0 (matches.roomId r)) (matches d0);
  rc_reports : messageReports d' = del (fun r => match_message userId d0 (messageReports.messageId r)) (messageReports d);
  rc_receipts : absent readReceipts (fun r => match_room userId d0 (readReceipts.roomId r)) d';
  rc_receipts_kept : forall r, r ∈ readReceipts d -> receipt_in userId d0 r = false -> r ∈ readReceipts d';
  rc_rest : without_rooms d' = without_rooms d
}.

Lemma cascade_match_rooms userId d0 d :
  match_rooms_exist d0 -> rooms d = rooms d0 -> messages d = messages d0 -> matches d = matches d0 ->
  rooms_closed userId d0 d (cascade_rooms (match_room_ids userId d0) d).
Proof.
  intros Hrooms Er Em Ex. pose proof (fun id => gone_room userId d0 id Hrooms) as Hgone.
  assert (forall id, existsb (fun m => existsb (fun r => match_room_ids userId d0 r && (rooms.id r =?? messages.roomId m)) (rooms d0)
            && (messages.id m =?? id)) (messages d0) = match_message userId d0 id) as Hmsg.
  { intros id. apply eq_true_iff_eq. unfold match_message. rewrite !existsb_true. by setoid_rewrite Hgone. }
  split; unfold cascade_rooms; simpl; rewrite ?Er, ?Em, ?Ex.
  - apply del_ext. intros r _. apply match_room_id.
  - apply del_ext. intros r _. apply Hgone.
  - apply del_ext. intros r _. apply Hgone.
  - apply del_ext. intros r _. apply Hgone.
  - apply del_ext. intros r _. apply Hmsg.
  - intros r Hr. simpl in Hr. apply absent_del in Hr. by rewrite <- Hgone, <- Hr.
  - intros r Hr [Hroom Hlast]%orb_false_iff. apply elem_of_del. split; [|by rewrite Hgone].
    apply elem_of_mapif. exists r. split; [done|]. destruct r as [? ? [id|] ?]; simpl in *; [|done].
    by rewrite Hmsg, Hlast.
  - reflexivity.
Qed.

Lemma wp_close_rooms userId d0 w (Q : Result unit -> World -> Prop) :
  match_rooms_exist d0 -> rooms (db w) = rooms d0 -> messages (db w) = messages d0 -> matches (db w) = matches d0 ->
  (forall w', rooms_closed userId d0 (db w) (db w') -> Q (Ok tt) w') ->
  wp (if sel (of_match userId) (matches d0) is _ :: _ then
        delete_rooms (fun r => bool_decide (rooms.id r ∈ map matches.roomId (sel (of_match userId) (matches d0))))
      else mret tt) Q w.
Proof.
  intros Hrooms Er Em Ex HQ. pose proof (cascade_match_rooms userId d0 (db w) Hrooms Er Em Ex) as Hc.
  destruct (sel _ _) as [|m ms] eqn:Es.
  2: { unfold delete_rooms. wp_step. apply HQ. unfold match_room_ids in Hc. rewrite Es in Hc. exact Hc. }
  wp_step. apply HQ. clear Hc HQ. assert (forall id, match_room userId d0 id = false) as Hno.
  { intros id. apply existsb_false. intros x Hx. by rewrite (sel_nil _ _ Es x Hx : _ || _ = false). }
  assert (forall id, match_message userId d0 id = false) as Hno2.
  { intros id. apply existsb_false. intros x Hx. by rewrite Hno. }
  split; rewrite ?del_none by (intros; simpl; done || apply Hno || apply Hno2); try done. intros r _. apply Hno.
Qed.

Lemma db_update f w : db (w <| db ::= f |>) = f (db w).
Proof. reflexivity. Qed.

(** What the statements before the rooms' delete. *)
Definition purge (userId : jstr) (d : Db) : Db :=
  let d := del_by userProfilePhotos (fun r => userProfilePhotos.userId r =?? userId) d in
  let d := cascade_pushTokens (fun r => pushTokens.userId r =?? userId) d in
  let d := del_by refreshTokens (fun r => refreshTokens.userId r =?? userId) d in
  let d := del_by authIdentities (fun r => authIdentities.userId r =?? userId) d in
  let d := del_by userSubscriptions (fun r => userSubscriptions.userId r =?? userId) d in
  let d := del_by userConsumableBalances (fun r => userConsumableBalances.userId r =?? userId) d in
  let d := del_by userBoosts (fun r => userBoosts.userId r =?? userId) d in
  let d := del_by userLikedMeAccesses (fun r => userLikedMeAccesses.userId r =?? userId) d in
  let d := del_by userLikes (fun r => (userLikes.likerUserId r =?? userId) || (userLikes.likedUserId r =?? userId)) d in
  let d := del_by matchActions (fun r => (matchActions.actorUserId r =?? userId) || (matchActions.targetUserId r =?? userId)) d in
  let d := del_by userBlocks (fun r => (userBlocks.blockerUserId r =?? userId) || (userBlocks.blockedUserId r =?? userId)) d in
  let d := cascade_notifications (fun r => notifications.userId r =?? userId) d in
  let d := del_by communityPostReports (fun r => communityPostReports.reporterUserId r =?? userId) d in
  let d := del_by communityCommentReports (fun r => communityCommentReports.reporterUserId r =?? userId) d in
  del_by messageReports (fun r => messageReports.reporterUserId r =?? userId) d.
(** What follows. *)
Definition renamed (userId : jstr) (now : Z) (d : Db) : Db :=
  d <| communityProfiles ::= mapif (fun r => communityProfiles.userId r =?? userId)
         (fun r => r <| communityProfiles.name := js "익명" |> <| communityProfiles.updatedAt := to_column now |>) |>
    <| users ::= mapif (is_user userId) (anonymized userId now) |>.

(** The tables after the rooms are closed. *)
Ltac table_of Hrc t := let E := fresh "E" in
  pose proof (f_equal t (rc_rest _ _ _ _ Hrc)) as E; cbv [without_rooms] in E; simpl in E; rewrite ?E.

Lemma match_room_own userId d m : m ∈ matches d -> match_room userId d (matches.roomId m) = false -> of_match userId m = false.
Proof.
  intros Hm Hno. unfold match_room in Hno. rewrite existsb_false in Hno. specialize (Hno m Hm). by rewrite eqb_refl_true, andb_true_r in Hno.
Qed.

(** The pushes about the account's notifications go; those to its devices no
    longer name them. *)
Lemma purge_pushes userId d :
  absent pushOutbox (push_to userId d) (purge userId d) /\
  forall r, r ∈ pushOutbox d -> push_to userId d r = false -> r ∈ pushOutbox (purge userId d).
Proof.
  split.
  - intros r Hr. simpl in Hr. apply elem_of_del in Hr as [(x & Hx & ->)%elem_of_mapif Hn]. unfold push_to.
    destruct (pushOutbox.pushTokenId x) as [id|] eqn:Et; simpl in *; [|by rewrite Et, Hn].
    rewrite andb_true_r in *. destruct (existsb _ (pushTokens d)) eqn:Ee; simpl in *; [by rewrite Hn|by rewrite Et, Hn, Ee].
  - intros r Hr [Hn Ht]%orb_false_iff. simpl. apply elem_of_del. split; [|done]. apply elem_of_mapif. exists r. split; [done|].
    destruct (pushOutbox.pushTokenId r) as [id|]; simpl in *; [by rewrite Ht|done].
Qed.

Lemma purge_erased userId now d l d3 :
  rooms_closed userId d (purge userId (d <| profileUploads := l |>)) d3 ->
  (forall x, x ∈ l -> profileUploads.userId x = userId -> released_upload x) ->
  erased userId now d (renamed userId now d3).
Proof.
  intros Hrc Hup. split; unfold absent; simpl.
  - table_of Hrc users. apply anonymized_rows.
  - table_of Hrc profileUploads. exact Hup.
  - table_of Hrc userProfilePhotos. apply absent_del.
  - table_of Hrc pushTokens. apply absent_del.
  - table_of Hrc refreshTokens. apply absent_del.
  - table_of Hrc authIdentities. apply absent_del.
  - table_of Hrc userSubscriptions. apply absent_del.
  - table_of Hrc userLikes. apply absent_del.
  - table_of Hrc matchActions. apply absent_del.
  - rewrite (rc_matches _ _ _ _ Hrc). intros m [Hm Hno]%elem_of_del. by eapply match_room_own.
  - table_of Hrc notifications. apply absent_del.
  - table_of Hrc userConsumableBalances. apply absent_del.
  - table_of Hrc userBoosts. apply absent_del.
  - table_of Hrc userLikedMeAccesses. apply absent_del.
  - table_of Hrc userBlocks. apply absent_del.
  - table_of Hrc communityPostReports. apply absent_del.
  - table_of Hrc communityCommentReports. apply absent_del.
  - rewrite (rc_reports _ _ _ _ Hrc). intros r [Hr _]%elem_of_del. by apply absent_del in Hr.
  - intros r (x & _ & ->)%elem_of_mapif. case_bool_decide; [done|by intros].
  - rewrite (rc_rooms _ _ _ _ Hrc). apply absent_del.
  - rewrite (rc_members _ _ _ _ Hrc). apply absent_del.
  - rewrite (rc_messages _ _ _ _ Hrc). apply absent_del.
  - exact (rc_receipts _ _ _ _ Hrc).
  - table_of Hrc pushOutbox. apply (purge_pushes userId d).
Qed.

Lemma purge_spares userId now d l d3 :
  rooms_closed userId d (purge userId (d <| profileUploads := l |>)) d3 ->
  del (fun x => profileUploads.userId x =?? userId) l = del (fun x => profileUploads.userId x =?? userId) (profileUploads d) ->
  spares userId d (renamed userId now d3).
Proof.
  intros Hrc Hl. assert (forall R (p : R -> bool) l, del p (del p l) = del p l) as Hdd by (intros; by apply del_del_sub).
  split; unfold spared; simpl; lazymatch goal with
    | |- context [pushOutbox d3] => table_of Hrc pushOutbox; apply (purge_pushes userId d)
    | |- context [readReceipts d3] => exact (rc_receipts_kept _ _ _ _ Hrc)
    | |- communityPosts _ = _ /\ _ => pose proof (rc_rest _ _ _ _ Hrc) as R; repeat split;
        [exact (f_equal communityPosts R)|exact (f_equal communityComments R)|exact (f_equal billingEvents R)
        |exact (f_equal revenueCatTransactions R)|exact (f_equal revenueCatTransactionLedger R)|exact (f_equal scores R)
        |exact (f_equal phoneVerifications R)|exact (f_equal phoneVerificationTokens R)|exact (f_equal kakaoPhoneVerificationTokens R)]
    | |- context [rooms d3] => by rewrite (rc_rooms _ _ _ _ Hrc), Hdd
    | |- context [roomMembers d3] => by rewrite (rc_members _ _ _ _ Hrc), Hdd
    | |- context [messages d3] => by rewrite (rc_messages _ _ _ _ Hrc), Hdd
    | |- context [matches d3] => by rewrite (rc_matches _ _ _ _ Hrc), Hdd
    | |- context [messageReports d3] => rewrite (rc_reports _ _ _ _ Hrc); simpl
    | |- context [?t d3] => table_of Hrc t; rewrite ?Hdd; try done
    end.
  - apply del_mapif_sub. by intros u _ Hu.
  - rewrite del_del_sub by (intros r _ Hr; by rewrite Hr, orb_true_r). apply del_del_sub. intros r _ Hr. by rewrite Hr.
  - apply del_mapif_sub. by intros r _ Hr.
Qed.

(** C7: erasure.  A worker erases an account only while it holds an unexpired
    claim on it and only after the deadline.  Then the account's row holds no
    personal data but its gender, its community profile is anonymous, its uploads
    are handed to cleanup, and no photo, session, identity, device, subscription,
    balance, boost, like, match action, match, block, report or notification of it
    is left, nor any room of its matches with what was said there; the rows of
    other accounts in all these tables, and its own posts, comments and
    transactions, are as before.  Otherwise the database is unchanged. *)
Theorem anonymize_erases_account job now w w' r :
  match_rooms_exist (db w) -> anonymizeDeletedAccount job now w = (w', r) ->
  match r with
  | Ok _ => (exists u, u ∈ users (db w) /\ holds_deletion_lease job now u = true) /\
            erased (job_userId job) now (db w) (db w') /\ spares (job_userId job) (db w) (db w')
  | Err _ => db w' = db w
  end.
Proof.
  intros Hrooms E. to_wp E. set (userId := job_userId job).
  unfold anonymizeDeletedAccount. do 3 wp_step. wp_step. wp_step; [|done]. intros Hclaim. do 3 wp_step.
  eapply wp_mono; [apply wp_failUploads|]. intros [[]|e] w1 (l' & Ed & _ & Hspared & Hup); [|by destruct w1].
  specialize (Hup I). specialize (Hspared I). unfold delete_pushTokens, delete_notifications. fold userId in Hup, Hspared |- *.
  do 30 wp_step. wp_step.
  change (fun r => (matches.userLowId r =?? userId) || (matches.userHighId r =?? userId)) with (of_match userId).
  match goal with |- wp _ _ ?w => set (w2 := w) end.
  assert (db w2 = purge userId ((db w) <| profileUploads := l' |>)) as E2.
  { unfold w2, purge, del_by. cbv zeta. by rewrite !db_update, Ed. }
  apply (wp_close_rooms userId (db w)); [done|by rewrite E2..|]. rewrite E2.
  intros w3 Hrc. do 4 wp_step; [|done|done]. intros _ _. wp_step. split; [by apply claim_elem|].
  split; [by eapply purge_erased|by eapply purge_spares].
Qed.

(** * The deletion batch *)

Definition user_ids (d : Db) : Prop := NoDup (map users.userId (users d)).

(** What a batch that claimed [ids] reports as remaining: due accounts it did not
    claim, if it claimed any. *)
Definition due_left (now : Z) (ids : list jstr) (d : Db) : bool :=
  if ids is [] then false else existsb (fun u => deletion_due now u && negb (bool_decide (users.userId u ∈ ids))) (users d).

(** A claimed account is not due before its lease expires. *)
Lemma due_after_claim now lease (ids : list jstr) (l : list User) :
  now < lease ->
  negb (is_null (first (deletion_due now) (mapif (fun u => bool_decide (users.userId u ∈ ids))
    (fun u => u <| users.deletionLeaseExpiresAt := Some (to_column lease) |>
                <| users.deletionAttempts ::= fun n => n + 1 |> <| users.updatedAt := to_column now |>) l)))
  = existsb (fun u => deletion_due now u && negb (bool_decide (users.userId u ∈ ids))) l.
Proof.
  intros Hl. induction l as [|u l IH]; [done|]. rewrite mapif_cons, first_cons. simpl. rewrite <- IH.
  destruct (bool_decide (users.userId u ∈ ids)); simpl; [|by rewrite andb_true_r; destruct (deletion_due now u)].
  rewrite andb_false_r. simpl. unfold deletion_due at 1. simpl.
  assert (to_column lease <=? to_column now = false) as -> by (unfold to_column; lia). by rewrite andb_false_r.
Qed.

Lemma wp_claimDueDeletionBatch now lease limit w :
  user_ids (db w) -> now < lease ->
  wp (claimDueDeletionBatch now lease limit) (fun r w' => exists jobs, let ids := map job_userId jobs in
    r = Ok (jobs, due_left now ids (db w)) /\
    NoDup ids /\
    length jobs = Nat.min limit (length (sel (fun u => deletion_due now u && negb (row_locked (tick w) (users.userId u))) (users (db w)))) /\
    (forall j, j ∈ jobs -> job_deletionLeaseExpiresAt j = lease /\
       exists u, u ∈ users (db w) /\ users.userId u = job_userId j /\ deletion_due now u = true /\
         row_locked (tick w) (users.userId u) = false) /\
    users (db w') = mapif (fun u => bool_decide (users.userId u ∈ ids))
      (fun u => u <| users.deletionLeaseExpiresAt := Some (to_column lease) |>
                  <| users.deletionAttempts ::= fun n => n + 1 |>
                  <| users.updatedAt := to_column now |>) (users (db w))) w.
Proof.
  intros Hids Hlease. unfold claimDueDeletionBatch. do 3 wp_step.
  set (free := fun u => deletion_due now u && negb (row_locked (tick w) (users.userId u))).
  set (cand := take limit _).
  assert (forall u, u ∈ cand -> u ∈ users (db w) /\ deletion_due now u = true /\ row_locked (tick w) (users.userId u) = false) as Hc.
  { intros u Hu. apply elem_of_take_order, elem_of_sel in Hu as [? [? ?%negb_true_iff]%andb_true_iff]. done. }
  assert (length cand = Nat.min limit (length (sel free (users (db w))))) as Hlen
    by (unfold cand; by rewrite length_take, length_order_by).
  assert (NoDup (map users.userId cand)) as Hnd by (by apply keys_take_order, keys_sel).
  assert (map job_userId (map (fun userId => mkDeletionJob userId lease) (map users.userId cand))
          = map users.userId cand) as Hmap by (by rewrite map_map, map_id).
  cbv zeta. destruct (map users.userId cand) as [|i ids] eqn:E.
  - wp_step. exists []. simpl. apply map_eq_nil in E. split_and!; [done|constructor|by rewrite <- Hlen, E|set_solver|].
    rewrite mapif_id; [done|]. by intros u _.
  - rewrite <- E in *. wp_steps. exists (map (fun userId => mkDeletionJob userId lease) (map users.userId cand)).
    rewrite Hmap. split_and!; [|done|by rewrite !length_map| |done].
    + simpl. rewrite due_after_claim by done. unfold due_left. by rewrite E.
    + intros j Hj. rewrite map_map in Hj. apply key_elem in Hj as (u & Hu & <-). split; [done|].
      exists u. destruct (Hc u Hu) as (? & ? & ?). done.
Qed.

(** A job touches no row of another account. *)
Lemma others_update userId p f l :
  (forall u, p u = true -> users.userId u = userId /\ users.userId (f u) = userId) ->
  sel (fun u => negb (users.userId u =?? userId)) (mapif p f l)
  = sel (fun u => negb (users.userId u =?? userId)) l.
Proof.
  intros Hp. induction l as [|u l IH]; [done|]. rewrite mapif_cons, !sel_cons, IH.
  destruct (p u) eqn:E; [|done]. destruct (Hp u E) as [E1 E2]. by rewrite E1, E2, eqb_refl_true.
Qed.

Lemma keeps_others_anonymized userId now :
  keeps (others userId) (updateChecked users (is_user userId) (anonymized userId now)).
Proof.
  intros w. apply wp_updateChecked; [|done|done]. intros _ _. apply others_update.
  unfold is_user. intros u Hu. rewrite bool_decide_eq_true in Hu. by split.
Qed.

Lemma keeps_others_release job now : keeps (others (job_userId job)) (releaseDeletionLease job now).
Proof.
  intros w. apply wp_bind, wp_update, wp_ret. apply others_update. unfold is_user.
  intros u [[Hu _]%andb_true_iff _]%andb_true_iff. rewrite bool_decide_eq_true in Hu. by split.
Qed.
#[local] Hint Resolve keeps_others_anonymized keeps_others_release : keeps.

Lemma keeps_others_job now job : keeps (others (job_userId job)) (processDeletionJob now job).
Proof.
  unfold processDeletionJob, anonymizeDeletedAccount, failUploads, delete_pushTokens, delete_notifications,
    delete_rooms. solve_keeps.
Qed.

(** A worker erases the account it holds, or leaves the database as it is. *)
Lemma wp_anonymize_users job now w :
  wp (anonymizeDeletedAccount job now) (fun r w' =>
    match r with
    | Ok _ => users (db w') = mapif (is_user (job_userId job)) (anonymized (job_userId job) now) (users (db w))
    | Err _ => db w' = db w
    end) w.
Proof.
  unfold anonymizeDeletedAccount. do 3 wp_step. wp_step. wp_step; [|done]. intros _. do 3 wp_step.
  eapply wp_mono; [apply wp_failUploads|]. intros [[]|e] w1 (l' & Ed & _); [|by destruct w1].
  unfold delete_pushTokens, delete_notifications, delete_rooms. wp_steps; simpl; rewrite ?Ed; done.
Qed.

(** What became of a claimed account. *)
Definition settled (now : Z) (userId : jstr) (d : Db) (o : DeletionOutcome) : Prop :=
  exists u, u ∈ users d /\ users.userId u = userId /\
    match o with
    | outcome_succeeded => erased_user userId now u
    | outcome_retry => users.deletedAt u = None /\ deletion_due now u = true
    end.
(** A job's claim: the account is due, and leased until then. *)
Definition leased (now : Z) (d : Db) (job : DeletionJob) : Prop :=
  exists u, u ∈ users d /\ users.userId u = job_userId job /\ users.deletedAt u = None /\
    opt_le (users.deletionScheduledAt u) (to_column now) = true /\
    users.deletionLeaseExpiresAt u = Some (to_column (job_deletionLeaseExpiresAt job)).

Lemma wp_processDeletionJob now job w :
  leased now (db w) job ->
  wp (processDeletionJob now job) (fun r w' =>
    map users.userId (users (db w')) = map users.userId (users (db w)) /\
    exists o, r = Ok o /\ settled now (job_userId job) (db w') o) w.
Proof.
  intros (u & Hu & Hid & Hdel & Hdue & Hlease). unfold processDeletionJob. apply wp_try_catch, wp_bind.
  eapply wp_mono; [apply wp_anonymize_users|]. intros [[]|e] w1 E1.
  - wp_step. split; [by rewrite E1, keys_mapif|]. exists outcome_succeeded. split; [done|].
    eexists. split; [rewrite E1; apply elem_of_mapif; by exists u|]. unfold is_user. rewrite Hid, eqb_refl_true.
    by split_and!.
  - unfold releaseDeletionLease. do 5 wp_step. simpl. rewrite E1. split; [by rewrite keys_mapif|].
    exists outcome_retry. split; [done|]. eexists. split; [apply elem_of_mapif; by exists u|].
    unfold is_user. rewrite Hid, Hdel, Hlease, !eqb_refl_true. simpl. split_and!; [done|done|].
    unfold deletion_due. simpl. by rewrite Hdue, Hdel.
Qed.

(** A job leaves the other claims and outcomes as they are. *)
Lemma not_claimed_user job w w' u :
  others (job_userId job) w' = others (job_userId job) w -> users.userId u <> job_userId job ->
  u ∈ users (db w) -> u ∈ users (db w').
Proof.
  intros Ho Hne Hu. assert (u ∈ others (job_userId job) w) as Hin.
  { apply elem_of_sel. split; [done|]. by rewrite bool_decide_eq_false_2. }
  rewrite <- Ho in Hin. by apply elem_of_sel in Hin as [? _].
Qed.

Lemma wp_deletion_jobs now jobs w :
  NoDup (map job_userId jobs) -> (forall job, job ∈ jobs -> leased now (db w) job) ->
  wp (map_all jobs (fun job => attempt (processDeletionJob now job))) (fun r w' =>
    map users.userId (users (db w')) = map users.userId (users (db w)) /\
    (forall u, u ∈ users (db w) -> users.userId u ∉ map job_userId jobs -> u ∈ users (db w')) /\
    exists outs, r = Ok (map Ok outs) /\ Forall2 (fun job o => settled now (job_userId job) (db w') o) jobs outs) w.
Proof.
  revert w. induction jobs as [|job jobs IH]; intros w Hnd Hl; simpl.
  { wp_step. split_and!; [done|by intros|]. by exists []. }
  simpl in Hnd. apply NoDup_cons in Hnd as [Hj Hnd].
  apply wp_bind, wp_attempt. eapply wp_mono; [apply wp_and; [apply wp_processDeletionJob, Hl; set_solver|apply keeps_others_job]|].
  intros r w1 [(Ek & o & -> & Ho) Hoth]. simpl in Hoth.
  apply wp_bind. eapply wp_mono; [apply IH; [done|]|].
  { intros j Hin. destruct (Hl j ltac:(set_solver)) as (u & Hu & Hid & ?). exists u. split; [|done].
    eapply not_claimed_user; [done| |done]. intros E. apply Hj, key_elem. exists j. split; [done|congruence]. }
  intros r2 w2 (Ek2 & Hsp & outs & -> & Hall). wp_step. split_and!; [congruence| |].
  - intros u Hu [Hne Hn]%not_elem_of_cons. apply Hsp; [|done]. by eapply not_claimed_user.
  - exists (o :: outs). split; [done|]. constructor; [|done]. destruct Ho as (u & Hu & Hid & ?). exists u.
    split; [|done]. apply Hsp; [done|by rewrite Hid].
Qed.

Lemma settle_ok {A} (outs : list A) w : settle (map Ok outs) w = (w, Ok outs).
Proof. induction outs as [|o outs IH]; [done|]. simpl. unfold mbind, M_bind. by rewrite IH. Qed.

Lemma outcomes_total (l : list DeletionOutcome) :
  countw (fun o => o =?? outcome_succeeded) l + countw (fun o => o =?? outcome_retry) l = Z.of_nat (length l).
Proof.
  induction l as [|[] l IH]; [done|..]; rewrite !countw_cons; simpl length; simpl; lia.
Qed.

(** The rows the claim may take: due, and not held by another transaction. *)
Definition claimable_deletion (now : Z) (w : World) (u : User) : bool :=
  deletion_due now u && negb (row_locked (tick w) (users.userId u)).
(** The account [id] is erased. *)
Definition erased_in (d : Db) (id : jstr) : bool :=
  existsb (fun u => (users.userId u =?? id) && is_not_null (users.deletedAt u)) (users d).

Lemma erased_in_settled now job d o :
  user_ids d -> settled now (job_userId job) d o -> erased_in d (job_userId job) = (o =?? outcome_succeeded).
Proof.
  intros Hids (u & Hu & Hid & Ho). apply eq_true_iff_eq. unfold erased_in. rewrite existsb_true. split.
  - intros (v & Hv & [Hvid%bool_decide_eq_true Hvd]%andb_true_iff).
    assert (v = u) as -> by (apply (keys_inj users.userId _ v u Hids); congruence).
    destruct o; [done|]. destruct Ho as [Ho _]. by rewrite Ho in Hvd.
  - destruct o; [|done]. intros _. exists u. split; [done|]. destruct Ho as (_ & _ & _ & _ & _ & _ & _ & _ & _ & _ & ->).
    by rewrite Hid, eqb_refl_true.
Qed.

Lemma countw_outcomes now jobs outs d :
  user_ids d -> Forall2 (fun job o => settled now (job_userId job) d o) jobs outs ->
  countw (fun o => o =?? outcome_succeeded) outs = countw (erased_in d) (map job_userId jobs).
Proof.
  intros Hids Hall. induction Hall as [|job o jobs outs Ho _ IH]; [done|]. simpl. rewrite !countw_cons, IH.
  by rewrite (erased_in_settled now) with (o := o).
Qed.

(** What a batch that claimed [ids] did, and its report. *)
Record batch_done (now limit : Z) (w w' : World) (b : AccountDeletionBatchResult) (ids : list jstr) : Prop := {
  bd_distinct : NoDup ids;
  bd_claimed : Z.of_nat (length ids) = Z.min limit (countw (claimable_deletion now w) (users (db w)));
  bd_due : forall id, id ∈ ids ->
    exists u, u ∈ users (db w) /\ users.userId u = id /\ claimable_deletion now w u = true;
  bd_settled : forall id, id ∈ ids ->
    settled now id (db w') (if erased_in (db w') id then outcome_succeeded else outcome_retry);
  bd_spared : forall u, u ∈ users (db w) -> users.userId u ∉ ids -> u ∈ users (db w');
  bd_report : b = mkBatchResult (Z.of_nat (length ids)) (countw (erased_in (db w')) ids)
    (Z.of_nat (length ids) - countw (erased_in (db w')) ids) 0 (due_left now ids (db w))
}.

Lemma wp_deletion_batch now limit w :
  1 <= limit <= 100 -> user_ids (db w) ->
  wp (processDueAccountDeletionBatch now limit) (fun r w' => exists b ids, r = Ok b /\ batch_done now limit w w' b ids) w.
Proof.
  intros Hlim Hids. unfold processDueAccountDeletionBatch, validateBatchLimit. do 3 wp_step; [|lia]. intros _.
  do 2 wp_step. eapply wp_mono; [apply wp_claimDueDeletionBatch; [done|unfold DELETION_LEASE_MS; lia]|].
  intros r w1 (jobs & -> & Hnd & Hlen & Hjobs & Husers).
  assert (forall job, job ∈ jobs -> leased now (db w1) job) as Hleased.
  { intros job Hj. destruct (Hjobs job Hj) as (Hl & u & Hu & Hid & [[Hs Hd]%andb_true_iff _]%andb_true_iff & _).
    eexists. split; [rewrite Husers; apply elem_of_mapif; by exists u|].
    rewrite bool_decide_eq_true_2 by (rewrite Hid; apply key_elem; eauto). simpl. rewrite Hl.
    split_and!; try done. by destruct (users.deletedAt u). }
  wp_step. eapply wp_mono; [by apply wp_deletion_jobs|]. intros r w2 (Hk & Hsp & outs & -> & Hall).
  wp_step. apply run_wp. intros w3 r Es. rewrite settle_ok in Es. injection Es as <- <-. wp_step.
  assert (user_ids (db w2)) as Hids2 by (unfold user_ids; rewrite Hk, Husers, keys_mapif; done).
  eexists _, (map job_userId jobs). split; [done|]. pose proof (Forall2_length _ _ _ Hall) as Hl2.
  split; [done|..].
  - rewrite length_map, Hlen. unfold countw, claimable_deletion. lia.
  - intros id (j & Hj & <-)%key_elem. destruct (Hjobs j Hj) as (_ & u & Hu & Hid & Hd & Hn). exists u.
    unfold claimable_deletion. by rewrite Hd, Hn.
  - intros id (j & Hj & <-)%key_elem. apply list_elem_of_lookup in Hj as [i Hi].
    destruct (Forall2_lookup_l _ _ _ _ _ Hall Hi) as (o & _ & Ho). rewrite (erased_in_settled now) with (o := o) by done.
    by destruct o.
  - intros u Hu Hn. apply Hsp; [|done]. rewrite Husers. apply elem_of_mapif. exists u. by rewrite bool_decide_eq_false_2.
  - pose proof (outcomes_total outs). rewrite (countw_outcomes now jobs outs (db w2)) in * by done.
    rewrite length_map. f_equal; lia.
Qed.


(** * Requesting and cancelling deletion *)

(** Outbox rows still to be sent are addressed to other accounts' devices. *)
Definition pushes_cancelled (userId : jstr) (d d' : Db) : Prop :=
  forall o, o ∈ pushOutbox d' -> bool_decide (pushOutbox.status o ∈ open_statuses) = true ->
  o ∈ pushOutbox d /\
  forall t, t ∈ pushTokens d -> pushTokens.userId t = userId -> pushOutbox.pushTokenId o <> Some (pushTokens.id t).

Lemma cancel_open_pushes userId completedAt updatedAt d :
  pushes_cancelled userId d
    (cascade_pushTokens (fun r => pushTokens.userId r =?? userId)
      (d <| pushOutbox ::= mapif
         (fun r => opt_ref (fun id => bool_decide (id ∈ map pushTokens.id (sel (fun r => pushTokens.userId r =?? userId) (pushTokens d))))
                     (pushOutbox.pushTokenId r)
                   && is_not_null (pushOutbox.pushTokenId r)
                   && bool_decide (pushOutbox.status r ∈ open_statuses))
         (fun r => r <| pushOutbox.status := cancelled |>
                     <| pushOutbox.completedAt := Some (to_column completedAt) |>
                     <| pushOutbox.leaseExpiresAt := None |>
                     <| pushOutbox.updatedAt := to_column updatedAt |>) |>)).
Proof.
  intros o Ho Hopen. simpl in Ho. apply elem_of_mapif in Ho as (y & Hy & ->).
  apply elem_of_mapif in Hy as (z & Hz & ->).
  set (mine := fun id : jstr => bool_decide (id ∈ map pushTokens.id (sel (fun r => pushTokens.userId r =?? userId) (pushTokens d)))) in *.
  assert (forall id, existsb (fun r => (pushTokens.userId r =?? userId) && (pushTokens.id r =?? id)) (pushTokens d) = mine id) as Hmine.
  { intros id. apply eq_true_iff_eq. unfold mine. rewrite existsb_true, bool_decide_eq_true, key_elem.
    setoid_rewrite elem_of_sel. setoid_rewrite andb_true_iff. setoid_rewrite bool_decide_eq_true. naive_solver. }
  destruct (pushOutbox.pushTokenId z) as [tid|] eqn:Et; simpl in *.
  - destruct (mine tid) eqn:Em; simpl in *.
    + destruct (bool_decide (pushOutbox.status z ∈ open_statuses)) eqn:Es; simpl in *;
        rewrite ?Et in *; simpl in *; rewrite Hmine, Em in Hopen; simpl in Hopen; [|congruence].
      by vm_compute in Hopen.
    + rewrite Et in *. simpl in *. rewrite Hmine, Em in *. simpl in *. split; [done|].
      intros t Ht Htu Heq. assert (mine (pushTokens.id t) = true) as Hm.
      { unfold mine. apply bool_decide_eq_true, key_elem. exists t. split; [|done].
        apply elem_of_sel. split; [done|by apply bool_decide_eq_true]. }
      rewrite Et in Heq. injection Heq as ->. congruence.
  - rewrite Et in *. simpl in *. split; [done|]. intros t _ _. by rewrite Et.
Qed.

Lemma cancel_no_pushes userId d :
  sel (fun r => pushTokens.userId r =?? userId) (pushTokens d) = [] ->
  pushes_cancelled userId d (cascade_pushTokens (fun r => pushTokens.userId r =?? userId) d).
Proof.
  intros Hnone. assert (forall t, t ∈ pushTokens d -> pushTokens.userId t <> userId) as Hno.
  { intros t Ht Hu. assert (t ∈ sel (fun r => pushTokens.userId r =?? userId) (pushTokens d)) as Hin
      by (apply elem_of_sel; split; [done|by apply bool_decide_eq_true]).
    rewrite Hnone in Hin. by apply elem_of_nil in Hin. }
  intros o Ho _. simpl in Ho. rewrite mapif_id in Ho.
  - split; [done|]. intros t Ht Hu. by destruct (Hno t Ht).
  - intros x _. destruct (pushOutbox.pushTokenId x) as [i|]; simpl; [|done]. rewrite andb_true_r.
    apply existsb_false. intros t Ht. rewrite bool_decide_eq_false_2; [done|by apply Hno].
Qed.

Lemma first_user (d : Db) u p :
  user_ids d -> u ∈ users d -> p u = true -> (forall v, p v = true -> users.userId v = users.userId u) ->
  sel p (users d) = [u].
Proof. intros Hn Hu Hp Hk. apply (sel_key_unique users.userId); auto. Qed.

Lemma sel_user (userId : jstr) (u : User) (d : Db) q :
  user_ids d -> u ∈ users d -> users.userId u = userId ->
  sel (fun v => is_user userId v && q v) (users d) = if q u then [u] else [].
Proof.
  intros Hids Hu Hid. destruct (q u) eqn:Eq.
  - apply first_user; try done; [unfold is_user; by rewrite bool_decide_eq_true_2|].
    intros v [Hv _]%andb_true_iff. unfold is_user in Hv. rewrite bool_decide_eq_true in Hv. congruence.
  - apply sel_none. intros v Hv. apply not_true_is_false. intros [Hv1 Hv2]%andb_true_iff.
    unfold is_user in Hv1. rewrite bool_decide_eq_true in Hv1.
    assert (v = u) as -> by (apply (keys_inj users.userId _ v u Hids); congruence). congruence.
Qed.

Definition deletion_requested (userId : jstr) (u : User) (deadline : Z) (d d' : Db) : Prop :=
  exists u', u' ∈ users d' /\ users.userId u' = userId /\ users.deletionScheduledAt u' = Some deadline /\
    (users.deletionScheduledAt u = None -> is_Some (users.hiddenAt u')) /\
    absent refreshTokens (fun r => refreshTokens.userId r =?? userId) d' /\
    absent pushTokens (fun r => pushTokens.userId r =?? userId) d' /\
    pushes_cancelled userId d d'.

Lemma pushes_cancelled_ext userId d d1 d2 :
  pushOutbox d1 = pushOutbox d2 -> pushes_cancelled userId d d1 -> pushes_cancelled userId d d2.
Proof. unfold pushes_cancelled. by intros ->. Qed.

Lemma wp_revokeDevices userId w :
  wp (revokeDevices userId) (fun r w' =>
    r = Ok tt /\ users (db w') = users (db w) /\
    absent refreshTokens (fun r => refreshTokens.userId r =?? userId) (db w') /\
    absent pushTokens (fun r => pushTokens.userId r =?? userId) (db w') /\
    pushes_cancelled userId (db w) (db w')) w.
Proof.
  unfold revokeDevices, delete_pushTokens. wp_steps; (split; [done|]); (split; [done|]);
    (split; [intros ? Hx; by apply absent_del in Hx|]); (split; [intros ? Hx; by apply absent_del in Hx|]).
  - apply (cancel_no_pushes userId (db w)).
    match goal with Hm : map _ (sel _ _) = [] |- _ => by apply map_eq_nil in Hm end.
  - match goal with Hm : map _ (sel _ _) = _ |- _ => simpl in Hm; rewrite <- Hm end.
    eapply pushes_cancelled_ext;
      [|apply (cancel_open_pushes userId (date_now (tick w)) (date_now (S (tick w))) (db w))].
    reflexivity.
Qed.

Lemma wp_scheduleDeletion userId scheduledFor u w :
  user_ids (db w) -> u ∈ users (db w) -> users.userId u = userId -> users.deletedAt u = None ->
  let deadline := default (to_column scheduledFor) (users.deletionScheduledAt u) in
  wp (scheduleDeletion userId scheduledFor) (fun r w' =>
    r = Ok (of_column deadline) /\ deletion_requested userId u deadline (db w) (db w')) w.
Proof.
  intros Hids Hu Hid Hdel deadline. unfold scheduleDeletion. do 5 wp_step.
  rewrite (sel_ext _ (fun v => is_user userId v && (is_null (users.deletedAt v) && is_null (users.deletionScheduledAt v))))
    by (intros; by rewrite andb_assoc).
  rewrite (sel_user userId u) by done. rewrite Hdel. simpl.
  assert (forall f, (is_null (users.deletionScheduledAt u) = true -> users.userId (f u) = users.userId u) ->
    (if is_null (users.deletionScheduledAt u) then f u else u) ∈
    mapif (fun v => is_user userId v && is_null (users.deletedAt v) && is_null (users.deletionScheduledAt v)) f (users (db w)))
    as Hin.
  { intros f _. apply elem_of_mapif. exists u. split; [done|]. unfold is_user.
    rewrite Hid, Hdel, eqb_refl_true. done. }
  unfold deadline. destruct (users.deletionScheduledAt u) as [old|] eqn:Es; simpl.
  - wp_step. apply wp_findFirst. unfold first. simpl. rewrite mapif_id.
    2: { intros v Hv. apply not_true_is_false. intros [[Hv1 _]%andb_true_iff Hv2]%andb_true_iff. unfold is_user in Hv1.
         rewrite bool_decide_eq_true in Hv1.
         assert (v = u) as -> by (apply (keys_inj users.userId _ v u Hids); congruence). by rewrite Es in Hv2. }
    rewrite (sel_user userId u _ (fun v => is_null (users.deletedAt v))), Hdel by done. simpl. rewrite Es.
    wp_step. eapply wp_mono; [apply wp_revokeDevices|]. intros r w' (-> & Hus & H1 & H2 & H3). wp_step.
    split; [done|]. exists u. rewrite Hus. simpl. rewrite Es. split_and!; try done. by apply Hin.
  - wp_step. wp_step. simpl. wp_step. eapply wp_mono; [apply wp_revokeDevices|]. intros r w' (-> & Hus & H1 & H2 & H3). wp_step.
    split; [done|]. eexists. rewrite Hus. simpl. split_and!; [by apply Hin|..]; done.
Qed.

Lemma scheduleDeletion_ids userId scheduledFor :
  keeps (fun w => map users.userId (users (db w))) (scheduleDeletion userId scheduledFor).
Proof.
  intros w. unfold scheduleDeletion. wp_step.
  assert (forall w', map users.userId (users (db w')) = map users.userId (users (db w)) ->
    wp (revokeDevices userId) (fun r w'' => is_ok r /\ map users.userId (users (db w'')) = map users.userId (users (db w))) w')
    as Hr.
  { intros w' E. eapply wp_mono; [apply wp_revokeDevices|]. intros r w'' (-> & -> & _). done. }
  do 4 wp_step. wp_step. apply (wp_mono _ (fun r w' => map users.userId (users (db w')) = map users.userId (users (db w)))).
  { wp_steps; simpl; by rewrite keys_mapif. }
  intros [a|e] w1 E1; [|done]. wp_step; [|by wp_step]. wp_step.
  eapply wp_mono; [by apply Hr|]. intros [[]|e] w2 [Hok E2]; [by wp_step|done].
Qed.

Lemma wp_beginAccountDeletion userId u w :
  matchb UUID_PATTERN userId = true -> user_ids (db w) ->
  u ∈ users (db w) -> users.userId u = userId -> users.deletedAt u = None ->
  let deadline := default (to_column (date_now (tick w) + 14 * msPerDay)) (users.deletionScheduledAt u) in
  wp (beginAccountDeletion userId) (fun r w' =>
    r = Ok (mkDeletionPayload true (toISOString (of_column deadline))) /\ user_ids (db w') /\
    deletion_requested userId u deadline (db w) (db w')) w.
Proof.
  intros Huuid Hids Hu Hid Hdel deadline.
  unfold beginAccountDeletion, validateUuid, findUser, repo_findUser.
  do 3 wp_step. wp_step; [intros _|congruence].
  do 3 wp_step. unfold first.
  rewrite (sel_ext (is_user userId) (fun v => is_user userId v && true)) by (intros; by rewrite andb_true_r).
  rewrite (sel_user userId u _ (fun _ => true)) by done. simpl. do 2 wp_step. rewrite setUTCDate_add.
  eapply wp_mono; [apply wp_and; [by apply wp_scheduleDeletion|apply scheduleDeletion_ids]|].
  intros r w' [[-> Hreq] Hk]. wp_step. split; [done|]. split; [|done]. unfold user_ids in *. simpl in Hk. by rewrite Hk.
Qed.

(** C9: asking for deletion.  An active account is hidden at once and scheduled
    fourteen days ahead; asking again keeps the first deadline.  Either way the
    account's sessions and devices are gone and none of its open pushes will be
    sent. *)
Theorem account_deletion_requested userId w u :
  matchb UUID_PATTERN userId = true -> user_ids (db w) ->
  u ∈ users (db w) -> users.userId u = userId -> users.deletedAt u = None ->
  let deadline := default (to_column (date_now (tick w) + 14 * msPerDay)) (users.deletionScheduledAt u) in
  exists w', beginAccountDeletion userId w = (w', Ok (mkDeletionPayload true (toISOString (of_column deadline)))) /\
    deletion_requested userId u deadline (db w) (db w').
Proof.
  intros Huuid Hids Hu Hid Hdel deadline.
  apply (wp_total _ (fun w' => deletion_requested userId u deadline (db w) (db w'))).
  eapply wp_mono; [by apply wp_beginAccountDeletion|]. intros r w' (-> & _ & ?). done.
Qed.

(** An account in ordinary use. *)
Definition active_account (u : User) : Prop :=
  users.hiddenAt u = None /\ users.deletionScheduledAt u = None /\ users.deletionLeaseExpiresAt u = None /\
  users.deletionAttempts u = 0 /\ users.deletedAt u = None.
Definition scheduled_account (at_ deadline : Z) (u : User) : User :=
  u <| users.hiddenAt := Some (to_column at_) |> <| users.deletionScheduledAt := Some (to_column deadline) |>
    <| users.updatedAt := to_column at_ |>.
Definition restored_account (at_ : Z) (u : User) : User :=
  u <| users.hiddenAt := None |> <| users.deletionScheduledAt := None |> <| users.deletionLeaseExpiresAt := None |>
    <| users.deletionAttempts := 0 |> <| users.updatedAt := to_column at_ |>.

Lemma mapif_user userId u f g (l : list User) q :
  NoDup (map users.userId l) -> u ∈ l -> users.userId u = userId -> q u = true -> f u = g u ->
  mapif (fun v => is_user userId v && q v) f l = mapif (is_user userId) g l.
Proof.
  intros Hids Hu Hid Hq Hfg. unfold mapif. apply map_ext_in. intros v Hv. apply list_elem_of_In in Hv.
  unfold is_user. case_bool_decide as Hv'; [|done].
  assert (v = u) as -> by (apply (keys_inj users.userId l v u Hids); congruence). by rewrite Hq.
Qed.

Lemma wp_begin_active userId u w :
  user_ids (db w) -> u ∈ users (db w) -> users.userId u = userId -> active_account u ->
  wp (beginAccountDeletion userId) (fun r w' => is_ok r -> exists at_,
    users (db w') = mapif (is_user userId) (scheduled_account at_ (date_now (tick w) + 14 * msPerDay)) (users (db w))) w.
Proof.
  intros Hids Hu Hid (Hh & Hs & Hl & Ha & Hd). unfold beginAccountDeletion, validateUuid, findUser, repo_findUser, scheduleDeletion.
  do 3 wp_step. wp_step; [intros _|done]. do 3 wp_step. destruct (first _ _); [|by wp_step]. do 6 wp_step. rewrite setUTCDate_add. wp_step. wp_step.
  simpl. rewrite (sel_ext _ (fun v => is_user userId v && (is_null (users.deletedAt v) && is_null (users.deletionScheduledAt v))))
    by (intros; by rewrite andb_assoc).
  rewrite (sel_user userId u) by done. rewrite Hd, Hs. simpl. wp_step. simpl. wp_step.
  eapply wp_mono; [apply wp_revokeDevices|]. intros r w' (-> & Hus & _). do 2 wp_step. intros _.
  exists (date_now (S (tick w))). rewrite Hus. simpl.
  rewrite (mapif_ext _ (fun v => is_user userId v && (is_null (users.deletedAt v) && is_null (users.deletionScheduledAt v))))
    by (intros; by rewrite andb_assoc).
  apply (mapif_user userId u); try done. by rewrite Hd, Hs.
Qed.

Lemma wp_restoreScheduledDeletion userId v w :
  user_ids (db w) -> v ∈ users (db w) -> users.userId v = userId -> users.deletedAt v = None ->
  let now := date_now (S (tick w)) in
  wp (restoreScheduledDeletion userId) (fun r w' =>
    r = Ok (opt_gt (users.deletionScheduledAt v) (to_column now)) /\
    users (db w') = if opt_gt (users.deletionScheduledAt v) (to_column now)
                    then mapif (is_user userId) (restored_account (date_now (tick w))) (users (db w)) else users (db w)) w.
Proof.
  intros Hids Hv Hid Hd now. unfold restoreScheduledDeletion. do 7 wp_step. simpl. fold now.
  set (q := fun u => opt_gt (users.deletionScheduledAt u) (to_column now) && is_null (users.deletedAt u)).
  assert (forall u, is_user userId u && opt_gt (users.deletionScheduledAt u) (to_column now) && is_null (users.deletedAt u)
    = is_user userId u && q u) as Hq by (intros; unfold q; by rewrite andb_assoc).
  rewrite (sel_ext _ (fun u => is_user userId u && q u)) by (intros; apply Hq).
    rewrite (mapif_ext (fun u => is_user userId u && opt_gt (users.deletionScheduledAt u) (to_column now) && is_null (users.deletedAt u)) (fun u => is_user userId u && q u)) by (intros; apply Hq).
  rewrite (sel_user userId v) by done. unfold q at 1. rewrite Hd, andb_true_r.
  destruct (opt_gt _ _) eqn:Eg; simpl; (split; [done|]).
  - apply (mapif_user userId v); try done. unfold q. by rewrite Eg, Hd.
  - apply mapif_id. intros u Hu. apply not_true_is_false. intros [Hu1 Hu2]%andb_true_iff.
    unfold is_user in Hu1. rewrite bool_decide_eq_true in Hu1.
    assert (u = v) as -> by (apply (keys_inj users.userId _ u v Hids); congruence). unfold q in Hu2. by rewrite Eg in Hu2.
Qed.

Lemma mapif_compose {A} (p : A -> bool) f g (l : list A) :
  (forall x, p x = true -> p (f x) = true) -> mapif p g (mapif p f l) = mapif p (g ∘ f) l.
Proof.
  intros Hp. induction l as [|x l IH]; [done|]. rewrite !mapif_cons, IH. destruct (p x) eqn:E; [by rewrite Hp|by rewrite E].
Qed.

(** A batch leaves an account alone whose deletion is not scheduled. *)
Lemma batch_spares_active u now limit w w' r :
  user_ids (db w) -> u ∈ users (db w) -> users.deletionScheduledAt u = None ->
  processDueAccountDeletionBatch now limit w = (w', r) -> u ∈ users (db w').
Proof.
  intros Hids Hu Hs E. destruct (decide (1 <= limit <= 100)) as [Hlim|Hlim].
  - destruct (wp_run _ _ _ _ _ E (wp_deletion_batch now limit w Hlim Hids)) as (b & ids & _ & Hb).
    apply (bd_spared _ _ _ _ _ _ Hb); [done|]. intros Hin. destruct (bd_due _ _ _ _ _ _ Hb _ Hin) as (v & Hv & Hvid & Hc).
    assert (v = u) as -> by (by apply (keys_inj users.userId _ v u Hids)). unfold claimable_deletion, deletion_due in Hc.
    by rewrite Hs in Hc.
  - refine (wp_run _ (fun _ w' => u ∈ users (db w')) _ _ _ E _). unfold processDueAccountDeletionBatch, validateBatchLimit.
    do 3 wp_step; [lia|done].
Qed.

Lemma begin_uuid userId w w' p : beginAccountDeletion userId w = (w', Ok p) -> matchb UUID_PATTERN userId = true.
Proof.
  intros E. refine (wp_run _ (fun r _ => is_ok r -> matchb UUID_PATTERN userId = true) _ _ _ E _ I).
  unfold beginAccountDeletion, validateUuid. do 3 wp_step. wp_step; [|done]. intros Hm. apply run_wp. by intros.
Qed.

(** C10: changing one's mind.  An active account asks for deletion; whatever
    happens to the rest of the database, a restore before the deadline - fourteen
    days later - says so and leaves every account exactly as it was before the
    request, but for the time of the last update, and no deletion batch at any
    time touches the account then; a restore at the deadline or later refuses and
    leaves every account as it is, and the account is due. *)
Theorem restore_within_grace userId u w w1 p w2 w3 r :
  user_ids (db w) -> u ∈ users (db w) -> users.userId u = userId -> active_account u ->
  beginAccountDeletion userId w = (w1, Ok p) ->
  users (db w2) = users (db w1) -> restoreIfWithinGrace userId w2 = (w3, r) ->
  let now := date_now (S (tick w2)) in let deadline := date_now (tick w) + 14 * msPerDay in
  if now <? deadline then
    r = Ok true /\ exists at_, let u' := u <| users.updatedAt := at_ |> in
      users (db w3) = mapif (is_user userId) (fun _ => u') (users (db w)) /\ u' ∈ users (db w3) /\
      forall later limit w4 w5 r', users (db w4) = users (db w3) ->
        processDueAccountDeletionBatch later limit w4 = (w5, r') -> u' ∈ users (db w5)
  else r = Ok false /\ users (db w3) = users (db w2) /\
    exists v, v ∈ users (db w3) /\ users.userId v = userId /\ deletion_due now v = true.
Proof.
  intros Hids Hu Hid Hact E1 Eu E2 now deadline.
  destruct (wp_run _ _ _ _ _ E1 (wp_begin_active userId u w Hids Hu Hid Hact) I) as [at0 Eu1]. rewrite <- Eu in Eu1. fold deadline in Eu1.
  set (v := scheduled_account at0 deadline u) in *.
  assert (is_user userId u = true) as Hiu by (unfold is_user; by apply bool_decide_eq_true).
  assert (user_ids (db w2)) as Hids2 by (unfold user_ids; rewrite Eu1, keys_mapif; done).
  assert (v ∈ users (db w2)) as Hv by (rewrite Eu1; apply elem_of_mapif; exists u; by rewrite Hiu).
  destruct Hact as (Hh & Hs & Hl & Ha & Hd).
  pose proof (wp_restoreScheduledDeletion userId v w2 Hids2 Hv Hid Hd) as Hwp. cbv zeta in Hwp. fold now in Hwp.
  assert (matchb UUID_PATTERN userId = true) as Huuid by (by eapply begin_uuid).
  unfold restoreIfWithinGrace, validateUuid in E2. rewrite Huuid in E2. simpl in E2.
  destruct (wp_run _ _ _ _ _ E2 Hwp) as [-> Eu3]. simpl in *.
  assert ((to_column now <? to_column deadline) = (now <? deadline)) as Ec by (unfold to_column; lia). rewrite Ec in *.
  destruct (now <? deadline) eqn:En.
  - split; [done|]. exists (to_column (date_now (tick w2))). rewrite Eu1, mapif_compose in Eu3 by done.
    set (u' := u <| users.updatedAt := _ |>).
    assert (restored_account (date_now (tick w2)) (scheduled_account at0 deadline u) = u') as Er.
    { unfold restored_account, scheduled_account, u'. destruct u. simpl in *. by subst. }
    assert (users (db w3) = mapif (is_user userId) (fun _ => u') (users (db w))) as Eu3'.
    { rewrite Eu3. rewrite <- (mapif_ext (fun z => is_user userId z && true)) by (intros; by rewrite andb_true_r).
      by apply (mapif_user userId u). }
    assert (u' ∈ users (db w3)) as Hu' by (rewrite Eu3'; apply elem_of_mapif; exists u; by rewrite Hiu).
    split_and!; [done|done|]. intros later limit w4 w5 r' Eu4 E5. eapply batch_spares_active; [|by rewrite Eu4| |exact E5].
    + unfold user_ids. rewrite Eu4, Eu3'. rewrite keys_mapif; [done|]. intros z _ Hz.
      unfold is_user in Hz. rewrite bool_decide_eq_true in Hz. simpl. congruence.
    + done.
  - split_and!; [done|congruence|]. exists v. rewrite Eu3. split_and!; [done|done|].
    unfold deletion_due. simpl. rewrite Hd, Hl. simpl. rewrite !andb_true_r. unfold to_column. lia.
Qed.

(** * Profiles *)

(** The age in years is the calendar age: a birthday counts on its own day. *)
Lemma age_at_spec today birth n :
  n <= age_at today birth <->
  getUTCFullYear birth + n < getUTCFullYear today \/
  (getUTCFullYear birth + n = getUTCFullYear today /\
   (getUTCMonth birth < getUTCMonth today \/
    (getUTCMonth birth = getUTCMonth today /\ getUTCDate birth <= getUTCDate today))).
Proof. unfold age_at. destruct (_ || _) eqn:E; lia. Qed.

Record valid_profile (today : Z) (p : ValidProfile) : Prop := {
  vp_name : (0 < length (p_userName p) <= 40)%nat;
  vp_intro : (length (p_intro p) <= 60)%nat;
  vp_region : p_region p ∈ KOREAN_REGIONS;
  vp_birth : exists birth, parseDate (p_birthDate p) = Some birth /\ take 10 (toISOString birth) = p_birthDate p /\
               18 <= age_at today birth;
  vp_count : (1 <= length (p_photoUploadIds p) <= 3)%nat;
  vp_distinct : NoDup (p_photoUploadIds p)
}.

Lemma nodupb_spec l : nodupb l = true -> NoDup l.
Proof.
  induction l as [|x l IH]; simpl; [constructor|]. intros [Hx Hl]%andb_true_iff. constructor; [|auto].
  by apply negb_true_iff, bool_decide_eq_false in Hx.
Qed.

(** The photo [ph] shows what the user may show under [id]: their own verified
    upload, or their own photo from before uploads. *)
Definition owned_photo (d : Db) (userId id : jstr) (a : PhotoAuthority) : Prop :=
  (exists r, r ∈ profileUploads d /\ profileUploads.id r = id /\ profileUploads.userId r = userId /\
     profileUploads.status r = verified /\ profileUploads.publicUrl r = Some (au_url a) /\ au_uploadId a = Some id) \/
  (exists r, r ∈ userProfilePhotos d /\ userProfilePhotos.id r = id /\ userProfilePhotos.userId r = userId /\
     userProfilePhotos.url r = au_url a /\ au_photoId a = Some id /\ au_uploadId a = None).

Lemma authority_snoc id k a l :
  authority id (l ++ [(k, a)]) = if authority id l is Some b then Some b else if k =?? id then Some a else None.
Proof. induction l as [|[k' a'] l IH]; simpl; [done|]. by destruct (k' =?? id). Qed.

Lemma wp_addUploads (P : jstr -> PhotoAuthority -> Prop) rows acc w :
  (forall id a, authority id acc = Some a -> P id a) ->
  (forall r url, r ∈ rows -> profileUploads.publicUrl r = Some url ->
     P (profileUploads.id r) (mkAuthority None (Some (profileUploads.id r)) url)) ->
  wp (addUploads rows acc) (fun r w' => w' = w /\
    forall l, r = Ok l -> forall id a, authority id l = Some a -> P id a) w.
Proof.
  revert acc. induction rows as [|r rows IH]; intros acc Hacc Hrows; simpl.
  { wp_step. split; [done|]. by intros ? [= <-]. }
  destruct (profileUploads.publicUrl r) as [[|c url]|] eqn:Eu; [by wp_step| |by wp_step].
  wp_step. wp_step; [intros _|done]. apply IH.
  - intros id a. rewrite authority_snoc. destruct (authority id acc) eqn:Ea; [intros [= <-]; by apply Hacc|].
    case_bool_decide as E; [|done]. intros [= <-]. subst id. apply Hrows; [set_solver|done].
  - intros r' url' Hr'. apply Hrows. set_solver.
Qed.

Lemma wp_addLegacyPhotos (P : jstr -> PhotoAuthority -> Prop) rows acc w :
  (forall id a, authority id acc = Some a -> P id a) ->
  (forall r, r ∈ rows -> P (userProfilePhotos.id r)
     (mkAuthority (Some (userProfilePhotos.id r)) None (userProfilePhotos.url r))) ->
  wp (addLegacyPhotos rows acc) (fun r w' => w' = w /\
    forall l, r = Ok l -> forall id a, authority id l = Some a -> P id a) w.
Proof.
  revert acc. induction rows as [|r rows IH]; intros acc Hacc Hrows; simpl.
  { wp_step. split; [done|]. by intros ? [= <-]. }
  wp_step. wp_step; [intros _|done]. apply IH.
  - intros id a. rewrite authority_snoc. destruct (authority id acc) eqn:Ea; [intros [= <-]; by apply Hacc|].
    case_bool_decide as E; [|done]. intros [= <-]. subst id. apply Hrows. set_solver.
  - intros r' Hr'. apply Hrows. set_solver.
Qed.

(** The stored photos, in order: their owner, link, address and position. *)
Definition photo_of (userId : jstr) (a : PhotoAuthority) (position : Z) (ph : UserProfilePhoto) : Prop :=
  userProfilePhotos.userId ph = userId /\ userProfilePhotos.uploadId ph = au_uploadId a /\
  userProfilePhotos.url ph = au_url a /\ userProfilePhotos.position ph = position /\
  (forall id, au_photoId a = Some id -> userProfilePhotos.id ph = id).

Lemma photos_nil d : d = d <| userProfilePhotos ::= fun rows => rows ++ [] |>.
Proof. destruct d. unfold upd. simpl. by rewrite app_nil_r. Qed.
Lemma photos_cons d ph photos :
  d <| userProfilePhotos ::= fun rows => rows ++ [ph] |> <| userProfilePhotos ::= fun rows => rows ++ photos |>
  = d <| userProfilePhotos ::= fun rows => rows ++ ph :: photos |>.
Proof. destruct d. unfold upd. simpl. by rewrite <- app_assoc. Qed.

Lemma wp_insertPhotos userId position l w :
  wp (insertPhotos userId position l) (fun r w' =>
    forall photos, r = Ok photos ->
    db w' = (db w) <| userProfilePhotos ::= fun rows => rows ++ photos |> /\ length photos = length l /\
    forall i a, l !! i = Some a -> exists ph, photos !! i = Some ph /\ photo_of userId a (position + Z.of_nat i) ph) w.
Proof.
  revert position w. induction l as [|a l IH]; intros position w; simpl.
  { wp_step. intros ? [= <-]. split; [|done]. apply photos_nil. }
  do 5 wp_step. wp_step; [|done|done]. intros _ _. wp_step.
  eapply wp_mono; [apply IH|]. intros [photos|e] w' Hr; [|done]. wp_step. intros ? [= <-].
  destruct (Hr photos eq_refl) as (Ed & Hl & Hi0). split; [rewrite Ed; apply photos_cons|]. split; [simpl; lia|].
  intros [|i] b; simpl.
  - intros [= <-]. eexists. split; [done|]. unfold photo_of. simpl. split_and!; try done; [lia|].
    by intros id ->.
  - intros Hi. destruct (Hi0 i b Hi) as (ph & ? & ?). exists ph. split; [done|].
    by replace (position + Z.of_nat (S i)) with (position + 1 + Z.of_nat i) by lia.
Qed.

(** The profile an input asks for. *)
Record sent_profile (input : UpdateUserProfileInput) (p : ValidProfile) : Prop := {
  se_name : p_userName p = trim (in_userName input);
  se_intro : p_intro p = trim (in_intro input);
  se_birth : p_birthDate p = in_birthDate input;
  se_region : p_region p = trim (in_region input);
  se_gender : isInterestedGender (trim (in_interestedGender input)) = Some (p_interestedGender p);
  se_photos : p_photoUploadIds p = in_photoUploadIds input
}.

Lemma wp_validateProfileInput `{UuidLib} input w :
  wp (validateProfileInput input) (fun r w' =>
    db w' = db w /\ forall p, r = Ok p -> valid_profile (date_now (tick w)) p /\ sent_profile input p) w.
Proof.
  unfold validateProfileInput, validateRequiredText, validateBirthDate. wp_steps; simpl; (split; [done|]); try done.
  intros ? [= <-].
  repeat match goal with
  | Hx : _ && _ = true |- _ => apply andb_true_iff in Hx as [? ?]
  | Hx : negb _ = true |- _ => apply negb_true_iff in Hx
  | Hx : bool_decide _ = true |- _ => rewrite bool_decide_eq_true in Hx
  | Hx : bool_decide _ = false |- _ => rewrite bool_decide_eq_false in Hx
  | Hx : Nat.leb _ _ = true |- _ => apply Nat.leb_le in Hx
  | Hx : _ <=? _ = true |- _ => apply Z.leb_le in Hx
  end.
  split; [|by split]. split; simpl.
  - split; [|lia]. destruct (trim (in_userName input)); [done|simpl; lia].
  - unfold PROFILE_INTRO_MAX_LENGTH in *. lia.
  - done.
  - eexists. split_and!; [done|done|done].
  - unfold PROFILE_PHOTO_MIN_COUNT, PROFILE_PHOTO_MAX_COUNT in *. lia.
  - by apply nodupb_spec.
Qed.

(** The account's row with the profile [p] completed at [at_]. *)
Definition with_profile (p : ValidProfile) (at_ : Z) (u : User) : User :=
  u <| users.userName := p_userName p |> <| users.birthDate := Some (p_birthDate p) |>
    <| users.region := Some (p_region p) |> <| users.interestedGender := Some (p_interestedGender p) |>
    <| users.intro := p_intro p |> <| users.profileCompletedAt := Some at_ |> <| users.updatedAt := at_ |>.

(** The profile [p] is stored: the account's row shows it and its photos are
    those of [p] in the order of [p], each of them its own; nothing else changed. *)
Record profile_stored (userId : jstr) (p : ValidProfile) (d d' : Db) (out : UserWithPhotos) : Prop := {
  ps_db : exists at_, d' = d <| users ::= mapif (is_user userId) (with_profile p at_) |>
    <| userProfilePhotos ::= fun rows => del (fun r => userProfilePhotos.userId r =?? userId) rows ++ profile_photos out |>;
  ps_user : profile_user out ∈ users d' /\ users.userId (profile_user out) = userId;
  ps_photos : Forall2 (fun id ph => exists a position, photo_of userId a position ph /\ owned_photo d userId id a)
    (p_photoUploadIds p) (profile_photos out);
  ps_order : forall i ph, profile_photos out !! i = Some ph -> userProfilePhotos.position ph = Z.of_nat i
}.

Lemma wp_replaceProfile userId p w :
  wp (replaceProfile userId p) (fun r w' =>
    match r with Ok out => profile_stored userId p (db w) (db w') out | Err _ => db w' = db w end) w.
Proof.
  unfold replaceProfile. do 5 wp_step; [|done]. intros _. do 5 wp_step.
  eapply wp_mono; [apply (wp_addUploads (owned_photo (db w) userId)); [done|]|].
  { intros r url [Hr [[Hu Hs]%andb_true_iff _]%andb_true_iff]%elem_of_sel Hurl. left. exists r.
    rewrite !bool_decide_eq_true in *. by split_and!. }
  intros r1 w1 [-> Hr1]. destruct r1 as [byUpload|e]; [|done].
  wp_step. eapply wp_mono; [apply (wp_addLegacyPhotos (owned_photo (db w) userId)); [by apply Hr1|]|].
  { intros r [Hr [[Hu Hn]%andb_true_iff _]%andb_true_iff]%elem_of_sel. right. exists r.
    rewrite bool_decide_eq_true in Hu. by split_and!. }
  intros r2 w2 [-> Hr2]. destruct r2 as [byId|e]; [|done]. specialize (Hr2 byId eq_refl).
  destruct (mapM _ _) as [ordered|] eqn:Em; [|by wp_step]. do 2 wp_step.
  destruct (head _) as [user|] eqn:Eh; [|by wp_step]. do 3 wp_step.
  eapply wp_mono; [apply wp_insertPhotos|]. intros [photos|e] w3 Hph; [|done]. wp_step.
  destruct (Hph photos eq_refl) as (Ed & Hlen & Hrow). clear Hph. simpl in Eh.
  destruct (sel _ (users (db w))) as [|u us] eqn:Eu; [done|]. simpl in Eh. injection Eh as <-.
  assert (u ∈ users (db w) /\ is_user userId u = true) as [Hin Hu] by (apply elem_of_sel; rewrite Eu; set_solver).
  split; simpl.
  - eexists. rewrite Ed. reflexivity.
  - rewrite Ed. split; [apply elem_of_mapif; exists u; by rewrite Hu|].
    unfold is_user in Hu. by rewrite bool_decide_eq_true in Hu.
  - apply mapM_Some in Em. pose proof (Forall2_length _ _ _ Em). apply Forall2_same_length_lookup.
    split; [lia|]. intros i id ph Hi Hp. destruct (Forall2_lookup_l _ _ _ _ _ Em Hi) as (a & Ha & Hauth).
    destruct (Hrow i a Ha) as (ph' & ? & ?). simplify_eq. eexists a, _. split; [done|by apply Hr2].
  - intros i ph Hi. apply lookup_lt_Some in Hi as Hlt. destruct (lookup_lt_is_Some_2 ordered i ltac:(lia)) as [a Ha].
    destruct (Hrow i a Ha) as (ph' & ? & (_ & _ & _ & Hp & _)). simplify_eq. by rewrite Hp.
Qed.

(** C11: profiles.  An accepted update was sent in a valid form - a name of 1 to
    40 units, an adult's birth date on the day of the request, a known region, one
    to three distinct photos - and is stored as it was sent: the account's row
    shows it, and its photos become those sent, in the order sent, each the user's
    own verified upload or earlier photo; no other row changes.  A refused update
    changes nothing. *)
Theorem profile_update_stores `{UuidLib} userId input w w' r :
  updateProfile userId input w = (w', r) ->
  match r with
  | Ok out => exists p, sent_profile input p /\ valid_profile (date_now (tick w)) p /\
                profile_stored userId p (db w) (db w') out
  | Err _ => db w' = db w
  end.
Proof.
  intros E. to_wp E. unfold updateProfile, validateUuid, findUser, repo_findUser.
  wp_step. wp_step; [intros _|done]. do 3 wp_step.
  destruct (first _ _) as [u|]; [|by wp_step]. do 2 wp_step.
  eapply wp_mono; [apply wp_validateProfileInput|]. intros [p|e] w1 [Ed Hp]; [|done].
  destruct (Hp p eq_refl) as [Hn Hs]. eapply wp_mono; [apply wp_replaceProfile|].
  intros [out|e] w2 Hr; [|congruence]. exists p. by rewrite <- Ed.
Qed.
End theorems.

(** * Witnesses *)

Section witnesses.
#[local] Existing Instance test_env.
#[local] Instance test_uuids : UuidLib := {| isUuid := matchb UUID_PATTERN; uuidVersion _ := 4 |}.

(** Alice's grace period has just ended; a worker may hold a claim on her. *)
Definition leaving_alice (lease : option Z) : Db :=
  test_db <| users := [ (test_user ALICE (js "alice") None)
                          <| users.hiddenAt := Some (to_column T0) |>
                          <| users.deletionScheduledAt := Some (to_column (T0 - 1)) |>
                          <| users.deletionLeaseExpiresAt := to_column <$> lease |>;
                        test_user BOB (js "bob") None ] |>.
Definition alice_job : DeletionJob := mkDeletionJob ALICE (T0 + DELETION_LEASE_MS).
#[local] Abbreviation erase_alice :=
  (anonymizeDeletedAccount alice_job T0 (world_of (leaving_alice (Some (T0 + DELETION_LEASE_MS))))).

Lemma anonymize_erases_account_witness :
  is_ok erase_alice.2 /\
  match erase_alice.2 with
  | Ok _ => (exists u, u ∈ users (leaving_alice (Some (T0 + DELETION_LEASE_MS))) /\ holds_deletion_lease alice_job T0 u = true) /\
            erased (job_userId alice_job) T0 (leaving_alice (Some (T0 + DELETION_LEASE_MS))) (db erase_alice.1) /\
            spares (job_userId alice_job) (leaving_alice (Some (T0 + DELETION_LEASE_MS))) (db erase_alice.1)
  | Err _ => db erase_alice.1 = leaving_alice (Some (T0 + DELETION_LEASE_MS))
  end.
Proof.
  split; [vm_compute; exact I|].
  apply (anonymize_erases_account alice_job T0 (world_of (leaving_alice (Some (T0 + DELETION_LEASE_MS))))
           erase_alice.1 erase_alice.2).
  - intros m Hm. by apply elem_of_nil in Hm.
  - apply surjective_pairing.
Defined.


Lemma test_user_ids : user_ids test_db.
Proof.
  apply NoDup_cons. split; [|apply NoDup_singleton].
  intros Hin. apply list_elem_of_singleton in Hin. discriminate.
Defined.

Lemma account_deletion_requested_witness :
  let alice := test_user ALICE (js "alice") (Some (js "+821012345678")) in
  let deadline := default (to_column (date_now (tick (world_of test_db)) + 14 * msPerDay)) (users.deletionScheduledAt alice) in
  exists w', beginAccountDeletion ALICE (world_of test_db)
             = (w', Ok (mkDeletionPayload true (toISOString (of_column deadline)))) /\
    deletion_requested ALICE alice deadline (db (world_of test_db)) (db w').
Proof.
  cbv zeta.
  apply (account_deletion_requested ALICE (world_of test_db) (test_user ALICE (js "alice") (Some (js "+821012345678")))).
  - vm_compute. reflexivity.
  - apply test_user_ids.
  - apply elem_of_cons. by left.
  - reflexivity.
  - reflexivity.
Defined.

(** Alice changes her mind at once. *)
Definition alice : User := test_user ALICE (js "alice") (Some (js "+821012345678")).
Definition leaving_world : World := (beginAccountDeletion ALICE (world_of test_db)).1.
Lemma restore_within_grace_witness :
  let w3 := (restoreIfWithinGrace ALICE leaving_world).1 in
  (restoreIfWithinGrace ALICE leaving_world).2 = Ok true /\
  exists at_, users (db w3) = mapif (is_user ALICE) (fun _ => alice <| users.updatedAt := at_ |>) (users test_db).
Proof.
  cbv zeta. set (again := restoreIfWithinGrace ALICE leaving_world).
  assert (is_ok (beginAccountDeletion ALICE (world_of test_db)).2) as Hok by (vm_compute; exact I).
  pose proof (run_answer (beginAccountDeletion ALICE) (world_of test_db) (mkDeletionPayload true []) Hok) as E.
  assert (alice ∈ users (db (world_of test_db))) as Hin by (apply elem_of_cons; by left).
  assert (users.userId alice = ALICE) as Hid by reflexivity.
  assert (active_account alice) as Hact by (unfold active_account; by split_and!).
  pose proof (restore_within_grace ALICE alice (world_of test_db) _ _ leaving_world again.1 again.2
    test_user_ids Hin Hid Hact E eq_refl (surjective_pairing again)) as Hr.
  cbv zeta in Hr. destruct (_ <? _) eqn:En; [|vm_compute in En; discriminate].
  destruct Hr as [Hr (at_ & Hu & _)]. split; [exact Hr|]. exists at_. exact Hu.
Defined.

(** Alice, born on a leap day, completes her profile with one photo. *)
Definition test_upload : ProfileUpload :=
  profileUploads.mkProfileUpload (test_uuid 7) ALICE verified (js "staging/7") (Some (js "final/7")) (js "image/jpeg")
    1000 (Some (js "image/jpeg")) (Some 1000) (Some (js "https://cdn/7")) (to_column T0) None None 0 None None None
    None (Some (to_column T0)) (to_column T0) (to_column T0).
Definition test_profile : UpdateUserProfileInput :=
  mkProfileInput (js " 앨리스 ") (js "2000-02-29") (js "서울") (js "everyone") (js "안녕하세요") [test_uuid 7].
Definition photo_world : World := world_of (test_db <| profileUploads := [test_upload] |>).
Lemma profile_update_stores_witness :
  is_ok (updateProfile ALICE test_profile photo_world).2 /\
  match (updateProfile ALICE test_profile photo_world).2 with
  | Ok out => exists p, sent_profile test_profile p /\ valid_profile (date_now 0) p /\
                profile_stored ALICE p (db photo_world) (db (updateProfile ALICE test_profile photo_world).1) out
  | Err _ => db (updateProfile ALICE test_profile photo_world).1 = db photo_world
  end.
Proof.
  split; [vm_compute; exact I|].
  apply (profile_update_stores ALICE test_profile photo_world).
  apply surjective_pairing.
Defined.
End witnesses.
