(* ===== verification/AuthInput.v ===== *)
(** The untrusted input of the auth module: credentials (auth-input.ts), token
    claims (token-claims.ts), the device id (device-id.ts), the bearer token
    (refresh-token.strategy.ts) and the Kakao profile (auth.service.ts). *)
From S2P Require Import Prelude JsString Json Libraries Schema World.
Local Open Scope Z_scope.

(** * auth.error.ts *)

Definition AuthRequired : jstr := js "로그인 필요합니다.".
Definition InvalidPhoneVerificationToken : jstr := js "phoneVerificationToken이 잘못되었습니다.".
Definition InvalidKakaoPhoneVerificationToken : jstr := js "kakaoPhoneVerificationToken이 잘못되었습니다.".
Definition AuthInvalidGender : jstr := js "성별이 잘못되었습니다.".
Definition AuthPhoneVerificationRequired : jstr := js "전화번호 인증이 필요합니다.".
Definition DuplicateUser : jstr := js "이미 가입된 이메일 또는 전화번호입니다.".
Definition TermsNotAccepted : jstr := js "필수 약관 동의가 필요합니다.".
Definition InvalidEmail : jstr := js "이메일 형식이 잘못되었습니다.".
Definition InvalidUserName : jstr := js "사용자 이름이 잘못되었습니다.".
Definition InvalidPassword : jstr := js "비밀번호 형식이 잘못되었습니다.".
Definition RefreshTokenUndefined : jstr := js "refresh token is undefined".
Definition RefreshTokenWrong : jstr := js "refresh token is wrong".
Definition RefreshTokenExpUndefined : jstr := js "refresh token exp is undefined".

(** * auth-input.ts *)

Definition EMAIL_MAX_LENGTH : nat := 255.
Definition USER_NAME_MAX_LENGTH : nat := 40.
Definition PASSWORD_MIN_BYTES : Z := 8.
Definition BCRYPT_PASSWORD_MAX_BYTES : Z := 72.

(** [/^[^\s@.]+(?:\.[^\s@.]+)*@[^\s@.]+(?:\.[^\s@.]+)+$/u], over code points. *)
Definition email_char (c : N) : bool := negb (is_space c) && negb (c =? 64)%N && negb (c =? 46)%N.
Definition EMAIL_PATTERN : regex :=
  let atom := RPlus (RCls email_char) in
  let dot_atom := RCat (RChr 46%N) atom in
  RCat atom (RCat (RStar dot_atom) (RCat (RChr 64%N) (RCat atom (RPlus dot_atom)))).

Definition isValidEmail (email : jstr) : bool :=
  matchb EMAIL_PATTERN (code_points email) && Nat.leb (length (code_points email)) EMAIL_MAX_LENGTH.

Definition normalizeEmail (input : jstr) : M jstr :=
  let email := trim input in
  require (isValidEmail email) CustomBadRequestException InvalidEmail ;;
  mret email.

Definition normalizeOptionalEmail (input : option jstr) : option jstr :=
  match input with
  | None => None
  | Some s => let email := trim s in if isValidEmail email then Some email else None
  end.

Definition normalizeUserName (input : jstr) : M jstr :=
  let userName := trim input in
  require (negb (userName =?? []) && Nat.leb (length (code_points userName)) USER_NAME_MAX_LENGTH)
    CustomBadRequestException InvalidUserName ;;
  mret userName.

Definition normalizeOptionalUserName (input : option jstr) : option jstr :=
  match trim <$> input with
  | None | Some [] => None
  | Some userName => Some (of_code_points (take USER_NAME_MAX_LENGTH (code_points userName)))
  end.

Definition validatePassword (input : jstr) : M jstr :=
  let n := byteLength input in
  require ((PASSWORD_MIN_BYTES <=? n) && (n <=? BCRYPT_PASSWORD_MAX_BYTES))
    CustomBadRequestException InvalidPassword ;;
  mret input.

Definition normalizeSigninEmail (input : jstr) : M jstr :=
  let email := trim input in
  require (negb (email =?? []) && Nat.leb (length (code_points email)) EMAIL_MAX_LENGTH)
    CustomUnauthorizedException AuthRequired ;;
  mret email.

(** * token-claims.ts *)

Definition AUTH_TOKEN_ISSUER : jstr := js "chattea-api".
Definition AUTH_TOKEN_AUDIENCE : jstr := js "chattea-mobile".

(** A field that is a non-empty string. *)
Definition claim (key : jstr) (fields : list (jstr * json)) : option jstr :=
  match member key fields with
  | JString (u :: s) => Some (u :: s)
  | _ => None
  end.

(** [isAccessTokenClaims] and [isRefreshTokenClaims], with the claims they
    narrow to; an array is no record. *)
Definition isAccessTokenClaims (value : json) : option jstr :=
  match value with
  | JObject fields =>
      if claim (js "tokenType") fields =?? Some (js "access") then claim (js "userId") fields else None
  | _ => None
  end.

Record RefreshTokenClaims := mkRefreshClaims { rc_userId : jstr; rc_deviceId : jstr }.
Definition isRefreshTokenClaims (value : json) : option RefreshTokenClaims :=
  match value with
  | JObject fields =>
      if claim (js "tokenType") fields =?? Some (js "refresh") then
        match claim (js "userId") fields, claim (js "deviceId") fields with
        | Some userId, Some deviceId => Some (mkRefreshClaims userId deviceId)
        | _, _ => None
        end
      else None
  | _ => None
  end.

(** * device-id.ts and the bearer token *)

(** A request header: missing, one value, or several. *)
Inductive HeaderValue := HeaderMissing | HeaderText (s : jstr) | HeaderList (l : list jstr).

Definition deviceIdFromRequest `{UuidLib} (header : HeaderValue) : M jstr :=
  let deviceId := if header is HeaderText s then trim s else [] in
  require (isUuid deviceId && (uuidVersion deviceId =? 4)) CustomUnauthorizedException AuthRequired ;;
  mret deviceId.

(** [/^Bearer\s+(\S+)$/i] and its group: what follows the spaces. *)
Definition letter (u : N) : regex := RCls (fun v => (v =? u)%N || (v =? u - 32)%N).
Definition BEARER_PATTERN : regex :=
  RCat (RCat (letter 98) (RCat (letter 101) (RCat (letter 97) (RCat (letter 114) (RCat (letter 101) (letter 114))))))
    (RCat (RPlus (RCls is_space)) (RPlus (RCls (fun u => negb (is_space u))))).

Definition refreshTokenFromRequest (authorization : HeaderValue) (cookie : option jstr) : option jstr :=
  match authorization with
  | HeaderText s =>
      let s := trim s in
      if matchb BEARER_PATTERN s then Some (trimStart (drop 6 s)) else cookie
  | _ => cookie
  end.

(** * The Kakao profile *)

Record KakaoProfile := mkKakaoProfile {
  k_providerUserId : jstr;
  k_email : option jstr;
  k_userName : option jstr
}.

(** The profile endpoint of Kakao as [fetch] sees it, and the text of a number
    that is no safe integer, which [Number.prototype.toString] may write in
    scientific notation. *)
Inductive KakaoResponse :=
| FetchFailed
| Responded (ok : bool) (body : option json).
Class KakaoApi := {
  kakao_me : nat -> jstr -> KakaoResponse;
  other_number_text : spec_float -> jstr
}.

Section kakao.
Context `{Env} `{KakaoApi}.

Definition number_text (f : spec_float) : jstr :=
  match float_integer f with
  | Some z =>
      if isSafeInteger z
      then (if z <? 0 then js "-" else []) ++ number_to_string (Z.abs_N z)
      else other_number_text f
  | None => other_number_text f
  end.

(** [String(value.id)] for a string or a number, [None] for anything else. *)
Definition provider_id (value : json) : option jstr :=
  match value with
  | JString s => Some s
  | JNumber f => Some (number_text f)
  | _ => None
  end.

Definition string_field (key : jstr) (value : option json) : option jstr :=
  match value with
  | Some v =>
      match object_fields v with
      | Some fields => if property key fields is Some (JString s) then Some s else None
      | None => None
      end
  | None => None
  end.

(** The profile in a response body. *)
Definition parseKakaoProfile (value : json) : option KakaoProfile :=
  match object_fields value with
  | Some fields =>
      match default None (provider_id <$> property (js "id") fields) with
      | Some (u :: s) =>
          Some (mkKakaoProfile (u :: s)
                  (string_field (js "email") (property (js "kakao_account") fields))
                  (normalizeOptionalUserName (string_field (js "nickname") (property (js "properties") fields))))
      | _ => None
      end
  | None => None
  end.

Definition getKakaoProfile (accessToken : jstr) : M KakaoProfile :=
  require (negb (trim accessToken =?? [])) CustomUnauthorizedException AuthRequired ;;
  response ← oracle (fun n => kakao_me n accessToken);
  match response with
  | Responded true (Some value) =>
      match parseKakaoProfile value with
      | Some profile => mret profile
      | None => throw CustomUnauthorizedException AuthRequired
      end
  | _ => throw CustomUnauthorizedException AuthRequired
  end.
End kakao.
