(* ===== verification/Auth.v ===== *)
(** Sessions and sign-up: the token tables (auth.repository.ts), sign-up, sign-in,
    Kakao, refresh rotation and logout (auth.service.ts), and the checks of the
    access and refresh strategies (strategys/). *)
From S2P Require Import Prelude JsString JsDate Json Libraries Schema World Constraints User AuthInput.
Local Open Scope Z_scope.

(** * Data *)

Record SignupAuthInput := mkSignup {
  su_email : jstr; su_password : jstr; su_userName : jstr; su_gender : Gender;
  su_phoneVerificationToken : jstr; su_termsAccepted : bool
}.
Record SigninAuthInput := mkSignin {
  si_email : jstr; si_password : jstr; si_phoneVerificationToken : jstr
}.
(** The row a sign-up creates. *)
Record NewUser := mkNewUser {
  nu_userId : jstr; nu_email : jstr; nu_password : jstr; nu_userName : jstr; nu_gender : Gender
}.
Record KakaoSignupInput := mkKakaoSignup {
  ks_phoneVerificationToken : option jstr; ks_kakaoPhoneVerificationToken : jstr; ks_userName : jstr;
  ks_gender : option Gender; ks_termsAccepted : bool
}.
Record TokenPayload := mkTokens { accessToken : jstr; refreshToken : jstr }.
Record RefreshState := mkRefreshState { rs_refreshToken : jstr; rs_refreshTokenExp : Z }.

(** The [code] property of what a failed statement rejects with: the SQLSTATE
    when the driver's error comes through, nothing when the query layer wraps it. *)
Class QueryErrors := { error_code : Exn -> option jstr }.

(** [if (s)] on an optional string: the empty string is false. *)
Definition truthy (s : option jstr) : option jstr := if s is Some (_ :: _) then s else None.

(** * The repository *)

Section repository.
Context `{Env}.

Definition hashToken (token : jstr) : jstr := sha256_hex token.

(** The WHERE clause of every use of a phone token, and its [update]. *)
Definition usable_phone_token (token : jstr) (now : Z) (r : PhoneVerificationToken) : bool :=
  (phoneVerificationTokens.tokenHash r =?? hashToken token)
  && is_null (phoneVerificationTokens.usedAt r)
  && (to_column now <? phoneVerificationTokens.expiresAt r).
Definition consumePhoneVerificationToken (token : jstr) : M (option PhoneVerificationToken) :=
  usedAt ← Date_now;
  now ← Date_now;
  rows ← update phoneVerificationTokens (usable_phone_token token now)
    (fun r => r <| phoneVerificationTokens.usedAt := Some (to_column usedAt) |>);
  mret (head rows).
Definition findPhoneVerificationToken (token : jstr) : M (option PhoneVerificationToken) :=
  now ← Date_now;
  findFirst phoneVerificationTokens (usable_phone_token token now).

Definition usable_kakao_token (token : jstr) (now : Z) (r : KakaoPhoneVerificationToken) : bool :=
  (kakaoPhoneVerificationTokens.tokenHash r =?? hashToken token)
  && is_null (kakaoPhoneVerificationTokens.usedAt r)
  && (to_column now <? kakaoPhoneVerificationTokens.expiresAt r).
Definition consumeKakaoPhoneVerificationToken (token : jstr) : M (option KakaoPhoneVerificationToken) :=
  usedAt ← Date_now;
  now ← Date_now;
  rows ← update kakaoPhoneVerificationTokens (usable_kakao_token token now)
    (fun r => r <| kakaoPhoneVerificationTokens.usedAt := Some (to_column usedAt) |>);
  mret (head rows).
Definition findKakaoPhoneVerificationToken (token : jstr) : M (option KakaoPhoneVerificationToken) :=
  now ← Date_now;
  findFirst kakaoPhoneVerificationTokens (usable_kakao_token token now).

(** [insert(users).values({...}).returning()] *)
Definition insertUser (u : NewUser) (phone : option jstr) : M User :=
  now ← clock_timestamp;
  insert users
    (users.mkUser (nu_userId u) (nu_email u) phone (nu_password u) (nu_userName u) (nu_gender u) []
       None None None None None None None 0 None now now).
(** [insert(authIdentities).values({ userId, provider: "kakao", providerUserId })] *)
Definition insertKakaoIdentity (userId providerUserId : jstr) : M unit :=
  id ← randomUUID;
  createdAt ← clock_timestamp;
  insert authIdentities
    (authIdentities.mkAuthIdentity id userId (js "kakao") providerUserId createdAt) ;;
  mret tt.

Definition signupWithPhoneVerificationToken (input : NewUser) (token : jstr) : M (option User) :=
  transaction (
    phoneVerificationToken ← consumePhoneVerificationToken token;
    match phoneVerificationToken with
    | None => mret None
    | Some t => user ← insertUser input (Some (phoneVerificationTokens.phoneE164 t)); mret (Some user)
    end).

Definition findUserByEmail (email : jstr) : M (option User) :=
  findFirst users (fun u => users.email u =?? email).

Definition is_session (userId deviceId : jstr) (r : RefreshToken) : bool :=
  (refreshTokens.userId r =?? userId) && (refreshTokens.deviceId r =?? deviceId).
Definition saveRefreshToken (userId deviceId : jstr) (state : RefreshState) : M unit :=
  updatedAt ← Date_now;
  id ← randomUUID;
  createdAt ← clock_timestamp;
  insertOrUpdate refreshTokens
    (fun a b => is_session (refreshTokens.userId a) (refreshTokens.deviceId a) b)
    (fun r => r <| refreshTokens.refreshToken := rs_refreshToken state |>
                <| refreshTokens.refreshTokenExp := to_column (rs_refreshTokenExp state) |>
                <| refreshTokens.updatedAt := to_column updatedAt |>)
    (fun _ => true)
    (refreshTokens.mkRefreshToken id userId deviceId (rs_refreshToken state)
       (to_column (rs_refreshTokenExp state)) createdAt createdAt) ;;
  mret tt.

Definition rotateRefreshToken (userId deviceId expectedRefreshToken : jstr) (state : RefreshState) : M bool :=
  transaction (
    user ← select users (is_user userId);
    match head user with
    | None => mret false
    | Some _ =>
        updatedAt ← Date_now;
        now ← Date_now;
        rotated ← update refreshTokens
          (fun r => is_session userId deviceId r && (refreshTokens.refreshToken r =?? expectedRefreshToken)
                    && (to_column now <? refreshTokens.refreshTokenExp r))
          (fun r => r <| refreshTokens.refreshToken := rs_refreshToken state |>
                      <| refreshTokens.refreshTokenExp := to_column (rs_refreshTokenExp state) |>
                      <| refreshTokens.updatedAt := to_column updatedAt |>);
        mret (negb (is_null (head rotated)))
    end).

Definition findRefreshToken (userId deviceId : jstr) : M (option RefreshToken) :=
  findFirst refreshTokens (is_session userId deviceId).
Definition deleteRefreshToken (userId deviceId : jstr) : M unit :=
  delete_from refreshTokens (is_session userId deviceId).

Definition findUserByIdentity (provider providerUserId : jstr) : M (option User) :=
  identity ← findFirst authIdentities
    (fun r => (authIdentities.provider r =?? provider) && (authIdentities.providerUserId r =?? providerUserId));
  match identity with
  | None => mret None
  | Some i => repo_findUser (authIdentities.userId i)
  end.

Definition insertKakaoPhoneVerificationToken (token : jstr) (userId : option jstr) (providerUserId : jstr)
    (email : option jstr) (expiresAt : Z) : M unit :=
  createdAt ← clock_timestamp;
  insert kakaoPhoneVerificationTokens
    (kakaoPhoneVerificationTokens.mkKakaoPhoneVerificationToken (hashToken token) userId providerUserId
       email (to_column expiresAt) None createdAt) ;;
  mret tt.

Definition attachPhone (userId phone : jstr) : M (option User) :=
  updatedAt ← Date_now;
  rows ← updateChecked users (is_user userId)
    (fun u => u <| users.phone := Some phone |> <| users.updatedAt := to_column updatedAt |>);
  mret (head rows).

(** Both tokens are used up, or neither is. *)
Definition consumeBothTokens (phoneToken kakaoToken : jstr) : M unit :=
  phone ← consumePhoneVerificationToken phoneToken;
  kakao ← consumeKakaoPhoneVerificationToken kakaoToken;
  require (negb (is_null phone)) PhoneVerificationTokenConsumeFailedError [] ;;
  require (negb (is_null kakao)) KakaoPhoneVerificationTokenConsumeFailedError [].

Definition attachPhoneWithKakaoPhoneVerificationTokens (userId phone phoneToken kakaoToken : jstr)
    : M (option User) :=
  transaction (consumeBothTokens phoneToken kakaoToken ;; attachPhone userId phone).

Definition consumeKakaoPhoneVerificationTokenForUser (userId token : jstr) : M (option User) :=
  transaction (
    kakaoToken ← consumeKakaoPhoneVerificationToken token;
    require (negb (is_null kakaoToken)) KakaoPhoneVerificationTokenConsumeFailedError [] ;;
    repo_findUser userId).

Definition createKakaoUserWithToken (input : NewUser) (providerUserId token : jstr) : M User :=
  transaction (
    kakaoToken ← consumeKakaoPhoneVerificationToken token;
    require (negb (is_null kakaoToken)) KakaoPhoneVerificationTokenConsumeFailedError [] ;;
    user ← insertUser input None;
    insertKakaoIdentity (nu_userId input) providerUserId ;;
    mret user).

(** [input.email.split("@")[0] || "kakao"] is the name here. *)
Definition createKakaoPhoneUser (input : NewUser) (providerUserId phone : jstr) : M User :=
  transaction (
    let userName := if before 64%N (nu_email input) is [] then js "kakao" else before 64%N (nu_email input) in
    user ← insertUser (mkNewUser (nu_userId input) (nu_email input) (nu_password input) userName (nu_gender input))
             (Some phone);
    insertKakaoIdentity (nu_userId input) providerUserId ;;
    mret user).

Definition createKakaoPhoneUserWithTokens (input : NewUser) (providerUserId phone phoneToken kakaoToken : jstr)
    : M User :=
  transaction (
    consumeBothTokens phoneToken kakaoToken ;;
    user ← insertUser input (Some phone);
    insertKakaoIdentity (nu_userId input) providerUserId ;;
    mret user).
End repository.

(** * The service *)

Section service.
Context `{Env} `{ConfigService} `{JwtService} `{QueryErrors}.

Definition isUniqueViolation (e : Exn) : bool := error_code e =?? Some (js "23505").

Definition mapDuplicateUserError {A} (operation : M A) : M A :=
  try_catch operation (fun e =>
    if isUniqueViolation e then throw CustomBadRequestException DuplicateUser else raise e).

Definition mapTokenConsumeError {A} (operation : M A) : M A :=
  try_catch operation (fun e =>
    match exn_class e with
    | PhoneVerificationTokenConsumeFailedError =>
        throw CustomUnauthorizedException InvalidPhoneVerificationToken
    | KakaoPhoneVerificationTokenConsumeFailedError =>
        throw CustomUnauthorizedException InvalidKakaoPhoneVerificationToken
    | _ => raise e
    end).

(** [configService.getOrThrow] *)
Definition getOrThrow {A} (value : option A) : M A :=
  match value with Some v => mret v | None => throw PlainError (js "Configuration key does not exist") end.

Definition signAsync (claims : JwtClaims) (options : JwtOptions) : M jstr :=
  now ← Date_now;
  match jwt_sign now claims options with
  | Some token => mret token
  | None => throw PlainError (js "JsonWebTokenError")
  end.

Definition createAccessToken (user : User) : M jstr :=
  secret ← getOrThrow (config_string (js "JWT_ACCESS_TOKEN_SECRET"));
  expiresIn ← getOrThrow (config_number (js "JWT_ACCESS_TOKEN_EXP"));
  signAsync (AccessClaims (users.userId user))
    (mkJwtOptions (Some AUTH_TOKEN_AUDIENCE) (Some AUTH_TOKEN_ISSUER) secret expiresIn).

Definition createRefreshToken (user : User) (deviceId : jstr) : M jstr :=
  secret ← getOrThrow (config_string (js "JWT_REFRESH_TOKEN_SECRET"));
  expiresIn ← getOrThrow (config_number (js "JWT_REFRESH_TOKEN_EXP"));
  signAsync (RefreshClaims (users.userId user) deviceId)
    (mkJwtOptions (Some AUTH_TOKEN_AUDIENCE) (Some AUTH_TOKEN_ISSUER) secret expiresIn).

Definition prepareRefreshToken (refreshToken : jstr) : M RefreshState :=
  match jwt_exp refreshToken with
  | None | Some 0 => throw CustomUnauthorizedException RefreshTokenExpUndefined
  | Some exp =>
      hash ← bcryptHash refreshToken;
      mret (mkRefreshState hash (exp * 1000))
  end.

Definition issueTokens (user : User) (deviceId : jstr) : M TokenPayload :=
  accessToken ← createAccessToken user;
  refreshToken ← createRefreshToken user deviceId;
  state ← prepareRefreshToken refreshToken;
  saveRefreshToken (users.userId user) deviceId state ;;
  mret (mkTokens accessToken refreshToken).

Definition requirePhoneVerificationToken (token : jstr) : M PhoneVerificationToken :=
  phoneVerificationToken ← findPhoneVerificationToken token;
  match phoneVerificationToken with
  | None => throw CustomUnauthorizedException InvalidPhoneVerificationToken
  | Some t => mret t
  end.

Definition signup (input : SignupAuthInput) (deviceId : jstr) : M TokenPayload :=
  require (su_termsAccepted input) CustomBadRequestException TermsNotAccepted ;;
  email ← normalizeEmail (su_email input);
  userName ← normalizeUserName (su_userName input);
  password ← validatePassword (su_password input);
  requirePhoneVerificationToken (su_phoneVerificationToken input) ;;
  userId ← randomUUID;
  hash ← bcryptHash password;
  user ← mapDuplicateUserError
    (signupWithPhoneVerificationToken (mkNewUser userId email hash userName (su_gender input))
       (su_phoneVerificationToken input));
  match user with
  | None => throw CustomUnauthorizedException InvalidPhoneVerificationToken
  | Some u => issueTokens u deviceId
  end.

Definition signin (input : SigninAuthInput) (deviceId : jstr) : M TokenPayload :=
  email ← normalizeSigninEmail (si_email input);
  byEmail ← findUserByEmail email;
  user ← (if is_null byEmail && negb (email =?? si_email input) then findUserByEmail (si_email input)
          else mret byEmail);
  match user with
  | None => throw CustomUnauthorizedException AuthRequired
  | Some u =>
      require (bcrypt_compare (si_password input) (users.password u)) CustomUnauthorizedException AuthRequired ;;
      phoneVerificationToken ← requirePhoneVerificationToken (si_phoneVerificationToken input);
      require (users.phone u =?? Some (phoneVerificationTokens.phoneE164 phoneVerificationToken))
        CustomUnauthorizedException AuthPhoneVerificationRequired ;;
      consumed ← consumePhoneVerificationToken (si_phoneVerificationToken input);
      require (negb (is_null consumed)) CustomUnauthorizedException InvalidPhoneVerificationToken ;;
      restoreIfWithinGrace (users.userId u) ;;
      issueTokens u deviceId
  end.

Definition createKakaoPhoneVerificationToken (profile : KakaoProfile) (userId : option jstr) : M jstr :=
  secret ← getOrThrow (config_string (js "KAKAO_SIGNUP_TOKEN_SECRET"));
  token ← signAsync (KakaoClaims (k_providerUserId profile)) (mkJwtOptions None None secret (15 * 60));
  now ← Date_now;
  insertKakaoPhoneVerificationToken token userId (k_providerUserId profile)
    (normalizeOptionalEmail (k_email profile)) (now + 15 * 60 * 1000) ;;
  mret token.

Definition loginWithKakao (profile : KakaoProfile) : M jstr :=
  foundUser ← findUserByIdentity (js "kakao") (k_providerUserId profile);
  createKakaoPhoneVerificationToken profile (users.userId <$> foundUser).

Inductive KakaoLogin :=
| KakaoLoginSuccess (session : TokenPayload)
| KakaoRequiresPhone (kakaoPhoneVerificationToken : jstr) (userName : option jstr).

Definition loginWithKakaoAccessToken `{KakaoApi} (accessToken deviceId : jstr) : M KakaoLogin :=
  profile ← getKakaoProfile accessToken;
  foundUser ← findUserByIdentity (js "kakao") (k_providerUserId profile);
  match foundUser, truthy (foundUser ≫= users.phone) with
  | Some u, Some _ =>
      restoreIfWithinGrace (users.userId u) ;;
      session ← issueTokens u deviceId;
      mret (KakaoLoginSuccess session)
  | _, _ =>
      token ← createKakaoPhoneVerificationToken profile (users.userId <$> foundUser);
      mret (KakaoRequiresPhone token
              (if truthy (users.userName <$> foundUser) is Some name then Some name
               else truthy (k_userName profile)))
  end.

(** The account of a Kakao identity seen for the first time. *)
Definition newKakaoUser (input : KakaoSignupInput) (kakaoToken : KakaoPhoneVerificationToken) : M NewUser :=
  match ks_gender input with
  | None => throw CustomBadRequestException AuthInvalidGender
  | Some gender =>
      email ← normalizeEmail (default
        (js "kakao_" ++ take 32 (hashToken (kakaoPhoneVerificationTokens.providerUserId kakaoToken))
           ++ js "@kakao.local")
        (kakaoPhoneVerificationTokens.email kakaoToken));
      userName ← normalizeUserName (ks_userName input);
      userId ← randomUUID;
      secret ← randomUUID;
      password ← bcryptHash secret;
      mret (mkNewUser userId email password userName gender)
  end.

(** The branch without a phone token. *)
Definition completeKakaoWithoutPhone (input : KakaoSignupInput) (deviceId : jstr) : M TokenPayload :=
  let token := ks_kakaoPhoneVerificationToken input in
  found ← findKakaoPhoneVerificationToken token;
  match found with
  | None => throw CustomUnauthorizedException InvalidKakaoPhoneVerificationToken
  | Some kakaoToken =>
      match truthy (kakaoPhoneVerificationTokens.userId kakaoToken) with
      | Some userId =>
          user ← mapTokenConsumeError (consumeKakaoPhoneVerificationTokenForUser userId token);
          match user with
          | None => throw CustomUnauthorizedException InvalidKakaoPhoneVerificationToken
          | Some u => restoreIfWithinGrace (users.userId u) ;; issueTokens u deviceId
          end
      | None =>
          new ← newKakaoUser input kakaoToken;
          createdUser ← mapDuplicateUserError (mapTokenConsumeError
            (createKakaoUserWithToken new (kakaoPhoneVerificationTokens.providerUserId kakaoToken) token));
          issueTokens createdUser deviceId
      end
  end.

(** The branch with a phone token. *)
Definition completeKakaoWithPhone (input : KakaoSignupInput) (phoneToken deviceId : jstr) : M TokenPayload :=
  let token := ks_kakaoPhoneVerificationToken input in
  phoneVerificationToken ← requirePhoneVerificationToken phoneToken;
  found ← findKakaoPhoneVerificationToken token;
  let phone := phoneVerificationTokens.phoneE164 phoneVerificationToken in
  match found with
  | None => throw CustomUnauthorizedException InvalidKakaoPhoneVerificationToken
  | Some kakaoToken =>
      match truthy (kakaoPhoneVerificationTokens.userId kakaoToken) with
      | Some userId =>
          user ← repo_findUser userId;
          match user with
          | None => throw CustomUnauthorizedException InvalidKakaoPhoneVerificationToken
          | Some u =>
              require (if truthy (users.phone u) is Some p then p =?? phone else true)
                CustomUnauthorizedException AuthPhoneVerificationRequired ;;
              updatedUser ← mapDuplicateUserError (mapTokenConsumeError
                (attachPhoneWithKakaoPhoneVerificationTokens (users.userId u) phone phoneToken token));
              match updatedUser with
              | None => throw CustomUnauthorizedException InvalidKakaoPhoneVerificationToken
              | Some u' => restoreIfWithinGrace (users.userId u') ;; issueTokens u' deviceId
              end
          end
      | None =>
          new ← newKakaoUser input kakaoToken;
          user ← mapDuplicateUserError (mapTokenConsumeError
            (createKakaoPhoneUserWithTokens new (kakaoPhoneVerificationTokens.providerUserId kakaoToken)
               phone phoneToken token));
          issueTokens user deviceId
      end
  end.

Definition completeKakaoPhoneSignup (input : KakaoSignupInput) (deviceId : jstr) : M TokenPayload :=
  require (ks_termsAccepted input) CustomBadRequestException TermsNotAccepted ;;
  match truthy (ks_phoneVerificationToken input) with
  | None => completeKakaoWithoutPhone input deviceId
  | Some phoneToken => completeKakaoWithPhone input phoneToken deviceId
  end.

Definition refresh (validatedRefreshToken : RefreshToken) : M TokenPayload :=
  let userId := refreshTokens.userId validatedRefreshToken in
  let deviceId := refreshTokens.deviceId validatedRefreshToken in
  user ← findUser userId;
  accessToken ← createAccessToken user;
  nextRefreshToken ← createRefreshToken user deviceId;
  nextRefreshState ← prepareRefreshToken nextRefreshToken;
  rotated ← rotateRefreshToken userId deviceId (refreshTokens.refreshToken validatedRefreshToken) nextRefreshState;
  require rotated CustomUnauthorizedException AuthRequired ;;
  mret (mkTokens accessToken nextRefreshToken).

Definition logout (userId deviceId : jstr) : M bool :=
  deleteRefreshToken userId deviceId ;; mret true.

Definition validateUserRefreshToken (userId deviceId refreshToken : jstr) : M (option RefreshToken) :=
  savedToken ← findRefreshToken userId deviceId;
  match savedToken with
  | None => mret None
  | Some t =>
      now ← Date_now;
      if of_column (refreshTokens.refreshTokenExp t) <=? now then mret None
      else if negb (bcrypt_compare refreshToken (refreshTokens.refreshToken t)) then mret None
      else mret (Some t)
  end.

(** * The strategies: what passport calls with the payload of a verified token *)

Definition accessTokenValidate (payload : json) : M jstr :=
  match isAccessTokenClaims payload with
  | None => throw UnauthorizedException []
  | Some userId =>
      user ← repo_findUser userId;
      match user with
      | None => throw UnauthorizedException []
      | Some u =>
          require (is_null (users.hiddenAt u) && is_null (users.deletedAt u)) UnauthorizedException [] ;;
          mret userId
      end
  end.

Definition refreshTokenValidate (authorization : HeaderValue) (cookie : option jstr) (payload : json)
    : M (RefreshTokenClaims * RefreshToken) :=
  match truthy (refreshTokenFromRequest authorization cookie), isRefreshTokenClaims payload with
  | Some refreshToken, Some claims =>
      validated ← validateUserRefreshToken (rc_userId claims) (rc_deviceId claims) refreshToken;
      match validated with
      | None => throw CustomUnauthorizedException RefreshTokenWrong
      | Some t => mret (claims, t)
      end
  | _, _ => throw CustomUnauthorizedException RefreshTokenUndefined
  end.
End service.
