(* ===== verification/AuthProofs.v ===== *)
(** Sessions and sign-up: a phone or Kakao token opens one door once, sign-up is
    all or nothing, a refresh token is replaced at every use, a deletion request
    ends the account's sessions, and what counts as a well-formed credential. *)
From S2P Require Import Prelude JsString JsDate Json Libraries Schema World Constraints User UserProofs AuthInput Auth NotificationApi Fixtures.
Local Open Scope Z_scope.

Section theorems.
Context `{Env} `{ConfigService} `{JwtService} `{QueryErrors}.

(** * Sessions *)

(** Only the sessions differ. *)
Definition only_sessions (d d' : Db) : Prop := d' = d <| refreshTokens := refreshTokens d' |>.

Lemma only_sessions_refl d : only_sessions d d.
Proof. by destruct d. Qed.
Lemma only_sessions_upd f d : only_sessions d (upd refreshTokens f d).
Proof. by destruct d. Qed.
#[local] Hint Resolve only_sessions_refl only_sessions_upd : core.

(** The device's session holds a hash of [token] and its expiry. *)
Definition stored_session (userId deviceId token : jstr) (r : RefreshToken) : Prop :=
  is_session userId deviceId r = true /\
  (exists n, refreshTokens.refreshToken r = bcrypt_hash n token) /\
  (exists exp, jwt_exp token = Some exp /\ refreshTokens.refreshTokenExp r = to_column (exp * 1000)).
Definition has_session (userId deviceId token : jstr) (d : Db) : Prop :=
  exists r, r ∈ refreshTokens d /\ stored_session userId deviceId token r.

Lemma wp_signAsync claims options w :
  wp (signAsync claims options) (fun r w' => db w' = db w /\ effects w' = effects w) w.
Proof. unfold signAsync. by wp_steps. Qed.
Lemma wp_createToken_frame claims secret expiresIn w :
  wp (s ← getOrThrow secret; e ← getOrThrow expiresIn;
      signAsync claims (mkJwtOptions (Some AUTH_TOKEN_AUDIENCE) (Some AUTH_TOKEN_ISSUER) s e))
     (fun r w' => db w' = db w) w.
Proof.
  unfold getOrThrow. wp_steps; try done. eapply wp_mono; [apply wp_signAsync|]. by intros ? ? [? _].
Qed.

Lemma wp_prepareRefreshToken token w :
  wp (prepareRefreshToken token) (fun r w' => db w' = db w /\
    forall s, r = Ok s -> exists n exp, rs_refreshToken s = bcrypt_hash n token /\ jwt_exp token = Some exp /\
      rs_refreshTokenExp s = exp * 1000) w.
Proof.
  unfold prepareRefreshToken. destruct (jwt_exp token) as [[|p|p]|] eqn:E; wp_steps; (split; [done|]); try done.
  - intros ? [= <-]. by exists (tick w), (Z.pos p).
  - intros ? [= <-]. by exists (tick w), (Z.neg p).
Qed.

Lemma wp_saveRefreshToken userId deviceId state w :
  wp (saveRefreshToken userId deviceId state) (fun r w' =>
    match r with
    | Ok _ => only_sessions (db w) (db w') /\ exists r, r ∈ refreshTokens (db w') /\ is_session userId deviceId r = true /\
        refreshTokens.refreshToken r = rs_refreshToken state /\
        refreshTokens.refreshTokenExp r = to_column (rs_refreshTokenExp state)
    | Err _ => db w' = db w
    end) w.
Proof.
  unfold saveRefreshToken. do 8 wp_step.
  - intros Hex. wp_step. split; [done|]. simpl.
    apply existsb_true in Hex as (r & Hr & Hs). simpl in Hs.
    eexists. split; [apply elem_of_mapif; exists r; split; [done|reflexivity]|].
    simpl. rewrite andb_true_r, Hs. done.
  - intros Hex. wp_steps; try done. split; [done|]. simpl. eexists. split; [apply elem_of_app; right; by left|].
    split_and!; try done. unfold is_session. simpl. by rewrite !eqb_refl_true.
Qed.

Lemma wp_issueTokens u deviceId w :
  wp (issueTokens u deviceId) (fun r w' =>
    match r with
    | Ok p => only_sessions (db w) (db w') /\ has_session (users.userId u) deviceId (refreshToken p) (db w')
    | Err _ => db w' = db w
    end) w.
Proof.
  unfold issueTokens, createAccessToken, createRefreshToken. wp_step.
  eapply wp_mono; [apply wp_createToken_frame|]. intros [a|e] w1 E1; [|done]. wp_step.
  eapply wp_mono; [apply wp_createToken_frame|]. intros [t|e] w2 E2; [|congruence]. wp_step.
  eapply wp_mono; [apply wp_prepareRefreshToken|]. intros [s|e] w3 [E3 Hs]; [|congruence].
  destruct (Hs s eq_refl) as (n & exp & Hh & He & Hx). wp_step.
  eapply wp_mono; [apply wp_saveRefreshToken|]. intros [[]|e] w4; [|congruence].
  intros (Ho & r & Hr & Hsess & Ht & Hexp). wp_step. rewrite <- E1, <- E2, <- E3. split; [done|].
  exists r. split; [done|]. split; [done|]. split; [exists n; by rewrite Ht|].
  exists exp. split; [done|]. by rewrite Hexp, Hx.
Qed.

(** * Tokens used once *)

(** Primary keys of the token tables. *)
Definition phone_token_keys (d : Db) : Prop := NoDup (map phoneVerificationTokens.tokenHash (phoneVerificationTokens d)).
Definition kakao_token_keys (d : Db) : Prop :=
  NoDup (map kakaoPhoneVerificationTokens.tokenHash (kakaoPhoneVerificationTokens d)).

(** The token is in the table and used, or was never there. *)
Definition phone_spent (token : jstr) (l : list PhoneVerificationToken) : Prop :=
  forall r, r ∈ l -> phoneVerificationTokens.tokenHash r = hashToken token -> is_Some (phoneVerificationTokens.usedAt r).
Definition kakao_spent (token : jstr) (l : list KakaoPhoneVerificationToken) : Prop :=
  forall r, r ∈ l -> kakaoPhoneVerificationTokens.tokenHash r = hashToken token ->
    is_Some (kakaoPhoneVerificationTokens.usedAt r).

Lemma usable_phone_spec token now r :
  usable_phone_token token now r = true <->
  phoneVerificationTokens.tokenHash r = hashToken token /\ phoneVerificationTokens.usedAt r = None /\
  to_column now < phoneVerificationTokens.expiresAt r.
Proof.
  unfold usable_phone_token. rewrite !andb_true_iff, bool_decide_eq_true, is_null_true, Z.ltb_lt. tauto.
Qed.
Lemma usable_kakao_spec token now r :
  usable_kakao_token token now r = true <->
  kakaoPhoneVerificationTokens.tokenHash r = hashToken token /\ kakaoPhoneVerificationTokens.usedAt r = None /\
  to_column now < kakaoPhoneVerificationTokens.expiresAt r.
Proof.
  unfold usable_kakao_token. rewrite !andb_true_iff, bool_decide_eq_true, is_null_true, Z.ltb_lt. tauto.
Qed.

(** A token that opens a door at the instant [now]: known, not used, not expired. *)
Definition valid_phone_token (token : jstr) (now : Z) (t : PhoneVerificationToken) : Prop :=
  phoneVerificationTokens.tokenHash t = sha256_hex token /\ phoneVerificationTokens.usedAt t = None /\
  to_column now < phoneVerificationTokens.expiresAt t.

Lemma phone_spent_unusable token now l r :
  phone_spent token l -> r ∈ l -> usable_phone_token token now r = false.
Proof.
  intros Hs Hr. apply not_true_is_false. rewrite usable_phone_spec. intros (Hh & Hu & _).
  destruct (Hs r Hr Hh) as [? ?]. congruence.
Qed.

(** The row a consuming update returns, and the table after it. *)
Lemma consumed_phone token now at_ l t :
  NoDup (map phoneVerificationTokens.tokenHash l) ->
  let used := (fun r => r <| phoneVerificationTokens.usedAt := Some (to_column at_) |>) in
  head (map used (sel (usable_phone_token token now) l)) = Some t ->
  (exists t0, t0 ∈ l /\ usable_phone_token token now t0 = true /\
     phoneVerificationTokens.phoneE164 t0 = phoneVerificationTokens.phoneE164 t) /\
  phone_spent token (mapif (usable_phone_token token now) used l).
Proof.
  intros Hk used Ht. destruct (sel _ l) as [|t0 s] eqn:Es; [done|]. simpl in Ht. injection Ht as <-.
  assert (t0 ∈ sel (usable_phone_token token now) l) as Hin by (rewrite Es; set_solver).
  apply elem_of_sel in Hin as [Hin Hu]. split; [by exists t0|].
  intros r (x & Hx & ->)%elem_of_mapif. destruct (usable_phone_token token now x) eqn:Ex; [by eexists|].
  intros Hh. apply usable_phone_spec in Hu as Hu'.
  assert (x = t0) as -> by (apply (keys_inj phoneVerificationTokens.tokenHash l); [done..|]; destruct Hu'; congruence).
  congruence.
Qed.
Lemma consumed_kakao token now at_ l t :
  NoDup (map kakaoPhoneVerificationTokens.tokenHash l) ->
  let used := (fun r => r <| kakaoPhoneVerificationTokens.usedAt := Some (to_column at_) |>) in
  head (map used (sel (usable_kakao_token token now) l)) = Some t ->
  kakao_spent token (mapif (usable_kakao_token token now) used l).
Proof.
  intros Hk used Ht. destruct (sel _ l) as [|t0 s] eqn:Es; [done|]. simpl in Ht. injection Ht as <-.
  assert (t0 ∈ sel (usable_kakao_token token now) l) as Hin by (rewrite Es; set_solver).
  apply elem_of_sel in Hin as [Hin Hu].
  intros r (x & Hx & ->)%elem_of_mapif. destruct (usable_kakao_token token now x) eqn:Ex; [by eexists|].
  intros Hh. apply usable_kakao_spec in Hu as Hu'.
  assert (x = t0) as -> by (apply (keys_inj kakaoPhoneVerificationTokens.tokenHash l); [done..|]; destruct Hu'; congruence).
  congruence.
Qed.

Lemma wp_requirePhoneVerificationToken token w :
  wp (requirePhoneVerificationToken token) (fun r w' => db w' = db w /\
    match r with
    | Ok t => t ∈ phoneVerificationTokens (db w) /\ valid_phone_token token (date_now (tick w)) t
    | Err e => e = mkExn CustomUnauthorizedException InvalidPhoneVerificationToken
    end) w.
Proof.
  unfold requirePhoneVerificationToken, findPhoneVerificationToken. wp_steps; (split; [done|]); [|done].
  match goal with Hf : first _ _ = Some _ |- _ => apply first_Some in Hf as [? ?%usable_phone_spec] end. done.
Qed.

(** A spent token is refused before anything is written. *)
Lemma requirePhone_spent token w :
  phone_spent token (phoneVerificationTokens (db w)) ->
  wp (requirePhoneVerificationToken token) (fun r w' => db w' = db w /\ exists e, r = Err e) w.
Proof.
  intros Hs. eapply wp_mono; [apply wp_requirePhoneVerificationToken|]. intros [t|e] w' [-> Ht]; [|by eauto].
  destruct Ht as [Hin Hu%usable_phone_spec]. by rewrite (phone_spent_unusable _ _ _ _ Hs Hin) in Hu.
Qed.

Lemma wp_normalizeEmail s w :
  wp (normalizeEmail s) (fun r w' => w' = w /\ forall e, r = Ok e -> e = trim s /\ isValidEmail e = true) w.
Proof. unfold normalizeEmail. wp_steps; (split; [done|]); [by intros ? [= <-]|done]. Qed.
Lemma wp_normalizeUserName s w :
  wp (normalizeUserName s) (fun r w' => w' = w /\ forall e, r = Ok e ->
    e = trim s /\ e <> [] /\ (length (code_points e) <= USER_NAME_MAX_LENGTH)%nat) w.
Proof.
  unfold normalizeUserName. wp_step. wp_step; intros Hc; [|done]. wp_step. split; [done|]. intros ? [= <-].
  apply andb_true_iff in Hc as [Hne Hlen]. rewrite negb_true_iff, bool_decide_eq_false in Hne.
  by apply Nat.leb_le in Hlen.
Qed.
Lemma wp_validatePassword s w :
  wp (validatePassword s) (fun r w' => w' = w /\ forall e, r = Ok e -> e = s /\ 8 <= byteLength s <= 72) w.
Proof.
  unfold validatePassword. wp_step. wp_step; intros Hc; [|done]. wp_step. split; [done|]. intros ? [= <-].
  split; [done|]. unfold PASSWORD_MIN_BYTES, BCRYPT_PASSWORD_MAX_BYTES in Hc. lia.
Qed.

(** * Sign-up *)

(** The account the input asks for, with the phone number of a token that is
    valid at [now]. *)
Record new_account (input : SignupAuthInput) (now : Z) (d : Db) (u : User) : Prop := {
  na_email : users.email u = trim (su_email input) /\ isValidEmail (users.email u) = true;
  na_name : users.userName u = trim (su_userName input) /\ users.userName u <> [] /\
            (length (code_points (users.userName u)) <= 40)%nat;
  na_password : (exists n, users.password u = bcrypt_hash n (su_password input)) /\
                8 <= byteLength (su_password input) <= 72;
  na_gender : users.gender u = su_gender input;
  na_phone : exists t, t ∈ phoneVerificationTokens d /\
    valid_phone_token (su_phoneVerificationToken input) now t /\
    users.phone u = Some (phoneVerificationTokens.phoneE164 t);
  na_fresh : forall v, v ∈ users d -> users_conflict u v = false
}.
(** One more account, one token less, and nothing else. *)
Definition account_created (input : SignupAuthInput) (now : Z) (u : User) (d d' : Db) : Prop :=
  new_account input now d u /\
  phone_spent (su_phoneVerificationToken input) (phoneVerificationTokens d') /\
  d' = d <| users ::= fun l => l ++ [u] |> <| phoneVerificationTokens := phoneVerificationTokens d' |>
         <| refreshTokens := refreshTokens d' |>.

Lemma wp_signupWithPhoneVerificationToken new token w :
  phone_token_keys (db w) ->
  wp (signupWithPhoneVerificationToken new token) (fun r w' =>
    match r with
    | Ok (Some u) => exists t now,
        t ∈ phoneVerificationTokens (db w) /\ usable_phone_token token now t = true /\
        (exists n, u = users.mkUser (nu_userId new) (nu_email new) (Some (phoneVerificationTokens.phoneE164 t))
          (nu_password new) (nu_userName new) (nu_gender new) [] None None None None None None None 0 None
          n n) /\
        (forall v, v ∈ users (db w) -> users_conflict u v = false) /\
        phone_spent token (phoneVerificationTokens (db w')) /\
        db w' = (db w) <| users ::= fun l => l ++ [u] |> <| phoneVerificationTokens := phoneVerificationTokens (db w') |>
    | Ok None => db w' = db w
    | Err _ => db w' = db w
    end) w.
Proof.
  intros Hk. unfold signupWithPhoneVerificationToken, consumePhoneVerificationToken, insertUser.
  do 8 wp_step. destruct (head _) as [t|] eqn:Et.
  - destruct (consumed_phone _ _ _ _ _ Hk Et) as [(t0 & Hin & Hu & Hp) Hspent].
    wp_steps; try done. simpl in *. exists t0. eexists. split_and!; [done|done|..].
    + eexists. by rewrite Hp.
    + rewrite existsb_false in *. intros v Hv. by match goal with Hf : forall x, x ∈ _ -> _ |- _ => apply Hf end.
    + done.
    + by destruct (db w).
  - do 2 wp_step. simpl. apply (update_none phoneVerificationTokens). apply sel_nil. by apply map_head_none in Et.
Qed.

Lemma wp_mapDuplicate {A} (m : M A) Q w :
  wp m (fun r w' => match r with
                    | Ok a => Q (Ok a) w'
                    | Err e => Q (Err (if isUniqueViolation e then mkExn CustomBadRequestException DuplicateUser else e)) w'
                    end) w ->
  wp (mapDuplicateUserError m) Q w.
Proof.
  intros Hm. apply wp_try_catch. eapply wp_mono; [exact Hm|]. intros [a|e] w' HQ; [done|].
  destruct (isUniqueViolation e); exact HQ.
Qed.

Lemma wp_signup input deviceId w :
  phone_token_keys (db w) ->
  wp (signup input deviceId) (fun r w' =>
    match r with
    | Ok p => su_termsAccepted input = true /\ exists u, account_created input (date_now (tick w)) u (db w) (db w') /\
                has_session (users.userId u) deviceId (refreshToken p) (db w')
    | Err _ => db w' = db w \/
               exists u, account_created input (date_now (tick w)) u (db w) (db w') /\ refreshTokens (db w') = refreshTokens (db w)
    end) w.
Proof.
  intros Hk. unfold signup. wp_step. wp_step; intros Hterms; [|by left]. wp_step.
  eapply wp_mono; [apply wp_normalizeEmail|]. intros [email|e] w1 [-> He]; [|by left]. wp_step.
  eapply wp_mono; [apply wp_normalizeUserName|]. intros [name|e] w2 [-> Hn]; [|by left]. wp_step.
  eapply wp_mono; [apply wp_validatePassword|]. intros [pw|e] w3 [-> Hp]; [|by left]. wp_step.
  eapply wp_mono; [apply wp_requirePhoneVerificationToken|]. intros [t|e] w4 [E4 Hvalid]; [|by left].
  destruct Hvalid as [Htin Hvalid].
  destruct (He _ eq_refl) as [-> Hve]. destruct (Hn _ eq_refl) as (-> & Hne & Hln).
  destruct (Hp _ eq_refl) as [-> Hlp]. do 5 wp_step. apply wp_mapDuplicate.
  eapply wp_mono; [apply wp_signupWithPhoneVerificationToken; simpl; by rewrite E4|].
  intros [[u|]|e] w5; simpl; rewrite E4; [|intros E5; wp_step; by left|intros E5; by left].
  intros (t' & now & Hin & Hu & (n & Eu) & Hfresh & Hspent & E5).
  apply usable_phone_spec in Hu.
  assert (t' = t) as -> by (apply (keys_inj phoneVerificationTokens.tokenHash (phoneVerificationTokens (db w)));
    [done..|destruct Hu, Hvalid; unfold hashToken in *; congruence]).
  assert (new_account input (date_now (tick w)) (db w) u) as Hna.
  { split; rewrite ?Eu; simpl; try done; [split; [by eexists|done]|exists t; by split_and!|].
    intros v Hv. rewrite <- Eu. by apply Hfresh. }
  eapply wp_mono; [apply wp_issueTokens|]. intros [p|e] w6.
  - intros [Ho Hs]. split; [done|]. exists u. split; [|done]. split; [done|]. unfold only_sessions in Ho.
    split; [rewrite Ho; exact Hspent|]. rewrite Ho. simpl. rewrite E5 at 1. by destruct (db w).
  - intros E6. right. exists u. rewrite E6. split; [|by rewrite E5]. split; [done|]. split; [done|].
    assert (refreshTokens (db w5) = refreshTokens (db w)) as -> by (by rewrite E5).
    rewrite E5 at 1. by destruct (db w).
Qed.

(** C12: sign-up is all or nothing.  Success creates exactly one account, with
    the trimmed valid e-mail and name, a hash of a password of 8 to 72 bytes and
    the phone number of a token that is unused and unexpired when the request reads the clock, uses the token up and opens a session
    for the device; nothing else changes.  Failure changes nothing, or (when only
    the session could not be issued) leaves the account of that success. *)
Theorem signup_all_or_nothing input deviceId w w' r :
  phone_token_keys (db w) -> signup input deviceId w = (w', r) ->
  match r with
  | Ok p => su_termsAccepted input = true /\ exists u, account_created input (date_now (tick w)) u (db w) (db w') /\
              has_session (users.userId u) deviceId (refreshToken p) (db w')
  | Err _ => db w' = db w \/
             exists u, account_created input (date_now (tick w)) u (db w) (db w') /\ refreshTokens (db w') = refreshTokens (db w)
  end.
Proof. intros Hk E. to_wp E. by apply wp_signup. Qed.

(** C13: a duplicate sign-up.  An e-mail that is taken is refused although the
    phone token is usable while the request runs; the token stays usable and nothing changes; the error is the one for duplicates
    exactly when the SQLSTATE of the driver's error reaches the service, and the
    raw error of the statement otherwise. *)
Theorem signup_duplicate_refused input deviceId w v t :
  su_termsAccepted input = true -> isValidEmail (trim (su_email input)) = true ->
  trim (su_userName input) <> [] -> (length (code_points (trim (su_userName input))) <= 40)%nat ->
  8 <= byteLength (su_password input) <= 72 ->
  v ∈ users (db w) -> users.email v = trim (su_email input) ->
  t ∈ phoneVerificationTokens (db w) ->
  (forall n, (tick w <= n < 5 + tick w)%nat -> valid_phone_token (su_phoneVerificationToken input) (date_now n) t) ->
  exists w', signup input deviceId w
    = (w', Err (if isUniqueViolation UNIQUE_VIOLATION then mkExn CustomBadRequestException DuplicateUser
                else UNIQUE_VIOLATION)) /\ db w' = db w.
Proof.
  intros Hterms Hem Hn1 Hn2 Hpw Hv Hve Ht Hvalid.
  assert (forall n, (tick w <= n < 5 + tick w)%nat -> usable_phone_token (su_phoneVerificationToken input) (date_now n) t = true) as Hu
    by (intros n Hn; by apply usable_phone_spec, Hvalid).
  enough (wp (signup input deviceId) (fun r w' =>
    r = Err (if isUniqueViolation UNIQUE_VIOLATION then mkExn CustomBadRequestException DuplicateUser
             else UNIQUE_VIOLATION) /\ db w' = db w) w) as Hwp.
  { unfold wp in Hwp. destruct (signup _ _ w) as [w' r]. destruct Hwp as [Hr Hd]. simpl in *. exists w'. by rewrite Hr. }
  unfold signup. rewrite Hterms. wp_step. wp_step; [intros _|done]. unfold normalizeEmail. rewrite Hem.
  do 2 wp_step. wp_step; [intros _|done]. wp_step. wp_step. unfold normalizeUserName.
  rewrite (proj2 (Nat.leb_le _ USER_NAME_MAX_LENGTH) Hn2), bool_decide_eq_false_2 by done.
  wp_step. wp_step; [intros _|done]. wp_step. wp_step. unfold validatePassword.
  replace (_ && _) with true by (unfold PASSWORD_MIN_BYTES, BCRYPT_PASSWORD_MAX_BYTES; lia).
  wp_step. wp_step; [intros _|done]. do 2 wp_step.
  unfold requirePhoneVerificationToken, findPhoneVerificationToken. do 3 wp_step. wp_step.
  simpl. destruct (first_is_Some _ _ t Ht (Hu (tick w) ltac:(lia))) as (t' & ->). do 6 wp_step.
  apply wp_mapDuplicate. unfold signupWithPhoneVerificationToken, consumePhoneVerificationToken, insertUser.
  do 8 wp_step. simpl.
  destruct (head _) as [t1|] eqn:Et.
  2: { apply map_head_none in Et. pose proof (sel_nil _ _ Et t Ht) as Hf. simpl in Hf.
       pose proof (Hu (S (S (S (S (tick w))))) ltac:(lia)). congruence. }
  do 4 wp_step. wp_step.
  - intros _ Hc. rewrite existsb_false in Hc. specialize (Hc v Hv). unfold conflicts, users_table, users_conflict in Hc.
    simpl in Hc. by rewrite Hve, eqb_refl_true, orb_true_r in Hc.
  - done.
  - intros _. done.
Qed.

(** * Sign-in *)

Lemma wp_signin input deviceId w :
  phone_token_keys (db w) ->
  wp (signin input deviceId) (fun r w' =>
    match r with
    | Ok p => exists u t,
        u ∈ users (db w) /\ (users.email u = trim (si_email input) \/ users.email u = si_email input) /\
        bcrypt_compare (si_password input) (users.password u) = true /\
        t ∈ phoneVerificationTokens (db w) /\ valid_phone_token (si_phoneVerificationToken input) (date_now (tick w)) t /\
        users.phone u = Some (phoneVerificationTokens.phoneE164 t) /\
        phone_spent (si_phoneVerificationToken input) (phoneVerificationTokens (db w')) /\
        has_session (users.userId u) deviceId (refreshToken p) (db w')
    | Err _ => refreshTokens (db w') = refreshTokens (db w)
    end) w.
Proof.
  intros Hk. unfold signin, normalizeSigninEmail, findUserByEmail. do 2 wp_step. wp_step; [intros _|done].
  do 4 wp_step. apply (wp_mono _ (fun r w' => w' = w /\ forall o, r = Ok o -> forall u, o = Some u ->
    u ∈ users (db w) /\ (users.email u = trim (si_email input) \/ users.email u = si_email input))).
  { wp_steps; (split; [done|]); intros ? [= <-] u Hu; simpl in Hu; apply first_Some in Hu as [Hin Hc];
      rewrite bool_decide_eq_true in Hc; auto. }
  intros [[u|]|e] w1 [-> Hu]; [|by wp_step|done]. destruct (Hu _ eq_refl u eq_refl) as [Hin Hem].
  wp_step. wp_step; intros Hpw; [|done]. wp_step.
  eapply wp_mono; [apply wp_requirePhoneVerificationToken|]. intros [t|e] w2 [E2 Ht]; [|by rewrite E2].
  destruct Ht as (Htin & Htu). wp_step. wp_step; intros Hph; [|by rewrite E2]. wp_step.
  unfold consumePhoneVerificationToken. do 9 wp_step; simpl; [|by rewrite E2].
  intros Hc. apply negb_true_iff in Hc. rewrite is_null_false, E2 in Hc. destruct Hc as [t1 Et1].
  destruct (consumed_phone _ _ _ _ _ Hk Et1) as [_ Hspent]. rewrite bool_decide_eq_true in Hph.
  unfold restoreIfWithinGrace, validateUuid, restoreScheduledDeletion. wp_step. wp_step. wp_step; [intros _|by intros; simpl; rewrite E2].
  do 7 wp_step. eapply wp_mono; [apply wp_issueTokens|]. intros [p|e] w3; simpl.
  - intros [Ho Hs]. exists u, t. split_and!; try done. unfold only_sessions in Ho. rewrite Ho. simpl. by rewrite E2.
  - intros ->. simpl. by rewrite E2.
Qed.

(** C14: sign-in.  It succeeds only for an account with that e-mail, the right
    password and a phone token that is stored, not yet used, not expired at the
    request's own reading of the clock and verified for the account's own phone
    number; the token is used up and the device gets a session.  A refusal issues
    no session. *)
Theorem signin_needs_both_factors input deviceId w w' r :
  phone_token_keys (db w) -> signin input deviceId w = (w', r) ->
  match r with
  | Ok p => exists u t,
      u ∈ users (db w) /\ (users.email u = trim (si_email input) \/ users.email u = si_email input) /\
      bcrypt_compare (si_password input) (users.password u) = true /\
      t ∈ phoneVerificationTokens (db w) /\ valid_phone_token (si_phoneVerificationToken input) (date_now (tick w)) t /\
      users.phone u = Some (phoneVerificationTokens.phoneE164 t) /\
      phone_spent (si_phoneVerificationToken input) (phoneVerificationTokens (db w')) /\
      has_session (users.userId u) deviceId (refreshToken p) (db w')
  | Err _ => refreshTokens (db w') = refreshTokens (db w)
  end.
Proof. intros Hk E. to_wp E. by apply wp_signin. Qed.

(** A run that is refused and changes nothing. *)
Definition refused {A} (m : M A) (w : World) : Prop := exists w' e, m w = (w', Err e) /\ db w' = db w.

Lemma refused_wp {A} (m : M A) w : wp m (fun r w' => db w' = db w /\ exists e, r = Err e) w -> refused m w.
Proof.
  unfold wp, refused. destruct (m w) as [w' r]. intros [Hd [e He]]. simpl in *. exists w', e. by rewrite He.
Qed.

Lemma signup_spent input deviceId w :
  phone_spent (su_phoneVerificationToken input) (phoneVerificationTokens (db w)) -> refused (signup input deviceId) w.
Proof.
  intros Hs. apply refused_wp. unfold signup. wp_step. wp_step; intros _; [|by eauto]. wp_step.
  eapply wp_mono; [apply wp_normalizeEmail|]. intros [email|e] w1 [-> He]; [|by eauto]. wp_step.
  eapply wp_mono; [apply wp_normalizeUserName|]. intros [name|e] w2 [-> Hn]; [|by eauto]. wp_step.
  eapply wp_mono; [apply wp_validatePassword|]. intros [pw|e] w3 [-> Hp]; [|by eauto]. wp_step.
  eapply wp_mono; [by apply requirePhone_spent|]. intros r w4 [Ed [e ->]]. by eauto.
Qed.

Lemma signin_spent input deviceId w :
  phone_spent (si_phoneVerificationToken input) (phoneVerificationTokens (db w)) -> refused (signin input deviceId) w.
Proof.
  intros Hs. apply refused_wp. unfold signin, normalizeSigninEmail, findUserByEmail. do 2 wp_step.
  wp_step; intros _; [|by eauto]. do 4 wp_step. apply (wp_mono _ (fun r w' => w' = w)); [by wp_steps|].
  intros [[u|]|e] w1 ->; [|by wp_step; eauto|by eauto]. wp_step. wp_step; intros _; [|by eauto]. wp_step.
  eapply wp_mono; [by apply requirePhone_spent|]. intros r w4 [Ed [e ->]]. by eauto.
Qed.

Lemma kakao_phone_spent input deviceId w token :
  ks_phoneVerificationToken input = Some token -> token <> [] ->
  phone_spent token (phoneVerificationTokens (db w)) -> refused (completeKakaoPhoneSignup input deviceId) w.
Proof.
  intros Ht Hne Hs. apply refused_wp. unfold completeKakaoPhoneSignup. rewrite Ht. wp_step.
  wp_step; intros _; [|by eauto]. destruct token as [|u s]; [done|]. simpl. unfold completeKakaoWithPhone. cbv zeta.
  wp_step. eapply wp_mono; [by apply requirePhone_spent|]. intros r w4 [Ed [e ->]]. by eauto.
Qed.

(** C15: a phone token opens one door once.  After a sign-up or sign-in with it
    has succeeded, every later sign-up, sign-in or Kakao completion with the same
    token is refused and changes nothing, as long as nobody puts the token back. *)
Theorem phone_token_single_use token w w1 :
  phone_token_keys (db w) -> token <> [] ->
  (exists input deviceId p, su_phoneVerificationToken input = token /\ signup input deviceId w = (w1, Ok p)) \/
  (exists input deviceId p, si_phoneVerificationToken input = token /\ signin input deviceId w = (w1, Ok p)) ->
  forall w2, phoneVerificationTokens (db w2) = phoneVerificationTokens (db w1) -> forall deviceId,
    (forall input, su_phoneVerificationToken input = token -> refused (signup input deviceId) w2) /\
    (forall input, si_phoneVerificationToken input = token -> refused (signin input deviceId) w2) /\
    (forall input, ks_phoneVerificationToken input = Some token -> refused (completeKakaoPhoneSignup input deviceId) w2).
Proof.
  intros Hk Hne Hrun w2 E2 deviceId.
  assert (phone_spent token (phoneVerificationTokens (db w2))) as Hs.
  { rewrite E2. destruct Hrun as [(input & dev & p & Ht & E)|(input & dev & p & Ht & E)].
    - destruct (wp_run _ _ _ _ _ E (wp_signup input dev w Hk)) as (_ & u & (_ & Hs & _) & _). by rewrite Ht in Hs.
    - destruct (wp_run _ _ _ _ _ E (wp_signin input dev w Hk)) as (u & t & Hs). rewrite Ht in Hs. tauto. }
  split_and!; intros input Hi.
  - apply signup_spent. by rewrite Hi.
  - apply signin_spent. by rewrite Hi.
  - by apply (kakao_phone_spent _ _ _ token).
Qed.

(** * Refresh tokens *)

(** The unique key of the sessions. *)
Definition session_keys (d : Db) : Prop :=
  NoDup (map (fun r => (refreshTokens.userId r, refreshTokens.deviceId r)) (refreshTokens d)).

Lemma is_session_spec userId deviceId r :
  is_session userId deviceId r = true <-> refreshTokens.userId r = userId /\ refreshTokens.deviceId r = deviceId.
Proof. unfold is_session. by rewrite andb_true_iff, !bool_decide_eq_true. Qed.

(** The session a rotation needs: the device's row, still with that hash and not
    expired at [now]. *)
Definition current_session (userId deviceId hash : jstr) (now : Z) (r : RefreshToken) : bool :=
  is_session userId deviceId r && (refreshTokens.refreshToken r =?? hash)
  && (to_column now <? refreshTokens.refreshTokenExp r).

Lemma wp_rotateRefreshToken userId deviceId hash state w :
  session_keys (db w) ->
  wp (rotateRefreshToken userId deviceId hash state) (fun r w' =>
    match r with
    | Ok true => only_sessions (db w) (db w') /\ session_keys (db w') /\
        (exists t1, t1 ∈ refreshTokens (db w') /\ is_session userId deviceId t1 = true /\
           refreshTokens.refreshToken t1 = rs_refreshToken state /\
           refreshTokens.refreshTokenExp t1 = to_column (rs_refreshTokenExp state)) /\
        (forall x, x ∈ refreshTokens (db w') -> is_session userId deviceId x = true ->
           refreshTokens.refreshToken x = rs_refreshToken state)
    | Ok false => db w' = db w
    | Err _ => False
    end) w.
Proof.
  intros Hk. unfold rotateRefreshToken. do 4 wp_step; [|by wp_step]. do 7 wp_step. simpl.
  match goal with |- context [sel ?q (refreshTokens (db w))] => destruct (sel q (refreshTokens (db w))) as [|t0 l] eqn:Es end; simpl.
  - apply (update_none refreshTokens). by apply sel_nil.
  - assert (t0 ∈ sel (current_session userId deviceId hash (date_now (S (tick w)))) (refreshTokens (db w))) as Hin
      by (unfold current_session; rewrite Es; set_solver).
    apply elem_of_sel in Hin as [Hin Hc]. split; [done|].
    split; [unfold session_keys; simpl; by rewrite keys_mapif|].
    pose proof Hc as [[Hs _]%andb_true_iff _]%andb_true_iff. split.
    + eexists. split; [apply elem_of_mapif; exists t0; split; [done|reflexivity]|].
      unfold current_session in Hc. rewrite Hc. split; [exact Hs|done].
    + intros x (y & Hy & ->)%elem_of_mapif Hx.
      assert (is_session userId deviceId y = true) as Hys by (by destruct (_ && _) in Hx).
      assert (y = t0) as ->.
      { apply is_session_spec in Hs as [? ?], Hys as [? ?].
        apply (keys_inj (fun r => (refreshTokens.userId r, refreshTokens.deviceId r)) (refreshTokens (db w))); try done.
        congruence. }
      unfold current_session in Hc. by rewrite Hc.
Qed.

(** A rotation finds the session current at its second reading of the clock. *)
Lemma wp_rotate_current userId deviceId hash state w :
  wp (rotateRefreshToken userId deviceId hash state) (fun r w' =>
    match r with
    | Ok true => exists t0 n, t0 ∈ refreshTokens (db w) /\ (tick w <= n < tick w')%nat /\
        current_session userId deviceId hash (date_now n) t0 = true
    | Ok false => db w' = db w
    | Err _ => False
    end) w.
Proof.
  unfold rotateRefreshToken. do 4 wp_step; [|by wp_step]. do 7 wp_step. simpl.
  match goal with |- context [sel ?q (refreshTokens (db w))] => destruct (sel q (refreshTokens (db w))) as [|t0 l] eqn:Es end; simpl.
  - apply (update_none refreshTokens). by apply sel_nil.
  - assert (t0 ∈ sel (current_session userId deviceId hash (date_now (S (tick w)))) (refreshTokens (db w))) as Hin
      by (unfold current_session; rewrite Es; set_solver).
    apply elem_of_sel in Hin as [Hin Hc]. exists t0, (S (tick w)). split_and!; [done|lia|simpl; lia|done].
Qed.

Lemma wp_createToken_tick claims secret expiresIn w :
  wp (s ← getOrThrow secret; e ← getOrThrow expiresIn;
      signAsync claims (mkJwtOptions (Some AUTH_TOKEN_AUDIENCE) (Some AUTH_TOKEN_ISSUER) s e))
     (fun r w' => db w' = db w /\ (tick w <= tick w')%nat) w.
Proof. unfold getOrThrow, signAsync. wp_steps; (split; [done|simpl; lia]). Qed.
Lemma wp_prepareRefreshToken_tick token w :
  wp (prepareRefreshToken token) (fun r w' => db w' = db w /\ (tick w <= tick w')%nat) w.
Proof. unfold prepareRefreshToken. destruct (jwt_exp token) as [[|p|p]|]; wp_steps; (split; [done|simpl; lia]). Qed.

Lemma wp_findUser userId w :
  wp (findUser userId) (fun r w' => w' = w /\ forall u, r = Ok u -> u ∈ users (db w) /\ users.userId u = userId) w.
Proof.
  unfold findUser, repo_findUser. wp_steps; (split; [done|]); try done. intros ? [= <-].
  match goal with Hf : first _ _ = Some _ |- _ => apply first_Some in Hf as [? Hu] end.
  unfold is_user in Hu. by rewrite bool_decide_eq_true in Hu.
Qed.

Lemma wp_refresh t w :
  session_keys (db w) ->
  wp (refresh t) (fun r w' =>
    match r with
    | Ok p => only_sessions (db w) (db w') /\ session_keys (db w') /\
        has_session (refreshTokens.userId t) (refreshTokens.deviceId t) (refreshToken p) (db w') /\
        (exists n, forall x, x ∈ refreshTokens (db w') ->
           is_session (refreshTokens.userId t) (refreshTokens.deviceId t) x = true ->
           refreshTokens.refreshToken x = bcrypt_hash n (refreshToken p))
    | Err _ => db w' = db w
    end) w.
Proof.
  intros Hk. unfold refresh, createAccessToken, createRefreshToken. cbv zeta. wp_step.
  eapply wp_mono; [apply wp_findUser|]. intros [u|e] w0 [-> _]; [|done]. wp_step.
  eapply wp_mono; [apply wp_createToken_frame|]. intros [a|e] w1 E1; [|done]. wp_step.
  eapply wp_mono; [apply wp_createToken_frame|]. intros [tok|e] w2 E2; [|congruence]. wp_step.
  eapply wp_mono; [apply wp_prepareRefreshToken|]. intros [s|e] w3 [E3 Hs]; [|congruence].
  destruct (Hs s eq_refl) as (n & exp & Hh & He & Hx). wp_step.
  eapply wp_mono; [apply wp_rotateRefreshToken; by rewrite E3, E2, E1|].
  intros [[]|e] w4; rewrite ?E3, ?E2, ?E1; [|intros E4; by do 2 wp_step|done].
  intros (Ho & Hkeys & (t1 & Ht1 & Hs1 & Hr1 & He1) & Hall). wp_step. wp_step; [intros _|done]. wp_step.
  split; [done|]. split; [done|]. split; [|exists n; simpl; intros; rewrite <- Hh; by apply Hall].
  exists t1. split; [done|]. split; [done|]. split; [exists n; simpl; congruence|]. exists exp. split; [done|]. simpl; congruence.
Qed.

(** A refresh goes through only with the session current at a reading of its clock. *)
Lemma wp_refresh_current t w :
  wp (refresh t) (fun r w' =>
    match r with
    | Ok _ => exists t0 n, t0 ∈ refreshTokens (db w) /\ (tick w <= n < tick w')%nat /\
        current_session (refreshTokens.userId t) (refreshTokens.deviceId t) (refreshTokens.refreshToken t)
          (date_now n) t0 = true
    | Err _ => db w' = db w
    end) w.
Proof.
  unfold refresh, createAccessToken, createRefreshToken. cbv zeta. wp_step.
  eapply wp_mono; [apply wp_findUser|]. intros [u|e] w0 [-> _]; [|done]. wp_step.
  eapply wp_mono; [apply wp_createToken_tick|]. intros [a|e] w1 [E1 T1]; [|done]. wp_step.
  eapply wp_mono; [apply wp_createToken_tick|]. intros [tok|e] w2 [E2 T2]; [|congruence]. wp_step.
  eapply wp_mono; [apply wp_prepareRefreshToken_tick|]. intros [s|e] w3 [E3 T3]; [|congruence]. wp_step.
  eapply wp_mono; [apply wp_rotate_current|].
  intros [[]|e] w4; rewrite ?E3, ?E2, ?E1; [|intros E4; by do 2 wp_step|done].
  intros (t0 & n & Hin & Hn & Hc). wp_step. wp_step; [intros _|done]. wp_step.
  exists t0, n. split_and!; [done|lia|lia|done].
Qed.

(** A session row whose hash is no longer stored cannot be rotated. *)
Lemma refresh_replay t w :
  (forall x, x ∈ refreshTokens (db w) -> is_session (refreshTokens.userId t) (refreshTokens.deviceId t) x = true ->
     refreshTokens.refreshToken x <> refreshTokens.refreshToken t) ->
  refused (refresh t) w.
Proof.
  intros Hno. apply refused_wp. eapply wp_mono; [by apply wp_refresh_current|]. intros [p|e] w'; [|by eauto].
  intros (t0 & n & Hin & _ & [[Hs Hh]%andb_true_iff _]%andb_true_iff).
  rewrite bool_decide_eq_true in Hh. by destruct (Hno t0).
Qed.


(** C16: refresh tokens rotate.  A refresh succeeds only against the stored session
    it was validated for, which must not have expired at a reading of the clock
    within the request; it replaces that session's hash by one of the new token
    and touches nothing but sessions.  Replaying the old session is refused and
    changes nothing in every world where the device has no session but the one
    the refresh left (bcrypt hashes of different tokens differing).  A refused
    refresh changes nothing. *)
Theorem refresh_rotates_once t w w1 r :
  session_keys (db w) -> refresh t w = (w1, r) ->
  let userId := refreshTokens.userId t in let deviceId := refreshTokens.deviceId t in
  match r with
  | Ok p => only_sessions (db w) (db w1) /\ has_session userId deviceId (refreshToken p) (db w1) /\
      (exists t0 n, t0 ∈ refreshTokens (db w) /\ (tick w <= n < tick w1)%nat /\
         current_session userId deviceId (refreshTokens.refreshToken t) (date_now n) t0 = true) /\
      forall w2, (forall x, x ∈ refreshTokens (db w2) -> is_session userId deviceId x = true -> x ∈ refreshTokens (db w1)) ->
        (forall n, bcrypt_hash n (refreshToken p) <> refreshTokens.refreshToken t) ->
        refused (refresh t) w2
  | Err _ => db w1 = db w
  end.
Proof.
  intros Hk E. cbv zeta. to_wp E.
  eapply wp_mono; [apply wp_and; [by apply wp_refresh|apply wp_refresh_current]|]. intros [p|e] w'; [|by intros [? _]].
  intros [(Ho & Hk' & Hs & n & Hall) Hold]. split_and!; [done..|]. intros w2 Hkept Hne.
  apply refresh_replay. intros x Hx Hsx. by rewrite (Hall x (Hkept x Hx Hsx) Hsx).
Qed.

(** * Who gets in *)

(** A refresh request gets in only with a device's stored, unexpired session. *)
Lemma wp_refreshTokenValidate authorization cookie payload w :
  wp (refreshTokenValidate authorization cookie payload) (fun r w' => db w' = db w /\
    match r with
    | Ok (claims, t) => isRefreshTokenClaims payload = Some claims /\ t ∈ refreshTokens (db w) /\
        is_session (rc_userId claims) (rc_deviceId claims) t = true /\
        exists token, refreshTokenFromRequest authorization cookie = Some token /\
          bcrypt_compare token (refreshTokens.refreshToken t) = true
    | Err e => exn_class e = CustomUnauthorizedException
    end) w.
Proof.
  unfold refreshTokenValidate, validateUserRefreshToken, findRefreshToken.
  destruct (truthy _) as [token|] eqn:Et; [|by wp_steps].
  destruct (isRefreshTokenClaims payload) as [claims|]; [|by wp_steps].
  wp_steps; (split; [done|]); try done.
  match goal with Hf : first _ _ = Some _ |- _ => apply first_Some in Hf as [? ?] end. split_and!; try done.
  exists token. split; [unfold truthy in Et; by destruct (refreshTokenFromRequest _ _) as [[|? ?]|]|].
  match goal with Hb : negb _ = false |- _ => by apply negb_false_iff in Hb end.
Qed.

(** C17: a deletion request ends every session of the account.  After a request for
    an account that was not scheduled before, an access token of it is refused,
    without any change, as long as the account's own row is the one the request
    left (in particular while nothing has restored it), whatever else has changed;
    and a refresh token of it is refused, whatever the request carries, as long as
    no new session has been opened for it.  A sign-in opens one: those that restore
    the account first, and the phone-code sign-in, which does not. *)
Theorem deletion_locks_out userId u w w1 r :
  matchb UUID_PATTERN userId = true -> user_ids (db w) ->
  u ∈ users (db w) -> users.userId u = userId -> users.deletedAt u = None -> users.deletionScheduledAt u = None ->
  beginAccountDeletion userId w = (w1, r) ->
  forall w2,
    ((forall v, v ∈ users (db w2) -> users.userId v = userId -> v ∈ users (db w1)) ->
     forall payload, isAccessTokenClaims payload = Some userId -> refused (accessTokenValidate payload) w2) /\
    ((forall s, s ∈ refreshTokens (db w2) -> refreshTokens.userId s = userId -> s ∈ refreshTokens (db w1)) ->
     forall authorization cookie payload claims, isRefreshTokenClaims payload = Some claims -> rc_userId claims = userId ->
       refused (refreshTokenValidate authorization cookie payload) w2).
Proof.
  intros Huuid Hids Hu Hid Hdel Hsch E.
  assert (user_ids (db w1) /\ exists deadline, deletion_requested userId u deadline (db w) (db w1)) as Hb.
  { to_wp E. eapply wp_mono; [by apply (wp_beginAccountDeletion userId u)|]. intros r w1 (_ & ? & ?). by eauto. }
  destruct Hb as (Hids1 & deadline & u' & Hu' & Hid' & _ & Hhid & Hnone & _). specialize (Hhid Hsch).
  intros w2. split.
  - intros Eu payload Hp. apply refused_wp. unfold accessTokenValidate, repo_findUser. rewrite Hp. do 2 wp_step.
    destruct (first (is_user userId) (users (db w2))) as [v|] eqn:Ev; [|wp_steps; by eauto].
    apply first_Some in Ev as [Hv Hvid]. unfold is_user in Hvid. rewrite bool_decide_eq_true in Hvid.
    assert (v = u') as -> by (apply (keys_inj users.userId (users (db w1))); [done|by apply Eu|done|congruence]).
    wp_step. destruct Hhid as [h ->]. by wp_steps; eauto.
  - intros Et authorization cookie payload claims Hp Hc. apply refused_wp.
    eapply wp_mono; [apply wp_refreshTokenValidate|]. intros [[claims' t]|e] w' [-> Hr]; [|by eauto].
    destruct Hr as (Hp' & Ht & Hs & _). rewrite Hp in Hp'. injection Hp' as <-.
    apply is_session_spec in Hs as [Hs _]. apply Et in Ht; [|congruence]. pose proof (Hnone t Ht) as Hf. rewrite bool_decide_eq_false in Hf. congruence.
Qed.

(** * Kakao *)

Definition kakao_identity (providerUserId : jstr) (r : AuthIdentity) : bool :=
  (authIdentities.provider r =?? js "kakao") && (authIdentities.providerUserId r =?? providerUserId).
(** The identity leads to the account. *)
Definition identifies (providerUserId : jstr) (u : User) (d : Db) : Prop :=
  exists i, first (kakao_identity providerUserId) (authIdentities d) = Some i /\
    first (is_user (authIdentities.userId i)) (users d) = Some u.

Lemma findUserByIdentity_identifies providerUserId u w :
  identifies providerUserId u (db w) -> (findUserByIdentity (js "kakao") providerUserId w).2 = Ok (Some u).
Proof.
  intros (i & Hi & Hu).
  change (wp (findUserByIdentity (js "kakao") providerUserId) (fun r _ => r = Ok (Some u)) w).
  unfold findUserByIdentity, repo_findUser. wp_step. apply wp_findFirst. unfold kakao_identity in Hi.
  rewrite Hi. wp_step. by rewrite Hu.
Qed.

Lemma wp_newKakaoAccount new phone providerUserId w :
  wp (user ← insertUser new phone; insertKakaoIdentity (nu_userId new) providerUserId ;; mret user) (fun r w' =>
    forall u, r = Ok u -> identifies providerUserId u (db w') /\
      kakaoPhoneVerificationTokens (db w') = kakaoPhoneVerificationTokens (db w)) w.
Proof.
  unfold insertUser, insertKakaoIdentity. wp_steps; try done.
  match goal with Hr : Ok _ = Ok _ |- _ => injection Hr as <- end. split; [|done]. simpl in *.
  eexists. split.
  - tables. rewrite first_app, (proj2 (first_None _ _)); [by rewrite first_cons; unfold kakao_identity; simpl; rewrite !eqb_refl_true|].
    intros i Hi. match goal with Hc : existsb (authIdentities_conflict _) _ = false |- _ =>
      rewrite existsb_false in Hc; specialize (Hc i Hi); unfold authIdentities_conflict in Hc; simpl in Hc end.
    match goal with Hc : _ || _ = false |- _ => apply orb_false_iff in Hc as [_ Hc] end.
    unfold kakao_identity. apply not_true_is_false. rewrite andb_true_iff, !bool_decide_eq_true. intros [Hp Hu].
    rewrite Hp, Hu, !eqb_refl_true in *. done.
  - tables. simpl. rewrite first_app, (proj2 (first_None _ _)); [by rewrite first_cons; unfold is_user; simpl; rewrite eqb_refl_true|].
    intros u Hu. match goal with Hc : existsb (users_conflict _) _ = false |- _ =>
      rewrite existsb_false in Hc; specialize (Hc u Hu); unfold users_conflict in Hc; simpl in Hc end.
    match goal with Hc : _ || _ || _ = false |- _ => apply orb_false_iff in Hc as [[Hc _]%orb_false_iff _] end.
    unfold is_user. apply not_true_is_false. rewrite bool_decide_eq_true. simpl. intros Hid.
    by rewrite Hid, eqb_refl_true in *.
Qed.

Lemma wp_consumeKakao token w :
  kakao_token_keys (db w) ->
  wp (consumeKakaoPhoneVerificationToken token) (fun r w' =>
    exists o, r = Ok o /\ (is_Some o -> kakao_spent token (kakaoPhoneVerificationTokens (db w')))) w.
Proof.
  intros Hk. unfold consumeKakaoPhoneVerificationToken. wp_steps. eexists. split; [done|].
  intros [t Ht]. by apply (consumed_kakao _ _ _ _ t Hk).
Qed.

Lemma wp_consumeBothTokens phoneToken token w :
  kakao_token_keys (db w) ->
  wp (consumeBothTokens phoneToken token) (fun r w' =>
    is_ok r -> kakao_spent token (kakaoPhoneVerificationTokens (db w'))) w.
Proof.
  intros Hk. unfold consumeBothTokens, consumePhoneVerificationToken. do 9 wp_step.
  eapply wp_mono; [by apply wp_consumeKakao|]. intros r w' (o & -> & Ho).
  do 2 wp_step; [intros _|done]. wp_step; [|done]. intros Hn _. apply Ho. by destruct o; [eexists|].
Qed.

Lemma wp_mapTokenConsume {A} (m : M A) (Q : A -> World -> Prop) w :
  wp m (fun r w' => forall a, r = Ok a -> Q a w') w -> wp (mapTokenConsumeError m) (fun r w' => forall a, r = Ok a -> Q a w') w.
Proof.
  intros Hm. apply wp_try_catch. eapply wp_mono; [exact Hm|]. intros [a|e] w' HQ; [done|].
  destruct (exn_class e); by wp_step.
Qed.
Lemma wp_mapDuplicate_ok {A} (m : M A) (Q : A -> World -> Prop) w :
  wp m (fun r w' => forall a, r = Ok a -> Q a w') w -> wp (mapDuplicateUserError m) (fun r w' => forall a, r = Ok a -> Q a w') w.
Proof. intros Hm. apply wp_mapDuplicate. eapply wp_mono; [exact Hm|]. by intros [a|e]. Qed.
Lemma wp_transaction_ok {A} (m : M A) (Q : A -> World -> Prop) w :
  wp m (fun r w' => forall a, r = Ok a -> Q a w') w -> wp (transaction m) (fun r w' => forall a, r = Ok a -> Q a w') w.
Proof. intros Hm. apply wp_transaction. eapply wp_mono; [exact Hm|]. by intros [a|e]. Qed.

(** Restoring an account and opening a session leave accounts' ids, identities
    and tokens alone. *)
Lemma wp_restore_issue u deviceId w :
  wp (restoreIfWithinGrace (users.userId u) ;; issueTokens u deviceId) (fun r w' =>
    forall p, r = Ok p -> has_session (users.userId u) deviceId (refreshToken p) (db w') /\
      kakaoPhoneVerificationTokens (db w') = kakaoPhoneVerificationTokens (db w)) w.
Proof.
  unfold restoreIfWithinGrace, validateUuid, restoreScheduledDeletion. do 2 wp_step. wp_step; [intros _|done].
  do 7 wp_step. eapply wp_mono; [apply wp_issueTokens|]. intros [p|e] w'; [|done]. intros [Ho Hs] ? [= <-].
  split; [done|]. unfold only_sessions in Ho. by rewrite Ho.
Qed.

(** What completing a Kakao sign-up with the stored token [k] achieves. *)
Definition kakao_completed (k : KakaoPhoneVerificationToken) (token deviceId : jstr) (p : TokenPayload) (d : Db) : Prop :=
  kakao_spent token (kakaoPhoneVerificationTokens d) /\ exists u,
    has_session (users.userId u) deviceId (refreshToken p) d /\
    match truthy (kakaoPhoneVerificationTokens.userId k) with
    | Some userId => users.userId u = userId
    | None => identifies (kakaoPhoneVerificationTokens.providerUserId k) u d
    end.

Lemma wp_newKakao_issue k token deviceId (m : M User) w :
  truthy (kakaoPhoneVerificationTokens.userId k) = None ->
  wp m (fun r w' => forall u, r = Ok u -> identifies (kakaoPhoneVerificationTokens.providerUserId k) u (db w') /\
    kakao_spent token (kakaoPhoneVerificationTokens (db w'))) w ->
  wp (u ← mapDuplicateUserError (mapTokenConsumeError m); issueTokens u deviceId)
    (fun r w' => forall p, r = Ok p -> kakao_completed k token deviceId p (db w')) w.
Proof.
  intros Hno Hm. wp_step. eapply wp_mono.
  - apply wp_mapDuplicate_ok, wp_mapTokenConsume. exact Hm.
  - intros [u|e] w1 Hu; [|done]. destruct (Hu u eq_refl) as [(i & Hi & Hiu) Hs].
    eapply wp_mono; [apply wp_issueTokens|]. intros [p|e] w2; [|done]. intros [Ho Hsess] ? [= <-].
    unfold only_sessions in Ho. split; [by rewrite Ho|]. exists u. split; [done|]. rewrite Hno.
    exists i. by rewrite Ho.
Qed.

Lemma wp_newKakaoUser input k w :
  wp (newKakaoUser input k) (fun r w' => db w' = db w) w.
Proof. unfold newKakaoUser, normalizeEmail, normalizeUserName. by wp_steps. Qed.

Lemma find_kakao token now d k :
  first (usable_kakao_token token now) (kakaoPhoneVerificationTokens d) = Some k ->
  k ∈ kakaoPhoneVerificationTokens d /\ kakaoPhoneVerificationTokens.tokenHash k = hashToken token /\
  kakaoPhoneVerificationTokens.usedAt k = None.
Proof. by intros [Hin (? & ? & _)%usable_kakao_spec]%first_Some. Qed.

Lemma wp_kakaoWithoutPhone input deviceId w :
  kakao_token_keys (db w) ->
  wp (completeKakaoWithoutPhone input deviceId) (fun r w' => forall p, r = Ok p -> exists k,
    k ∈ kakaoPhoneVerificationTokens (db w) /\
    kakaoPhoneVerificationTokens.tokenHash k = hashToken (ks_kakaoPhoneVerificationToken input) /\
    kakaoPhoneVerificationTokens.usedAt k = None /\
    kakao_completed k (ks_kakaoPhoneVerificationToken input) deviceId p (db w')) w.
Proof.
  intros Hk. unfold completeKakaoWithoutPhone, findKakaoPhoneVerificationToken. cbv zeta. do 4 wp_step.
  destruct (first _ _) as [k|] eqn:Ek; [|by wp_step]. apply find_kakao in Ek as (Hin & Hh & Hu). simpl in Hin.
  eapply (wp_mono _ (fun r w' => forall p, r = Ok p -> kakao_completed k (ks_kakaoPhoneVerificationToken input) deviceId p (db w'))).
  2: { intros r w' HQ p Hp. exists k. split_and!; auto. }
  destruct (truthy _) as [userId|] eqn:Et.
  - wp_step. eapply wp_mono.
    { apply (wp_mapTokenConsume _ (fun o w' => kakao_spent (ks_kakaoPhoneVerificationToken input)
        (kakaoPhoneVerificationTokens (db w')) /\ forall u, o = Some u -> users.userId u = userId)).
      unfold consumeKakaoPhoneVerificationTokenForUser, repo_findUser. apply wp_transaction_ok. wp_step.
      eapply wp_mono; [by apply wp_consumeKakao|]. intros r w' (o & -> & Ho). wp_step. wp_step; [intros Hn|done].
      wp_step. intros ? [= <-]. split; [apply Ho; by destruct o; [eexists|]|].
      intros u [_ Hu']%first_Some. unfold is_user in Hu'. by rewrite bool_decide_eq_true in Hu'. }
    intros [[u|]|e] w1 Hr; [|by wp_step|done]. destruct (Hr _ eq_refl) as [Hs Hid]. specialize (Hid u eq_refl).
    eapply wp_mono; [apply wp_restore_issue|]. intros r w2 Hp p ->. destruct (Hp p eq_refl) as [Hsess Ekk].
    split; [by rewrite Ekk|]. exists u. by rewrite Et.
  - wp_step. eapply wp_mono; [apply wp_newKakaoUser|]. intros [new|e] w1 Ed; [|done]. apply wp_newKakao_issue; [done|].
    unfold createKakaoUserWithToken. apply wp_transaction_ok. wp_step.
    eapply wp_mono; [apply wp_consumeKakao; unfold kakao_token_keys; by rewrite Ed|].
    intros r w' (o & -> & Ho). wp_step. wp_step; [intros Hn|done].
    eapply wp_mono; [apply wp_newKakaoAccount|]. intros r w2 Hr u ->. destruct (Hr u eq_refl) as [Hid Ekk].
    split; [done|]. rewrite Ekk. apply Ho. by destruct o; [eexists|].
Qed.

Lemma wp_kakaoWithPhone input phoneToken deviceId w :
  kakao_token_keys (db w) ->
  wp (completeKakaoWithPhone input phoneToken deviceId) (fun r w' => forall p, r = Ok p -> exists k,
    k ∈ kakaoPhoneVerificationTokens (db w) /\
    kakaoPhoneVerificationTokens.tokenHash k = hashToken (ks_kakaoPhoneVerificationToken input) /\
    kakaoPhoneVerificationTokens.usedAt k = None /\
    kakao_completed k (ks_kakaoPhoneVerificationToken input) deviceId p (db w')) w.
Proof.
  intros Hk. unfold completeKakaoWithPhone, findKakaoPhoneVerificationToken. cbv zeta. wp_step.
  eapply wp_mono; [apply wp_requirePhoneVerificationToken|]. intros [t|e] w0 [E0 _]; [|done]. do 4 wp_step.
  destruct (first _ _) as [k|] eqn:Ek; [|by wp_step]. apply find_kakao in Ek as (Hin & Hh & Hu). simpl in Hin.
  rewrite E0 in Hin.
  eapply (wp_mono _ (fun r w' => forall p, r = Ok p -> kakao_completed k (ks_kakaoPhoneVerificationToken input) deviceId p (db w'))).
  2: { intros r w' HQ p Hp. exists k. split_and!; auto. }
  destruct (truthy _) as [userId|] eqn:Et.
  - unfold repo_findUser. wp_step. apply wp_findFirst. destruct (first _ _) as [u|] eqn:Eu; [|by wp_step].
    apply first_Some in Eu as [_ Eu]. unfold is_user in Eu. rewrite bool_decide_eq_true in Eu.
    wp_step. wp_step; [intros _|done]. wp_step. eapply wp_mono.
    { apply (wp_mapDuplicate_ok _ (fun o w' => kakao_spent (ks_kakaoPhoneVerificationToken input)
        (kakaoPhoneVerificationTokens (db w')) /\ forall u', o = Some u' -> users.userId u' = userId)).
      apply wp_mapTokenConsume. unfold attachPhoneWithKakaoPhoneVerificationTokens, attachPhone.
      apply wp_transaction_ok. wp_step.
      eapply wp_mono; [apply wp_consumeBothTokens; simpl; unfold kakao_token_keys; by rewrite E0|].
      intros [[]|e] w1 Hs; [|done]. specialize (Hs I). do 3 wp_step. wp_step.
      - intros _ _. wp_step. intros ? [= <-]. split; [done|]. intros u' Hu'.
        destruct (sel _ _) as [|v l] eqn:Es; [done|]. simpl in Hu'. injection Hu' as <-.
        assert (v ∈ sel (is_user (users.userId u)) (users (db w1))) as Hv by (simpl in Es; rewrite Es; set_solver).
        apply elem_of_sel in Hv as [_ Hv]. unfold is_user in Hv. rewrite bool_decide_eq_true in Hv. simpl. congruence.
      - done.
      - done. }
    intros [[u'|]|e] w1 Hr; [|by wp_step|done]. destruct (Hr _ eq_refl) as [Hs Hid]. specialize (Hid u' eq_refl).
    eapply wp_mono; [apply wp_restore_issue|]. intros r w2 Hp p ->. destruct (Hp p eq_refl) as [Hsess Ekk].
    split; [by rewrite Ekk|]. exists u'. by rewrite Et.
  - wp_step. eapply wp_mono; [apply wp_newKakaoUser|]. intros [new|e] w1 Ed; [|done]. apply wp_newKakao_issue; [done|].
    unfold createKakaoPhoneUserWithTokens. apply wp_transaction_ok. wp_step.
    eapply wp_mono; [apply wp_consumeBothTokens; unfold kakao_token_keys; rewrite Ed; simpl; by rewrite E0|].
    intros [[]|e] w' Hs; [|done]. specialize (Hs I).
    eapply wp_mono; [apply wp_newKakaoAccount|]. intros r w2 Hr u ->. destruct (Hr u eq_refl) as [Hid Ekk].
    split; [done|]. by rewrite Ekk.
Qed.

Lemma wp_completeKakaoPhoneSignup input deviceId w :
  kakao_token_keys (db w) ->
  wp (completeKakaoPhoneSignup input deviceId) (fun r w' => forall p, r = Ok p -> exists k,
    k ∈ kakaoPhoneVerificationTokens (db w) /\
    kakaoPhoneVerificationTokens.tokenHash k = hashToken (ks_kakaoPhoneVerificationToken input) /\
    kakaoPhoneVerificationTokens.usedAt k = None /\
    kakao_completed k (ks_kakaoPhoneVerificationToken input) deviceId p (db w')) w.
Proof.
  intros Hk. unfold completeKakaoPhoneSignup. wp_step. wp_step; [intros _|done].
  destruct (truthy (ks_phoneVerificationToken input)) as [phoneToken|];
    [by apply wp_kakaoWithPhone|by apply wp_kakaoWithoutPhone].
Qed.

(** C18: Kakao.  Completing a Kakao sign-up uses up its stored token, whichever
    branch is taken, and opens a session for the device: of the account the token
    names, or of the account just created, which a later look-up of the same Kakao
    identity finds again. *)
Theorem kakao_identity_roundtrip input deviceId w w' p :
  kakao_token_keys (db w) -> completeKakaoPhoneSignup input deviceId w = (w', Ok p) ->
  exists k u,
    k ∈ kakaoPhoneVerificationTokens (db w) /\ kakaoPhoneVerificationTokens.usedAt k = None /\
    kakaoPhoneVerificationTokens.tokenHash k = hashToken (ks_kakaoPhoneVerificationToken input) /\
    kakao_spent (ks_kakaoPhoneVerificationToken input) (kakaoPhoneVerificationTokens (db w')) /\
    has_session (users.userId u) deviceId (refreshToken p) (db w') /\
    match truthy (kakaoPhoneVerificationTokens.userId k) with
    | Some userId => users.userId u = userId
    | None => (findUserByIdentity (js "kakao") (kakaoPhoneVerificationTokens.providerUserId k) w').2 = Ok (Some u)
    end.
Proof.
  intros Hk E.
  destruct (wp_elim _ _ _ (wp_completeKakaoPhoneSignup input deviceId w Hk) _ _ E p eq_refl)
    as (k & Hin & Hh & Hu & Hs & u & Hsess & Hid).
  exists k, u. split_and!; try done. destruct (truthy _) as [userId|]; [done|].
  by apply findUserByIdentity_identifies.
Qed.

(** * Well-formed credentials *)

(** Normal forms.  An accepted e-mail matches the pattern, has at most 255
    characters and no white space around it, and normalizing it again, for a
    sign-up, a sign-in or from Kakao, gives it back; an optional name from Kakao
    is one a sign-up would accept: never empty and at most 40 characters. *)
Theorem credentials_normalized s w :
  (forall w' e, normalizeEmail s w = (w', Ok e) ->
     in_regex EMAIL_PATTERN (code_points e) /\ (length (code_points e) <= 255)%nat /\ trim e = e /\
     normalizeEmail e w = (w, Ok e) /\ normalizeSigninEmail e w = (w, Ok e) /\
     normalizeOptionalEmail (Some s) = Some e) /\
  (forall w' x, normalizeEmail s w = (w', Err x) -> normalizeOptionalEmail (Some s) = None) /\
  (Forall code_unit s -> forall n, normalizeOptionalUserName (Some s) = Some n ->
     n <> [] /\ (length (code_points n) <= 40)%nat /\ exists t, trim s = n ++ t).
Proof.
  split_and!.
  - intros w' e E. assert (e = trim s /\ isValidEmail e = true) as [-> Hv].
    { destruct (wp_elim _ _ _ (wp_normalizeEmail s w) _ _ E) as [_ He]. by apply He. }
    pose proof Hv as [Hm Hl]%andb_true_iff. apply Nat.leb_le in Hl. apply matchb_spec in Hm.
    assert (trim s <> []) as Hne.
    { intros Hn. rewrite Hn in Hv. vm_compute in Hv. done. }
    split_and!; [done|done|apply trim_trim|..].
    + unfold normalizeEmail. by rewrite trim_trim, Hv.
    + unfold normalizeSigninEmail. rewrite trim_trim, bool_decide_eq_false_2 by done.
      by rewrite (proj2 (Nat.leb_le _ EMAIL_MAX_LENGTH) Hl).
    + simpl. by rewrite Hv.
  - intros w' x. unfold normalizeEmail. simpl. by destruct (isValidEmail (trim s)).
  - intros Hs n. unfold normalizeOptionalUserName. simpl. destruct (trim s) as [|u t] eqn:Et; [done|].
    intros [= <-].
    assert (Forall code_unit (u :: t)) as Hu by (rewrite <- Et; by apply trim_Forall).
    destruct (code_points_take USER_NAME_MAX_LENGTH _ Hu) as [Hc [t' Ht']]. split_and!.
    + change (of_code_points (take USER_NAME_MAX_LENGTH (code_points (u :: t))) <> []). intros Hn. rewrite Hn in Hc. pose proof (code_points_cons u t) as Hcp.
      destruct t as [|v t2]; [|destruct (_ && _)]; rewrite Hcp in Hc; done.
    + pose proof (firstn_le_length USER_NAME_MAX_LENGTH (code_points (u :: t))) as Hl. rewrite <- Hc in Hl. exact Hl.
    + by exists t'.
Qed.
End theorems.

(** * Witnesses *)

Section witnesses.
#[local] Existing Instance test_env.
#[local] Existing Instance test_config.
#[local] Existing Instance test_jwt.
(** A driver whose error comes through, and a query layer that wraps it. *)
#[local] Instance bare_errors : QueryErrors := {| error_code e := if e =?? UNIQUE_VIOLATION then Some (js "23505") else None |}.

Definition token_row (token phone : jstr) : PhoneVerificationToken :=
  phoneVerificationTokens.mkPhoneVerificationToken (sha256_hex token) phone (test_uuid 1)
    (to_column (T0 + 900000)) None (to_column T0).
Definition token_world : World :=
  world_of (test_db <| phoneVerificationTokens := [token_row (js "carol") (js "+821011112222");
                                                   token_row (js "alice") (js "+821012345678")] |>).
Definition carol_signup : SignupAuthInput :=
  mkSignup (js " carol@example.com ") (js "correct horse") (js "캐롤") female (js "carol") true.
Definition alice_signin : SigninAuthInput := mkSignin (js "alice@example.com") (js "password") (js "alice").
Definition DEVICE : jstr := js "device".

Lemma token_world_keys : phone_token_keys (db token_world).
Proof.
  apply NoDup_cons. split; [|apply NoDup_singleton].
  intros Hin. apply list_elem_of_singleton in Hin. discriminate.
Defined.

Lemma signup_all_or_nothing_witness :
  is_ok (signup carol_signup DEVICE token_world).2 /\
  match (signup carol_signup DEVICE token_world).2 with
  | Ok p => su_termsAccepted carol_signup = true /\ exists u,
              account_created carol_signup (date_now (tick token_world)) u (db token_world) (db (signup carol_signup DEVICE token_world).1) /\
              has_session (users.userId u) DEVICE (refreshToken p) (db (signup carol_signup DEVICE token_world).1)
  | Err _ => db (signup carol_signup DEVICE token_world).1 = db token_world \/
             exists u, account_created carol_signup (date_now (tick token_world)) u (db token_world) (db (signup carol_signup DEVICE token_world).1) /\
               refreshTokens (db (signup carol_signup DEVICE token_world).1) = refreshTokens (db token_world)
  end.
Proof.
  split; [vm_compute; exact I|].
  apply (signup_all_or_nothing carol_signup DEVICE token_world).
  - apply token_world_keys.
  - apply surjective_pairing.
Defined.

(** Alice's e-mail is taken; her token would still do for a sign-in. *)
Definition taken_signup : SignupAuthInput :=
  mkSignup (js "alice@example.com") (js "correct horse") (js "앨리스") female (js "carol") true.
Lemma signup_duplicate_refused_witness :
  exists w', signup taken_signup DEVICE token_world
    = (w', Err (if isUniqueViolation UNIQUE_VIOLATION then mkExn CustomBadRequestException DuplicateUser
                else UNIQUE_VIOLATION)) /\ db w' = db token_world.
Proof.
  apply (signup_duplicate_refused taken_signup DEVICE token_world
           (test_user ALICE (js "alice") (Some (js "+821012345678"))) (token_row (js "carol") (js "+821011112222"))).
  - reflexivity.
  - vm_compute. reflexivity.
  - vm_compute. discriminate.
  - apply Nat.leb_le. vm_compute. reflexivity.
  - split; apply Z.leb_le; vm_compute; reflexivity.
  - apply elem_of_cons. by left.
  - vm_compute. reflexivity.
  - apply elem_of_cons. by left.
  - intros [|[|[|[|[|n]]]]] [H1 H2]; simpl in H2; [apply usable_phone_spec; vm_compute; reflexivity ..|lia].
Defined.

Lemma signin_needs_both_factors_witness :
  is_ok (signin alice_signin DEVICE token_world).2 /\
  match (signin alice_signin DEVICE token_world).2 with
  | Ok p => exists u t,
      u ∈ users (db token_world) /\
      (users.email u = trim (si_email alice_signin) \/ users.email u = si_email alice_signin) /\
      bcrypt_compare (si_password alice_signin) (users.password u) = true /\
      t ∈ phoneVerificationTokens (db token_world) /\
      valid_phone_token (si_phoneVerificationToken alice_signin) (date_now (tick token_world)) t /\
      users.phone u = Some (phoneVerificationTokens.phoneE164 t) /\
      phone_spent (si_phoneVerificationToken alice_signin)
        (phoneVerificationTokens (db (signin alice_signin DEVICE token_world).1)) /\
      has_session (users.userId u) DEVICE (refreshToken p) (db (signin alice_signin DEVICE token_world).1)
  | Err _ => refreshTokens (db (signin alice_signin DEVICE token_world).1) = refreshTokens (db token_world)
  end.
Proof.
  split; [vm_compute; exact I|].
  apply (signin_needs_both_factors alice_signin DEVICE token_world).
  - apply token_world_keys.
  - apply surjective_pairing.
Defined.

(** After Carol's sign-up her token is refused everywhere. *)
Lemma phone_token_single_use_witness :
  refused (signup carol_signup DEVICE) (signup carol_signup DEVICE token_world).1.
Proof.
  refine (proj1 (phone_token_single_use (js "carol") token_world (signup carol_signup DEVICE token_world).1 _ _ _
    (signup carol_signup DEVICE token_world).1 _ DEVICE) carol_signup _).
  - apply token_world_keys.
  - discriminate.
  - left. exists carol_signup, DEVICE, (mkTokens (js "access:00000000-0000-4000-8000-000000000001")
      (js "refresh:00000000-0000-4000-8000-000000000001:device")).
    split; [reflexivity|vm_compute; reflexivity].
  - reflexivity.
  - reflexivity.
Defined.

(** Alice's phone refreshes its session. *)
Definition alice_session : RefreshToken :=
  refreshTokens.mkRefreshToken (test_uuid 9) ALICE DEVICE (js "b:old") (to_column (T0 + 900000)) (to_column T0) (to_column T0).
Definition session_world : World := world_of (test_db <| refreshTokens := [alice_session] |>).
Lemma refresh_rotates_once_witness :
  let w1 := (refresh alice_session session_world).1 in
  let userId := refreshTokens.userId alice_session in let deviceId := refreshTokens.deviceId alice_session in
  is_ok (refresh alice_session session_world).2 /\
  match (refresh alice_session session_world).2 with
  | Ok p => only_sessions (db session_world) (db w1) /\ has_session userId deviceId (refreshToken p) (db w1) /\
      (exists t0 n, t0 ∈ refreshTokens (db session_world) /\ (tick session_world <= n < tick w1)%nat /\
         current_session userId deviceId (refreshTokens.refreshToken alice_session) (date_now n) t0 = true) /\
      forall w2, (forall x, x ∈ refreshTokens (db w2) -> is_session userId deviceId x = true -> x ∈ refreshTokens (db w1)) ->
        (forall n, bcrypt_hash n (refreshToken p) <> refreshTokens.refreshToken alice_session) ->
        refused (refresh alice_session) w2
  | Err _ => db w1 = db session_world
  end.
Proof.
  intros w1 userId deviceId. split; [vm_compute; exact I|].
  exact (refresh_rotates_once alice_session session_world _ _ (NoDup_singleton _)
           (surjective_pairing (refresh alice_session session_world))).
Defined.

Lemma deletion_locks_out_witness :
  refused (accessTokenValidate (JObject [(js "tokenType", JString (js "access")); (js "userId", JString ALICE)]))
    (beginAccountDeletion ALICE session_world).1.
Proof.
  refine (proj1 (deletion_locks_out ALICE (test_user ALICE (js "alice") (Some (js "+821012345678"))) session_world
    (beginAccountDeletion ALICE session_world).1 (beginAccountDeletion ALICE session_world).2 _ _ _ _ _ _ _
    (beginAccountDeletion ALICE session_world).1) _ _ _).
  - vm_compute. reflexivity.
  - apply test_user_ids.
  - apply elem_of_cons. by left.
  - reflexivity.
  - reflexivity.
  - reflexivity.
  - apply surjective_pairing.
  - intros v Hv _. exact Hv.
  - vm_compute. reflexivity.
Defined.

(** A Kakao identity seen for the first time. *)
Definition kakao_world : World :=
  world_of (test_db <| kakaoPhoneVerificationTokens :=
    [kakaoPhoneVerificationTokens.mkKakaoPhoneVerificationToken (sha256_hex (js "kakao")) None (js "4242") None
       (to_column (T0 + 900000)) None (to_column T0)] |>).
Definition kakao_signup : KakaoSignupInput := mkKakaoSignup None (js "kakao") (js "다온") (Some male) true.
Definition kakao_tokens : TokenPayload :=
  default (mkTokens [] []) (match (completeKakaoPhoneSignup kakao_signup DEVICE kakao_world).2 with Ok p => Some p | Err _ => None end).
Lemma kakao_identity_roundtrip_witness :
  let w' := (completeKakaoPhoneSignup kakao_signup DEVICE kakao_world).1 in
  exists k u,
    k ∈ kakaoPhoneVerificationTokens (db kakao_world) /\ kakaoPhoneVerificationTokens.usedAt k = None /\
    kakaoPhoneVerificationTokens.tokenHash k = hashToken (ks_kakaoPhoneVerificationToken kakao_signup) /\
    kakao_spent (ks_kakaoPhoneVerificationToken kakao_signup) (kakaoPhoneVerificationTokens (db w')) /\
    has_session (users.userId u) DEVICE (refreshToken kakao_tokens) (db w') /\
    match truthy (kakaoPhoneVerificationTokens.userId k) with
    | Some userId => users.userId u = userId
    | None => (findUserByIdentity (js "kakao") (kakaoPhoneVerificationTokens.providerUserId k) w').2 = Ok (Some u)
    end.
Proof.
  cbv zeta. apply (kakao_identity_roundtrip kakao_signup DEVICE kakao_world).
  - apply NoDup_singleton.
  - vm_compute. reflexivity.
Defined.
Lemma credentials_normalized_witness :
  normalizeEmail (js " carol@example.com") token_world = (token_world, Ok (js "carol@example.com")) /\
  normalizeOptionalEmail (Some (js " carol@example.com")) = Some (js "carol@example.com").
Proof.
  assert (normalizeEmail (js " carol@example.com") token_world = (token_world, Ok (js "carol@example.com"))) as E
    by (vm_compute; reflexivity).
  split; [exact E|]. exact (proj2 (proj2 (proj2 (proj2 (proj2
    (proj1 (credentials_normalized (js " carol@example.com") token_world) token_world _ E)))))).
Defined.
End witnesses.
