(* ===== verification/Phone.v ===== *)
(** Phone verification: the code table and its quotas (phone.repository.ts), the
    SMS sender (sms.sender.ts), and requesting, checking and using a code
    (phone.service.ts). *)
From S2P Require Import Prelude JsString JsDate Json Libraries Schema World Constraints User AuthInput Auth.
Local Open Scope Z_scope.

(** * Data *)

Inductive PhoneVerificationPurpose := Signup | Login | PasswordReset.
Definition purpose_text (p : PhoneVerificationPurpose) : jstr :=
  match p with Signup => js "signup" | Login => js "login" | PasswordReset => js "password_reset" end.
Definition purposes : list jstr := map purpose_text [Signup; Login; PasswordReset].

Definition InvalidPhoneCode : jstr := js "인증번호가 잘못되었습니다.".
Definition PhoneCodeRetryTooSoon : jstr := js "인증번호 재요청은 60초 후 가능합니다.".
Definition PhoneRequestLimitExceeded : jstr := js "전화번호 요청 횟수를 초과했습니다.".
Definition IpRequestLimitExceeded : jstr := js "IP 요청 횟수를 초과했습니다.".
Definition PhoneCodeAttemptLimitExceeded : jstr := js "인증 실패 횟수를 초과했습니다.".
Definition KoreanPhoneOnly : jstr := js "한국 휴대폰 번호만 사용할 수 있습니다.".
Definition InvalidPhonePurpose : jstr := js "전화번호 인증 목적이 잘못되었습니다.".
Definition PhoneInvalidGender : jstr := js "성별이 잘못되었습니다.".
Definition PhonePhoneVerificationRequired : jstr := js "전화번호 인증이 필요합니다.".
Definition SmsSendFailed : jstr := js "인증번호 발송에 실패했습니다.".

Record RequestPhoneCodeInput := mkRequestCode { rq_phone : jstr; rq_purpose : jstr }.
Record VerifyPhoneCodeInput := mkVerifyCode { vc_phone : jstr; vc_code : jstr }.
Inductive VerifyPhoneCodePayload :=
| ExistingUser (tokenPayload : TokenPayload)
| NewPhone (phoneVerificationToken : jstr).
Record CompletePhoneSignupInput := mkPhoneSignup {
  ps_phoneVerificationToken : jstr; ps_email : jstr; ps_password : jstr; ps_userName : option jstr;
  ps_gender : option jstr; ps_termsAccepted : bool
}.
Record CompleteKakaoPhoneSignupInput := mkKakaoPhoneSignup {
  kp_phoneVerificationToken : option jstr; kp_kakaoPhoneVerificationToken : jstr; kp_userName : jstr;
  kp_gender : option jstr; kp_termsAccepted : bool
}.
Record ResetPasswordWithPhoneInput := mkResetPassword { rp_phone : jstr; rp_code : jstr; rp_password : jstr }.

(** * The repository *)

Section repository.
Context `{Env}.

Inductive VerificationReservation :=
| reserved (verification : PhoneVerification)
| retry_too_soon
| phone_limit
| ip_limit.

(** The newest first: [orderBy: [desc(createdAt), desc(id)]]. *)
Definition verification_newer (a b : PhoneVerification) : bool :=
  (phoneVerifications.createdAt b <? phoneVerifications.createdAt a)
  || ((phoneVerifications.createdAt b =? phoneVerifications.createdAt a)
      && str_ltb (phoneVerifications.id b) (phoneVerifications.id a)).
Definition verification_order (a b : PhoneVerification) : bool := negb (verification_newer b a).
(** [NOT EXISTS (SELECT 1 FROM "phoneVerification" AS newer ...)] *)
Definition isLatestVerification (l : list PhoneVerification) (r : PhoneVerification) : bool :=
  negb (existsb (fun newer => (phoneVerifications.phoneE164 newer =?? phoneVerifications.phoneE164 r)
                              && verification_newer newer r) l).

Definition of_phone (phoneE164 : jstr) (r : PhoneVerification) : bool := phoneVerifications.phoneE164 r =?? phoneE164.
Definition latestVerification (phoneE164 : jstr) : M (option PhoneVerification) :=
  findFirstBy phoneVerifications (of_phone phoneE164) verification_order.

Definition findUserByPhone (phoneE164 : jstr) : M (option User) :=
  findFirst users (fun u => users.phone u =?? Some phoneE164).

(** [floor(extract(epoch FROM clock_timestamp()) * 1000)] *)
Definition database_now_ms : M Z := us ← clock_timestamp; mret (us / 1000).

Definition reserveVerification (phoneE164 purpose requestIpHash userAgentHash : jstr)
    (cooldownMs phoneLimit ipLimit : Z) : M VerificationReservation :=
  transaction (
    now ← database_now_ms;
    require (isSafeInteger now) PlainError (js "DATABASE_CLOCK_UNAVAILABLE") ;;
    latest ← latestVerification phoneE164;
    if (if latest is Some l then now - of_column (phoneVerifications.createdAt l) <? cooldownMs else false)
    then mret retry_too_soon
    else
      let since := now - 60 * 60 * 1000 in
      phoneRequests ← select_count phoneVerifications
        (fun r => of_phone phoneE164 r && (to_column since <? phoneVerifications.createdAt r));
      if phoneLimit <=? phoneRequests then mret phone_limit
      else
        ipRequests ← select_count phoneVerifications
          (fun r => (phoneVerifications.requestIpHash r =?? Some requestIpHash)
                    && (to_column since <? phoneVerifications.createdAt r));
        if ipLimit <=? ipRequests then mret ip_limit
        else
          id ← randomUUID;
          verification ← insert phoneVerifications
            (phoneVerifications.mkPhoneVerification id phoneE164 (js "pending") purpose (to_column now) None 0
               (Some requestIpHash) (Some userAgentHash) (to_column now));
          mret (reserved verification)).

Definition activateVerification (id codeHash : jstr) (ttlMs : Z) : M (option PhoneVerification) :=
  clock ← clock_timestamp;
  d ← get_db;
  rows ← update phoneVerifications
    (fun r => (phoneVerifications.id r =?? id) && (phoneVerifications.codeHash r =?? js "pending")
              && isLatestVerification (phoneVerifications d) r)
    (fun r => r <| phoneVerifications.codeHash := codeHash |>
                <| phoneVerifications.expiresAt := clock + to_column ttlMs |>);
  mret (head rows).

Definition deleteVerification (id : jstr) : M unit :=
  delete_phoneVerifications (fun r => phoneVerifications.id r =?? id).

(** The row one attempt at a code may claim. *)
Definition claimable (id phoneE164 : jstr) (purposes : list jstr) (clock : Z) (l : list PhoneVerification)
    (r : PhoneVerification) : bool :=
  (phoneVerifications.id r =?? id) && of_phone phoneE164 r
  && bool_decide (phoneVerifications.purpose r ∈ purposes)
  && is_null (phoneVerifications.verifiedAt r)
  && (clock <? phoneVerifications.expiresAt r)
  && (phoneVerifications.attemptCount r <? 5)
  && isLatestVerification l r.
Definition claimVerificationAttempt (id phoneE164 : jstr) (purposes : list jstr) : M (option PhoneVerification) :=
  clock ← clock_timestamp;
  d ← get_db;
  rows ← update phoneVerifications (claimable id phoneE164 purposes clock (phoneVerifications d))
    (fun r => r <| phoneVerifications.attemptCount ::= fun n => n + 1 |>);
  mret (head rows).

(** The row a correct code verifies. *)
Definition verifiable (id : jstr) (clock : Z) (l : list PhoneVerification) (r : PhoneVerification) : bool :=
  (phoneVerifications.id r =?? id)
  && is_null (phoneVerifications.verifiedAt r)
  && (clock <? phoneVerifications.expiresAt r)
  && (0 <? phoneVerifications.attemptCount r)
  && isLatestVerification l r.
Definition markVerified (id : jstr) : M (option PhoneVerification) :=
  verifiedAt ← clock_timestamp;
  clock ← clock_timestamp;
  d ← get_db;
  rows ← update phoneVerifications (verifiable id clock (phoneVerifications d))
    (fun r => r <| phoneVerifications.verifiedAt := Some verifiedAt |>);
  mret (head rows).

Definition insertPhoneVerificationToken (token phoneE164 verificationId : jstr) (expiresAt : Z) : M unit :=
  createdAt ← clock_timestamp;
  insert phoneVerificationTokens
    (phoneVerificationTokens.mkPhoneVerificationToken (hashToken token) phoneE164 verificationId
       (to_column expiresAt) None createdAt) ;;
  mret tt.

Definition resetPasswordWithVerification (verificationId phoneE164 password : jstr) : M (option User) :=
  transaction (
    lockedUsers ← select users (fun u => users.phone u =?? Some phoneE164);
    match head lockedUsers with
    | None => mret None
    | Some lockedUser =>
        verifiedAt ← clock_timestamp;
        clock ← clock_timestamp;
        d ← get_db;
        verified ← update phoneVerifications
          (fun r => verifiable verificationId clock (phoneVerifications d) r && of_phone phoneE164 r
                    && (phoneVerifications.purpose r =?? js "password_reset"))
          (fun r => r <| phoneVerifications.verifiedAt := Some verifiedAt |>);
        match head verified with
        | None => mret None
        | Some _ =>
            updatedAt ← Date_now;
            updated ← update users (is_user (users.userId lockedUser))
              (fun u => u <| users.password := password |> <| users.updatedAt := to_column updatedAt |>);
            match head updated with
            | None => throw PlainError (js "PASSWORD_RESET_USER_UPDATE_FAILED")
            | Some user =>
                delete_from refreshTokens (fun r => refreshTokens.userId r =?? users.userId user) ;;
                mret (Some user)
            end
        end
    end).
End repository.

(** * The SMS sender *)

(** What the service relies on: sending writes nothing to the database. *)
Class SmsSender := {
  sendCode : jstr -> jstr -> M unit;
  sendCode_frame : forall phoneE164 code w w' r, sendCode phoneE164 code w = (w', r) -> db w' = db w
}.

Definition DevSmsSender_sendCode (phoneE164 code : jstr) : M unit := mret tt.

(** The JSON body of a message, and the provider behind [fetch]: the status of
    its answer, or an error or timeout of the request. *)
Record SmsBody := mkSmsBody { sms_to : jstr; sms_text : jstr; sms_senderId : option jstr }.
Class SmsProvider := {
  http_post : nat -> jstr -> option jstr -> SmsBody -> Z -> option Z;
  node_env : option jstr;
  number_of_text : jstr -> Z
}.

Section http_sender.
Context `{Env} `{ConfigService} `{SmsProvider}.

Definition post (url : jstr) (body : SmsBody) (timeoutMs : Z) (code : jstr) : M unit :=
  let authorization := truthy (config_string (js "SMS_PROVIDER_AUTHORIZATION")) in
  emit (SmsSent (sms_to body) code) ;;
  response ← oracle (fun n => http_post n url authorization body timeoutMs);
  match response with
  | None => throw PlainError (js "fetch failed")
  | Some status => require ((200 <=? status) && (status <=? 299)) PlainError
      (js "SMS provider failed: " ++ number_to_string (Z.to_N status))
  end.

(** [for (const attempt of [1, 2])]: the second failure is rethrown. *)
Definition HttpSmsSender_sendCode (phoneE164 code : jstr) : M unit :=
  url ← getOrThrow (config_string (js "SMS_PROVIDER_URL"));
  let authorization := config_string (js "SMS_PROVIDER_AUTHORIZATION") in
  require (negb ((node_env =?? Some (js "production")) && is_null (truthy authorization)))
    PlainError (js "SMS_PROVIDER_AUTHORIZATION is required") ;;
  let timeoutMs := if config_string (js "SMS_PROVIDER_TIMEOUT_MS") is Some t then number_of_text t else 3000 in
  let body := mkSmsBody phoneE164 (js "[Demo] 인증번호는 " ++ code ++ js "입니다.") (config_string (js "SMS_SENDER_ID")) in
  try_catch (post url body timeoutMs code) (fun _ => post url body timeoutMs code).
End http_sender.

(** * The service *)

Section service.
Context `{Env} `{ConfigService} `{JwtService} `{QueryErrors} `{SmsSender}.

(** [phone.replace(/\D/g, "")] *)
Definition digits_of (phone : jstr) : jstr := List.filter is_digit phone.
Definition normalizeKoreanPhone (phone : jstr) : M jstr :=
  let digits := digits_of phone in
  if startsWith (js "010") digits && (length digits =? 11)%nat then mret (js "+82" ++ drop 1 digits)
  else if startsWith (js "8210") digits && (length digits =? 12)%nat then mret (js "+" ++ digits)
  else throw CustomBadRequestException KoreanPhoneOnly.

Definition pepperedCode (phoneE164 code : jstr) : M jstr :=
  pepper ← getOrThrow (config_string (js "PHONE_CODE_PEPPER"));
  mret (phoneE164 ++ js ":" ++ code ++ js ":" ++ pepper).

Definition getUsableVerification (phoneE164 : jstr) (purpose : option jstr) : M PhoneVerification :=
  verification ← latestVerification phoneE164;
  match verification with
  | None => throw CustomUnauthorizedException InvalidPhoneCode
  | Some v =>
      require (is_null (phoneVerifications.verifiedAt v)) CustomUnauthorizedException InvalidPhoneCode ;;
      require (if truthy purpose is Some p then phoneVerifications.purpose v =?? p else true)
        CustomUnauthorizedException InvalidPhoneCode ;;
      require (phoneVerifications.attemptCount v <? 5) CustomTooManyRequestsException PhoneCodeAttemptLimitExceeded ;;
      mret v
  end.

Definition createPhoneVerificationToken (phoneE164 verificationId : jstr) : M jstr :=
  nonce ← randomUUID;
  secret ← getOrThrow (config_string (js "SIGNUP_TOKEN_SECRET"));
  token ← signAsync (PhoneClaims phoneE164 verificationId nonce) (mkJwtOptions None None secret (15 * 60));
  now ← Date_now;
  insertPhoneVerificationToken token phoneE164 verificationId (now + 15 * 60 * 1000) ;;
  mret token.

(** The code hashed, sent and made usable. *)
Definition deliverCode (phoneE164 code : jstr) (verification : PhoneVerification) : M unit :=
  peppered ← pepperedCode phoneE164 code;
  codeHash ← bcryptHash peppered;
  sendCode phoneE164 code ;;
  activated ← activateVerification (phoneVerifications.id verification) codeHash (5 * 60000);
  require (negb (is_null activated)) PlainError (js "PHONE_VERIFICATION_ACTIVATION_FAILED").

(** The sixth decimal digit is the last: [padStart(6, "0")]. *)
Definition six_digits (n : Z) : jstr := padStart 6 48%N (number_to_string (Z.to_N n)).

Definition requestPhoneCode (input : RequestPhoneCodeInput) (ip userAgent : option jstr) : M bool :=
  require (bool_decide (rq_purpose input ∈ purposes)) CustomBadRequestException InvalidPhonePurpose ;;
  phoneE164 ← normalizeKoreanPhone (rq_phone input);
  let requestIpHash := sha256_hex (default (js "no-ip") (truthy ip)) in
  n ← randomInt;
  let code := six_digits n in
  reservation ← reserveVerification phoneE164 (rq_purpose input) requestIpHash (sha256_hex (default [] userAgent))
                  60000 5 20;
  match reservation with
  | retry_too_soon => throw CustomTooManyRequestsException PhoneCodeRetryTooSoon
  | phone_limit => throw CustomTooManyRequestsException PhoneRequestLimitExceeded
  | ip_limit => throw CustomTooManyRequestsException IpRequestLimitExceeded
  | reserved verification =>
      try_catch (deliverCode phoneE164 code verification)
        (fun _ =>
           try_catch (deleteVerification (phoneVerifications.id verification)) (fun _ => mret tt) ;;
           throw CustomServiceUnavailableException SmsSendFailed) ;;
      mret true
  end.

(** One attempt at a code, counted before it is compared. *)
Definition attemptCode (verification : PhoneVerification) (phoneE164 code : jstr) (purposes : list jstr)
    : M PhoneVerification :=
  claimed ← claimVerificationAttempt (phoneVerifications.id verification) phoneE164 purposes;
  match claimed with
  | None => throw CustomUnauthorizedException InvalidPhoneCode
  | Some c =>
      peppered ← pepperedCode phoneE164 code;
      require (bcrypt_compare peppered (phoneVerifications.codeHash c)) CustomUnauthorizedException InvalidPhoneCode ;;
      mret c
  end.

Definition verifyPhoneCode (input : VerifyPhoneCodeInput) (deviceId : jstr) : M VerifyPhoneCodePayload :=
  phoneE164 ← normalizeKoreanPhone (vc_phone input);
  verification ← getUsableVerification phoneE164 None;
  require ((phoneVerifications.purpose verification =?? js "signup")
           || (phoneVerifications.purpose verification =?? js "login"))
    CustomUnauthorizedException InvalidPhoneCode ;;
  claimed ← attemptCode verification phoneE164 (vc_code input) [js "signup"; js "login"];
  verified ← markVerified (phoneVerifications.id claimed);
  match verified with
  | None => throw CustomUnauthorizedException InvalidPhoneCode
  | Some v =>
      user ← findUserByPhone phoneE164;
      match user with
      | Some u => tokens ← issueTokens u deviceId; mret (ExistingUser tokens)
      | None => token ← createPhoneVerificationToken phoneE164 (phoneVerifications.id v); mret (NewPhone token)
      end
  end.

Definition completePhoneSignup (input : CompletePhoneSignupInput) (deviceId : jstr) : M TokenPayload :=
  match isGender (default [] (trim <$> ps_gender input)) with
  | None => throw CustomBadRequestException PhoneInvalidGender
  | Some gender =>
      let userName :=
        match truthy (trim <$> ps_userName input), truthy (Some (before 64%N (ps_email input))) with
        | Some name, _ => name
        | None, Some local => local
        | None, None => js "user"
        end in
      signup (mkSignup (ps_email input) (ps_password input) userName gender
                (ps_phoneVerificationToken input) (ps_termsAccepted input)) deviceId
  end.

Definition phoneCompleteKakaoPhoneSignup (input : CompleteKakaoPhoneSignupInput) (deviceId : jstr) : M TokenPayload :=
  match isGender (default [] (trim <$> kp_gender input)) with
  | None => throw CustomBadRequestException PhoneInvalidGender
  | Some gender =>
      completeKakaoPhoneSignup
        (mkKakaoSignup (kp_phoneVerificationToken input) (kp_kakaoPhoneVerificationToken input) (kp_userName input)
           (Some gender) (kp_termsAccepted input)) deviceId
  end.

Definition resetPasswordWithPhone (input : ResetPasswordWithPhoneInput) : M bool :=
  nextPassword ← validatePassword (rp_password input);
  phoneE164 ← normalizeKoreanPhone (rp_phone input);
  verification ← getUsableVerification phoneE164 (Some (js "password_reset"));
  claimed ← attemptCode verification phoneE164 (rp_code input) [js "password_reset"];
  password ← bcryptHash nextPassword;
  user ← resetPasswordWithVerification (phoneVerifications.id claimed) phoneE164 password;
  match user with
  | None => throw CustomUnauthorizedException PhonePhoneVerificationRequired
  | Some _ => mret true
  end.
End service.
