(* ===== verification/PhoneProofs.v ===== *)
(** Phone verification: canonical numbers, the request quotas, the bound on
    attempts, and what a code can be used for. *)
From S2P Require Import Prelude JsString JsDate Json Libraries Schema World Constraints User UserProofs AuthInput Auth AuthProofs Phone NotificationApi Fixtures.
Local Open Scope Z_scope.

Section theorems.
Context `{Env} `{ConfigService} `{JwtService} `{QueryErrors} `{SmsSender}.

(** * Numbers *)

(** [+8210] and eight digits. *)
Definition e164 (p : jstr) : Prop := exists rest, p = js "+8210" ++ rest /\ length rest = 8%nat /\ Forall (fun u => is_digit u = true) rest.

Lemma digits_of_digits l : Forall (fun u => is_digit u = true) l -> digits_of l = l.
Proof. induction 1 as [|u l Hu _ IH]; [done|]. unfold digits_of in *. simpl. by rewrite Hu, IH. Qed.
Lemma digits_of_Forall s : Forall (fun u => is_digit u = true) (digits_of s).
Proof. apply Forall_forall. intros u. unfold digits_of. rewrite list_elem_of_In, filter_In. by intros [_ ?]. Qed.

Lemma normalize_ok s w w' p : normalizeKoreanPhone s w = (w', Ok p) -> w' = w /\ e164 p.
Proof.
  pose proof (digits_of_Forall s) as Hd. unfold normalizeKoreanPhone.
  destruct (startsWith (js "010") (digits_of s) && _) eqn:E1; [|destruct (startsWith (js "8210") (digits_of s) && _) eqn:E2];
    intros [= <- <-]; (split; [done|]).
  - apply andb_true_iff in E1 as [[t Ht]%startsWith_prefix Hl%Nat.eqb_eq]. rewrite Ht in *. exists t. split; [done|].
    split; [rewrite length_app in Hl; simpl in Hl; lia|]. by apply Forall_app in Hd as [_ ?].
  - apply andb_true_iff in E2 as [[t Ht]%startsWith_prefix Hl%Nat.eqb_eq]. rewrite Ht in *. exists t. split; [done|].
    split; [rewrite length_app in Hl; simpl in Hl; lia|]. by apply Forall_app in Hd as [_ ?].
Qed.

Lemma wp_normalizeKoreanPhone s w :
  wp (normalizeKoreanPhone s) (fun r w' => w' = w /\ forall p, r = Ok p -> e164 p) w.
Proof.
  apply run_wp. intros w' r E. assert (w' = w) as -> by (revert E; unfold normalizeKoreanPhone; repeat case_match; by intros [= <- _]).
  split; [done|]. intros p ->. by apply normalize_ok in E as [_ ?].
Qed.

(** Korean mobile numbers.  Only the digits of the input count; an accepted
    number is [+8210] and eight digits, normalizing it again gives it back, and
    the national and the international spelling of a number agree. *)
Theorem phone_numbers_canonical s w :
  (forall t, digits_of t = digits_of s -> normalizeKoreanPhone t w = normalizeKoreanPhone s w) /\
  (forall w' p, normalizeKoreanPhone s w = (w', Ok p) -> e164 p /\ normalizeKoreanPhone p w = (w, Ok p)) /\
  (forall rest, length rest = 8%nat -> Forall (fun u => is_digit u = true) rest ->
     normalizeKoreanPhone (js "010" ++ rest) w = (w, Ok (js "+8210" ++ rest)) /\
     normalizeKoreanPhone (js "+8210" ++ rest) w = (w, Ok (js "+8210" ++ rest))).
Proof.
  assert (forall rest, length rest = 8%nat -> Forall (fun u => is_digit u = true) rest ->
     normalizeKoreanPhone (js "010" ++ rest) w = (w, Ok (js "+8210" ++ rest)) /\
     normalizeKoreanPhone (js "+8210" ++ rest) w = (w, Ok (js "+8210" ++ rest))) as Hrest.
  { intros rest Hl Hd. unfold normalizeKoreanPhone.
    assert (digits_of (js "010" ++ rest) = js "010" ++ rest) as ->.
    { apply digits_of_digits, Forall_app. split; [|done]. by repeat constructor. }
    assert (digits_of (js "+8210" ++ rest) = js "8210" ++ rest) as -> by exact (f_equal (app (js "8210")) (digits_of_digits rest Hd)).
    rewrite !length_app, Hl. split; reflexivity. }
  split_and!; [|intros w' p E|done].
  - intros t E. unfold normalizeKoreanPhone. by rewrite E.
  - apply normalize_ok in E as [_ Hp]. split; [done|]. destruct Hp as (rest & -> & Hl & Hd). by apply Hrest.
Qed.

(** * Quotas *)

(** In every hour at most five codes for a phone and twenty for an address. *)
Definition in_window (key : PhoneVerification -> bool) (t : Z) (r : PhoneVerification) : bool :=
  key r && (to_column (t - msPerHour) <? phoneVerifications.createdAt r) && (phoneVerifications.createdAt r <=? to_column t).
Definition from_ip (requestIpHash : jstr) (r : PhoneVerification) : bool :=
  phoneVerifications.requestIpHash r =?? Some requestIpHash.
Definition rate_ok (l : list PhoneVerification) : Prop := forall t,
  (forall phone, countw (in_window (of_phone phone) t) l <= 5) /\ (forall ip, countw (in_window (from_ip ip) t) l <= 20).

(** Deleting codes, or changing anything but when, for whom and from where they
    were requested, keeps the quotas. *)
Lemma rate_ok_del p l : rate_ok l -> rate_ok (del p l).
Proof.
  intros Hr t. destruct (Hr t) as [Hp Hi]. split; intros k.
  - etransitivity; [apply countw_del|apply Hp].
  - etransitivity; [apply countw_del|apply Hi].
Qed.
Definition keeps_request (f : PhoneVerification -> PhoneVerification) : Prop := forall r,
  phoneVerifications.createdAt (f r) = phoneVerifications.createdAt r /\
  phoneVerifications.phoneE164 (f r) = phoneVerifications.phoneE164 r /\
  phoneVerifications.requestIpHash (f r) = phoneVerifications.requestIpHash r.
Lemma rate_ok_mapif p f l : keeps_request f -> rate_ok l -> rate_ok (mapif p f l).
Proof.
  intros Hf Hr t. destruct (Hr t) as [Hp Hi].
  split; intros k; (rewrite countw_mapif; [done|]); intros r _ _; destruct (Hf r) as (E1 & E2 & E3);
    unfold in_window, of_phone, from_ip; by rewrite E1, ?E2, ?E3.
Qed.

Lemma window_since key now t l :
  now <= t -> countw (in_window key t) l <= countw (fun r => key r && (to_column (now - 60 * 60 * 1000) <? phoneVerifications.createdAt r)) l.
Proof.
  intros Hnt. apply countw_mono. intros r _ [[Hk Ht]%andb_true_iff _]%andb_true_iff. rewrite Hk. simpl.
  unfold to_column, msPerHour in *. lia.
Qed.
Lemma window_snoc key now t (r : PhoneVerification) :
  phoneVerifications.createdAt r = to_column now -> (t < now -> in_window key t r = false).
Proof. intros Hr Hlt. unfold in_window. rewrite Hr. unfold to_column. destruct (key r); simpl; lia. Qed.

(** One more code within the limits. *)
Lemma window_append key now limit t l r :
  phoneVerifications.createdAt r = to_column now -> 0 < limit ->
  countw (in_window key t) l <= limit ->
  (key r = true -> countw (fun r => key r && (to_column (now - 60 * 60 * 1000) <? phoneVerifications.createdAt r)) l < limit) ->
  countw (in_window key t) (l ++ [r]) <= limit.
Proof.
  intros Hr Hpos Hold Hnew. rewrite countw_app, countw_cons. change (countw (in_window key t) []) with 0.
  destruct (Z_lt_le_dec t now) as [Hlt|Hle].
  - rewrite (window_snoc key now t r Hr Hlt). lia.
  - pose proof (window_since key now t l Hle). destruct (in_window key t r) eqn:Ew; [|lia].
    apply andb_true_iff in Ew as [[Hk _]%andb_true_iff _]. specialize (Hnew Hk). lia.
Qed.

(** What a reservation does: nothing, or one pending code within the limits. *)
Lemma wp_reserveVerification phone purpose ip agent w :
  wp (reserveVerification phone purpose ip agent 60000 5 20) (fun r w' =>
    match r with
    | Ok (reserved v) => exists now, db w' = (db w) <| phoneVerifications ::= fun l => l ++ [v] |> /\
        phoneVerifications.phoneE164 v = phone /\ phoneVerifications.requestIpHash v = Some ip /\
        phoneVerifications.codeHash v = js "pending" /\ phoneVerifications.createdAt v = to_column now /\
        phoneVerifications.expiresAt v = to_column now /\ phoneVerifications.attemptCount v = 0 /\
        phoneVerifications.id v ∉ map phoneVerifications.id (phoneVerifications (db w)) /\
        countw (fun r => of_phone phone r && (to_column (now - 60 * 60 * 1000) <? phoneVerifications.createdAt r))
          (phoneVerifications (db w)) < 5 /\
        countw (fun r => from_ip ip r && (to_column (now - 60 * 60 * 1000) <? phoneVerifications.createdAt r))
          (phoneVerifications (db w)) < 20
    | _ => db w' = db w
    end) w.
Proof.
  unfold reserveVerification, database_now_ms, latestVerification, select_count.
  wp_steps; try done; simpl; eexists; (split; [reflexivity|]); split_and!; try done; simpl in *; try (unfold from_ip; lia).
  all: match goal with Hc : existsb (phoneVerifications_conflict _) _ = false |- _ =>
    rewrite existsb_false in Hc; intros (r & Hr & Hid)%key_elem; specialize (Hc r Hr);
    unfold phoneVerifications_conflict in Hc; simpl in Hc; rewrite Hid, eqb_refl_true in Hc; done end.
Qed.

Lemma wp_sendCode phone code w : wp (sendCode phone code) (fun _ w' => db w' = db w) w.
Proof. apply run_wp. intros w' r. apply sendCode_frame. Qed.
Lemma wp_pepperedCode phone code w :
  wp (pepperedCode phone code) (fun r w' => w' = w /\ forall p, r = Ok p ->
    exists pepper, p = phone ++ js ":" ++ code ++ js ":" ++ pepper) w.
Proof. unfold pepperedCode, getOrThrow. destruct (config_string _) as [s|]; wp_steps; (split; [done|]); [|done]. intros ? [= <-]. by exists s. Qed.

(** The pending row [v], appended last, becomes the usable code or is taken back. *)
Definition usable_code (phone code : jstr) (v v' : PhoneVerification) : Prop :=
  exists n pepper clock, v' = v <| phoneVerifications.codeHash := bcrypt_hash n (phone ++ js ":" ++ code ++ js ":" ++ pepper) |>
                               <| phoneVerifications.expiresAt := clock + to_column 300000 |>.

Lemma mapif_last (p : PhoneVerification -> bool) f l v :
  (forall r, r ∈ l -> p r = false) -> mapif p f (l ++ [v]) = l ++ [if p v then f v else v].
Proof. intros Hn. rewrite mapif_app, mapif_id by done. reflexivity. Qed.

Lemma wp_activateVerification v codeHash ttlMs d0 w :
  db w = d0 <| phoneVerifications ::= fun l => l ++ [v] |> ->
  phoneVerifications.id v ∉ map phoneVerifications.id (phoneVerifications d0) ->
  wp (activateVerification (phoneVerifications.id v) codeHash ttlMs) (fun r w' =>
    (r = Ok None /\ db w' = db w) \/
    exists clock, let v' := v <| phoneVerifications.codeHash := codeHash |>
                              <| phoneVerifications.expiresAt := clock + to_column ttlMs |> in
      r = Ok (Some v') /\ db w' = d0 <| phoneVerifications ::= fun l => l ++ [v'] |>) w.
Proof.
  intros Ed Hid. unfold activateVerification. do 5 wp_step. apply wp_update. wp_step.
  match goal with |- context [mapif ?q ?g] => set (p := q); set (f := g) end. cbv beta iota.
  assert (forall r, r ∈ phoneVerifications d0 -> p r = false) as Hold.
  { intros r Hr. unfold p. rewrite bool_decide_eq_false_2; [done|]. intros E. apply Hid, key_elem. by exists r. }
  assert (forall q, (q = true -> False) -> q = false) as Hf by (by intros []).
  destruct (p v) eqn:Ev.
  - right. exists (pg_clock (tick w)). split.
    + simpl. rewrite Ed. simpl. by rewrite sel_app, (sel_none p _ Hold), sel_cons, Ev.
    + simpl. rewrite Ed. unfold upd at 1. simpl. rewrite mapif_last, Ev by done. reflexivity.
  - left. assert (forall r, r ∈ phoneVerifications (db w) -> p r = false) as Hall.
    { intros r. rewrite Ed. simpl. rewrite elem_of_app, list_elem_of_singleton. intros [?| ->]; auto. }
    split.
    + simpl. by rewrite (sel_none p _ Hall).
    + simpl. by apply (update_none phoneVerifications).
Qed.

Lemma wp_deliverCode phone code v d0 w :
  db w = d0 <| phoneVerifications ::= fun l => l ++ [v] |> ->
  phoneVerifications.id v ∉ map phoneVerifications.id (phoneVerifications d0) ->
  wp (deliverCode phone code v) (fun r w' =>
    match r with
    | Ok _ => exists v', usable_code phone code v v' /\ db w' = d0 <| phoneVerifications ::= fun l => l ++ [v'] |>
    | Err _ => db w' = db w
    end) w.
Proof.
  intros Ed Hid. unfold deliverCode. wp_step. eapply wp_mono; [apply wp_pepperedCode|].
  intros [peppered|e] w1 [-> Hp]; [|done]. destruct (Hp _ eq_refl) as [pepper Epep]. do 3 wp_step.
  eapply wp_mono; [apply wp_sendCode|]. intros [[]|e] w2; simpl; [intros E2|done]. wp_step.
  eapply wp_mono; [apply (wp_activateVerification v _ _ d0); [by rewrite E2|done]|].
  intros r w3 [[-> E3]|(clock & -> & E3)]; wp_step; intros Hn; try done; [by rewrite E3|].
  eexists. split; [|exact E3]. by exists (tick w), pepper, clock; rewrite <- Epep.
Qed.

(** Every issued token names a stored verification (a foreign key). *)
Definition token_refs (d : Db) : Prop := forall t, t ∈ phoneVerificationTokens d ->
  phoneVerificationTokens.verificationId t ∈ map phoneVerifications.id (phoneVerifications d).

Lemma wp_deleteVerification v d0 w :
  db w = d0 <| phoneVerifications ::= fun l => l ++ [v] |> -> token_refs d0 ->
  phoneVerifications.id v ∉ map phoneVerifications.id (phoneVerifications d0) ->
  wp (deleteVerification (phoneVerifications.id v)) (fun r w' => r = Ok tt /\ db w' = d0) w.
Proof.
  intros Ed Hrefs Hid. unfold deleteVerification, delete_phoneVerifications. do 2 wp_step.
  assert (existsb (fun t => existsb (fun x => (phoneVerifications.id x =?? phoneVerifications.id v)
            && (phoneVerifications.id x =?? phoneVerificationTokens.verificationId t)) (phoneVerifications (db w)))
            (phoneVerificationTokens (db w)) = false) as Hno.
  { apply existsb_false. intros t Ht. apply existsb_false. intros x _. apply not_true_is_false.
    intros [E1 E2]%andb_true_iff. rewrite bool_decide_eq_true in E1, E2. rewrite Ed in Ht.
    apply Hid. rewrite <- E1, E2. by apply Hrefs. }
  simpl in Hno. rewrite Hno. wp_step. split; [done|]. simpl. rewrite Ed.
  transitivity (d0 <| phoneVerifications := phoneVerifications d0 |>); [|by destruct d0].
  unfold upd at 1. simpl. f_equal. rewrite del_app, del_none.
  - rewrite del_cons, eqb_refl_true. by rewrite app_nil_r.
  - intros r Hr. apply bool_decide_eq_false. intros E. apply Hid, key_elem. by exists r.
Qed.

(** A request that was answered: one new code, within the limits, sent by SMS. *)
Definition code_requested (phone ip code : jstr) (d d' : Db) : Prop := exists now v v',
  phoneVerifications.phoneE164 v = phone /\ phoneVerifications.requestIpHash v = Some ip /\
  phoneVerifications.createdAt v = to_column now /\ phoneVerifications.attemptCount v = 0 /\
  usable_code phone code v v' /\ d' = d <| phoneVerifications ::= fun l => l ++ [v'] |> /\
  countw (fun r => of_phone phone r && (to_column (now - 60 * 60 * 1000) <? phoneVerifications.createdAt r))
    (phoneVerifications d) < 5 /\
  countw (fun r => from_ip ip r && (to_column (now - 60 * 60 * 1000) <? phoneVerifications.createdAt r))
    (phoneVerifications d) < 20.

Lemma wp_requestPhoneCode input ip agent w :
  token_refs (db w) ->
  wp (requestPhoneCode input ip agent) (fun r w' =>
    match r with
    | Ok _ => exists phone n, e164 phone /\ rq_purpose input ∈ purposes /\
        code_requested phone (sha256_hex (default (js "no-ip") (truthy ip))) (six_digits n) (db w) (db w')
    | Err e => db w' = db w
    end) w.
Proof.
  intros Hrefs. unfold requestPhoneCode. wp_step. wp_step; intros Hpurp; [|done]. wp_step.
  eapply wp_mono; [apply wp_normalizeKoreanPhone|]. intros [phone|e] w1 [-> Hphone]; [|done]. cbv zeta. do 3 wp_step.
  eapply wp_mono; [apply wp_reserveVerification|]. rewrite bool_decide_eq_true in Hpurp.
  intros [[v| | |]|e] w2; try (intros E2; wp_step; exact E2); [|done].
  intros (now & E2 & Hp & Hip & _ & Hc & _ & Ha & Hid & Hn1 & Hn2). simpl in E2. wp_step. wp_step.
  eapply wp_mono; [apply (wp_deliverCode _ _ v (db w)); [done|exact Hid]|]. intros [[]|e] w3; [intros (v' & Hv & E3)|intros E3].
  - wp_step. exists phone, (random_int (tick w)). split; [auto|]. split; [done|]. exists now, v, v'. by split_and!.
  - do 2 wp_step. eapply wp_mono; [apply (wp_deleteVerification v (db w)); [by rewrite E3|done|exact Hid]|].
    intros r w4 [-> E4]. by wp_step.
Qed.

(** C20: request quotas.  However often a code is requested, every hour sees at
    most five codes per phone and twenty per address: a request keeps the quota
    whether it is answered or refused, and whether or not the SMS goes out. *)
Theorem request_rate_limited input ip agent w w' r :
  token_refs (db w) -> rate_ok (phoneVerifications (db w)) ->
  requestPhoneCode input ip agent w = (w', r) -> rate_ok (phoneVerifications (db w')).
Proof.
  intros Hrefs Hrate E. to_wp E. eapply wp_mono; [by apply wp_requestPhoneCode|].
  intros [b|e] w'; [|by intros ->]. intros (phone & n & _ & _ & now & v & v' & Hp & Hip & Hc & _ & Hu & -> & Hn1 & Hn2).
  destruct Hu as (m & pepper & clock & ->). intros t. destruct (Hrate t) as [Hop Hoi]. simpl.
  split; intros k; (eapply window_append; [exact Hc|lia|done|]); simpl; intros Hk.
  - unfold of_phone in Hk. simpl in Hk. rewrite bool_decide_eq_true in Hk. by rewrite <- Hk, Hp.
  - unfold from_ip in Hk. simpl in Hk. rewrite bool_decide_eq_true in Hk. rewrite Hip in Hk. by injection Hk as <-.
Qed.

(** A code request is all or nothing.  It either stores exactly one new code
    for a canonical number, hashed with the pepper and valid for five minutes, or
    fails - for a quota, the SMS provider or a lost race - and leaves the database
    as it was. *)
Theorem request_all_or_nothing input ip agent w w' r :
  token_refs (db w) -> requestPhoneCode input ip agent w = (w', r) ->
  match r with
  | Ok _ => exists phone n, e164 phone /\ rq_purpose input ∈ purposes /\
      code_requested phone (sha256_hex (default (js "no-ip") (truthy ip))) (six_digits n) (db w) (db w')
  | Err e => db w' = db w
  end.
Proof. intros Hrefs E. to_wp E. by apply wp_requestPhoneCode. Qed.

(** * Attempts *)

Definition verification_keys (d : Db) : Prop := NoDup (map phoneVerifications.id (phoneVerifications d)).
Definition attempts_ok (l : list PhoneVerification) : Prop :=
  Forall (fun r => 0 <= phoneVerifications.attemptCount r <= 5) l.

(** The newest code of a phone, by [createdAt] and then [id]. *)
Lemma verification_total : total_order verification_order.
Proof.
  unfold verification_order, verification_newer. split.
  - intros a b Hab%negb_false_iff. apply negb_true_iff.
    destruct (Z.lt_trichotomy (phoneVerifications.createdAt a) (phoneVerifications.createdAt b)) as [Hc|[Hc|Hc]].
    + apply orb_false_iff. split; [apply Z.ltb_ge; lia|]. rewrite (proj2 (Z.eqb_neq _ _)) by lia. done.
    + rewrite Hc, Z.ltb_irrefl, Z.eqb_refl in *. simpl in *. by apply str_ltb_asym.
    + exfalso. apply orb_true_iff in Hab as [Hab|Hab]; [lia|]. apply andb_true_iff in Hab as [Hab _]. lia.
  - intros a b c [Hg1%Z.ltb_ge Hs1]%negb_true_iff%orb_false_iff [Hg2%Z.ltb_ge Hs2]%negb_true_iff%orb_false_iff.
    apply negb_true_iff, orb_false_iff. split; [apply Z.ltb_ge; lia|].
    destruct (phoneVerifications.createdAt a =? phoneVerifications.createdAt c) eqn:E; [|done]. apply Z.eqb_eq in E.
    rewrite (proj2 (Z.eqb_eq _ _)) in Hs1 by lia. rewrite (proj2 (Z.eqb_eq _ _)) in Hs2 by lia. simpl in *.
    by apply (str_ltb_trans _ (phoneVerifications.id b)).
Qed.

Definition latest (d : Db) (phone : jstr) : option PhoneVerification :=
  head (order_by verification_order (sel (of_phone phone) (phoneVerifications d))).

Lemma latest_elem d phone v : latest d phone = Some v -> v ∈ phoneVerifications d /\ phoneVerifications.phoneE164 v = phone.
Proof.
  unfold latest. intros Hv. assert (v ∈ sel (of_phone phone) (phoneVerifications d)) as Hin.
  { apply (elem_of_order_by verification_order). destruct (order_by _ _); [done|]. injection Hv as ->. by left. }
  apply elem_of_sel in Hin as [? Hp]. unfold of_phone in Hp. by rewrite bool_decide_eq_true in Hp.
Qed.
Lemma latest_isLatest d phone v : latest d phone = Some v -> isLatestVerification (phoneVerifications d) v = true.
Proof.
  intros Hv. pose proof (latest_elem _ _ _ Hv) as [_ Hp]. apply negb_true_iff, existsb_false. intros x Hx.
  apply not_true_is_false. intros [Hxp Hn]%andb_true_iff. rewrite bool_decide_eq_true in Hxp.
  assert (x ∈ sel (of_phone phone) (phoneVerifications d)) as Hin.
  { apply elem_of_sel. split; [done|]. apply bool_decide_eq_true. congruence. }
  destruct (order_by_head _ _ _ verification_total Hv x Hin) as [->|Hle].
  - unfold verification_newer in Hn. by rewrite Z.ltb_irrefl, str_ltb_irrefl, andb_false_r in Hn.
  - unfold verification_order in Hle. by rewrite Hn in Hle.
Qed.

Definition count_attempt (r : PhoneVerification) : PhoneVerification :=
  r <| phoneVerifications.attemptCount ::= fun n => n + 1 |>.

(** The codes after an attempt at the code [id]: as before, or with one attempt
    more on that code, which was below the limit. *)
Definition attempted (id : jstr) (l l' : list PhoneVerification) : Prop :=
  l' = l \/ exists p, (forall r, p r = true -> phoneVerifications.id r = id /\ phoneVerifications.attemptCount r < 5) /\
              l' = mapif p count_attempt l.

Lemma attempted_ok id l l' : attempted id l l' -> attempts_ok l -> attempts_ok l'.
Proof.
  intros [->|(p & Hp & ->)] Hl; [done|]. apply Forall_mapif; [done|]. intros r _ Hr Hpr.
  destruct (Hp r Hpr). simpl. lia.
Qed.

Definition only_codes (d d' : Db) : Prop := d' = d <| phoneVerifications := phoneVerifications d' |>.
Lemma only_codes_refl d : only_codes d d.
Proof. by destruct d. Qed.
Lemma only_codes_upd f d : only_codes d (upd phoneVerifications f d).
Proof. by destruct d. Qed.
#[local] Hint Resolve only_codes_refl only_codes_upd : core.

Lemma claimable_spec id phone ps clock l r :
  claimable id phone ps clock l r = true <->
  phoneVerifications.id r = id /\ phoneVerifications.phoneE164 r = phone /\ phoneVerifications.purpose r ∈ ps /\
  phoneVerifications.verifiedAt r = None /\ clock < phoneVerifications.expiresAt r /\
  phoneVerifications.attemptCount r < 5 /\ isLatestVerification l r = true.
Proof.
  unfold claimable, of_phone. rewrite !andb_true_iff, !bool_decide_eq_true, is_null_true, !Z.ltb_lt. tauto.
Qed.

Lemma latest_mapif d d' phone p f :
  (forall r, phoneVerifications.createdAt (f r) = phoneVerifications.createdAt r /\
     phoneVerifications.phoneE164 (f r) = phoneVerifications.phoneE164 r /\
     phoneVerifications.id (f r) = phoneVerifications.id r) ->
  phoneVerifications d' = mapif p f (phoneVerifications d) ->
  latest d' phone = (fun v => if p v then f v else v) <$> latest d phone.
Proof.
  intros Hf E. unfold latest. rewrite E. unfold mapif. rewrite sel_map.
  - rewrite order_by_map; [by destruct (order_by _ _)|]. intros a b. unfold verification_order, verification_newer.
    destruct (Hf a) as (Ea1 & _ & Ea2), (Hf b) as (Eb1 & _ & Eb2).
    destruct (p a), (p b); by rewrite ?Ea1, ?Ea2, ?Eb1, ?Eb2.
  - intros a. unfold of_phone. destruct (Hf a) as (_ & Ea & _). destruct (p a); by rewrite ?Ea.
Qed.

Lemma wp_attemptCode v phone code ps w :
  verification_keys (db w) -> v ∈ phoneVerifications (db w) ->
  wp (attemptCode v phone code ps) (fun r w' =>
    only_codes (db w) (db w') /\
    attempted (phoneVerifications.id v) (phoneVerifications (db w)) (phoneVerifications (db w')) /\
    match r with
    | Ok c => c = count_attempt v /\ verification_keys (db w') /\
        (latest (db w) phone = Some v -> latest (db w') phone = Some c) /\ phoneVerifications.purpose v ∈ ps /\
        phoneVerifications.verifiedAt v = None /\
        (exists pepper, bcrypt_compare (phone ++ js ":" ++ code ++ js ":" ++ pepper) (phoneVerifications.codeHash v) = true)
    | Err _ => True
    end) w.
Proof.
  intros Hk Hv. unfold attemptCode, claimVerificationAttempt. do 6 wp_step. apply wp_update. wp_step. simpl.
  set (p := claimable _ _ _ _ _).
  assert (attempted (phoneVerifications.id v) (phoneVerifications (db w)) (mapif p count_attempt (phoneVerifications (db w)))) as Hat.
  { right. exists p. split; [|done]. intros r (? & _ & _ & _ & _ & ? & _)%claimable_spec. done. }
  destruct (sel p _) as [|c0 l] eqn:Es; simpl; [by wp_step|].
  assert (c0 ∈ sel p (phoneVerifications (db w))) as Hc0 by (rewrite Es; set_solver).
  apply elem_of_sel in Hc0 as [Hin Hc]. apply claimable_spec in Hc as Hc'. destruct Hc' as (Hid & _ & Hps & Hun & _).
  assert (c0 = v) as -> by (by apply (keys_inj phoneVerifications.id (phoneVerifications (db w)))).
  wp_step. eapply wp_mono; [apply wp_pepperedCode|]. intros [peppered|e] w1 [-> Hp]; [|done].
  destruct (Hp _ eq_refl) as [pepper ->]. wp_step. wp_step; intros Hcmp; [|done]. wp_step.
  split; [done|]. split; [done|]. split_and!; [done| | |done|done|by exists pepper].
  - unfold verification_keys. simpl. by rewrite keys_mapif.
  - intros Hl. rewrite (latest_mapif (db w) _ phone p count_attempt); [|by intros|done]. rewrite Hl. simpl. by rewrite Hc.
Qed.

Lemma wp_getUsableVerification phone purpose w :
  wp (getUsableVerification phone purpose) (fun r w' => w' = w /\
    match r with
    | Ok v => latest (db w) phone = Some v /\ phoneVerifications.verifiedAt v = None /\
        phoneVerifications.attemptCount v < 5 /\ (forall p, truthy purpose = Some p -> phoneVerifications.purpose v = p)
    | Err _ => True
    end) w.
Proof.
  unfold getUsableVerification, latestVerification. do 2 wp_step. change (head _) with (latest (db w) phone).
  destruct (latest (db w) phone) as [v|]; [|by wp_step]. wp_step. wp_step; intros Hv; [|done]. wp_step.
  wp_step; intros Hp; [|done]. wp_step. wp_step; intros Ha; [|done]. wp_step.
  split; [done|]. split_and!; [done|by apply is_null_true|by apply Z.ltb_lt|].
  intros p Ep. rewrite Ep in Hp. by rewrite bool_decide_eq_true in Hp.
Qed.

(** A phone whose newest code is used, or has been tried five times, is locked
    until a new code is requested. *)
Lemma locked_out phone purpose w v :
  latest (db w) phone = Some v ->
  is_Some (phoneVerifications.verifiedAt v) \/ 5 <= phoneVerifications.attemptCount v ->
  forall A (k : PhoneVerification -> M A), wp (x ← getUsableVerification phone purpose; k x)
    (fun r w' => db w' = db w /\ exists e, r = Err e) w.
Proof.
  intros Hl Hv A k. wp_step. eapply wp_mono; [apply wp_getUsableVerification|].
  intros [v'|e] w' [-> Hr]; [|by eauto]. destruct Hr as (Hl' & Hn & Ha & _). rewrite Hl in Hl'. injection Hl' as <-.
  destruct Hv as [[? Hs]|Hge]; [congruence|lia].
Qed.

Definition set_verified (t : Z) (r : PhoneVerification) : PhoneVerification :=
  r <| phoneVerifications.verifiedAt := Some t |>.

Lemma verifiable_spec id clock l r :
  verifiable id clock l r = true <->
  phoneVerifications.id r = id /\ phoneVerifications.verifiedAt r = None /\ clock < phoneVerifications.expiresAt r /\
  0 < phoneVerifications.attemptCount r /\ isLatestVerification l r = true.
Proof. unfold verifiable. rewrite !andb_true_iff, bool_decide_eq_true, is_null_true, !Z.ltb_lt. tauto. Qed.

Lemma wp_markVerified id w :
  verification_keys (db w) ->
  wp (markVerified id) (fun r w' =>
    match r with
    | Ok (Some v') => only_codes (db w) (db w') /\ exists v t p, v ∈ phoneVerifications (db w) /\ p v = true /\
        phoneVerifications.id v = id /\ v' = set_verified t v /\
        phoneVerifications (db w') = mapif p (set_verified t) (phoneVerifications (db w))
    | Ok None => db w' = db w
    | Err _ => False
    end) w.
Proof.
  intros Hk. unfold markVerified. do 7 wp_step. apply wp_update. wp_step. simpl. set (p := verifiable _ _ _).
  destruct (sel p _) as [|v l] eqn:Es; simpl.
  - by apply (update_none phoneVerifications), sel_nil.
  - assert (v ∈ sel p (phoneVerifications (db w))) as Hv by (rewrite Es; set_solver).
    apply elem_of_sel in Hv as [Hin Hv]. split; [done|]. exists v, (pg_clock (tick w)), p. split_and!; try done.
    by apply verifiable_spec in Hv as [? _].
Qed.

Lemma wp_createPhoneVerificationToken phone id w :
  wp (createPhoneVerificationToken phone id) (fun r w' =>
    match r with
    | Ok token => phoneVerifications (db w') = phoneVerifications (db w) /\
        exists t, t ∈ phoneVerificationTokens (db w') /\ phoneVerificationTokens.tokenHash t = hashToken token /\
          phoneVerificationTokens.phoneE164 t = phone /\ phoneVerificationTokens.usedAt t = None
    | Err _ => db w' = db w
    end) w.
Proof.
  unfold createPhoneVerificationToken, getOrThrow, insertPhoneVerificationToken. do 3 wp_step.
  destruct (config_string _) as [secret|]; [|by wp_steps]. do 2 wp_step.
  eapply wp_mono; [apply wp_signAsync|]. intros [token|e] w1 [E1 _]; [|done].
  wp_steps; try done; simpl in *; [|by rewrite E1..]. rewrite E1. split; [done|]. eexists.
  split; [apply elem_of_app; right; by left|done].
Qed.

(** What a code was good for. *)
Definition code_accepted (phone code : jstr) (ps : list jstr) (v : PhoneVerification) (d : Db) : Prop :=
  e164 phone /\ latest d phone = Some v /\ phoneVerifications.verifiedAt v = None /\
  phoneVerifications.attemptCount v < 5 /\ phoneVerifications.purpose v ∈ ps /\
  exists pepper, bcrypt_compare (phone ++ js ":" ++ code ++ js ":" ++ pepper) (phoneVerifications.codeHash v) = true.

Lemma wp_verifyPhoneCode input deviceId w :
  verification_keys (db w) ->
  wp (verifyPhoneCode input deviceId) (fun r w' =>
    (attempts_ok (phoneVerifications (db w)) -> attempts_ok (phoneVerifications (db w'))) /\
    match r with
    | Ok out => exists phone v v', code_accepted phone (vc_code input) [js "signup"; js "login"] v (db w) /\
        normalizeKoreanPhone (vc_phone input) w = (w, Ok phone) /\
        latest (db w') phone = Some v' /\ is_Some (phoneVerifications.verifiedAt v') /\
        match out with
        | ExistingUser tokens => exists u, u ∈ users (db w) /\ users.phone u = Some phone /\
            has_session (users.userId u) deviceId (refreshToken tokens) (db w')
        | NewPhone token => (forall u, u ∈ users (db w) -> users.phone u <> Some phone) /\
            exists t, t ∈ phoneVerificationTokens (db w') /\ phoneVerificationTokens.tokenHash t = hashToken token /\
              phoneVerificationTokens.phoneE164 t = phone /\ phoneVerificationTokens.usedAt t = None
        end
    | Err _ => only_codes (db w) (db w')
    end) w.
Proof.
  intros Hk. unfold verifyPhoneCode. wp_step. apply run_wp. intros w0 r0 E0.
  assert (w0 = w) as -> by (by destruct (wp_elim _ _ _ (wp_normalizeKoreanPhone _ _) _ _ E0)).
  destruct r0 as [phone|e]; [|done]. pose proof (normalize_ok _ _ _ _ E0) as [_ He]. wp_step.
  eapply wp_mono; [apply wp_getUsableVerification|]. intros [v|e] w1 [-> Hv]; [|done].
  destruct Hv as (Hl & Hun & Hlt & _). pose proof (latest_elem _ _ _ Hl) as [Hin Hp].
  wp_step. wp_step; intros _; [|done]. wp_step.
  eapply wp_mono; [by apply wp_attemptCode|]. intros [c|e] w2 (Ho & Hat & Hr).
  2: { split; [|done]. by apply attempted_ok with (1 := Hat). }
  destruct Hr as (-> & Hk2 & Hl2 & Hps & _ & Hcmp). specialize (Hl2 Hl).
  assert (attempts_ok (phoneVerifications (db w)) -> attempts_ok (phoneVerifications (db w2))) as Hok2
    by (by apply attempted_ok with (1 := Hat)).
  wp_step. eapply wp_mono; [by apply wp_markVerified|]. intros [[v'|]|e] w3; [|intros E3; wp_step; by rewrite E3|done].
  intros (Ho3 & v2 & t & p & Hv2 & Hpv & Hid2 & -> & Etab).
  assert (attempts_ok (phoneVerifications (db w)) -> attempts_ok (phoneVerifications (db w3))) as Hok3.
  { intros Hok. rewrite Etab. apply Forall_mapif; [by apply Hok2|by intros]. }
  assert (latest (db w3) phone = Some (set_verified t v2)) as Hl3.
  { rewrite (latest_mapif (db w2) (db w3) phone p (set_verified t)); [|by intros|exact Etab].
    assert (v2 = count_attempt v) as -> by (destruct (latest_elem _ _ _ Hl2);
      by apply (keys_inj phoneVerifications.id (phoneVerifications (db w2)))).
    rewrite Hl2. simpl. by rewrite Hpv. }
  assert (only_codes (db w) (db w3)) as Hoc.
  { unfold only_codes in *. rewrite Ho3 at 1. rewrite Ho. by destruct (db w). }
  assert (code_accepted phone (vc_code input) [js "signup"; js "login"] v (db w)) as Hacc by (by split_and!).
  unfold findUserByPhone. wp_step. apply wp_findFirst. destruct (first _ _) as [u|] eqn:Eu; wp_step.
  - apply first_Some in Eu as [Hu Hph]. rewrite bool_decide_eq_true in Hph. rewrite Hoc in Hu. simpl in Hu.
    eapply wp_mono; [apply wp_issueTokens|]. intros [tokens|e] w4.
    + intros [Hs Hsess]. wp_step. unfold only_sessions in Hs. split; [by rewrite Hs|].
      exists phone, v, (set_verified t v2). split; [done|]. split; [done|].
      split; [unfold latest in *; by rewrite Hs|]. split; [by eexists|]. by exists u.
    + intros ->. split; [done|exact Hoc].
  - rewrite first_None in Eu. rewrite Hoc in Eu. simpl in Eu.
    eapply wp_mono; [apply wp_createPhoneVerificationToken|]. intros [token|e] w4; [|intros ->; by split].
    intros (Hv4 & tk & Htk). wp_step. split; [by rewrite Hv4|]. exists phone, v, (set_verified t v2).
    split; [done|]. split; [done|]. split; [unfold latest in *; by rewrite Hv4|]. split; [by eexists|].
    split; [|by exists tk]. intros u Hu Hph. specialize (Eu u Hu). by rewrite bool_decide_eq_false in Eu.
Qed.

(** A locked phone refuses every code for sign-in and for a password reset. *)
Definition phone_locked (phone : jstr) (d : Db) : Prop := exists v, latest d phone = Some v /\
  (is_Some (phoneVerifications.verifiedAt v) \/ 5 <= phoneVerifications.attemptCount v).

Lemma verify_locked input deviceId phone w :
  normalizeKoreanPhone (vc_phone input) w = (w, Ok phone) -> phone_locked phone (db w) ->
  refused (verifyPhoneCode input deviceId) w.
Proof.
  intros En (v & Hl & Hv). apply refused_wp. unfold verifyPhoneCode. wp_step.
  apply (wp_pure_at _ _ _ _ En). by eapply locked_out.
Qed.
Lemma reset_locked input phone w :
  normalizeKoreanPhone (rp_phone input) w = (w, Ok phone) -> phone_locked phone (db w) ->
  refused (resetPasswordWithPhone input) w.
Proof.
  intros En (v & Hl & Hv). apply refused_wp. unfold resetPasswordWithPhone. wp_step.
  eapply wp_mono; [apply wp_validatePassword|]. intros [pw|e] w1 [-> _]; [|by eauto]. wp_step.
  apply (wp_pure_at _ _ _ _ En). by eapply locked_out.
Qed.
Lemma normalize_any s w w1 phone : normalizeKoreanPhone s w = (w, Ok phone) -> normalizeKoreanPhone s w1 = (w1, Ok phone).
Proof. unfold normalizeKoreanPhone. repeat case_match; intros [= <-]; done. Qed.

(** * Resetting the password *)

Definition set_password (password : jstr) (t : Z) (u : User) : User :=
  u <| users.password := password |> <| users.updatedAt := t |>.

Lemma wp_resetPasswordWithVerification id phone password w :
  wp (resetPasswordWithVerification id phone password) (fun r w' =>
    match r with
    | Ok (Some _) => exists u0 v p tv tu, u0 ∈ users (db w) /\ users.phone u0 = Some phone /\
        v ∈ phoneVerifications (db w) /\ p v = true /\ phoneVerifications.id v = id /\
        phoneVerifications (db w') = mapif p (set_verified tv) (phoneVerifications (db w)) /\
        users (db w') = mapif (is_user (users.userId u0)) (set_password password tu) (users (db w)) /\
        refreshTokens (db w') = del (fun r => refreshTokens.userId r =?? users.userId u0) (refreshTokens (db w))
    | _ => db w' = db w
    end) w.
Proof.
  unfold resetPasswordWithVerification. do 3 wp_step.
  destruct (sel _ (users (db w))) as [|u0 us] eqn:Eu; simpl; [by wp_step|].
  assert (u0 ∈ sel (fun u => users.phone u =?? Some phone) (users (db w))) as Hu0 by (rewrite Eu; set_solver).
  apply elem_of_sel in Hu0 as [Hu0 Hph]. rewrite bool_decide_eq_true in Hph.
  do 7 wp_step. apply wp_update. match goal with |- context [mapif ?q ?g] => set (p := q) end. simpl.
  destruct (sel p _) as [|v l] eqn:Es; simpl.
  - wp_step. simpl. by apply (update_none phoneVerifications), sel_nil.
  - assert (v ∈ sel p (phoneVerifications (db w))) as Hv by (rewrite Es; set_solver).
    apply elem_of_sel in Hv as [Hin Hpv]. assert (phoneVerifications.id v = id) as Hid.
    { pose proof Hpv as [[Hver _]%andb_true_iff _]%andb_true_iff. by apply verifiable_spec in Hver as [? _]. }
    do 4 wp_step. simpl. destruct (sel (is_user (users.userId u0)) _) as [|u1 us'] eqn:Eu1; simpl.
    { by wp_step. }
    assert (u1 ∈ sel (is_user (users.userId u0)) (users (db w))) as Hu1 by (rewrite Eu1; set_solver).
    apply elem_of_sel in Hu1 as [_ Hu1]. unfold is_user in Hu1. rewrite bool_decide_eq_true in Hu1.
    do 3 wp_step. exists u0, v, p, (pg_clock (tick w)), (to_column (date_now (S (S (tick w))))). simpl.
    split_and!; try done. by rewrite Hu1.
Qed.

(** What a reset does to the account holding the number: a new password hash, no
    session left; other accounts are as before. *)
Definition password_replaced (phone password : jstr) (d d' : Db) : Prop := exists u0, u0 ∈ users d /\ users.phone u0 = Some phone /\
  (forall u, u ∈ users d' -> users.userId u = users.userId u0 -> exists n, users.password u = bcrypt_hash n password) /\
  (forall u, u ∈ users d -> users.userId u <> users.userId u0 -> u ∈ users d') /\
  absent refreshTokens (fun r => refreshTokens.userId r =?? users.userId u0) d'.

Lemma wp_resetPasswordWithPhone input w :
  verification_keys (db w) ->
  wp (resetPasswordWithPhone input) (fun r w' =>
    (attempts_ok (phoneVerifications (db w)) -> attempts_ok (phoneVerifications (db w'))) /\
    match r with
    | Ok _ => 8 <= byteLength (rp_password input) <= 72 /\ exists phone v,
        code_accepted phone (rp_code input) [js "password_reset"] v (db w) /\
        normalizeKoreanPhone (rp_phone input) w = (w, Ok phone) /\ phone_locked phone (db w') /\
        password_replaced phone (rp_password input) (db w) (db w')
    | Err _ => only_codes (db w) (db w')
    end) w.
Proof.
  intros Hk. unfold resetPasswordWithPhone. wp_step. eapply wp_mono; [apply wp_validatePassword|].
  intros [pw|e] w1 [-> Hpw]; [|done]. destruct (Hpw _ eq_refl) as [-> Hlen]. wp_step. apply run_wp. intros w0 r0 E0.
  assert (w0 = w) as -> by (by destruct (wp_elim _ _ _ (wp_normalizeKoreanPhone _ _) _ _ E0)).
  destruct r0 as [phone|e]; [|done]. pose proof (normalize_ok _ _ _ _ E0) as [_ He]. wp_step.
  eapply wp_mono; [apply wp_getUsableVerification|]. intros [v|e] w1 [-> Hv]; [|done].
  destruct Hv as (Hl & Hun & Hlt & _). pose proof (latest_elem _ _ _ Hl) as [Hin Hp].
  wp_step. eapply wp_mono; [by apply wp_attemptCode|]. intros [c|e] w2 (Ho & Hat & Hr).
  2: { split; [|done]. by apply attempted_ok with (1 := Hat). }
  destruct Hr as (-> & Hk2 & Hl2 & Hps & _ & Hcmp). specialize (Hl2 Hl).
  assert (attempts_ok (phoneVerifications (db w)) -> attempts_ok (phoneVerifications (db w2))) as Hok2
    by (by apply attempted_ok with (1 := Hat)).
  do 3 wp_step. eapply wp_mono; [apply wp_resetPasswordWithVerification|]. simpl.
  intros [[u|]|e] w3; [|intros E3; wp_step; rewrite E3; done|intros ->; done].
  intros (u0 & v2 & p & tv & tu & Hu0 & Hph & Hv2 & Hpv & Hid2 & Etab & Eus & Ert). rewrite Ho in Hu0, Eus. simpl in Hu0, Eus.
  assert (v2 = count_attempt v) as -> by (destruct (latest_elem _ _ _ Hl2);
    by apply (keys_inj phoneVerifications.id (phoneVerifications (db w2)))).
  wp_step. split; [intros Hok; rewrite Etab; apply Forall_mapif; [by apply Hok2|by intros]|].
  split; [done|]. exists phone, v. split; [by split_and!|]. split; [done|]. split.
  - exists (set_verified tv (count_attempt v)).
    rewrite (latest_mapif (db w2) (db w3) phone p (set_verified tv)); [|by intros|exact Etab]. rewrite Hl2. simpl.
    rewrite Hpv. split; [done|]. left. by eexists.
  - exists u0. split_and!; [done|done|..].
    + intros x Hx Hid. rewrite Eus in Hx. apply elem_of_mapif in Hx as (y & _ & ->).
      destruct (is_user (users.userId u0) y) eqn:Ey; [by eexists|].
      exfalso. unfold is_user in Ey. rewrite bool_decide_eq_false in Ey. done.
    + intros x Hx Hne. rewrite Eus. apply elem_of_mapif. exists x. split; [done|].
      unfold is_user. by rewrite bool_decide_eq_false_2.
    + intros r Hr. rewrite Ert in Hr. by apply absent_del in Hr.
Qed.

(** C21: a code is used once.  A phone is verified only by its newest code, while
    that is unused, tried fewer than five times and meant for it; the account
    holding the number is signed in, or, when there is none, a token for exactly
    this number is issued.  Every later attempt with whatever code is refused and
    changes nothing, until a new code is requested; a refusal opens nothing. *)
Theorem code_single_use input deviceId w w' r :
  verification_keys (db w) -> verifyPhoneCode input deviceId w = (w', r) ->
  match r with
  | Ok out => exists phone v, code_accepted phone (vc_code input) [js "signup"; js "login"] v (db w) /\
      match out with
      | ExistingUser tokens => exists u, u ∈ users (db w) /\ users.phone u = Some phone /\
          has_session (users.userId u) deviceId (refreshToken tokens) (db w')
      | NewPhone token => (forall u, u ∈ users (db w) -> users.phone u <> Some phone) /\
          exists t, t ∈ phoneVerificationTokens (db w') /\ phoneVerificationTokens.tokenHash t = hashToken token /\
            phoneVerificationTokens.phoneE164 t = phone /\ phoneVerificationTokens.usedAt t = None
      end /\
      forall w2 code deviceId', phoneVerifications (db w2) = phoneVerifications (db w') ->
        refused (verifyPhoneCode (mkVerifyCode (vc_phone input) code) deviceId') w2
  | Err _ => only_codes (db w) (db w')
  end.
Proof.
  intros Hk E. to_wp E. eapply wp_mono; [by apply wp_verifyPhoneCode|]. intros [out|e] w' [_ Hr]; [|done].
  destruct Hr as (phone & v & v' & Hacc & En & Hl & Hv & Hout). exists phone, v. split_and!; [done|done|].
  intros w2 code deviceId' E2. apply (verify_locked _ _ phone); [by eapply normalize_any|]. exists v'.
  unfold latest in *. rewrite E2. auto.
Qed.

(** C22: guessing is bounded.  No code is ever tried more than five times: signing
    in and resetting a password keep every count between zero and five, and once
    the newest code of a phone has been tried five times (or was used), both are
    refused with any code and change nothing. *)
Theorem code_attempts_bounded w :
  verification_keys (db w) -> attempts_ok (phoneVerifications (db w)) ->
  (forall input deviceId, attempts_ok (phoneVerifications (db (verifyPhoneCode input deviceId w).1))) /\
  (forall input, attempts_ok (phoneVerifications (db (resetPasswordWithPhone input w).1))) /\
  (forall phone, phone_locked phone (db w) ->
     (forall input deviceId, normalizeKoreanPhone (vc_phone input) w = (w, Ok phone) ->
        refused (verifyPhoneCode input deviceId) w) /\
     (forall input, normalizeKoreanPhone (rp_phone input) w = (w, Ok phone) ->
        refused (resetPasswordWithPhone input) w)).
Proof.
  intros Hk Hok. split_and!.
  - intros input deviceId. by apply (wp_verifyPhoneCode input deviceId w Hk).
  - intros input. by apply (wp_resetPasswordWithPhone input w Hk).
  - intros phone Hl. split; intros; [by eapply verify_locked|by eapply reset_locked].
Qed.

(** C23: password reset.  It succeeds only with the newest unused code sent for a
    reset; the account holding the number then has a hash of the new password,
    which has 8 to 72 bytes, and no session, the code is used up, and every other
    account is as before.  A refusal changes no account and no session. *)
Theorem password_reset input w w' r :
  verification_keys (db w) -> resetPasswordWithPhone input w = (w', r) ->
  match r with
  | Ok _ => 8 <= byteLength (rp_password input) <= 72 /\ exists phone v,
      code_accepted phone (rp_code input) [js "password_reset"] v (db w) /\ phone_locked phone (db w') /\
      password_replaced phone (rp_password input) (db w) (db w')
  | Err _ => only_codes (db w) (db w')
  end.
Proof.
  intros Hk E. to_wp E. eapply wp_mono; [by apply wp_resetPasswordWithPhone|]. intros [b|e] w' [_ Hr]; [|done].
  destruct Hr as (Hlen & phone & v & Hacc & _ & Hl & Hpw). split; [done|]. by exists phone, v.
Qed.
End theorems.

(** * The senders implement the interface *)

Section senders.
Context `{Env} `{ConfigService} `{SmsProvider}.

Lemma DevSmsSender_frame phone code w w' r : DevSmsSender_sendCode phone code w = (w', r) -> db w' = db w.
Proof. by intros [= <- _]. Qed.
Lemma post_frame url body timeoutMs code : keeps db (post url body timeoutMs code).
Proof. intros w. unfold post. cbv zeta. by wp_steps. Qed.
Lemma HttpSmsSender_frame phone code w w' r : HttpSmsSender_sendCode phone code w = (w', r) -> db w' = db w.
Proof.
  apply keeps_run. unfold HttpSmsSender_sendCode, getOrThrow. cbv zeta.
  repeat first [apply post_frame | keeps_step].
Qed.
Definition DevSmsSender : SmsSender := {| sendCode := DevSmsSender_sendCode; sendCode_frame := DevSmsSender_frame |}.
Definition HttpSmsSender : SmsSender := {| sendCode := HttpSmsSender_sendCode; sendCode_frame := HttpSmsSender_frame |}.
End senders.

(** * Witnesses *)

Section witnesses.
#[local] Existing Instance test_env.
#[local] Existing Instance test_config.
#[local] Existing Instance test_jwt.
#[local] Instance test_errors : QueryErrors := {| error_code _ := None |}.
(** A provider that is down for the first request only. *)
#[local] Instance flaky_provider : SmsProvider :=
  {| http_post n _ _ _ _ := if (n <? 5)%nat then None else Some 200; node_env := None; number_of_text _ := 3000 |}.
#[local] Instance test_sender : SmsSender := HttpSmsSender.

Definition PHONE : jstr := js "+821012345678".
Lemma phone_numbers_canonical_witness :
  normalizeKoreanPhone (js "010-1234-5678") (world_of test_db) = (world_of test_db, Ok PHONE) /\
  normalizeKoreanPhone PHONE (world_of test_db) = (world_of test_db, Ok PHONE).
Proof.
  assert (normalizeKoreanPhone (js "010-1234-5678") (world_of test_db) = (world_of test_db, Ok PHONE)) as E
    by (vm_compute; reflexivity).
  split; [exact E|].
  exact (proj2 (proj1 (proj2 (phone_numbers_canonical (js "010-1234-5678") (world_of test_db))) _ _ E)).
Defined.

Definition request : RequestPhoneCodeInput := mkRequestCode (js "010 1234 5678") (js "login").
Definition requested : World * Result bool := requestPhoneCode request (Some (js "127.0.0.1")) None (world_of test_db).
Lemma no_token_refs : token_refs (db (world_of test_db)).
Proof. intros t Ht. by apply elem_of_nil in Ht. Defined.
Lemma request_rate_limited_witness : (exists b, requested.2 = Ok b) /\ rate_ok (phoneVerifications (db requested.1)).
Proof.
  split; [eexists; vm_compute; reflexivity|].
  refine (request_rate_limited request (Some (js "127.0.0.1")) None (world_of test_db) _ _ no_token_refs _
            (surjective_pairing (requestPhoneCode request (Some (js "127.0.0.1")) None (world_of test_db)))).
  intros t. split; intros k; unfold countw; simpl; lia.
Defined.

Lemma request_all_or_nothing_witness :
  exists phone n, e164 phone /\ rq_purpose request ∈ purposes /\
    code_requested phone (sha256_hex (default (js "no-ip") (truthy (Some (js "127.0.0.1"))))) (six_digits n)
      (db (world_of test_db)) (db requested.1).
Proof.
  refine (request_all_or_nothing request (Some (js "127.0.0.1")) None (world_of test_db) requested.1 (Ok true) no_token_refs _).
  vm_compute. reflexivity.
Defined.

(** A code for Alice's number, requested for [purpose] and tried [n] times. *)
Definition code_row (purpose : jstr) (n : Z) : PhoneVerification :=
  phoneVerifications.mkPhoneVerification (test_uuid 5) PHONE
    (bcrypt_hash 0 (PHONE ++ js ":123456:secret PHONE_CODE_PEPPER")) purpose (to_column (T0 + 300000)) None n None None (to_column T0).
Definition code_world (purpose : jstr) (n : Z) : World := world_of (test_db <| phoneVerifications := [code_row purpose n] |>).
Lemma code_world_keys purpose n : verification_keys (db (code_world purpose n)).
Proof. apply NoDup_singleton. Defined.

Definition verify : VerifyPhoneCodeInput := mkVerifyCode (js "010-1234-5678") (js "123456").
Lemma code_single_use_witness :
  let w := code_world (js "login") 0 in let w' := (verifyPhoneCode verify (js "device") w).1 in
  is_ok (verifyPhoneCode verify (js "device") w).2 /\
  match (verifyPhoneCode verify (js "device") w).2 with
  | Ok out => exists phone v, code_accepted phone (vc_code verify) [js "signup"; js "login"] v (db w) /\
      match out with
      | ExistingUser tokens => exists u, u ∈ users (db w) /\ users.phone u = Some phone /\
          has_session (users.userId u) (js "device") (refreshToken tokens) (db w')
      | NewPhone token => (forall u, u ∈ users (db w) -> users.phone u <> Some phone) /\
          exists t, t ∈ phoneVerificationTokens (db w') /\ phoneVerificationTokens.tokenHash t = hashToken token /\
            phoneVerificationTokens.phoneE164 t = phone /\ phoneVerificationTokens.usedAt t = None
      end /\
      forall w2 code deviceId', phoneVerifications (db w2) = phoneVerifications (db w') ->
        refused (verifyPhoneCode (mkVerifyCode (vc_phone verify) code) deviceId') w2
  | Err _ => only_codes (db w) (db w')
  end.
Proof.
  intros w w'. split; [vm_compute; exact I|].
  exact (code_single_use verify (js "device") w w' _ (code_world_keys (js "login") 0)
           (surjective_pairing (verifyPhoneCode verify (js "device") w))).
Defined.

(** Five attempts have been made: even the right code is refused. *)
Lemma code_attempts_bounded_witness : refused (verifyPhoneCode verify (js "device")) (code_world (js "login") 5).
Proof.
  refine (proj1 (proj2 (proj2 (code_attempts_bounded (code_world (js "login") 5) (code_world_keys (js "login") 5) _)) PHONE _)
            verify (js "device") _).
  - apply Forall_singleton. simpl. lia.
  - exists (code_row (js "login") 5). split; [vm_compute; reflexivity|]. right. simpl. lia.
  - vm_compute. reflexivity.
Defined.

Definition reset : ResetPasswordWithPhoneInput := mkResetPassword (js "01012345678") (js "123456") (js "a new password").
Lemma password_reset_witness :
  let w := code_world (js "password_reset") 4 in let w' := (resetPasswordWithPhone reset w).1 in
  is_ok (resetPasswordWithPhone reset w).2 /\
  match (resetPasswordWithPhone reset w).2 with
  | Ok _ => 8 <= byteLength (rp_password reset) <= 72 /\ exists phone v,
      code_accepted phone (rp_code reset) [js "password_reset"] v (db w) /\ phone_locked phone (db w') /\
      password_replaced phone (rp_password reset) (db w) (db w')
  | Err _ => only_codes (db w) (db w')
  end.
Proof.
  intros w w'. split; [vm_compute; exact I|].
  exact (password_reset reset w w' _ (code_world_keys (js "password_reset") 4)
           (surjective_pairing (resetPasswordWithPhone reset w))).
Defined.
End witnesses.
