(* ===== verification/Matching.v ===== *)
(** Matching: candidates, likes and skips, matches with their chat room, undo,
    super-like and boost credits, and the window in which the users who liked
    the viewer may be seen (matching.service.ts, matching.repository.ts).  The
    caller's own id comes from the access token, in the case the database stores.  The
    advisory locks of a transaction are its atomicity here.  [notificationService]
    is optional in the constructor; the module always provides it. *)
From S2P Require Import Prelude JsString JsDate Schema World Constraints NotificationApi User.
Local Open Scope Z_scope.

(** [userId < targetUserId], on the strings as given. *)
Definition orderedMatchingPair (userId targetUserId : jstr) : jstr * jstr :=
  if str_ltb userId targetUserId then (userId, targetUserId) else (targetUserId, userId).

Record CandidateBase := mkCandidateBase {
  cb_id : jstr; cb_userName : jstr; cb_gender : Gender; cb_birthDate : option jstr;
  cb_region : option jstr; cb_intro : jstr
}.
Record MatchPhotoPayload := mkMatchPhoto { mp_url : jstr; mp_position : Z }.
Record CandidateRow := mkCandidateRow {
  cr_base : CandidateBase; cr_photos : list MatchPhotoPayload; cr_likedByMe : bool;
  cr_planId : jstr; cr_boostActive : bool
}.
Record ActInput := mkActInput {
  ai_userId : jstr; ai_targetUserId : jstr; ai_action : MatchActionKind; ai_dailyLimit : option Z;
  ai_now : Z; ai_dayStart : Z; ai_dayEnd : Z
}.
Record ActResult := mkActResult {
  ar_matched : bool; ar_roomId : option jstr; ar_remainingSuperLikeCredits : option Z; ar_created : bool
}.

(** * The repository *)

Section repository.
Context `{Env}.

Definition visible (u : User) : bool :=
  is_not_null (users.profileCompletedAt u) && is_null (users.hiddenAt u) && is_null (users.deletedAt u).

Definition profileIsComplete (userId : jstr) : M bool :=
  user ← findFirst users (is_user userId);
  mret (if user is Some u then visible u else false).

(** [interestedGender === "everyone" || interestedGender === gender] *)
Definition accepts (interested : option InterestedGender) (gender : Gender) : bool :=
  match interested, gender with
  | Some everyone, _ | Some interested_male, male | Some interested_female, female => true
  | _, _ => false
  end.

Definition block_between (a b : jstr) (r : UserBlock) : bool :=
  ((userBlocks.blockerUserId r =?? a) && (userBlocks.blockedUserId r =?? b))
  || ((userBlocks.blockerUserId r =?? b) && (userBlocks.blockedUserId r =?? a)).
Definition active_action (actor target : jstr) (r : MatchAction) : bool :=
  (matchActions.actorUserId r =?? actor) && (matchActions.targetUserId r =?? target)
  && is_null (matchActions.revertedAt r).
Definition like_of (liker liked : jstr) (r : UserLike) : bool :=
  (userLikes.likerUserId r =?? liker) && (userLikes.likedUserId r =?? liked).
Definition match_of (pair : jstr * jstr) (r : Match) : bool :=
  (matches.userLowId r =?? uuid_param pair.1) && (matches.userHighId r =?? uuid_param pair.2).

Definition base_of (u : User) : CandidateBase :=
  mkCandidateBase (users.userId u) (users.userName u) (users.gender u) (users.birthDate u)
    (users.region u) (users.intro u).

(** [plansByUser], the first row of each user. *)
Definition planOf (id : jstr) (subscriptions : list UserSubscription) : jstr :=
  default (js "free") (userSubscriptions.planId <$> first (fun s => userSubscriptions.userId s =?? id) subscriptions).
Definition photosOf (id : jstr) (photos : list UserProfilePhoto) : list MatchPhotoPayload :=
  map (fun p => mkMatchPhoto (userProfilePhotos.url p) (userProfilePhotos.position p))
    (sel (fun p => userProfilePhotos.userId p =?? id) photos).

Definition withCandidateDetails (userId : jstr) (rows : list CandidateBase) : M (list CandidateRow) :=
  if rows is [] then mret []
  else
    now ← Date_now;
    let candidateIds := map cb_id rows in
    subscriptions ← select userSubscriptions
      (fun s => bool_decide (userSubscriptions.userId s ∈ candidateIds)
                && (userSubscriptions.status s =?? js "active")
                && (is_null (userSubscriptions.currentPeriodEndsAt s)
                    || opt_gt (userSubscriptions.currentPeriodEndsAt s) (to_column now)));
    likes ← select userLikes
      (fun r => (userLikes.likerUserId r =?? userId) && bool_decide (userLikes.likedUserId r ∈ candidateIds));
    photos ← select userProfilePhotos (fun p => bool_decide (userProfilePhotos.userId p ∈ candidateIds));
    boosts ← select userBoosts
      (fun b => bool_decide (userBoosts.userId b ∈ candidateIds) && (to_column now <? userBoosts.endsAt b));
    let subscriptions := order_by (fun a b => userSubscriptions.updatedAt b <=? userSubscriptions.updatedAt a) subscriptions in
    let photos := order_by (fun a b =>
      str_ltb (userProfilePhotos.userId a) (userProfilePhotos.userId b)
      || ((userProfilePhotos.userId a =?? userProfilePhotos.userId b)
          && (userProfilePhotos.position a <=? userProfilePhotos.position b))) photos in
    mret (map (fun row => mkCandidateRow row (photosOf (cb_id row) photos)
                (existsb (fun r => userLikes.likedUserId r =?? cb_id row) likes)
                (planOf (cb_id row) subscriptions)
                (existsb (fun b => userBoosts.userId b =?? cb_id row) boosts)) rows).

(** Another visible user, with no block between the two. *)
Definition reachable_user (d : Db) (userId : jstr) (u : User) : bool :=
  negb (is_user userId u) && visible u
  && negb (existsb (block_between userId (users.userId u)) (userBlocks d)).
Definition eligible (d : Db) (viewer u : User) : bool :=
  reachable_user d (users.userId viewer) u
  && accepts (users.interestedGender u) (users.gender viewer)
  && accepts (users.interestedGender viewer) (users.gender u)
  && negb (existsb (active_action (users.userId viewer) (users.userId u)) (matchActions d)).
Definition newest_user (a b : User) : bool := users.createdAt b <=? users.createdAt a.

Definition repo_candidates (userId : jstr) : M (list CandidateRow) :=
  viewer ← findFirst users (is_user userId);
  match viewer with
  | None => mret []
  | Some viewer =>
      d ← get_db;
      rows ← select users (eligible d viewer);
      withCandidateDetails userId (map base_of (take 50 (order_by newest_user rows)))
  end.

Definition likers (d : Db) (userId : jstr) : list (UserLike * User) :=
  sel (fun r => (userLikes.likedUserId r =?? userId)) (userLikes d) ≫= fun r =>
    map (pair r) (sel (fun u => is_user (userLikes.likerUserId r) u && reachable_user d userId u) (users d)).
Definition newest_like (a b : UserLike * User) : bool := userLikes.createdAt b.1 <=? userLikes.createdAt a.1.

Definition repo_likedMeCandidates (userId : jstr) (limit : nat) : M (list CandidateRow) :=
  d ← get_db;
  withCandidateDetails userId
    (map (fun x => base_of x.2) (take limit (order_by newest_like (likers d userId)))).

Definition consumeLikedMeAccess (userId : jstr) (periodStart limit : Z) : M bool :=
  insertedAt ← Date_now;
  updatedAt ← Date_now;
  access ← insertOrUpdate userLikedMeAccesses userLikedMeAccesses_conflict
    (fun r => r <| userLikedMeAccesses.viewedCount ::= fun n => n + 1 |>
                <| userLikedMeAccesses.updatedAt := to_column updatedAt |>)
    (fun r => userLikedMeAccesses.viewedCount r <? limit)
    (userLikedMeAccesses.mkUserLikedMeAccess userId (to_column periodStart) 1 (to_column insertedAt));
  mret (negb (is_null (head access))).

Definition pairMatch (userId targetUserId : jstr) : M (option Match) :=
  findFirst matches (match_of (orderedMatchingPair userId targetUserId)).

Definition matchIfReverseExists (userId targetUserId : jstr) : M (bool * option jstr) :=
  reverse ← findFirst userLikes (like_of (uuid_param targetUserId) userId);
  if is_null reverse then mret (false, None)
  else
    let '(userLowId, userHighId) := orderedMatchingPair userId targetUserId in
    existing ← pairMatch userId targetUserId;
    match existing with
    | Some m => mret (true, Some (matches.roomId m))
    | None =>
        roomId ← randomUUID;
        roomAt ← clock_timestamp;
        room ← insert rooms (rooms.mkRoom roomId (js "매칭 대화") roomAt roomAt);
        joinedAt ← clock_timestamp;
        insertOrNothing roomMembers roomMembers_conflict
          (roomMembers.mkRoomMember (rooms.id room) userId joinedAt) ;;
        insertOrNothing roomMembers roomMembers_conflict
          (roomMembers.mkRoomMember (rooms.id room) (uuid_param targetUserId) joinedAt) ;;
        matchedAt ← clock_timestamp;
        insert matches
          (matches.mkMatch (uuid_param userLowId) (uuid_param userHighId) (rooms.id room) matchedAt) ;;
        mret (true, Some (rooms.id room))
    end.

Definition superLikeBalance (userId : jstr) : M (option Z) :=
  balance ← findFirst userConsumableBalances (fun r => userConsumableBalances.userId r =?? userId);
  mret (userConsumableBalances.superLikeCredits <$> balance).

Definition newest_action (a b : MatchAction) : bool := matchActions.createdAt b <=? matchActions.createdAt a.

(** The same action again: what it gave, or a conflict. *)
Definition repeatedAction (input : ActInput) (existingAction : MatchAction) : M ActResult :=
  require (matchActions.action existingAction =?? ai_action input) PlainError (js "MATCH_ACTION_CONFLICT") ;;
  if ai_action input =?? skip then mret (mkActResult false None None false)
  else
    existingMatch ← pairMatch (ai_userId input) (ai_targetUserId input);
    balance ← (if ai_action input =?? superlike then superLikeBalance (ai_userId input) else mret None);
    mret (mkActResult (negb (is_null existingMatch)) (matches.roomId <$> existingMatch) balance false).

(** The checks before anything is written. *)
Definition requireActable (userId target : jstr) : M unit :=
  actor ← findFirst users (is_user userId);
  candidate ← findFirst users (is_user target);
  match actor with
  | None => throw PlainError (js "PROFILE_COMPLETION_REQUIRED")
  | Some actor =>
      require (visible actor) PlainError (js "PROFILE_COMPLETION_REQUIRED") ;;
      match candidate with
      | None => throw PlainError (js "USER_NOT_FOUND")
      | Some candidate =>
          require (visible candidate) PlainError (js "USER_NOT_FOUND") ;;
          require (accepts (users.interestedGender actor) (users.gender candidate)
                   && accepts (users.interestedGender candidate) (users.gender actor))
            PlainError (js "CANDIDATE_NOT_AVAILABLE") ;;
          blocked ← findFirst userBlocks (block_between userId target);
          require (is_null blocked) PlainError (js "CANDIDATE_NOT_AVAILABLE")
      end
  end.

Definition spendSuperLike (userId : jstr) : M unit :=
  updatedAt ← Date_now;
  credits ← update userConsumableBalances
    (fun r => (userConsumableBalances.userId r =?? userId) && (0 <? userConsumableBalances.superLikeCredits r))
    (fun r => r <| userConsumableBalances.superLikeCredits ::= fun n => n - 1 |>
                <| userConsumableBalances.updatedAt := to_column updatedAt |>);
  require (negb (is_null (head credits))) PlainError (js "SUPERLIKE_CREDITS_REQUIRED").

Definition liked_between (userId : jstr) (dayStart dayEnd : Z) (r : UserLike) : bool :=
  (userLikes.likerUserId r =?? userId) && (to_column dayStart <=? userLikes.createdAt r)
  && (userLikes.createdAt r <? to_column dayEnd).

(** The like of a first like or super-like, counted against the day's limit. *)
Definition recordLike (input : ActInput) : M unit :=
  let target := uuid_param (ai_targetUserId input) in
  existingLike ← findFirst userLikes (like_of (ai_userId input) target);
  if is_null existingLike then
    count ← select_count userLikes (liked_between (ai_userId input) (ai_dayStart input) (ai_dayEnd input));
    require (if ai_dailyLimit input is Some limit then count <? limit else true)
      PlainError (js "LIKE_LIMIT_REACHED") ;;
    insert userLikes (userLikes.mkUserLike (ai_userId input) target (to_column (ai_now input))) ;;
    mret tt
  else mret tt.

Definition repo_actOnCandidate (input : ActInput) : M ActResult :=
  let userId := ai_userId input in
  let target := uuid_param (ai_targetUserId input) in
  transaction (
    existingAction ← findFirstBy matchActions (active_action userId target) newest_action;
    match existingAction with
    | Some existingAction => repeatedAction input existingAction
    | None =>
        requireActable userId target ;;
        (if ai_action input =?? superlike then spendSuperLike userId else mret tt) ;;
        (if ai_action input =?? skip then mret tt else recordLike input) ;;
        actionId ← randomUUID;
        insert matchActions
          (matchActions.mkMatchAction actionId userId target (ai_action input) None (to_column (ai_now input))) ;;
        if ai_action input =?? skip then mret (mkActResult false None None true)
        else
          '(matched, roomId) ← matchIfReverseExists userId (ai_targetUserId input);
          balance ← (if ai_action input =?? superlike then superLikeBalance userId else mret None);
          mret (mkActResult matched roomId balance true)
    end).

(** A super-like's credit goes back to the balance. *)
Definition refundSuperLike (userId : jstr) : M unit :=
  updatedAt ← Date_now;
  insertedAt ← clock_timestamp;
  insertOrUpdate userConsumableBalances userConsumableBalances_conflict
    (fun r => r <| userConsumableBalances.superLikeCredits ::= fun n => n + 1 |>
                <| userConsumableBalances.updatedAt := to_column updatedAt |>)
    (fun _ => true)
    (userConsumableBalances.mkUserConsumableBalance userId 1 0 insertedAt) ;;
  mret tt.

Definition repo_undoLastAction (userId : jstr) : M (option MatchAction) :=
  transaction (
    action ← findFirstBy matchActions
      (fun r => (matchActions.actorUserId r =?? userId) && is_null (matchActions.revertedAt r)) newest_action;
    match action with
    | None => mret None
    | Some action =>
        revertedAt ← Date_now;
        claimed ← update matchActions
          (fun r => (matchActions.id r =?? matchActions.id action) && is_null (matchActions.revertedAt r))
          (fun r => r <| matchActions.revertedAt := Some (to_column revertedAt) |>);
        match head claimed with
        | None => mret None
        | Some claimedAction =>
            existingMatch ← pairMatch (matchActions.actorUserId action) (matchActions.targetUserId action);
            require (is_null existingMatch) PlainError (js "UNDO_NOT_AVAILABLE_AFTER_MATCH") ;;
            (if matchActions.action action =?? skip then mret tt
             else
               delete_from userLikes (like_of userId (matchActions.targetUserId action)) ;;
               if matchActions.action action =?? superlike then refundSuperLike userId else mret tt) ;;
            mret (Some claimedAction)
        end
    end).

Definition BOOST_MS : Z := 30 * 60 * 1000.
Definition active_boost (userId : jstr) (now : Z) (b : UserBoost) : bool :=
  (userBoosts.userId b =?? userId) && (to_column now <? userBoosts.endsAt b).

(** The end of the boost and the credits left. *)
Definition repo_activateBoost (userId : jstr) (now : Z) : M (Z * Z) :=
  transaction (
    credits ← update userConsumableBalances
      (fun r => (userConsumableBalances.userId r =?? userId) && (0 <? userConsumableBalances.boostCredits r))
      (fun r => r <| userConsumableBalances.boostCredits ::= fun n => n - 1 |>
                  <| userConsumableBalances.updatedAt := to_column now |>);
    match head credits with
    | None => throw PlainError (js "BOOST_CREDITS_REQUIRED")
    | Some balance =>
        activeBoost ← findFirst userBoosts (active_boost userId now);
        require (is_null activeBoost) PlainError (js "BOOST_ALREADY_ACTIVE") ;;
        let endsAt := now + BOOST_MS in
        boostId ← randomUUID;
        createdAt ← clock_timestamp;
        insert userBoosts
          (userBoosts.mkUserBoost boostId userId (js "consumable") (to_column now) (to_column endsAt) createdAt) ;;
        mret (endsAt, userConsumableBalances.boostCredits balance)
    end).
End repository.

(** * The service *)

Definition DAILY_LIKE_LIMITS_BY_PLAN : list (jstr * option Z) :=
  [(js "free", Some 10); (js "basic", Some 20); (js "gold", Some 40); (js "black", None)].
Definition LIKED_ME_LIMITS_BY_PLAN : list (jstr * option Z) :=
  [(js "free", None); (js "basic", Some 3); (js "gold", Some 10); (js "black", None)].
Definition LIKED_ME_WINDOW_HOURS : Z := 3.
Definition LIKED_ME_MAX_PAGE_SIZE : Z := 50.

Fixpoint limit_of (planId : jstr) (l : list (jstr * option Z)) : option (option Z) :=
  match l with
  | [] => None
  | (k, limit) :: l' => if k =?? planId then Some limit else limit_of planId l'
  end.
Definition getDailyLikeLimit (planId : jstr) : option Z :=
  default (Some 10) (limit_of planId DAILY_LIKE_LIMITS_BY_PLAN).
Definition getLikedMeLimit (planId : jstr) : option Z :=
  default (Some 3) (limit_of planId LIKED_ME_LIMITS_BY_PLAN).

Definition startOfUtcDay (now : Z) : Z := Date_UTC (getUTCFullYear now) (getUTCMonth now) (getUTCDate now) 0.
Definition nextUtcDay (now : Z) : Z := Date_UTC (getUTCFullYear now) (getUTCMonth now) (getUTCDate now) 24.
Definition startOfLikedMeWindow (now : Z) : Z :=
  let hour := getUTCHours now / LIKED_ME_WINDOW_HOURS * LIKED_ME_WINDOW_HOURS in
  Date_UTC (getUTCFullYear now) (getUTCMonth now) (getUTCDate now) hour.

Record MatchCandidatePayload := mkMatchCandidate {
  mc_id : jstr; mc_userName : jstr; mc_gender : Gender; mc_age : Z; mc_region : jstr; mc_intro : jstr;
  mc_photos : list MatchPhotoPayload; mc_likedByMe : bool; mc_planId : jstr;
  mc_blackRecommended : bool; mc_boostActive : bool
}.
Record LikeUserPayload := mkLikeUser { lu_matched : bool; lu_roomId : option jstr; lu_undoAvailable : bool }.
Record UndoMatchActionPayload := mkUndo { un_reverted : bool; un_targetUserId : option jstr }.
Record BoostPayload := mkBoost { bo_activeUntil : jstr; bo_remainingBoostCredits : Z }.

Section service.
Context `{Env} `{NotificationService}.

Definition validateUuid (input : jstr) : M unit :=
  require (matchb UUID_PATTERN input) PlainError (js "USER_ID_INVALID").

(** The column is a date, so [parseDate] reads it; a missing birthday is 18. *)
Definition ageFromBirthDate (birthDate : option jstr) : M Z :=
  match birthDate with
  | None | Some [] => mret 18
  | Some birthDate =>
      let birth := default 0 (parseDate birthDate) in
      today ← Date_now;
      let age := getUTCFullYear today - getUTCFullYear birth in
      let beforeBirthday := (getUTCMonth today <? getUTCMonth birth)
        || ((getUTCMonth today =? getUTCMonth birth) && (getUTCDate today <? getUTCDate birth)) in
      mret (if beforeBirthday then age - 1 else age)
  end.

Definition rowToCandidate (row : CandidateRow) : M MatchCandidatePayload :=
  let base := cr_base row in
  age ← ageFromBirthDate (cb_birthDate base);
  mret (mkMatchCandidate (cb_id base) (cb_userName base) (cb_gender base) age
          (default (js "지역 미설정") (cb_region base)) (cb_intro base) (cr_photos row) (cr_likedByMe row)
          (cr_planId row) (cr_planId row =?? js "black") (cr_boostActive row)).

Definition requireCompletedProfile (userId : jstr) : M unit :=
  complete ← profileIsComplete userId;
  require complete PlainError (js "PROFILE_COMPLETION_REQUIRED").

Definition currentPlanId (userId : jstr) : M jstr :=
  subscription ← findCurrentSubscription userId;
  mret (default (js "free") (userSubscriptions.planId <$> subscription)).

Definition enforceLikedMeWindow (userId viewerPlanId : jstr) (now : Z) : M unit :=
  match getLikedMeLimit viewerPlanId with
  | None => mret tt
  | Some limit =>
      let periodStart := startOfLikedMeWindow now in
      consumed ← consumeLikedMeAccess userId periodStart limit;
      require consumed PlainError (js "LIKED_ME_LIMIT_REACHED")
  end.

Definition candidates (userId : jstr) : M (list MatchCandidatePayload) :=
  validateUuid userId ;;
  requireCompletedProfile userId ;;
  rows ← repo_candidates userId;
  map_all rows rowToCandidate.

Definition likedMeCandidates (userId : jstr) : M (list MatchCandidatePayload) :=
  now ← Date_now;
  validateUuid userId ;;
  requireCompletedProfile userId ;;
  viewerPlanId ← currentPlanId userId;
  require (negb (viewerPlanId =?? js "free")) PlainError (js "LIKED_ME_NOT_AVAILABLE") ;;
  enforceLikedMeWindow userId viewerPlanId now ;;
  let limit := getLikedMeLimit viewerPlanId in
  rows ← repo_likedMeCandidates userId (Z.to_nat (default LIKED_ME_MAX_PAGE_SIZE limit));
  map_all rows rowToCandidate.

(** Both notifications of a match are sent, whether or not the first fails. *)
Definition notifyInteraction (userId targetUserId : jstr) (matched : bool) (roomId : option jstr) : M unit :=
  if matched then
    let route := if roomId is Some id then (if id =?? [] then js "/rooms" else js "/rooms/" ++ id) else js "/rooms" in
    let matchNotification (to : jstr) :=
      mkCreateNotificationInput to match_notification (js "서로 관심이 닿았어요")
        (js "이제 대화를 시작할 수 있어요.") (Some route) roomId in
    mine ← attempt (notify (matchNotification userId));
    theirs ← attempt (notify (matchNotification targetUserId));
    settle [mine; theirs] ;;
    mret tt
  else
    notify (mkCreateNotificationInput targetUserId like_notification (js "새 관심을 받았어요")
      (js "나를 좋아한 사람에서 확인해 보세요.") (Some (js "/likes")) (Some userId)) ;;
    mret tt.

Definition actOnCandidate (userId targetUserId : jstr) (action : MatchActionKind) (now : Z) : M LikeUserPayload :=
  validateUuid userId ;;
  validateUuid targetUserId ;;
  require (negb (userId =?? targetUserId)) PlainError
    (if action =?? skip then js "SKIP_SELF_NOT_ALLOWED" else js "LIKE_SELF_NOT_ALLOWED") ;;
  requireCompletedProfile userId ;;
  planId ← currentPlanId userId;
  result ← repo_actOnCandidate (mkActInput userId targetUserId action (getDailyLikeLimit planId) now
                                  (startOfUtcDay now) (nextUtcDay now));
  (if ar_created result && negb (action =?? skip)
   then try_catch (notifyInteraction userId targetUserId (ar_matched result) (ar_roomId result)) (fun _ => mret tt)
   else mret tt) ;;
  mret (mkLikeUser (ar_matched result) (ar_roomId result) (negb (ar_matched result))).

Definition likeUser (userId likedUserId : jstr) : M LikeUserPayload :=
  now ← Date_now; actOnCandidate userId likedUserId like now.
Definition skipCandidate (userId targetUserId : jstr) : M bool :=
  now ← Date_now;
  result ← actOnCandidate userId targetUserId skip now;
  mret (negb (lu_matched result)).
Definition superLikeUser (userId targetUserId : jstr) : M LikeUserPayload :=
  now ← Date_now; actOnCandidate userId targetUserId superlike now.

Definition undoLastAction (userId : jstr) : M UndoMatchActionPayload :=
  validateUuid userId ;;
  requireCompletedProfile userId ;;
  action ← repo_undoLastAction userId;
  mret (mkUndo (negb (is_null action)) (matchActions.targetUserId <$> action)).

Definition activateBoost (userId : jstr) : M BoostPayload :=
  now ← Date_now;
  validateUuid userId ;;
  requireCompletedProfile userId ;;
  '(endsAt, remainingBoostCredits) ← repo_activateBoost userId now;
  mret (mkBoost (toISOString endsAt) remainingBoostCredits).
End service.
