(* ===== verification/MatchingProofs.v ===== *)
(** Matching: a match is exactly a mutual like, an action repeated changes
    nothing, the daily limit, undoing a super-like, boosts, and who is shown to
    whom. *)
From S2P Require Import Prelude JsString JsDate Schema World Constraints NotificationApi User Matching Fixtures.
Local Open Scope Z_scope.

Section theorems.
Context `{Env}.

(** * Ids and pairs *)

(** An id as the database stores it. *)
Definition canonical (id : jstr) : Prop := uuid_param id = id.

Lemma orderedMatchingPair_sym a b : orderedMatchingPair a b = orderedMatchingPair b a.
Proof.
  unfold orderedMatchingPair. destruct (str_ltb a b) eqn:E1, (str_ltb b a) eqn:E2; try done.
  - by rewrite (str_ltb_asym _ _ E1) in E2.
  - by rewrite (str_ltb_total _ _ E1 E2).
Qed.
Lemma orderedMatchingPair_cases a b :
  (orderedMatchingPair a b = (a, b) /\ str_ltb a b = true) \/
  (orderedMatchingPair a b = (b, a) /\ str_ltb a b = false).
Proof. unfold orderedMatchingPair. destruct (str_ltb a b); auto. Qed.
Lemma orderedMatchingPair_eq a b c d :
  orderedMatchingPair a b = orderedMatchingPair c d <-> (a = c /\ b = d) \/ (a = d /\ b = c).
Proof.
  split.
  - destruct (orderedMatchingPair_cases a b) as [[-> _]|[-> _]], (orderedMatchingPair_cases c d) as [[-> _]|[-> _]];
      intros [= -> ->]; auto.
  - intros [[-> ->]|[-> ->]]; [done|apply orderedMatchingPair_sym].
Qed.
Lemma orderedMatchingPair_lt a b :
  a <> b -> str_ltb (orderedMatchingPair a b).1 (orderedMatchingPair a b).2 = true.
Proof.
  intros Hne. destruct (orderedMatchingPair_cases a b) as [[-> Hl]|[-> Hl]]; [done|]. simpl.
  apply not_false_is_true. intros Hl'. by destruct Hne; apply str_ltb_total.
Qed.
Lemma canonical_pair a b :
  canonical a -> canonical b ->
  canonical (orderedMatchingPair a b).1 /\ canonical (orderedMatchingPair a b).2.
Proof. intros Ha Hb. by destruct (orderedMatchingPair_cases a b) as [[-> _]|[-> _]]. Qed.

(** * The relation between likes and matches *)

Definition liked (d : Db) (a b : jstr) : bool := existsb (like_of a b) (userLikes d).
Definition matched (d : Db) (a b : jstr) : bool := existsb (match_of (orderedMatchingPair a b)) (matches d).

Record matching_ok (d : Db) : Prop := {
  ok_mutual : forall a b, canonical a -> canonical b -> a <> b -> matched d a b = liked d a b && liked d b a;
  ok_actions : forall r, r ∈ matchActions d ->
    canonical (matchActions.actorUserId r) /\ canonical (matchActions.targetUserId r) /\
    matchActions.actorUserId r <> matchActions.targetUserId r;
  ok_keys : NoDup (map matchActions.id (matchActions d))
}.

Lemma matching_ok_same d d' :
  userLikes d' = userLikes d -> matches d' = matches d -> matchActions d' = matchActions d ->
  matching_ok d -> matching_ok d'.
Proof.
  intros El Em Ea [Hm Ha Hk]. split; [|by rewrite Ea..]. intros a b. unfold matched, liked. rewrite El, Em. apply Hm.
Qed.

Lemma like_of_true a b r :
  like_of a b r = true <-> userLikes.likerUserId r = a /\ userLikes.likedUserId r = b.
Proof. unfold like_of. by rewrite andb_true_iff, !bool_decide_eq_true. Qed.
Lemma liked_app d a b r d' :
  userLikes d' = userLikes d ++ [r] -> liked d' a b = liked d a b || like_of a b r.
Proof. intros E. unfold liked. rewrite E, existsb_app. simpl. by rewrite orb_false_r. Qed.
Lemma liked_del d a b x y d' :
  userLikes d' = del (like_of x y) (userLikes d) ->
  liked d' a b = liked d a b && negb (bool_decide (a = x) && bool_decide (b = y)).
Proof.
  intros E. unfold liked. rewrite E. apply eq_true_iff_eq. rewrite andb_true_iff, !existsb_true. split.
  - intros (r & [Hr Hn]%elem_of_del & Hp). split; [by exists r|]. apply like_of_true in Hp as [<- <-].
    unfold like_of in Hn. by rewrite Hn.
  - intros [(r & Hr & Hp) Hn]. exists r. split; [|done]. apply elem_of_del. split; [done|].
    apply like_of_true in Hp as [<- <-]. unfold like_of. by apply negb_true_iff.
Qed.

Lemma match_of_true p m :
  match_of p m = true <-> matches.userLowId m = uuid_param p.1 /\ matches.userHighId m = uuid_param p.2.
Proof. unfold match_of. by rewrite andb_true_iff, !bool_decide_eq_true. Qed.
Lemma matched_sym d a b : matched d a b = matched d b a.
Proof. unfold matched. by rewrite orderedMatchingPair_sym. Qed.
Lemma matched_app d d' a b x y roomId at_ :
  canonical a -> canonical b -> canonical x -> canonical y ->
  matches d' = matches d ++
    [matches.mkMatch (uuid_param (orderedMatchingPair x y).1) (uuid_param (orderedMatchingPair x y).2) roomId at_] ->
  matched d' a b = matched d a b || bool_decide ((a = x /\ b = y) \/ (a = y /\ b = x)).
Proof.
  intros Ha Hb Hx Hy E. unfold matched. rewrite E, existsb_app. simpl. rewrite orb_false_r. f_equal.
  destruct (canonical_pair a b Ha Hb) as [Ha1 Ha2], (canonical_pair x y Hx Hy) as [Hx1 Hx2].
  apply eq_true_iff_eq. rewrite match_of_true, bool_decide_eq_true. simpl.
  rewrite Ha1, Ha2, Hx1, Hx2, <- orderedMatchingPair_eq.
  destruct (orderedMatchingPair a b), (orderedMatchingPair x y). simpl. split; [by intros [-> ->]|by intros [= -> ->]].
Qed.
Lemma pairMatch_matched d a b :
  matched d a b = negb (is_null (first (match_of (orderedMatchingPair a b)) (matches d))).
Proof.
  unfold matched. apply eq_true_iff_eq. rewrite existsb_true, negb_true_iff, is_null_false. split.
  - intros (m & Hm & Hp). by apply (first_is_Some _ _ m).
  - intros [m Hf]. apply first_Some in Hf as [? ?]. by exists m.
Qed.

(** The first like of a pair leaves likes and matches in step when the match is
    created exactly if the reverse like exists. *)
Lemma matching_ok_like d d' u t :
  canonical u -> canonical t -> u <> t -> matching_ok d ->
  (forall a b, liked d' a b = liked d a b || bool_decide (a = u /\ b = t)) ->
  (forall a b, canonical a -> canonical b ->
     matched d' a b = matched d a b || (liked d t u && bool_decide ((a = u /\ b = t) \/ (a = t /\ b = u)))) ->
  forall a b, canonical a -> canonical b -> a <> b -> matched d' a b = liked d' a b && liked d' b a.
Proof.
  intros Hu Ht Hne [Hm _ _] Hl Hm' a b Ha Hb Hab. rewrite Hm', !Hl, (Hm a b) by done. clear Hm Hm' Hl.
  destruct (decide (a = u /\ b = t)) as [[-> ->]|H1]; [|destruct (decide (a = t /\ b = u)) as [[-> ->]|H2]].
  - rewrite (bool_decide_eq_true_2 (_ \/ _)), (bool_decide_eq_true_2 (u = u /\ _)), (bool_decide_eq_false_2 (t = u /\ _)) by naive_solver.
    by destruct (liked d u t), (liked d t u).
  - rewrite (bool_decide_eq_true_2 (_ \/ _)), (bool_decide_eq_true_2 (u = u /\ _)), (bool_decide_eq_false_2 (t = u /\ _)) by naive_solver.
    by destruct (liked d u t), (liked d t u).
  - rewrite !bool_decide_eq_false_2 by naive_solver. rewrite andb_false_r, !orb_false_r. done.
Qed.

(** * Operations *)

(** What the matching tables were; the rest of a handler's writes. *)
Definition same_likes (d d' : Db) : Prop := userLikes d' = userLikes d /\ matchActions d' = matchActions d.
Definition member (d : Db) (roomId userId : jstr) : bool :=
  existsb (fun r => (roomMembers.roomId r =?? roomId) && (roomMembers.userId r =?? userId)) (roomMembers d).

(** The pair's match: the one there was, or a new one with its room and both
    members. *)
Definition match_opened (d d' : Db) (u target roomId : jstr) : Prop :=
  (exists m, first (match_of (orderedMatchingPair u target)) (matches d) = Some m /\
     roomId = matches.roomId m /\ matches d' = matches d) \/
  (first (match_of (orderedMatchingPair u target)) (matches d) = None /\
   room_exists d roomId = false /\ room_exists d' roomId = true /\
   member d' roomId u = true /\ member d' roomId (uuid_param target) = true /\
   exists at_, matches d' = matches d ++
     [matches.mkMatch (uuid_param (orderedMatchingPair u target).1) (uuid_param (orderedMatchingPair u target).2) roomId at_]).

Lemma wp_member roomId u at_ w :
  wp (insertOrNothing roomMembers roomMembers_conflict (roomMembers.mkRoomMember roomId u at_)) (fun r w' =>
    (exists l, db w' = (db w) <| roomMembers := l |> /\ forall x, x ∈ roomMembers (db w) -> x ∈ l) /\
    match r with Ok _ => member (db w') roomId u = true | Err _ => True end) w.
Proof.
  wp_step.
  - intros Hex. split; [exists (roomMembers (db w)); by destruct (db w)|].
    apply existsb_true in Hex as (x & Hx & Hc). apply existsb_true. exists x. split; [done|].
    unfold roomMembers_conflict in Hc. simpl in Hc. rewrite andb_true_iff, !bool_decide_eq_true in *. naive_solver.
  - intros _. wp_step; intros.
    + split; [eexists; split; [reflexivity|set_solver]|]. apply existsb_self. simpl. by rewrite !eqb_refl_true.
    + split; [exists (roomMembers (db w)); by destruct (db w)|done].
    + split; [exists (roomMembers (db w)); by destruct (db w)|done].
Qed.

Lemma member_mono d d' room u :
  (forall x, x ∈ roomMembers d -> x ∈ roomMembers d') -> member d room u = true -> member d' room u = true.
Proof. intros Hsub. unfold member. rewrite !existsb_true. intros (x & ? & ?). eauto. Qed.

Lemma is_null_first_liked d a b : is_null (first (like_of a b) (userLikes d)) = negb (liked d a b).
Proof.
  unfold liked. destruct (first _ _) as [r|] eqn:E; simpl.
  - apply first_Some in E. symmetry. apply negb_false_iff, existsb_true. by exists r.
  - symmetry. apply negb_true_iff, existsb_false. by apply first_None.
Qed.

Lemma wp_matchIfReverseExists u target w :
  wp (matchIfReverseExists u target) (fun r w' =>
    match r with
    | Ok (m, room) =>
        same_likes (db w) (db w') /\ userConsumableBalances (db w') = userConsumableBalances (db w) /\
        m = liked (db w) (uuid_param target) u /\
        match room with
        | Some id => m = true /\ match_opened (db w) (db w') u target id
        | None => m = false /\ db w' = db w
        end
    | Err _ => True
    end) w.
Proof.
  unfold matchIfReverseExists, pairMatch. wp_step. wp_step. rewrite is_null_first_liked.
  destruct (liked (db w) (uuid_param target) u) eqn:El; simpl; [|by wp_step].
  destruct (orderedMatchingPair u target) as [lo hi] eqn:Ep. wp_step. wp_step. destruct (first _ _) as [m|] eqn:Em.
  { wp_step. split_and!; try done. left. rewrite Ep. by exists m. }
  do 6 wp_step; [intros _ Hroom|done..]. do 3 wp_step. eapply wp_mono; [apply wp_member|]. intros [o1|e] w1 [(l1 & E1 & Hs1) Hm1]; [|done].
  wp_step. eapply wp_mono; [apply wp_member|]. intros [o2|e] w2 [(l2 & E2 & Hs2) Hm2]; [|done].
  do 4 wp_step; try done. intros _ _. wp_step. simpl.
  rewrite E1 in Hs2. rewrite E2, E1. simpl. split_and!; try done. right. rewrite Ep. simpl. split_and!; try done.
  - apply existsb_false. intros x Hx. apply bool_decide_eq_false. intros Hid. rewrite existsb_false in Hroom.
    specialize (Hroom x Hx). apply bool_decide_eq_false in Hroom. simpl in Hroom. congruence.
  - apply existsb_self. simpl. by rewrite eqb_refl_true.
  - eapply member_mono; [|exact Hm1]. rewrite E1. exact Hs2.
  - rewrite E2 in Hm2. exact Hm2.
  - by eexists.
Qed.

Lemma wp_superLikeBalance u (Q : Result (option Z) -> World -> Prop) w :
  Q (Ok (userConsumableBalances.superLikeCredits <$>
           first (fun r => userConsumableBalances.userId r =?? u) (userConsumableBalances (db w)))) w ->
  wp (superLikeBalance u) Q w.
Proof. intros HQ. unfold superLikeBalance. by wp_steps. Qed.

(** What must hold of the two accounts. *)
Definition actable (d : Db) (u t : jstr) : Prop :=
  exists actor candidate, first (is_user u) (users d) = Some actor /\ first (is_user t) (users d) = Some candidate /\
    visible actor = true /\ visible candidate = true /\
    accepts (users.interestedGender actor) (users.gender candidate) = true /\
    accepts (users.interestedGender candidate) (users.gender actor) = true /\
    existsb (block_between u t) (userBlocks d) = false.

Lemma wp_requireActable u t w :
  wp (requireActable u t) (fun r w' => w' = w /\ (r = Ok tt -> actable (db w) u t)) w.
Proof.
  unfold requireActable. do 4 wp_step. destruct (first (is_user u) _) as [actor|] eqn:Ea; [|by wp_step].
  wp_step. wp_step; intros Hva; [|done]. destruct (first (is_user t) _) as [candidate|] eqn:Ec; [|by wp_step].
  wp_step. wp_step; intros Hvc; [|done]. wp_step. wp_step; intros Hacc; [|done]. apply andb_true_iff in Hacc as [Ha1 Ha2].
  wp_step. wp_step. wp_step; intros Hb; [|done]. split; [done|]. intros _. exists actor, candidate.
  split_and!; try done. apply existsb_false. apply first_None. by apply is_null_true.
Qed.

(** One super-like credit spent. *)
Definition spent (u : jstr) (l l' : list UserConsumableBalance) : Prop :=
  exists at_, l' = mapif (fun r => (userConsumableBalances.userId r =?? u) && (0 <? userConsumableBalances.superLikeCredits r))
    (fun r => r <| userConsumableBalances.superLikeCredits ::= fun n => n - 1 |>
                <| userConsumableBalances.updatedAt := at_ |>) l /\
  exists r, r ∈ l /\ userConsumableBalances.userId r = u /\ 0 < userConsumableBalances.superLikeCredits r.

Lemma wp_spendSuperLike u w :
  wp (spendSuperLike u) (fun r w' =>
    (exists l, db w' = (db w) <| userConsumableBalances := l |>) /\
    (r = Ok tt -> spent u (userConsumableBalances (db w)) (userConsumableBalances (db w')))) w.
Proof.
  unfold spendSuperLike. do 5 wp_step; intros Hc; (split; [eexists; reflexivity|]); [intros _|done].
  eexists. split; [reflexivity|]. apply negb_true_iff in Hc.
  destruct (sel _ _) as [|x s] eqn:Es; [done|]. exists x.
  assert (x ∈ sel (fun r => (userConsumableBalances.userId r =?? u) && (0 <? userConsumableBalances.superLikeCredits r))
    (userConsumableBalances (db w))) as Hx by (simpl in Es; rewrite Es; set_solver).
  apply elem_of_sel in Hx as [Hx Hp]. rewrite andb_true_iff, bool_decide_eq_true, Z.ltb_lt in Hp. naive_solver.
Qed.

(** The like of a first like: counted, and within the day's limit. *)
Definition liked_today (input : ActInput) (d : Db) : Z :=
  countw (liked_between (ai_userId input) (ai_dayStart input) (ai_dayEnd input)) (userLikes d).
Definition new_like (input : ActInput) : UserLike :=
  userLikes.mkUserLike (ai_userId input) (uuid_param (ai_targetUserId input)) (to_column (ai_now input)).

Lemma wp_recordLike input w :
  wp (recordLike input) (fun r w' =>
    match r with
    | Ok _ =>
        if liked (db w) (ai_userId input) (uuid_param (ai_targetUserId input)) then w' = w
        else (if ai_dailyLimit input is Some limit then liked_today input (db w) < limit else True) /\
             db w' = (db w) <| userLikes ::= fun l => l ++ [new_like input] |>
    | Err _ => True
    end) w.
Proof.
  unfold recordLike. wp_step. wp_step. rewrite is_null_first_liked.
  destruct (liked _ _ _); simpl; [by wp_step|]. wp_step. wp_step. wp_step. wp_step; intros Hc; [|done].
  do 2 wp_step; [intros _ _|done..]. wp_step. split; [|done].
  destruct (ai_dailyLimit input); [by apply Z.ltb_lt in Hc|done].
Qed.

(** An action that was taken: what it required, and everything it changed among
    likes, actions, credits and matches. *)
Definition balance_of (u : jstr) (d : Db) : option UserConsumableBalance :=
  first (fun r => userConsumableBalances.userId r =?? u) (userConsumableBalances d).
Record acted (input : ActInput) (d d' : Db) (res : ActResult) : Prop := {
  ac_first : existsb (active_action (ai_userId input) (uuid_param (ai_targetUserId input))) (matchActions d) = false;
  ac_actable : actable d (ai_userId input) (uuid_param (ai_targetUserId input));
  ac_other : ai_userId input <> uuid_param (ai_targetUserId input);
  ac_action : exists id, (forall r, r ∈ matchActions d -> matchActions.id r <> id) /\
    matchActions d' = matchActions d ++
      [matchActions.mkMatchAction id (ai_userId input) (uuid_param (ai_targetUserId input)) (ai_action input) None
         (to_column (ai_now input))];
  ac_created : ar_created res = true;
  ac_likes :
    if (ai_action input =?? skip) || liked d (ai_userId input) (uuid_param (ai_targetUserId input))
    then userLikes d' = userLikes d
    else userLikes d' = userLikes d ++ [new_like input] /\
         (if ai_dailyLimit input is Some limit then liked_today input d < limit else True);
  ac_credits :
    if ai_action input =?? superlike
    then spent (ai_userId input) (userConsumableBalances d) (userConsumableBalances d') /\
         ar_remainingSuperLikeCredits res = userConsumableBalances.superLikeCredits <$> balance_of (ai_userId input) d'
    else userConsumableBalances d' = userConsumableBalances d /\ ar_remainingSuperLikeCredits res = None;
  ac_matched : ar_matched res = negb (ai_action input =?? skip) && liked d (uuid_param (ai_targetUserId input)) (ai_userId input);
  ac_match :
    match ar_roomId res with
    | Some id => ar_matched res = true /\ match_opened d d' (ai_userId input) (ai_targetUserId input) id
    | None => ar_matched res = false /\ matches d' = matches d /\ rooms d' = rooms d
    end
}.

(** What an action repeated returns. *)
Definition repeated_result (input : ActInput) (d : Db) : ActResult :=
  if ai_action input =?? skip then mkActResult false None None false
  else
    let m := first (match_of (orderedMatchingPair (ai_userId input) (ai_targetUserId input))) (matches d) in
    mkActResult (negb (is_null m)) (matches.roomId <$> m)
      (if ai_action input =?? superlike
       then userConsumableBalances.superLikeCredits <$> balance_of (ai_userId input) d else None) false.

Lemma wp_repeatedAction input existing w :
  wp (repeatedAction input existing) (fun r w' => w' = w /\
    r = if matchActions.action existing =?? ai_action input then Ok (repeated_result input (db w))
        else Err (mkExn PlainError (js "MATCH_ACTION_CONFLICT"))) w.
Proof.
  unfold repeatedAction, repeated_result, superLikeBalance, pairMatch, balance_of. wp_step.
  wp_step; intros ->; [|done]. destruct (ai_action input =?? skip); [by wp_step|].
  do 3 wp_step. destruct (ai_action input =?? superlike); by wp_steps.
Qed.

Lemma match_opened_from d1 d d' u t id :
  matches d1 = matches d -> rooms d1 = rooms d -> match_opened d1 d' u t id -> match_opened d d' u t id.
Proof. unfold match_opened, room_exists. by intros -> ->. Qed.

Definition active_actions (input : ActInput) (d : Db) : list MatchAction :=
  sel (active_action (ai_userId input) (uuid_param (ai_targetUserId input))) (matchActions d).

Definition latest_action (input : ActInput) (d : Db) : option MatchAction :=
  head (order_by newest_action (active_actions input d)).

Lemma head_sorted_None {A} (le : A -> A -> bool) p (l : list A) :
  head (order_by le (sel p l)) = None -> existsb p l = false.
Proof.
  intros Hh. apply existsb_false. intros x Hx. apply not_true_is_false. intros Hp.
  assert (x ∈ order_by le (sel p l)) as Hin by (by rewrite elem_of_order_by, elem_of_sel).
  destruct (order_by le (sel p l)); [by apply elem_of_nil in Hin|done].
Qed.

(** The writes before the action row: at most one credit and one like. *)
Definition paid (input : ActInput) (d d1 : Db) : Prop :=
  let u := ai_userId input in let t := uuid_param (ai_targetUserId input) in
  (if ai_action input =?? superlike then spent u (userConsumableBalances d) (userConsumableBalances d1)
   else userConsumableBalances d1 = userConsumableBalances d) /\
  (if (ai_action input =?? skip) || liked d u t then userLikes d1 = userLikes d
   else userLikes d1 = userLikes d ++ [new_like input] /\
        (if ai_dailyLimit input is Some limit then liked_today input d < limit else True)) /\
  d1 = d <| userConsumableBalances := userConsumableBalances d1 |> <| userLikes := userLikes d1 |>.

Lemma wp_paid input w :
  wp ((if ai_action input =?? superlike then spendSuperLike (ai_userId input) else mret tt) ;;
      (if ai_action input =?? skip then mret tt else recordLike input))
    (fun r w' => match r with Ok _ => paid input (db w) (db w') | Err _ => True end) w.
Proof.
  wp_step. apply (wp_mono _ (fun r w' => (exists l, db w' = (db w) <| userConsumableBalances := l |>) /\ (r = Ok tt ->
    if ai_action input =?? superlike then spent (ai_userId input) (userConsumableBalances (db w)) (userConsumableBalances (db w'))
    else userConsumableBalances (db w') = userConsumableBalances (db w)))).
  { destruct (ai_action input =?? superlike); [by apply wp_spendSuperLike|]. wp_step.
    split; [exists (userConsumableBalances (db w)); by destruct (db w)|done]. }
  intros [[]|e] w1 [[l E1] Hc]; [|done]. specialize (Hc eq_refl). unfold paid.
  destruct (ai_action input =?? skip) eqn:Es; simpl.
  { wp_step. rewrite E1 in *. split_and!; [done|done|]. simpl. by destruct (db w). }
  eapply wp_mono; [apply wp_recordLike|]. intros [[]|e] w2 Hr; [|done].
  unfold liked, liked_today in *. rewrite E1 in Hr. simpl in Hr. destruct (existsb _ (userLikes (db w))).
  - subst w2. split; [done|]. rewrite E1. split; [done|]. simpl. by destruct (db w).
  - destruct Hr as [Hlim E2]. rewrite E2. simpl. split; [by rewrite E1 in Hc|]. split; [done|]. by destruct (db w).
Qed.

Lemma wp_repo_actOnCandidate input w :
  wp (repo_actOnCandidate input) (fun r w' =>
    match r with
    | Ok res =>
        if ar_created res then acted input (db w) (db w') res
        else db w' = db w /\ res = repeated_result input (db w) /\
             exists a, latest_action input (db w) = Some a /\ matchActions.action a = ai_action input
    | Err _ => db w' = db w
    end) w.
Proof.
  unfold repo_actOnCandidate. do 3 wp_step. destruct (head _) as [existing|] eqn:Eh.
  { eapply wp_mono; [apply wp_repeatedAction|]. intros r w' [-> ->].
    destruct (matchActions.action existing =?? ai_action input) eqn:Ea; [|by destruct w].
    replace (ar_created _) with false by (unfold repeated_result; by destruct (ai_action input =?? skip)).
    split_and!; [done..|]. exists existing. by rewrite bool_decide_eq_true in Ea. }
  apply head_sorted_None in Eh. wp_step.
  eapply wp_mono; [apply wp_requireActable|]. intros [[]|e] w0 [-> Hact]; [|by destruct w].
  apply wp_assoc. wp_step. eapply wp_mono; [apply wp_paid|]. intros [[]|e] w1 Hpaid; [|done].
  do 4 wp_step; [intros Hins Hfr|done..]. destruct Hpaid as (Hcr & Hli & E1).
  assert (forall r, r ∈ matchActions (db w) -> matchActions.id r <> random_uuid (tick w1)) as Hfresh.
  { intros r Hr Heq. assert (r ∈ matchActions (db w1)) as Hr1 by (by rewrite E1).
    rewrite existsb_false in Hfr. specialize (Hfr r Hr1). simpl in Hfr. unfold matchActions_conflict in Hfr. simpl in Hfr.
    by rewrite Heq, eqb_refl_true in Hfr. }
  assert (ai_userId input <> uuid_param (ai_targetUserId input)) as Hne.
  { intros Heq. simpl in Hins. by rewrite <- Heq, eqb_refl_true in Hins. }
  destruct (ai_action input =?? skip) eqn:Es; simpl in Hli.
  { wp_step. simpl. apply bool_decide_eq_true in Es. rewrite Es in *. simpl in *.
    split; simpl; rewrite ?Es; simpl; try done; [by apply Hact|exists (random_uuid (tick w1)); split; [done|by rewrite E1]|by rewrite E1]. }
  wp_step. eapply wp_mono; [apply wp_matchIfReverseExists|]. intros [[m room]|e] w2; [|done].
  intros ([Hl2 Ha2] & Hc2 & Hm & Hroom). simpl in Hl2, Ha2, Hc2, Hm.
  assert (m = liked (db w) (uuid_param (ai_targetUserId input)) (ai_userId input)) as Em.
  { rewrite Hm. change (userLikes (db (w1 <| tick ::= S |> <| db ::= _ |>))) with (userLikes (db w1)).
    unfold liked in *. simpl. destruct (existsb _ _) in Hli; [by rewrite Hli|]. destruct Hli as [-> _].
    rewrite existsb_app. simpl. unfold like_of at 2. simpl. rewrite (bool_decide_eq_false_2 (_ = uuid_param _)) by done.
    by rewrite orb_false_r. }
  clear Hm. wp_step.
  assert (forall bal, bal = (if ai_action input =?? superlike
      then userConsumableBalances.superLikeCredits <$> balance_of (ai_userId input) (db w2) else None) ->
    acted input (db w) (db w2) (mkActResult m room bal true)) as Hfinal.
  { intros bal ->. split; simpl; rewrite ?Es; simpl; try done.
    - by apply Hact.
    - exists (random_uuid (tick w1)). split; [done|]. rewrite Ha2. simpl. by rewrite E1.
    - rewrite Hl2. simpl. exact Hli.
    - rewrite Hc2. simpl. by destruct (ai_action input =?? superlike).
    - destruct room as [id|].
      + destruct Hroom as [-> Hop]. split; [done|]. eapply match_opened_from; [| |exact Hop]; simpl; by rewrite E1.
      + destruct Hroom as [-> Ed]. rewrite Ed. simpl. by rewrite E1. }
  destruct (ai_action input =?? superlike).
  - apply wp_superLikeBalance. wp_step. by apply Hfinal.
  - wp_step. wp_step. by apply Hfinal.
Qed.

(** ** Undo *)

Definition open_action (u : jstr) (r : MatchAction) : bool :=
  (matchActions.actorUserId r =?? u) && is_null (matchActions.revertedAt r).
Definition revert (at_ : Z) (a : MatchAction) : MatchAction := a <| matchActions.revertedAt := Some at_ |>.

(** The credit of a super-like is back; a missing balance row is created. *)
Definition refunded (u : jstr) (l l' : list UserConsumableBalance) : Prop :=
  exists at_, l' = if existsb (fun r => userConsumableBalances.userId r =?? u) l
    then mapif (fun r => userConsumableBalances.userId r =?? u)
      (fun r => r <| userConsumableBalances.superLikeCredits ::= fun n => n + 1 |>
                  <| userConsumableBalances.updatedAt := at_ |>) l
    else l ++ [userConsumableBalances.mkUserConsumableBalance u 1 0 at_].

(** The caller's newest open action is reverted, with its like and its credit,
    and it had led to no match. *)
Record undone (u : jstr) (d d' : Db) (claimed : MatchAction) : Prop := {
  un_action : exists a at_, a ∈ matchActions d /\ open_action u a = true /\ claimed = revert at_ a /\
    (forall r, r ∈ matchActions d -> open_action u r = true ->
       matchActions.createdAt r <= matchActions.createdAt a) /\
    matchActions d' = mapif (fun r => (matchActions.id r =?? matchActions.id a) && is_null (matchActions.revertedAt r))
                        (revert at_) (matchActions d);
  un_unmatched : matched d u (matchActions.targetUserId claimed) = false;
  un_likes : userLikes d' =
    if matchActions.action claimed =?? skip then userLikes d
    else del (like_of u (matchActions.targetUserId claimed)) (userLikes d);
  un_credits :
    if matchActions.action claimed =?? superlike
    then refunded u (userConsumableBalances d) (userConsumableBalances d')
    else userConsumableBalances d' = userConsumableBalances d;
  un_matches : matches d' = matches d
}.

Lemma newest_action_total : total_order newest_action.
Proof. split; unfold newest_action; intros; lia. Qed.

Lemma wp_refundSuperLike u w :
  wp (refundSuperLike u) (fun r w' => match r with
    | Ok _ => refunded u (userConsumableBalances (db w)) (userConsumableBalances (db w')) /\
              db w' = (db w) <| userConsumableBalances := userConsumableBalances (db w') |>
    | Err _ => existsb (fun r => userConsumableBalances.userId r =?? u) (userConsumableBalances (db w)) = false end) w.
Proof.
  unfold refundSuperLike.
  assert (forall l at_, existsb (userConsumableBalances_conflict (userConsumableBalances.mkUserConsumableBalance u 1 0 at_)) l
    = existsb (fun r => userConsumableBalances.userId r =?? u) l) as Hext.
  { intros l at_. induction l as [|x l IH]; simpl; [done|]. rewrite IH. f_equal.
    apply bool_decide_ext. simpl. by split. }
  do 6 wp_step; simpl; rewrite Hext.
  - intros Hex. wp_step. simpl. split; [|by destruct (db w)]. eexists. rewrite Hex. unfold mapif. apply map_ext.
    intros r. unfold userConsumableBalances_conflict. simpl. rewrite andb_true_r.
    destruct (decide (u = userConsumableBalances.userId r)) as [Heq|Hn];
      [by rewrite !bool_decide_eq_true_2|by rewrite !bool_decide_eq_false_2 by done].
  - intros Hex. wp_step; [intros _ _|done..]. wp_step. simpl. split; [|by destruct (db w)]. eexists. by rewrite Hex.
Qed.

Definition action_keys (d : Db) : Prop := NoDup (map matchActions.id (matchActions d)).

Lemma wp_repo_undoLastAction u w :
  action_keys (db w) ->
  wp (repo_undoLastAction u) (fun r w' =>
    match r with
    | Ok (Some a) => undone u (db w) (db w') a
    | Ok None => db w' = db w /\ existsb (open_action u) (matchActions (db w)) = false
    | Err _ => db w' = db w /\ exists a, a ∈ matchActions (db w) /\ open_action u a = true /\
        (forall r, r ∈ matchActions (db w) -> open_action u r = true -> matchActions.createdAt r <= matchActions.createdAt a) /\
        (matched (db w) u (matchActions.targetUserId a) = true \/
         existsb (fun r => userConsumableBalances.userId r =?? u) (userConsumableBalances (db w)) = false)
    end) w.
Proof.
  intros Hk. unfold repo_undoLastAction, pairMatch. wp_step. wp_step. wp_step. destruct (head _) as [action|] eqn:Eh.
  2: { wp_step. split; [done|]. by apply head_sorted_None in Eh. }
  pose proof (order_by_head _ _ _ newest_action_total Eh) as Hnew.
  assert (action ∈ matchActions (db w) /\ open_action u action = true) as [Hin Hopen].
  { apply elem_of_sel. rewrite <- (elem_of_order_by newest_action). unfold open_action.
    destruct (order_by _ _) as [|y l]; [done|]. injection Eh as <-. by left. }
  assert (matchActions.actorUserId action = u /\ matchActions.revertedAt action = None) as [Hact Hrev].
  { unfold open_action in Hopen. by rewrite andb_true_iff, bool_decide_eq_true, is_null_true in Hopen. }
  do 4 wp_step. simpl.
  rewrite (sel_key_unique matchActions.id _ _ action Hk Hin) by
    (rewrite ?eqb_refl_true, ?Hrev; try done; intros y _ Hy; rewrite andb_true_iff, bool_decide_eq_true in Hy; tauto).
  assert (forall r, r ∈ matchActions (db w) -> open_action u r = true ->
    matchActions.createdAt r <= matchActions.createdAt action) as Hnewest.
  { intros r Hr Ho. destruct (Hnew r) as [->|Hle]; [by apply elem_of_sel|lia|]. unfold newest_action in Hle. lia. }
  simpl. do 3 wp_step. wp_step; intros Hm; simpl in Hm.
  2: { split; [by destruct w|]. exists action. split_and!; try done. left. by rewrite pairMatch_matched, <- Hact, Hm. }
  wp_step. assert (matched (db w) u (matchActions.targetUserId action) = false) as Hun.
  { by rewrite pairMatch_matched, <- Hact, Hm. }
  destruct (matchActions.action action =?? skip) eqn:Es.
  { wp_step. wp_step. rewrite bool_decide_eq_true in Es. split; simpl; rewrite ?Es; try done.
    exists action, (to_column (date_now (tick w))). by split_and!. }
  do 2 wp_step. destruct (matchActions.action action =?? superlike) eqn:Esl.
  - eapply wp_mono; [apply wp_refundSuperLike|]. intros [[]|e] w1.
    2: { intros Hno. split; [by destruct w|]. exists action. split_and!; auto. }
    intros [Hr E1]. wp_step.
    rewrite E1. split; simpl; rewrite ?Es, ?Esl; try done.
    exists action, (to_column (date_now (tick w))). by split_and!.
  - wp_step. wp_step. split; simpl; rewrite ?Es, ?Esl; try done.
    exists action, (to_column (date_now (tick w))). by split_and!.
Qed.

(** * The invariant *)

Lemma liked_same d d' a b : userLikes d' = userLikes d -> liked d' a b = liked d a b.
Proof. unfold liked. by intros ->. Qed.
Lemma matched_same d d' a b : matches d' = matches d -> matched d' a b = matched d a b.
Proof. unfold matched. by intros ->. Qed.

Lemma match_opened_matched d d' u t id a b :
  canonical u -> canonical t -> canonical a -> canonical b -> match_opened d d' u t id ->
  matched d' a b = matched d a b || bool_decide ((a = u /\ b = t) \/ (a = t /\ b = u)).
Proof.
  intros Hu Ht Ha Hb [(m & Hf & _ & Em)|(_ & _ & _ & _ & _ & at_ & Em)].
  - rewrite (matched_same _ _ _ _ Em).
    destruct (decide ((a = u /\ b = t) \/ (a = t /\ b = u))) as [Hd|Hd].
    + rewrite (bool_decide_eq_true_2 _ Hd), orb_true_r. rewrite pairMatch_matched.
      assert (orderedMatchingPair a b = orderedMatchingPair u t) as -> by (by apply orderedMatchingPair_eq).
      by rewrite Hf.
    + by rewrite (bool_decide_eq_false_2 _ Hd), orb_false_r.
  - exact (matched_app _ _ _ _ _ _ _ _ Ha Hb Hu Ht Em).
Qed.

Lemma acted_ok input d d' res :
  canonical (ai_userId input) -> canonical (ai_targetUserId input) ->
  acted input d d' res -> matching_ok d -> matching_ok d'.
Proof.
  intros Hu Ht [_ _ Hne (id & Hfresh & Ea) _ Hlikes _ Hm Hroom] Hok. rewrite Ht in *.
  set (u := ai_userId input) in *. set (t := ai_targetUserId input) in *.
  assert (forall r, r ∈ matchActions d' -> canonical (matchActions.actorUserId r) /\ canonical (matchActions.targetUserId r) /\
    matchActions.actorUserId r <> matchActions.targetUserId r) as Hact.
  { rewrite Ea. intros r [Hr| ->%list_elem_of_singleton]%elem_of_app; [by apply (ok_actions d)|by split_and!]. }
  assert (NoDup (map matchActions.id (matchActions d'))) as Hkeys.
  { rewrite Ea. apply keys_insert; [by apply ok_keys|done]. }
  destruct (ai_action input =?? skip) eqn:Es; simpl in Hlikes, Hm.
  - destruct (ar_roomId res) as [room|]; [destruct Hroom; congruence|]. destruct Hroom as (_ & Em & _).
    split; [|done|done]. intros a b. rewrite (matched_same _ _ _ _ Em), !(liked_same d d') by done. apply (ok_mutual d Hok).
  - assert (forall a b, liked d' a b = liked d a b || bool_decide (a = u /\ b = t)) as Hl.
    { intros a b. destruct (liked d u t) eqn:El.
      - rewrite (liked_same _ _ _ _ Hlikes). destruct (decide (a = u /\ b = t)) as [[-> ->]|Hab].
        + by rewrite El.
        + by rewrite (bool_decide_eq_false_2 _ Hab), orb_false_r.
      - destruct Hlikes as [Hlikes _]. rewrite (liked_app _ _ _ _ _ Hlikes). f_equal.
        apply eq_true_iff_eq. rewrite like_of_true, bool_decide_eq_true. unfold new_like. simpl. fold u t. rewrite Ht.
        naive_solver. }
    split; [|done|done]. apply (matching_ok_like d d' u t); try done. intros a b Ha Hb.
    destruct (ar_roomId res) as [room|].
    + destruct Hroom as [Hmt Hop]. rewrite (match_opened_matched _ _ u t _ _ _ Hu Ht Ha Hb Hop).
      rewrite <- Hm, Hmt. done.
    + destruct Hroom as (Hmf & Em & _). rewrite (matched_same _ _ _ _ Em), <- Hm, Hmf. by rewrite orb_false_r.
Qed.

Lemma undone_ok u d d' a : canonical u -> undone u d d' a -> matching_ok d -> matching_ok d'.
Proof.
  intros Hu [(a0 & at_ & Hin & Hopen & -> & _ & Ea) Hun Hlikes _ Em] Hok.
  destruct (ok_actions d Hok a0 Hin) as (Hca & Hct & Hne).
  unfold open_action in Hopen. rewrite andb_true_iff, bool_decide_eq_true in Hopen. destruct Hopen as [Hau _].
  simpl in Hun, Hlikes. set (t := matchActions.targetUserId a0) in *. split.
  - intros a b Ha Hb Hab. rewrite (matched_same _ _ _ _ Em). destruct (matchActions.action a0 =?? skip).
    { rewrite !(liked_same d d') by done. by apply (ok_mutual d Hok). }
    rewrite !(liked_del _ _ _ _ _ _ Hlikes). rewrite (ok_mutual d Hok a b) by done.
    assert (liked d u t && liked d t u = false) as Hf by (rewrite <- (ok_mutual d Hok), Hun; [done..|congruence]).
    assert (forall x y x' y' : jstr, ~ (x = x' /\ y = y') -> bool_decide (x = x') && bool_decide (y = y') = false) as Hno.
    { intros x y x' y' Hn. apply andb_false_iff. rewrite !bool_decide_eq_false. destruct (decide (x = x')); naive_solver. }
    destruct (decide (a = u /\ b = t)) as [[-> ->]|H1].
    { by rewrite Hf, (bool_decide_eq_true_2 (u = u)), (bool_decide_eq_true_2 (t = t)), andb_false_r. }
    destruct (decide (b = u /\ a = t)) as [[-> ->]|H2].
    { by rewrite andb_comm, Hf, (bool_decide_eq_true_2 (u = u)), (bool_decide_eq_true_2 (t = t)), !andb_false_r. }
    by rewrite !Hno, !andb_true_r.
  - rewrite Ea. intros r (x & Hx & ->)%elem_of_mapif.
    destruct (ok_actions d Hok x Hx) as (? & ? & ?). by destruct (_ && _).
  - rewrite Ea, keys_mapif by done. by apply ok_keys.
Qed.

(** * Requests *)

Inductive MatchingRequest :=
| LikeUser (userId targetUserId : jstr)
| SuperLikeUser (userId targetUserId : jstr)
| SkipCandidate (userId targetUserId : jstr)
| UndoLastAction (userId : jstr)
| ActivateBoost (userId : jstr)
| Candidates (userId : jstr)
| LikedMe (userId : jstr).

Section requests.
Context `{NotificationService}.

(** A request, whatever it answers. *)
Definition serve (q : MatchingRequest) : M unit :=
  match q with
  | LikeUser u t => attempt (likeUser u t) ;; mret tt
  | SuperLikeUser u t => attempt (superLikeUser u t) ;; mret tt
  | SkipCandidate u t => attempt (skipCandidate u t) ;; mret tt
  | UndoLastAction u => attempt (undoLastAction u) ;; mret tt
  | ActivateBoost u => attempt (activateBoost u) ;; mret tt
  | Candidates u => attempt (candidates u) ;; mret tt
  | LikedMe u => attempt (likedMeCandidates u) ;; mret tt
  end.
(** The ids are in the case the database stores. *)
Definition canonical_request (q : MatchingRequest) : Prop :=
  match q with
  | LikeUser u t | SuperLikeUser u t | SkipCandidate u t => canonical u /\ canonical t
  | UndoLastAction u | ActivateBoost u | Candidates u | LikedMe u => canonical u
  end.

Definition matching_part (d : Db) := (userLikes d, matches d, matchActions d).
Lemma matching_ok_part d d' : matching_part d' = matching_part d -> matching_ok d -> matching_ok d'.
Proof. unfold matching_part. intros [= El Em Ea]. by apply matching_ok_same. Qed.

Lemma keeps_notifyInteraction {T} (t : Db -> T) u target m room :
  (forall d, t (forget_notifications d) = t d) -> keeps (fun w => t (db w)) (notifyInteraction u target m room).
Proof.
  intros Ht. pose proof (fun i => keeps_notify t i Ht). pose proof @keeps_settle. unfold notifyInteraction. solve_keeps.
Qed.

Lemma keeps_prologue {T} (t : Db -> T) u :
  keeps (fun w => t (db w)) (validateUuid u) /\ keeps (fun w => t (db w)) (requireCompletedProfile u) /\
  keeps (fun w => t (db w)) (currentPlanId u).
Proof.
  split_and!; intros w; unfold validateUuid, requireCompletedProfile, profileIsComplete, currentPlanId,
    findCurrentSubscription; by wp_steps.
Qed.

(** What the service adds to the repository: checks before, notifications after. *)
Lemma wp_actOnCandidate {T} (t : Db -> T) u target action now (Q : Result LikeUserPayload -> T -> Prop) w :
  (forall d, t (forget_notifications d) = t d) ->
  (forall e, Q (Err e) (t (db w))) ->
  (matchb UUID_PATTERN u = true -> matchb UUID_PATTERN target = true -> u <> target ->
   forall limit w0, db w0 = db w ->
   wp (repo_actOnCandidate (mkActInput u target action limit now (startOfUtcDay now) (nextUtcDay now)))
     (fun r w' => match r with
                  | Ok res => Q (Ok (mkLikeUser (ar_matched res) (ar_roomId res) (negb (ar_matched res)))) (t (db w'))
                  | Err e => Q (Err e) (t (db w')) end) w0) ->
  wp (actOnCandidate u target action now) (fun r w' => Q r (t (db w'))) w.
Proof.
  intros Ht Herr Hrepo. unfold actOnCandidate, validateUuid. wp_step. wp_step; [intros Hu|by auto].
  wp_step. wp_step; [intros Htg|by auto]. wp_step. wp_step; [intros Hne|by auto]. wp_step.
  eapply wp_mono; [apply (proj1 (proj2 (keeps_prologue (fun d => d) u)))|].
  intros [[]|e] w1 E1; [|by rewrite E1]. wp_step.
  eapply wp_mono; [apply (proj2 (proj2 (keeps_prologue (fun d => d) u)))|]. intros [planId|e] w2 E2; [|by rewrite E2, E1].
  wp_step. eapply wp_mono; [apply Hrepo; try done; [|congruence]|].
  { intros ->. by rewrite eqb_refl_true in Hne. }
  intros [res|e] w3 HQ; [|done]. wp_step.
  apply (wp_mono _ (fun r w' => t (db w') = t (db w3) /\ r = Ok tt)).
  { destruct (ar_created res && negb (action =?? skip)); [|by wp_step]. apply wp_try_catch.
    eapply wp_mono; [by apply (keeps_notifyInteraction t)|]. intros [[]|e] w4 E4; [done|by wp_step]. }
  intros r w4 [E4 ->]. wp_step. rewrite E4. exact HQ.
Qed.

Lemma act_keeps_ok u target action now w :
  canonical u -> canonical target -> matching_ok (db w) ->
  wp (actOnCandidate u target action now) (fun _ w' => matching_ok (db w')) w.
Proof.
  intros Hu Htg Hok.
  eapply wp_mono; [apply (wp_actOnCandidate matching_part _ _ _ _ (fun _ p => exists d, p = matching_part d /\ matching_ok d))|].
  - done.
  - intros e. by exists (db w).
  - intros _ _ _ limit w0 E0. eapply wp_mono; [apply wp_repo_actOnCandidate|]. rewrite E0. intros [res|e] w' Hr.
    + exists (db w'). split; [done|]. destruct (ar_created res).
      * eapply acted_ok; [| |exact Hr|done]; done.
      * destruct Hr as [-> _]. done.
    + exists (db w). by rewrite Hr.
  - intros r w' (d & E & Hd). by apply (matching_ok_part d).
Qed.

Lemma undo_keeps_ok u w :
  canonical u -> matching_ok (db w) -> wp (undoLastAction u) (fun _ w' => matching_ok (db w')) w.
Proof.
  intros Hu Hok. unfold undoLastAction, validateUuid. wp_step. wp_step; [intros _|done]. wp_step.
  eapply wp_mono; [apply (proj1 (proj2 (keeps_prologue (fun d => d) u)))|]. intros [[]|e] w1 E1; [|by rewrite E1].
  wp_step. eapply wp_mono; [apply wp_repo_undoLastAction; rewrite E1; by apply ok_keys|]. rewrite E1.
  intros [[a|]|e] w2 Hr; [wp_step; by eapply undone_ok|..]; destruct Hr as [E2 _]; [wp_step|]; by rewrite E2.
Qed.

Lemma keeps_part_boost u : keeps (fun w => matching_part (db w)) (activateBoost u).
Proof.
  pose proof (keeps_prologue matching_part u) as (? & ? & ?). unfold activateBoost, repo_activateBoost. solve_keeps.
Qed.
Lemma keeps_rowToCandidate {T} (t : Db -> T) row : keeps (fun w => t (db w)) (rowToCandidate row).
Proof. unfold rowToCandidate, ageFromBirthDate. solve_keeps. Qed.
Lemma keeps_details {T} (t : Db -> T) u rows : keeps (fun w => t (db w)) (withCandidateDetails u rows).
Proof. unfold withCandidateDetails. solve_keeps. Qed.
Lemma keeps_candidates {T} (t : Db -> T) u : keeps (fun w => t (db w)) (candidates u).
Proof.
  pose proof (keeps_prologue t u) as (? & ? & ?). pose proof (keeps_rowToCandidate t). pose proof (keeps_details t).
  unfold candidates, repo_candidates. solve_keeps.
Qed.
Lemma keeps_part_likedMe u : keeps (fun w => matching_part (db w)) (likedMeCandidates u).
Proof.
  pose proof (keeps_prologue matching_part u) as (? & ? & ?). pose proof (keeps_rowToCandidate matching_part).
  pose proof (keeps_details matching_part).
  unfold likedMeCandidates, repo_likedMeCandidates, enforceLikedMeWindow, consumeLikedMeAccess. solve_keeps.
Qed.

Lemma wp_serve_ok q w : canonical_request q -> matching_ok (db w) ->
  wp (serve q) (fun r w' => r = Ok tt /\ matching_ok (db w')) w.
Proof.
  assert (forall A (m : M A) w, wp m (fun _ w' => matching_ok (db w')) w ->
    wp (attempt m ;; mret tt) (fun r w' => r = Ok tt /\ matching_ok (db w')) w) as Hat.
  { intros A m w0 Hm. wp_step. wp_step. eapply wp_mono; [exact Hm|]. intros r w' Hok. by wp_step. }
  assert (forall A (m : M A) w, keeps (fun w => matching_part (db w)) m -> matching_ok (db w) ->
    wp m (fun _ w' => matching_ok (db w')) w) as Hk.
  { intros A m w0 Hm Hok. eapply wp_mono; [apply Hm|]. intros r w' E. by apply (matching_ok_part (db w0)). }
  intros Hq Hok. destruct q as [u t|u t|u t|u|u|u|u]; simpl in Hq; apply Hat.
  - unfold likeUser. destruct Hq. do 2 wp_step. by apply act_keeps_ok.
  - unfold superLikeUser. destruct Hq. do 2 wp_step. by apply act_keeps_ok.
  - unfold skipCandidate. destruct Hq. do 3 wp_step. eapply wp_mono; [by apply act_keeps_ok|]. intros [p|e] w' Hok'; [by wp_step|done].
  - by apply undo_keeps_ok.
  - apply Hk; [apply keeps_part_boost|done].
  - apply Hk; [apply (keeps_candidates matching_part)|done].
  - apply Hk; [apply keeps_part_likedMe|done].
Qed.

(** C24: a match is a mutual like.  Over any sequence of matching requests that name
    users by the lower-case spelling of their ids, whatever each answers, it stays
    so that two users are matched exactly when each likes the other, and nobody
    acts on themselves.  The spelling matters: the services accept a target id in
    upper case too, and then it fails ([uppercase_target_breaks_match]). *)
Theorem matches_are_mutual_likes (l : list MatchingRequest) w w' r :
  Forall canonical_request l -> matching_ok (db w) -> for_each l serve w = (w', r) ->
  r = Ok tt /\ matching_ok (db w').
Proof.
  intros Hl Hok E. to_wp E. apply (wp_for_each_inv _ _ (fun w => matching_ok (db w))); [done| |done].
  intros q w0 Hq Hok0. rewrite Forall_forall in Hl. eapply wp_mono; [by apply wp_serve_ok; [apply Hl|]|].
  by intros r w' [-> ?].
Qed.

(** * Replays *)

Lemma acted_latest input d d' res :
  acted input d d' res ->
  exists a, latest_action input d' = Some a /\ matchActions.action a = ai_action input.
Proof.
  intros [Hf _ _ (id & _ & Ea) _ _ _ _ _]. eexists. unfold latest_action, active_actions. rewrite Ea, sel_app.
  rewrite (sel_none _ (matchActions d)) by (by apply existsb_false). simpl. rewrite sel_cons. unfold active_action. simpl.
  rewrite !eqb_refl_true. simpl. split; [reflexivity|done].
Qed.

Lemma wp_repo_replay input a w :
  latest_action input (db w) = Some a ->
  wp (repo_actOnCandidate input) (fun r w' => db w' = db w /\
    r = if matchActions.action a =?? ai_action input then Ok (repeated_result input (db w))
        else Err (mkExn PlainError (js "MATCH_ACTION_CONFLICT"))) w.
Proof.
  intros Ha. unfold repo_actOnCandidate. do 3 wp_step. unfold latest_action, active_actions in Ha. rewrite Ha.
  eapply wp_mono; [apply wp_repeatedAction|]. intros r w' [-> ->].
  destruct (matchActions.action a =?? ai_action input); [done|]. by destruct w.
Qed.

(** The payload of an action and of its repetition. *)
Definition payload_of (res : ActResult) : LikeUserPayload :=
  mkLikeUser (ar_matched res) (ar_roomId res) (negb (ar_matched res)).
Lemma acted_replays input d d' res :
  canonical (ai_userId input) -> canonical (ai_targetUserId input) -> matching_ok d -> acted input d d' res ->
  payload_of (repeated_result input d') = payload_of res.
Proof.
  intros Hu Ht Hok Hact. pose proof (acted_ok _ _ _ _ Hu Ht Hact Hok) as Hok'.
  destruct Hact as [_ _ Hne _ _ _ _ Hm Hroom]. rewrite Ht in *.
  unfold repeated_result, payload_of. destruct (ai_action input =?? skip); simpl in Hm.
  { destruct (ar_roomId res) as [room|]; [destruct Hroom; congruence|]. by rewrite Hm. }
  simpl. destruct (ar_roomId res) as [room|].
  - destruct Hroom as [-> [(m & Hf & -> & ->)|(Hnone & _ & _ & _ & _ & at_ & ->)]]; [by rewrite Hf|].
    rewrite first_app, Hnone, first_cons. unfold match_of. simpl. by rewrite !eqb_refl_true.
  - destruct Hroom as (Hf & -> & _). rewrite Hf in Hm |- *. destruct (first _ _) as [m|] eqn:Ef; [|done].
    exfalso. assert (matched d (ai_userId input) (ai_targetUserId input) = true) as Hmt by (by rewrite pairMatch_matched, Ef).
    rewrite (ok_mutual d Hok), <- Hm, andb_false_r in Hmt by done. done.
Qed.

(** The checks that come before the repository. *)
Definition admitted (d : Db) (u target : jstr) : Prop :=
  matchb UUID_PATTERN u = true /\ matchb UUID_PATTERN target = true /\ u <> target /\
  exists usr, first (is_user u) (users d) = Some usr /\ visible usr = true.

Lemma wp_requireCompletedProfile u w :
  wp (requireCompletedProfile u) (fun r w' => w' = w /\
    (r = Ok tt <-> exists usr, first (is_user u) (users (db w)) = Some usr /\ visible usr = true)) w.
Proof.
  unfold requireCompletedProfile, profileIsComplete. do 4 wp_step. destruct (first _ _) as [usr|].
  - wp_step; intros E; (split; [done|]); split; try done; [by eexists|]. intros (? & [= <-] & ?). congruence.
  - wp_step; intros; [done|]. split; [done|]. split; [done|by intros (? & ? & ?)].
Qed.

Lemma wp_currentPlanId u w :
  wp (currentPlanId u) (fun r w' => db w' = db w /\ effects w' = effects w /\ exists plan, r = Ok plan) w.
Proof. unfold currentPlanId, findCurrentSubscription. wp_steps. split_and!; [done..|]. by eexists. Qed.

Lemma wp_admitted u target action now w :
  wp (actOnCandidate u target action now) (fun r w' => match r with Ok _ => admitted (db w) u target | Err _ => True end) w.
Proof.
  unfold actOnCandidate, validateUuid. wp_step. wp_step; [intros Hu|done]. wp_step. wp_step; [intros Ht|done].
  wp_step. wp_step; [intros Hne|done]. wp_step. eapply wp_mono; [apply wp_requireCompletedProfile|].
  intros [[]|e] w1 [-> Hc]; [|done]. apply run_wp. intros w' [p|e] _; [|done]. split_and!; try done.
  - intros ->. by rewrite eqb_refl_true in Hne.
  - by apply Hc.
Qed.

Lemma wp_replayed u target action now a w :
  admitted (db w) u target ->
  head (order_by newest_action (sel (active_action u (uuid_param target)) (matchActions (db w)))) = Some a ->
  wp (actOnCandidate u target action now) (fun r w' => db w' = db w /\ effects w' = effects w /\ exists limit,
    r = if matchActions.action a =?? action
        then Ok (payload_of (repeated_result (mkActInput u target action limit now (startOfUtcDay now) (nextUtcDay now)) (db w)))
        else Err (mkExn PlainError (js "MATCH_ACTION_CONFLICT"))) w.
Proof.
  intros (Hu & Ht & Hne & Hc) Ha. unfold actOnCandidate, validateUuid. rewrite Hu, Ht.
  do 2 (wp_step; wp_step; [intros _|done]). wp_step. wp_step; [intros _|].
  2: { by rewrite (bool_decide_eq_false_2 _ Hne). }
  wp_step. eapply wp_mono; [apply wp_requireCompletedProfile|]. intros r w1 [-> Hr].
  assert (r = Ok tt) as -> by (by apply Hr). wp_step.
  eapply wp_mono; [apply wp_currentPlanId|]. intros r2 w2 (E2 & E2e & plan & ->). wp_step.
  set (input := mkActInput u target action (getDailyLikeLimit plan) now (startOfUtcDay now) (nextUtcDay now)).
  assert (keeps effects (repo_actOnCandidate input)) as Hk.
  { unfold repo_actOnCandidate, repeatedAction, pairMatch, superLikeBalance, requireActable, spendSuperLike, recordLike,
      matchIfReverseExists, pairMatch, superLikeBalance. solve_keeps. }
  assert (latest_action input (db w2) = Some a) as Hla by (by rewrite E2).
  eapply wp_mono; [exact (wp_and _ _ _ _ (wp_repo_replay input a w2 Hla) (Hk w2))|].
  intros r w3 [[E3 ->] E3e]. simpl. destruct (matchActions.action a =?? action) eqn:Ea.
  - wp_step. replace (ar_created _) with false by (unfold repeated_result; simpl; by destruct (action =?? skip)).
      simpl. wp_step. wp_step. rewrite E3, E2, E3e, E2e. split_and!; [done..|]. by exists (getDailyLikeLimit plan).
  - rewrite E3, E2, E3e, E2e. split_and!; [done..|]. by exists None.
Qed.

Lemma keeps_users_act u target action now : keeps (fun w => users (db w)) (actOnCandidate u target action now).
Proof.
  pose proof (keeps_prologue users u) as (? & ? & ?). pose proof (keeps_prologue users target) as (? & ? & ?).
  pose proof (fun m room => keeps_notifyInteraction users u target m room (fun d => eq_refl)).
  unfold actOnCandidate, repo_actOnCandidate, repeatedAction, pairMatch, superLikeBalance, requireActable, spendSuperLike,
    recordLike, matchIfReverseExists, pairMatch, superLikeBalance. solve_keeps.
Qed.

(** The parts of the database an answer depends on. *)
Definition answer_part (d : Db) := (matching_part d, userConsumableBalances d).
Lemma repeated_result_part input d d' : answer_part d' = answer_part d -> repeated_result input d' = repeated_result input d.
Proof. unfold repeated_result, balance_of. intros [= _ -> _ ->]. done. Qed.

Lemma wp_acts u target action now w :
  canonical u -> canonical target -> matching_ok (db w) ->
  wp (actOnCandidate u target action now) (fun r w' => match r with
    | Ok p => exists a, matchActions.action a = action /\
        head (order_by newest_action (sel (active_action u (uuid_param target)) (matchActions (db w')))) = Some a /\
        forall limit, p = payload_of (repeated_result (mkActInput u target action limit now (startOfUtcDay now) (nextUtcDay now)) (db w'))
    | Err _ => True end) w.
Proof.
  intros Hu Ht Hok. eapply wp_mono; [apply (wp_actOnCandidate answer_part _ _ _ _ (fun r part => match r with
    | Ok p => exists d limit, part = answer_part d /\
        (exists a, latest_action (mkActInput u target action limit now (startOfUtcDay now) (nextUtcDay now)) d = Some a /\
           matchActions.action a = action) /\
        p = payload_of (repeated_result (mkActInput u target action limit now (startOfUtcDay now) (nextUtcDay now)) d)
    | Err _ => True end))|].
  - done.
  - done.
  - intros _ _ _ limit w0 E0. eapply wp_mono; [apply wp_repo_actOnCandidate|]. rewrite E0. intros [res|e] w' Hr; [|done].
    exists (db w'), limit. split; [done|]. destruct (ar_created res).
    + split; [by apply (acted_latest _ _ _ _ Hr)|]. symmetry.
      apply (acted_replays _ _ _ _ (Hu : canonical (ai_userId (mkActInput u target action limit now _ _))) Ht Hok Hr).
    + destruct Hr as (-> & -> & a & Ha). split; [by exists a|done].
  - intros [p|e] w'; [|done]. intros (d & limit & E & (a & Ha & Hact) & ->). exists a. split; [done|].
    split.
    + unfold latest_action, active_actions in Ha. simpl in Ha. injection E as _ _ Ema _. by rewrite Ema.
    + intros limit'. by rewrite (repeated_result_part _ _ _ E).
Qed.

(** C25: an action is taken once.  In a database where matches are mutual likes
    ([matching_ok], kept by every request of C24) and for a target named by the
    lower-case spelling of its id, repeating a like, super-like or skip returns
    the same answer, charges no credit, counts no like, sends nothing and changes
    nothing; a different action on the same user is a conflict.  For an upper-case
    spelling the match the first answer reports is not found again. *)
Theorem action_replay u target action action' now now' w w1 p :
  canonical u -> canonical target -> matching_ok (db w) ->
  actOnCandidate u target action now w = (w1, Ok p) ->
  exists w2, actOnCandidate u target action' now' w1
    = (w2, if action =?? action' then Ok p else Err (mkExn PlainError (js "MATCH_ACTION_CONFLICT"))) /\
    db w2 = db w1 /\ effects w2 = effects w1.
Proof.
  intros Hu Ht Hok E.
  destruct (wp_run _ _ _ _ _ E (wp_acts u target action now w Hu Ht Hok)) as (a & Ha & Hl & Hp).
  assert (admitted (db w1) u target) as Hadm.
  { pose proof (wp_run _ _ _ _ _ E (wp_admitted u target action now w)) as Hadm. simpl in Hadm. unfold admitted in *.
    by rewrite (keeps_run _ _ _ _ _ (keeps_users_act u target action now) E). }
  pose proof (wp_replayed u target action' now' a w1 Hadm Hl) as Hwp. unfold wp in Hwp.
  destruct (actOnCandidate u target action' now' w1) as [w2 r2]. simpl in Hwp.
  destruct Hwp as (Ed & Ee & limit & ->). exists w2. split; [|done]. rewrite Ha. destruct (action =?? action') eqn:Eq; [|done].
  apply bool_decide_eq_true in Eq as <-. by rewrite (Hp limit).
Qed.

(** * The daily limit *)

(** The plan the subscription lookup finds at [now]. *)
Definition plan_at (d : Db) (u : jstr) (now : Z) : jstr :=
  default (js "free") (userSubscriptions.planId <$> head (order_by
    (fun a b => userSubscriptions.createdAt b <=? userSubscriptions.createdAt a)
    (sel (fun s => (userSubscriptions.userId s =?? u) && (userSubscriptions.status s =?? js "active")
              && (is_null (userSubscriptions.currentPeriodEndsAt s)
                  || opt_gt (userSubscriptions.currentPeriodEndsAt s) (to_column now))) (userSubscriptions d)))).
Lemma wp_plan u (Q : Result jstr -> World -> Prop) w :
  Q (Ok (plan_at (db w) u (date_now (tick w)))) (w <| tick ::= S |>) -> wp (currentPlanId u) Q w.
Proof. intros HQ. unfold currentPlanId, findCurrentSubscription, plan_at in *. do 4 wp_step. wp_step. exact HQ. Qed.
(** Likes given in the UTC day of [now]. *)
Definition likes_today (u : jstr) (now : Z) (d : Db) : Z :=
  countw (liked_between u (Day now * msPerDay) (Day now * msPerDay + msPerDay)) (userLikes d).

Lemma utc_day now : startOfUtcDay now = Day now * msPerDay /\ nextUtcDay now = Day now * msPerDay + msPerDay.
Proof.
  unfold startOfUtcDay, nextUtcDay. rewrite !Date_UTC_fields. unfold msPerHour, msPerDay. split; lia.
Qed.
Lemma plan_limits :
  getDailyLikeLimit (js "free") = Some 10 /\ getDailyLikeLimit (js "basic") = Some 20 /\
  getDailyLikeLimit (js "gold") = Some 40 /\ getDailyLikeLimit (js "black") = None.
Proof. by vm_compute. Qed.

Lemma countw_liked_app v s e l r :
  countw (liked_between v s e) (l ++ [r]) = countw (liked_between v s e) l + if liked_between v s e r then 1 else 0.
Proof. rewrite countw_app, countw_cons. change (countw _ []) with 0. lia. Qed.

(** What one action does to the likes. *)
Definition like_step (u : jstr) (limit : option Z) (now : Z) (d : Db) (likes' : list UserLike) : Prop :=
  likes' = userLikes d \/
  exists target, likes' = userLikes d ++ [userLikes.mkUserLike u target (to_column now)] /\
    if limit is Some n then likes_today u now d < n else True.

Lemma wp_repo_like_step u target action limit now dayStart dayEnd w :
  dayStart = Day now * msPerDay -> dayEnd = Day now * msPerDay + msPerDay ->
  wp (repo_actOnCandidate (mkActInput u target action limit now dayStart dayEnd))
    (fun _ w' => like_step u limit now (db w) (userLikes (db w'))) w.
Proof.
  intros Hs He. assert (likes_today u now (db w) = countw (liked_between u dayStart dayEnd) (userLikes (db w))) as El.
  { by rewrite Hs, He. }
  unfold like_step. rewrite El. clear El Hs He.
  eapply wp_mono; [apply wp_repo_actOnCandidate|]. intros [res|e] w2 Hr; [|left; by rewrite Hr].
  destruct (ar_created res); [|left; by destruct Hr as [-> _]].
  destruct Hr as [_ _ _ _ _ Hl _ _ _]. simpl in Hl. destruct (_ || _); [by left|]. destruct Hl as [Hl Hlim].
  right. exists (uuid_param target). split; [exact Hl|]. by destruct limit.
Qed.

Lemma wp_like_step u target action now w :
  wp (actOnCandidate u target action now)
    (fun r w' => like_step u (getDailyLikeLimit (plan_at (db w) u (date_now (tick w)))) now (db w) (userLikes (db w'))) w.
Proof.
  unfold actOnCandidate, validateUuid. wp_step. wp_step; [intros Hu|by left].
  wp_step. wp_step; [intros Ht|by left]. wp_step. wp_step; [intros Hne|by left]. wp_step.
  eapply wp_mono; [apply wp_requireCompletedProfile|]. intros [[]|e] w1 [-> _]; [|by left]. wp_step.
  apply wp_plan. generalize (getDailyLikeLimit (plan_at (db w) u (date_now (tick w)))). intros limit. wp_step.
  eapply wp_mono; [exact (wp_repo_like_step _ _ _ _ _ _ _ _ (proj1 (utc_day now)) (proj2 (utc_day now)))|]. intros [res|e] w2 Hs; [|exact Hs].
  wp_step. apply (wp_mono _ (fun r w' => userLikes (db w') = userLikes (db w2))).
  { destruct (ar_created res && negb (action =?? skip)); [|by wp_step]. apply wp_try_catch.
    eapply wp_mono; [by apply (keeps_notifyInteraction userLikes)|]. intros [[]|e] w4 E4; [done|by wp_step]. }
  intros [[]|e] w4 E4; [wp_step|]; by rewrite E4.
Qed.

(** C26: the daily limit.  An action adds at most one like, of the caller and
    dated now; it adds one only while fewer likes than the current plan's limit
    were given in this UTC day (10, 20 and 40 for free, basic and gold, no limit
    for black), so the day's count stays within the limit, and no other user's
    count changes. *)
Theorem daily_like_limit u target action now w w' r :
  actOnCandidate u target action now w = (w', r) ->
  let limit := getDailyLikeLimit (plan_at (db w) u (date_now (tick w))) in
  likes_today u now (db w) <= likes_today u now (db w') <= likes_today u now (db w) + 1 /\
  (likes_today u now (db w') <> likes_today u now (db w) ->
   if limit is Some n then likes_today u now (db w') <= n else True) /\
  (forall v s e, v <> u -> countw (liked_between v s e) (userLikes (db w')) = countw (liked_between v s e) (userLikes (db w))).
Proof.
  intros E limit. unfold likes_today. destruct (wp_run _ _ _ _ _ E (wp_like_step u target action now w)) as [->|(t & -> & Hlim)].
  { split_and!; [lia..|done|done]. }
  fold limit in Hlim. unfold likes_today in Hlim. rewrite countw_liked_app.
  assert (liked_between u (Day now * msPerDay) (Day now * msPerDay + msPerDay)
    (userLikes.mkUserLike u t (to_column now)) = true) as ->.
  { unfold liked_between, to_column. simpl. rewrite eqb_refl_true. pose proof (Day_bounds now). lia. }
  split_and!; [lia..| |].
  - intros _. destruct limit; [lia|done].
  - intros v s e Hv. rewrite countw_liked_app. unfold liked_between at 2. simpl.
    rewrite (bool_decide_eq_false_2 (u = v)) by done. simpl. lia.
Qed.

(** * Undoing a super-like *)

Definition credit (r : UserConsumableBalance) : jstr * Z * Z :=
  (userConsumableBalances.userId r, userConsumableBalances.superLikeCredits r, userConsumableBalances.boostCredits r).
Definition balance_keys (d : Db) : Prop := NoDup (map userConsumableBalances.userId (userConsumableBalances d)).

Lemma spent_refunded u l l' l'' :
  NoDup (map userConsumableBalances.userId l) -> spent u l l' -> refunded u l' l'' -> map credit l'' = map credit l.
Proof.
  intros Hk (at1 & -> & r & Hr & Hu & Hpos) (at2 & ->).
  assert (forall x, x ∈ l -> userConsumableBalances.userId x = u -> x = r) as Huniq.
  { intros x Hx Hxu. apply (keys_inj userConsumableBalances.userId l); [done..|congruence]. }
  rewrite (proj2 (existsb_true _ _)).
  2: { eexists. split; [apply elem_of_mapif; exists r; split; [done|reflexivity]|].
       rewrite Hu, eqb_refl_true, (proj2 (Z.ltb_lt _ _) Hpos). simpl. by rewrite Hu, eqb_refl_true. }
  unfold mapif. rewrite !map_map. apply map_ext_in. intros x Hx%list_elem_of_In.
  destruct (userConsumableBalances.userId x =?? u) eqn:Ex; simpl; [|by rewrite Ex].
  rewrite bool_decide_eq_true in Ex. rewrite (Huniq x Hx Ex), (proj2 (Z.ltb_lt _ _) Hpos). simpl.
  rewrite Hu, eqb_refl_true. unfold credit. simpl. f_equal. f_equal. lia.
Qed.

Definition act_part (d : Db) := (userLikes d, matches d, matchActions d, userConsumableBalances d).
Lemma wp_acted u target action now w :
  existsb (active_action u (uuid_param target)) (matchActions (db w)) = false ->
  wp (actOnCandidate u target action now) (fun r w' => match r with
    | Ok p => exists d limit res, act_part (db w') = act_part d /\ p = payload_of res /\
        acted (mkActInput u target action limit now (startOfUtcDay now) (nextUtcDay now)) (db w) d res
    | Err _ => True end) w.
Proof.
  intros Hno. eapply wp_mono; [apply (wp_actOnCandidate act_part _ _ _ _ (fun r part => match r with
    | Ok p => exists d limit res, part = act_part d /\ p = payload_of res /\
        acted (mkActInput u target action limit now (startOfUtcDay now) (nextUtcDay now)) (db w) d res
    | Err _ => True end))|]; [done|done| |by intros [p|e] w'].
  intros _ _ _ limit w0 E0. eapply wp_mono; [apply wp_repo_actOnCandidate|]. rewrite E0. intros [res|e] w' Hr; [|done].
  destruct (ar_created res); [by exists (db w'), limit, res|]. destruct Hr as (_ & _ & a & Ha & _). exfalso.
  unfold latest_action, active_actions in Ha. simpl in Ha. rewrite (sel_none _ (matchActions (db w))) in Ha; [done|].
  by apply existsb_false.
Qed.

(** The newest open action, when all others are older. *)
Lemma newest_is u (l : list MatchAction) new a :
  (forall r, r ∈ l -> open_action u r = true -> matchActions.createdAt r < matchActions.createdAt new) ->
  open_action u new = true ->
  a ∈ l ++ [new] -> open_action u a = true ->
  (forall r, r ∈ l ++ [new] -> open_action u r = true -> matchActions.createdAt r <= matchActions.createdAt a) -> a = new.
Proof.
  intros Hold Hn [Ha| ->%list_elem_of_singleton]%elem_of_app Ho Hmax; [|done].
  specialize (Hold a Ha Ho). specialize (Hmax new ltac:(set_solver) Hn). lia.
Qed.

Lemma wp_undo_superlike u target d d1 limit now res w :
  canonical u -> canonical target -> matching_ok d -> balance_keys d -> liked d u target = false ->
  (forall r, r ∈ matchActions d -> open_action u r = true -> matchActions.createdAt r < to_column now) ->
  acted (mkActInput u target superlike limit now (startOfUtcDay now) (nextUtcDay now)) d d1 res ->
  act_part (db w) = act_part d1 -> ar_matched res = false ->
  wp (repo_undoLastAction u) (fun r w' => exists a, r = Ok (Some a) /\ matchActions.targetUserId a = target /\
    userLikes (db w') = userLikes d /\ matches (db w') = matches d /\
    map credit (userConsumableBalances (db w')) = map credit (userConsumableBalances d) /\
    existsb (active_action u target) (matchActions (db w')) = false) w.
Proof.
  intros Hu Ht Hok Hbk Hnl Hold Hact [= El0 Em0 Ea0 Ec0] Hmf. pose proof (acted_ok _ _ _ _ (Hu : canonical (ai_userId (mkActInput u target superlike limit now _ _))) Ht Hact Hok) as Hok1.
  apply (matching_ok_same d1 (db w)) in Hok1; [|done..].
  destruct Hact as [Hfirst _ Hne (id & Hfresh & Ea) _ Hl [Hspent _] _ Hm]. simpl in *. rewrite Ht in *.
  rewrite Hnl in Hl. destruct Hl as [Hl _]. destruct (ar_roomId res) as [room|]; [destruct Hm; congruence|].
  destruct Hm as (_ & Em & _). rewrite <- Em0 in Em. rewrite <- Ea0 in Ea. rewrite <- Ec0 in Hspent. rewrite <- El0 in Hl.
  set (new := matchActions.mkMatchAction id u target superlike None (to_column now)) in *.
  assert (open_action u new = true) as Hno by (unfold open_action; simpl; by rewrite eqb_refl_true).
  assert (forall a, a ∈ matchActions (db w) -> open_action u a = true ->
    (forall r, r ∈ matchActions (db w) -> open_action u r = true -> matchActions.createdAt r <= matchActions.createdAt a) -> a = new) as Hnew.
  { rewrite Ea. intros a. by apply newest_is. }
  eapply wp_mono; [apply wp_repo_undoLastAction, ok_keys, Hok1|].
  intros [[a|]|e] w'.
  - intros [(a0 & at_ & Hin & Ho & -> & Hmax & Ea') _ Hl' Hc Em'].
    assert (a0 = new) as -> by auto. simpl in *. exists (revert at_ new). split_and!; try done.
    + rewrite Hl', Hl, del_app, del_cons. unfold like_of at 2, new_like. simpl. rewrite Ht, !eqb_refl_true. simpl.
      rewrite app_nil_r. apply del_none. intros r Hr. rewrite (proj1 (existsb_false _ _) Hnl r Hr). done.
    + congruence.
    + by apply (spent_refunded u _ (userConsumableBalances (db w))).
    + rewrite Ea', Ea, mapif_app, existsb_app. simpl.
      rewrite eqb_refl_true. simpl. unfold active_action at 2. simpl. rewrite andb_false_r, !orb_false_r.
      apply existsb_false. intros r (x & Hx & ->)%elem_of_mapif. destruct (_ && _) eqn:Eb.
      * rewrite andb_true_iff, bool_decide_eq_true in Eb. destruct Eb as [Eb _]. by destruct (Hfresh x Hx).
      * by apply (proj1 (existsb_false _ _) Hfirst).
  - intros [_ Hnone]. exfalso. rewrite existsb_false in Hnone. rewrite (Hnone new) in Hno; [done|]. rewrite Ea. set_solver.
  - intros (_ & a & Hin & Ho & Hmax & [Hmt|Hb]); assert (a = new) as -> by auto; simpl in *; exfalso.
    + rewrite (matched_same _ _ _ _ Em), (ok_mutual d Hok), Hnl in Hmt; done.
    + destruct Hspent as (at1 & Es & r & Hr & Hru & Hpos). rewrite Es, existsb_false in Hb.
      specialize (Hb _ (proj2 (elem_of_mapif _ _ _ _) (ex_intro _ r (conj Hr eq_refl)))).
      simpl in Hb. rewrite Hru, eqb_refl_true, (proj2 (Z.ltb_lt _ _) Hpos) in Hb. simpl in Hb. by rewrite Hru, eqb_refl_true in Hb.
Qed.

(** C27: a super-like can be taken back.  Undoing a super-like that led to no
    match succeeds, names its target, and leaves every like, match and credit
    balance as it was before; the target may be acted on again. *)
Theorem superlike_undo_roundtrip u target now w w1 p :
  canonical u -> canonical target -> matching_ok (db w) -> balance_keys (db w) ->
  liked (db w) u target = false -> existsb (active_action u target) (matchActions (db w)) = false ->
  (forall r, r ∈ matchActions (db w) -> open_action u r = true -> matchActions.createdAt r < to_column now) ->
  actOnCandidate u target superlike now w = (w1, Ok p) -> lu_matched p = false ->
  exists w2, undoLastAction u w1 = (w2, Ok (mkUndo true (Some target))) /\
    userLikes (db w2) = userLikes (db w) /\ matches (db w2) = matches (db w) /\
    map credit (userConsumableBalances (db w2)) = map credit (userConsumableBalances (db w)) /\
    existsb (active_action u target) (matchActions (db w2)) = false.
Proof.
  intros Hu Ht Hok Hbk Hnl Hna Hold E Hm.
  assert (existsb (active_action u (uuid_param target)) (matchActions (db w)) = false) as Hna' by (by rewrite Ht).
  destruct (wp_run _ _ _ _ _ E (wp_acted u target superlike now w Hna')) as (d & limit & res & Ed & -> & Hact).
  destruct (wp_run _ _ _ _ _ E (wp_admitted u target superlike now w)) as (Hvu & _ & _ & Hvis).
  rewrite <- (keeps_run _ _ _ _ _ (keeps_users_act u target superlike now) E) in Hvis.
  enough (wp (undoLastAction u) (fun r w2 => r = Ok (mkUndo true (Some target)) /\
    userLikes (db w2) = userLikes (db w) /\ matches (db w2) = matches (db w) /\
    map credit (userConsumableBalances (db w2)) = map credit (userConsumableBalances (db w)) /\
    existsb (active_action u target) (matchActions (db w2)) = false) w1) as Hwp by (by apply wp_total).
  unfold undoLastAction, validateUuid. rewrite Hvu. wp_step. wp_step; [intros _|done]. wp_step.
  eapply wp_mono; [apply wp_requireCompletedProfile|]. intros r w1' [-> Hr]. assert (r = Ok tt) as -> by (by apply Hr).
  wp_step. eapply wp_mono; [by apply (wp_undo_superlike u target (db w) d limit now res)|].
  intros r2 w2 (a & -> & <- & ?). by wp_step.
Qed.

(** * Boosts *)

(** No two boosts of a user run at the same time. *)
Definition boosts_disjoint (d : Db) : Prop :=
  forall a b, a ∈ userBoosts d -> b ∈ userBoosts d -> userBoosts.userId a = userBoosts.userId b -> a <> b ->
    userBoosts.endsAt a <= userBoosts.startsAt b \/ userBoosts.endsAt b <= userBoosts.startsAt a.

(** A boost was started at [now]: paid for by one credit, for half an hour. *)
Definition boost_started (u : jstr) (now : Z) (d d' : Db) (remaining : Z) : Prop :=
  existsb (active_boost u now) (userBoosts d) = false /\
  (exists c, c ∈ userConsumableBalances d /\ userConsumableBalances.userId c = u /\
     0 < userConsumableBalances.boostCredits c /\ remaining = userConsumableBalances.boostCredits c - 1) /\
  (exists id at_, userBoosts d' = userBoosts d ++
     [userBoosts.mkUserBoost id u (js "consumable") (to_column now) (to_column (now + 30 * 60 * 1000)) at_]) /\
  d' = d <| userBoosts := userBoosts d' |> <| userConsumableBalances := mapif
    (fun r => (userConsumableBalances.userId r =?? u) && (0 <? userConsumableBalances.boostCredits r))
    (fun r => r <| userConsumableBalances.boostCredits ::= fun n => n - 1 |>
                <| userConsumableBalances.updatedAt := to_column now |>) (userConsumableBalances d) |>.

Lemma wp_repo_activateBoost u now w :
  wp (repo_activateBoost u now) (fun r w' => match r with
    | Ok (endsAt, remaining) => endsAt = now + 30 * 60 * 1000 /\ boost_started u now (db w) (db w') remaining
    | Err _ => db w' = db w
    end) w.
Proof.
  unfold repo_activateBoost. do 3 wp_step. destruct (head _) as [c|] eqn:Ec; [|by wp_step].
  wp_step. wp_step. wp_step. wp_step; intros Hb; [|done]. do 6 wp_step; [intros _ _|done..]. wp_step.
  split; [done|]. split_and!.
  - apply existsb_false, first_None. by apply is_null_true in Hb.
  - destruct (sel _ _) as [|x s] eqn:Es; [done|]. injection Ec as <-. exists x.
    assert (x ∈ sel (fun r => (userConsumableBalances.userId r =?? u) && (0 <? userConsumableBalances.boostCredits r))
      (userConsumableBalances (db w))) as Hx by (simpl in Es; rewrite Es; set_solver).
    apply elem_of_sel in Hx as [Hx Hp]. rewrite andb_true_iff, bool_decide_eq_true, Z.ltb_lt in Hp. naive_solver.
  - by eexists _, _.
  - simpl. by destruct (db w).
Qed.

Lemma boost_started_disjoint u now d d' remaining :
  boost_started u now d d' remaining -> boosts_disjoint d -> boosts_disjoint d'.
Proof.
  intros (Hno & _ & (id & at_ & Eb) & _) Hd. rewrite existsb_false in Hno.
  assert (forall r, r ∈ userBoosts d -> userBoosts.userId r = u -> userBoosts.endsAt r <= to_column now) as Hended.
  { intros r Hr Hu. specialize (Hno r Hr). unfold active_boost in Hno. rewrite Hu, eqb_refl_true in Hno. simpl in Hno.
    lia. }
  unfold boosts_disjoint. rewrite Eb.
  intros a b [Ha| ->%list_elem_of_singleton]%elem_of_app [Hb| ->%list_elem_of_singleton]%elem_of_app Hu Hne; simpl in *.
  - by apply Hd.
  - left. auto.
  - right. auto.
  - done.
Qed.

(** C28: a boost.  Activation takes exactly one credit from the caller and
    starts one half-hour boost now, only while none of theirs is running; a
    refusal changes nothing.  So the boosts of a user never overlap. *)
Theorem boost_pays_once u w w' r :
  activateBoost u w = (w', r) ->
  let now := date_now (tick w) in
  match r with
  | Ok p => boost_started u now (db w) (db w') (bo_remainingBoostCredits p) /\
            bo_activeUntil p = toISOString (now + 30 * 60 * 1000)
  | Err _ => db w' = db w
  end /\ (boosts_disjoint (db w) -> boosts_disjoint (db w')).
Proof.
  intros E now. revert w' r E. apply wp_elim. unfold activateBoost, validateUuid. do 3 wp_step. wp_step; [intros _|done].
  wp_step. eapply wp_mono; [apply wp_requireCompletedProfile|]. intros [[]|e] w1 [-> _]; [|done].
  wp_step. eapply wp_mono; [apply wp_repo_activateBoost|]. intros [[endsAt remaining]|e] w2; [|by intros ->].
  intros [-> Hs]. wp_step. split; [done|]. by apply (boost_started_disjoint _ _ _ _ _ Hs).
Qed.

(** * Who is shown *)

Definition user_keys (d : Db) : Prop := NoDup (map users.userId (users d)).

(** The rows of a list of candidates are those of its users. *)
Lemma wp_withCandidateDetails u rows w :
  wp (withCandidateDetails u rows) (fun r w' => db w' = db w /\ exists l, r = Ok l /\ map cr_base l = rows) w.
Proof.
  unfold withCandidateDetails. destruct rows as [|row rows]; [wp_step; split; [done|]; by exists []|].
  wp_steps. split; [done|]. eexists. split; [reflexivity|]. rewrite map_map. simpl. f_equal.
  rewrite <- (map_id rows) at 2. by apply map_ext.
Qed.

Lemma wp_rows rows w :
  wp (map_all rows rowToCandidate) (fun r w' => db w' = db w /\
    exists l, r = Ok l /\ map mc_id l = map (fun row => cb_id (cr_base row)) rows) w.
Proof.
  revert w. induction rows as [|row rows IH]; intros w; simpl; [wp_step; split; [done|by exists []]|].
  wp_step. apply (wp_mono _ (fun r w' => db w' = db w /\ exists c, r = Ok c /\ mc_id c = cb_id (cr_base row))).
  { unfold rowToCandidate, ageFromBirthDate. wp_steps; (split; [done|]); by eexists. }
  intros r w1 [E1 (c & -> & Hc)]. wp_step. eapply wp_mono; [apply IH|]. intros r2 w2 [E2 (l & -> & Hl)]. wp_step.
  split; [congruence|]. eexists. split; [reflexivity|]. simpl. by rewrite Hc, Hl.
Qed.

Lemma wp_candidates u w :
  wp (candidates u) (fun r w' => db w' = db w /\ match r with
    | Ok l => exists viewer, first (is_user u) (users (db w)) = Some viewer /\ visible viewer = true /\
        map mc_id l = map users.userId (take 50 (order_by newest_user (sel (eligible (db w) viewer) (users (db w)))))
    | Err _ => True end) w.
Proof.
  unfold candidates, validateUuid. wp_step. wp_step; [intros _|done]. wp_step.
  eapply wp_mono; [apply wp_requireCompletedProfile|]. intros [[]|e] w1 [-> Hv]; [|done].
  destruct (proj1 Hv eq_refl) as (viewer & Hf & Hvis). wp_step. unfold repo_candidates. do 2 wp_step. rewrite Hf.
  do 4 wp_step. eapply wp_mono; [apply wp_withCandidateDetails|]. intros r w2 [E2 (l & -> & Hl)].
  eapply wp_mono; [apply wp_rows|]. intros r w3 [E3 (l' & -> & Hl')]. split; [congruence|].
  exists viewer. split; [done|]. split; [done|]. rewrite Hl', <- (map_map cr_base cb_id), Hl, map_map. done.
Qed.

Lemma eligible_spec d viewer v :
  user_keys d -> viewer ∈ users d -> v ∈ users d -> visible viewer = true ->
  eligible d viewer v = true <->
  users.userId v <> users.userId viewer /\ actable d (users.userId viewer) (users.userId v) /\
  existsb (active_action (users.userId viewer) (users.userId v)) (matchActions d) = false.
Proof.
  intros Hk Hvin Hin Hvis.
  assert (forall x, x ∈ users d -> first (is_user (users.userId x)) (users d) = Some x) as Hfirst.
  { intros x Hx. apply (first_key_unique users.userId); [done..|unfold is_user; apply eqb_refl_true|].
    intros y _ Hy. unfold is_user in Hy. by rewrite bool_decide_eq_true in Hy. }
  unfold eligible, reachable_user, actable. rewrite !andb_true_iff, !negb_true_iff. unfold is_user at 1.
  rewrite bool_decide_eq_false, (Hfirst viewer Hvin), (Hfirst v Hin).
  split.
  - intros [[[[[Hne Hv] Hb] Ha1] Ha2] Hact]. split; [done|]. split; [|done]. by exists viewer, v.
  - intros (Hne & (a & c & [= <-] & [= <-] & _ & Hv & Ha1 & Ha2 & Hb) & Hact). by split_and!.
Qed.

(** C29: who is shown.  The list holds at most 50 users, all of whom the viewer
    may act on now (visible, interested in each other, not blocked, not acted on
    yet); such a user is left out only when the list is full of users who joined
    no earlier.  Listing changes nothing. *)
Theorem candidates_are_eligible u w w' l :
  user_keys (db w) -> candidates u w = (w', Ok l) ->
  db w' = db w /\ (length l <= 50)%nat /\
  (forall id, id ∈ map mc_id l ->
     id <> u /\ actable (db w) u id /\ existsb (active_action u id) (matchActions (db w)) = false) /\
  (forall v, v ∈ users (db w) -> users.userId v <> u -> actable (db w) u (users.userId v) ->
     existsb (active_action u (users.userId v)) (matchActions (db w)) = false ->
     users.userId v ∈ map mc_id l \/
     (length l = 50%nat /\ forall x, x ∈ users (db w) -> users.userId x ∈ map mc_id l -> users.createdAt v <= users.createdAt x)).
Proof.
  intros Hk E. destruct (wp_run _ _ _ _ _ E (wp_candidates u w)) as (Ed & viewer & Hf & Hvis & Hl). split; [done|].
  apply first_Some in Hf as [Hvin Hvu]. unfold is_user in Hvu. rewrite bool_decide_eq_true in Hvu. subst u.
  set (rows := sel (eligible (db w) viewer) (users (db w))) in *.
  assert (length l = length (take 50 (order_by newest_user rows))) as Hlen.
  { apply (f_equal length) in Hl. by rewrite !length_map in Hl. }
  assert (total_order newest_user) as Htot by (split; unfold newest_user; intros; lia).
  split_and!.
  - rewrite Hlen, length_take. lia.
  - intros id. rewrite Hl. intros (v & Hv & <-)%key_elem. apply elem_of_take_order, elem_of_sel in Hv as [Hin Hel].
    by apply (eligible_spec _ _ _ Hk Hvin Hin Hvis).
  - intros v Hin Hne Hact Hno. assert (eligible (db w) viewer v = true) as Hel by (by apply eligible_spec).
    destruct (take_order_by newest_user rows 50 v Htot) as [Hv|[Hfull Hbefore]].
    + by apply elem_of_sel.
    + left. rewrite Hl. apply key_elem. by exists v.
    + right. split; [by rewrite Hlen|]. intros x Hx. rewrite Hl. intros (y & Hy & Hyx)%key_elem.
      assert (y = x) as ->.
      { apply (keys_inj users.userId (users (db w))); try done. by apply elem_of_take_order, elem_of_sel in Hy as [? _]. }
      specialize (Hbefore x Hy). unfold newest_user in Hbefore. lia.
Qed.

(** * The liked-me window *)

Definition views (u : jstr) (periodStart : Z) (d : Db) : Z :=
  if first (fun r => (userLikedMeAccesses.userId r =?? u) && (userLikedMeAccesses.periodStart r =?? to_column periodStart))
       (userLikedMeAccesses d) is Some r then userLikedMeAccesses.viewedCount r else 0.

Lemma liked_me_window now :
  startOfLikedMeWindow now <= now < startOfLikedMeWindow now + 3 * msPerHour /\
  (3 * msPerHour | startOfLikedMeWindow now).
Proof.
  unfold startOfLikedMeWindow. rewrite Date_UTC_fields. pose proof (Day_bounds now) as Hd.
  assert (now = Day now * msPerDay + TimeWithinDay now) as Hn.
  { unfold Day, TimeWithinDay. pose proof (Z.div_mod now msPerDay). unfold msPerDay in *. lia. }
  unfold getUTCHours, LIKED_ME_WINDOW_HOURS. set (t := TimeWithinDay now) in *.
  pose proof (Z.div_mod t msPerHour ltac:(done)). pose proof (Z.mod_pos_bound t msPerHour ltac:(done)).
  pose proof (Z.div_mod (t / msPerHour) 3 ltac:(done)). pose proof (Z.mod_pos_bound (t / msPerHour) 3 ltac:(done)).
  set (h := t / msPerHour) in *. set (q := h / 3) in *. split.
  - unfold msPerHour, msPerDay in *. lia.
  - exists (Day now * 8 + q). unfold msPerHour, msPerDay. lia.
Qed.

Definition access_keys (d : Db) : Prop :=
  NoDup (map (fun r => (userLikedMeAccesses.userId r, userLikedMeAccesses.periodStart r)) (userLikedMeAccesses d)).
Definition access_of (u : jstr) (periodStart : Z) (r : UserLikedMeAccess) : bool :=
  (userLikedMeAccesses.userId r =?? u) && (userLikedMeAccesses.periodStart r =?? to_column periodStart).

Lemma wp_consumeLikedMeAccess u start limit w :
  access_keys (db w) ->
  wp (consumeLikedMeAccess u start limit) (fun r w' => match r with
    | Ok true => views u start (db w') = views u start (db w) + 1 /\
        (views u start (db w) < limit \/ views u start (db w') = 1) /\
        db w' = (db w) <| userLikedMeAccesses := userLikedMeAccesses (db w') |>
    | Ok false => limit <= views u start (db w) /\ db w' = db w
    | Err _ => db w' = db w
    end) w.
Proof.
  intros Hk. unfold consumeLikedMeAccess.
  assert (forall at_ r, userLikedMeAccesses_conflict (userLikedMeAccesses.mkUserLikedMeAccess u (to_column start) 1 at_) r
    = access_of u start r) as Hc.
  { intros at_ r. unfold userLikedMeAccesses_conflict, access_of. simpl. f_equal; apply bool_decide_ext; by split. }
  do 6 wp_step; simpl.
  - intros (x & Hx & Hxk)%existsb_true. rewrite Hc in Hxk. wp_step.
    assert (forall q, sel (fun r => userLikedMeAccesses_conflict (userLikedMeAccesses.mkUserLikedMeAccess u (to_column start) 1
      (to_column (date_now (tick w)))) r && q r) (userLikedMeAccesses (db w)) = if q x then [x] else []) as Hsel.
    { assert (forall y, y ∈ userLikedMeAccesses (db w) -> access_of u start y = true -> y = x) as Huniq.
      { intros y Hy Hyk. apply (keys_inj _ _ _ _ Hk Hy Hx). unfold access_of in *.
        rewrite andb_true_iff, !bool_decide_eq_true in *. destruct Hxk, Hyk. congruence. }
      intros q. destruct (q x) eqn:Eq.
      - apply (sel_key_unique _ _ _ _ Hk Hx); [by rewrite Hc, Hxk|]. intros y Hy [Hyk _]%andb_true_iff. rewrite Hc in Hyk.
        by rewrite (Huniq y Hy Hyk).
      - apply sel_none. intros y Hy. rewrite Hc. destruct (access_of u start y) eqn:Ey; [|done]. by rewrite (Huniq y Hy Ey). }
    rewrite Hsel. assert (first (access_of u start) (userLikedMeAccesses (db w)) = Some x) as Hfx.
    { apply (first_key_unique _ _ _ _ Hk Hx Hxk). intros y _ Hy. unfold access_of in *.
      rewrite andb_true_iff, !bool_decide_eq_true in *. destruct Hxk, Hy. congruence. }
    unfold views. fold (access_of u start). simpl. rewrite Hfx.
    destruct (userLikedMeAccesses.viewedCount x <? limit) eqn:El; simpl.
    + rewrite (first_mapif _ (access_of u start)) by done. rewrite Hfx. simpl. rewrite Hc, Hxk, El. simpl.
      apply Z.ltb_lt in El. split_and!; [done|by left|by destruct (db w)].
    + apply Z.ltb_ge in El. split; [done|]. apply (update_none userLikedMeAccesses).
      apply sel_nil. by rewrite (Hsel (fun r => userLikedMeAccesses.viewedCount r <? limit)), (proj2 (Z.ltb_ge _ _) El).
  - intros Hno. wp_step; [intros _ _|done..]. wp_step. simpl. unfold views. simpl. fold (access_of u start).
    assert (first (access_of u start) (userLikedMeAccesses (db w)) = None) as Hf.
    { apply first_None. intros r Hr. rewrite <- (Hc (to_column (date_now (tick w)))). by apply (proj1 (existsb_false _ _) Hno). }
    rewrite first_app, Hf, first_cons. unfold access_of. simpl. rewrite !eqb_refl_true. simpl.
    split_and!; [done|by right|by destruct (db w)].
Qed.

Lemma liked_me_limits plan n : getLikedMeLimit plan = Some n -> 3 <= n.
Proof.
  unfold getLikedMeLimit, LIKED_ME_LIMITS_BY_PLAN. simpl.
  repeat match goal with |- context [if ?b then _ else _] => destruct b end; simpl; intros [= <-]; lia.
Qed.

Lemma likers_spec d u x : x ∈ likers d u -> liked d (users.userId x.2) u = true /\ reachable_user d u x.2 = true.
Proof.
  unfold likers. intros (r & Hx & Hr)%list_elem_of_bind. apply elem_of_sel in Hr as [Hr Hru].
  apply list_elem_of_In, in_map_iff in Hx as (v & <- & Hv). apply list_elem_of_In, elem_of_sel in Hv as [_ Hv].
  apply andb_true_iff in Hv as [Hv1 Hv2]. split; [|done]. apply existsb_true. exists r. split; [done|].
  apply like_of_true. unfold is_user in Hv1. rewrite bool_decide_eq_true in *. simpl. by rewrite Hv1.
Qed.

Lemma wp_likedMe u w :
  access_keys (db w) ->
  wp (likedMeCandidates u) (fun r w' =>
    let start := startOfLikedMeWindow (date_now (tick w)) in
    let limit := getLikedMeLimit (plan_at (db w) u (date_now (S (tick w)))) in
    match r with
    | Ok l =>
        plan_at (db w) u (date_now (S (tick w))) <> js "free" /\
        Z.of_nat (length l) <= default 50 limit /\
        (forall id, id ∈ map mc_id l -> liked (db w) id u = true) /\
        match limit with
        | Some n => views u start (db w') = views u start (db w) + 1 /\ views u start (db w') <= n
        | None => db w' = db w
        end
    | Err e => db w' = db w
    end) w.
Proof.
  intros Hk. unfold likedMeCandidates, validateUuid. do 3 wp_step. wp_step; [intros _|done].
  wp_step. eapply wp_mono; [apply wp_requireCompletedProfile|]. intros [[]|e] w1 [-> _]; [|done]. wp_step.
  apply wp_plan. change (plan_at _ _ _) with (plan_at (db w) u (date_now (S (tick w)))).
  set (plan := plan_at (db w) u (date_now (S (tick w)))).
  wp_step. wp_step; intros Hfree; [|done]. apply negb_true_iff, bool_decide_eq_false in Hfree. wp_step.
  apply (wp_mono _ (fun r w' => match r with
    | Ok _ => match getLikedMeLimit plan with
        | Some n => views u (startOfLikedMeWindow (date_now (tick w))) (db w') = views u (startOfLikedMeWindow (date_now (tick w))) (db w) + 1 /\
            views u (startOfLikedMeWindow (date_now (tick w))) (db w') <= n
        | None => db w' = db w end /\ db w' = (db w) <| userLikedMeAccesses := userLikedMeAccesses (db w') |>
    | Err _ => db w' = db w end)).
  { unfold enforceLikedMeWindow. destruct (getLikedMeLimit plan) as [n|] eqn:En; [|wp_step; split; [done|by simpl; destruct (db w)]].
    pose proof (liked_me_limits _ _ En) as Hn. wp_step.
    eapply wp_mono; [by apply wp_consumeLikedMeAccess|]. intros [[|]|e] w2; simpl.
    - intros (Hv & Hlim & Ed). wp_step. split; [|done]. split; [done|]. lia.
    - intros [_ Ed]. by wp_step.
    - done. }
  intros [[]|e] w2; [|done]. intros [Hviews Ed]. unfold repo_likedMeCandidates. do 3 wp_step.
  assert (likers (db w2) u = likers (db w) u) as Elk by (by rewrite Ed).
  eapply wp_mono; [apply wp_withCandidateDetails|]. intros r w3 [E3 (l & -> & Hl)].
  eapply wp_mono; [apply wp_rows|]. intros r w4 [E4 (l' & -> & Hl')].
  rewrite <- (map_map cr_base cb_id), Hl, map_map, Elk in Hl'. simpl in Hl'. split; [done|]. split_and!.
  - apply (f_equal length) in Hl'. rewrite !length_map, length_take in Hl'. rewrite Hl'.
    change LIKED_ME_MAX_PAGE_SIZE with 50. assert (0 <= default 50 (getLikedMeLimit plan)) as Hpos; [|lia].
    destruct (getLikedMeLimit plan) as [n|] eqn:En; [pose proof (liked_me_limits _ _ En); simpl; lia|done].
  - intros id. rewrite Hl'. intros (x & Hx & <-)%key_elem. apply elem_of_take_order in Hx. by apply likers_spec.
  - rewrite E4, E3. exact Hviews.
Qed.

(** The liked-me list.  It shows only users who like the viewer, never to
    the free plan; on a limited plan each showing is counted in the three-hour
    window now falls in, the count never passes the plan's limit, and no more
    users than that are shown; a refusal counts nothing. *)
Theorem liked_me_limited u w w' r :
  access_keys (db w) -> likedMeCandidates u w = (w', r) ->
  let now := date_now (tick w) in let start := startOfLikedMeWindow now in
  let plan := plan_at (db w) u (date_now (S (tick w))) in
  (start <= now < start + 3 * msPerHour /\ (3 * msPerHour | start)) /\
  match r with
  | Ok l =>
      plan <> js "free" /\ Z.of_nat (length l) <= default 50 (getLikedMeLimit plan) /\
      (forall id, id ∈ map mc_id l -> liked (db w) id u = true) /\
      match getLikedMeLimit plan with
      | Some n => views u start (db w') = views u start (db w) + 1 /\ views u start (db w') <= n
      | None => db w' = db w
      end
  | Err e => db w' = db w
  end.
Proof.
  intros Hk E now start plan. split; [apply liked_me_window|].
  exact (wp_run _ _ _ _ _ E (wp_likedMe u w Hk)).
Qed.
End requests.
End theorems.

(** * Witnesses *)

Section witnesses.
#[local] Existing Instance test_env.
#[local] Existing Instance test_notifications.

Definition matching_world : World :=
  world_of (test_db <| userConsumableBalances := [userConsumableBalances.mkUserConsumableBalance ALICE 2 1 (to_column T0)] |>
                    <| userSubscriptions := [userSubscriptions.mkUserSubscription (test_uuid 7) ALICE (js "gold") (js "active")
                         (Some (js "revenuecat")) None None None None None (to_column T0) (to_column T0)] |>).
Lemma matching_world_ok : matching_ok (db matching_world).
Proof. split; [by intros a b _ _ _|by intros r Hr%elem_of_nil|apply NoDup_nil_2]. Qed.
Lemma canonical_alice : canonical ALICE.
Proof. vm_compute. reflexivity. Qed.
Lemma canonical_bob : canonical BOB.
Proof. vm_compute. reflexivity. Qed.
#[local] Hint Resolve matching_world_ok canonical_alice canonical_bob : core.

Lemma matches_are_mutual_likes_witness :
  let run := for_each [LikeUser ALICE BOB; LikeUser BOB ALICE; UndoLastAction ALICE] serve matching_world in
  matched (db run.1) ALICE BOB = true /\ run.2 = Ok tt /\ matching_ok (db run.1).
Proof.
  intros run. split; [vm_compute; reflexivity|].
  apply (matches_are_mutual_likes [LikeUser ALICE BOB; LikeUser BOB ALICE; UndoLastAction ALICE] matching_world).
  - apply Forall_cons; split; [exact (conj canonical_alice canonical_bob)|].
    apply Forall_cons; split; [exact (conj canonical_bob canonical_alice)|].
    apply Forall_cons; split; [exact canonical_alice|apply Forall_nil_2].
  - apply matching_world_ok.
  - apply surjective_pairing.
Defined.

#[local] Abbreviation alice_act kind := (actOnCandidate ALICE BOB kind (T0 + 5000)).
Definition no_answer : LikeUserPayload := mkLikeUser false None false.

Lemma action_replay_witness :
  exists w2, alice_act like (alice_act like matching_world).1
    = (w2, if like =?? like then Ok (answer no_answer (alice_act like matching_world).2)
           else Err (mkExn PlainError (js "MATCH_ACTION_CONFLICT"))) /\
    db w2 = db (alice_act like matching_world).1 /\ effects w2 = effects (alice_act like matching_world).1.
Proof.
  refine (action_replay ALICE BOB like like (T0 + 5000) (T0 + 5000) matching_world _ _ canonical_alice canonical_bob
            matching_world_ok (run_answer _ _ _ _)).
  vm_compute. exact I.
Defined.

Lemma daily_like_limit_witness :
  let w' := (alice_act like matching_world).1 in
  let limit := getDailyLikeLimit (plan_at (db matching_world) ALICE (date_now (tick matching_world))) in
  limit = Some 40 /\
  likes_today ALICE (T0 + 5000) (db matching_world) <= likes_today ALICE (T0 + 5000) (db w')
    <= likes_today ALICE (T0 + 5000) (db matching_world) + 1 /\
  (likes_today ALICE (T0 + 5000) (db w') <> likes_today ALICE (T0 + 5000) (db matching_world) ->
   if limit is Some n then likes_today ALICE (T0 + 5000) (db w') <= n else True) /\
  (forall v s e, v <> ALICE ->
     countw (liked_between v s e) (userLikes (db w')) = countw (liked_between v s e) (userLikes (db matching_world))).
Proof.
  intros w' limit. split; [vm_compute; reflexivity|].
  exact (daily_like_limit ALICE BOB like (T0 + 5000) matching_world w' _ (surjective_pairing _)).
Defined.

Lemma superlike_undo_roundtrip_witness :
  let w1 := (alice_act superlike matching_world).1 in
  exists w2, undoLastAction ALICE w1 = (w2, Ok (mkUndo true (Some BOB))) /\
    userLikes (db w2) = userLikes (db matching_world) /\ matches (db w2) = matches (db matching_world) /\
    map credit (userConsumableBalances (db w2)) = map credit (userConsumableBalances (db matching_world)) /\
    existsb (active_action ALICE BOB) (matchActions (db w2)) = false.
Proof.
  intros w1.
  refine (superlike_undo_roundtrip ALICE BOB (T0 + 5000) matching_world w1 _ canonical_alice canonical_bob
            matching_world_ok (NoDup_singleton _) eq_refl eq_refl _ (run_answer _ _ no_answer _) _).
  - by intros r Hr%elem_of_nil.
  - vm_compute. exact I.
  - vm_compute. reflexivity.
Defined.

Lemma boost_pays_once_witness :
  let now := date_now (tick matching_world) in
  let run := activateBoost ALICE matching_world in
  is_ok run.2 /\
  match run.2 with
  | Ok p => boost_started ALICE now (db matching_world) (db run.1) (bo_remainingBoostCredits p) /\
            bo_activeUntil p = toISOString (now + 30 * 60 * 1000)
  | Err _ => db run.1 = db matching_world
  end /\ (boosts_disjoint (db matching_world) -> boosts_disjoint (db run.1)).
Proof.
  intros now run. split; [vm_compute; exact I|].
  exact (boost_pays_once ALICE matching_world run.1 run.2 (surjective_pairing _)).
Defined.

Lemma matching_world_users : user_keys (db matching_world).
Proof.
  apply NoDup_cons. split; [|apply NoDup_singleton]. intros Hin%list_elem_of_singleton. discriminate.
Qed.
Lemma candidates_are_eligible_witness :
  let l := answer [] (candidates ALICE matching_world).2 in let w' := (candidates ALICE matching_world).1 in
  length l = 1%nat /\ db w' = db matching_world /\ (length l <= 50)%nat /\
  (forall id, id ∈ map mc_id l -> id <> ALICE /\ actable (db matching_world) ALICE id /\
     existsb (active_action ALICE id) (matchActions (db matching_world)) = false) /\
  (forall v, v ∈ users (db matching_world) -> users.userId v <> ALICE ->
     actable (db matching_world) ALICE (users.userId v) ->
     existsb (active_action ALICE (users.userId v)) (matchActions (db matching_world)) = false ->
     users.userId v ∈ map mc_id l \/
     (length l = 50%nat /\ forall x, x ∈ users (db matching_world) -> users.userId x ∈ map mc_id l ->
        users.createdAt v <= users.createdAt x)).
Proof.
  intros l w'. split; [vm_compute; reflexivity|].
  refine (candidates_are_eligible ALICE matching_world w' l matching_world_users (run_answer _ _ [] _)).
  vm_compute. exact I.
Defined.

Lemma liked_me_limited_witness :
  let run := likedMeCandidates ALICE matching_world in
  let now := date_now (tick matching_world) in let start := startOfLikedMeWindow now in
  let plan := plan_at (db matching_world) ALICE (date_now (S (tick matching_world))) in
  is_ok run.2 /\
  (start <= now < start + 3 * msPerHour /\ (3 * msPerHour | start)) /\
  match run.2 with
  | Ok l =>
      plan <> js "free" /\ Z.of_nat (length l) <= default 50 (getLikedMeLimit plan) /\
      (forall id, id ∈ map mc_id l -> liked (db matching_world) id ALICE = true) /\
      match getLikedMeLimit plan with
      | Some n => views ALICE start (db run.1) = views ALICE start (db matching_world) + 1 /\ views ALICE start (db run.1) <= n
      | None => db run.1 = db matching_world
      end
  | Err e => db run.1 = db matching_world
  end.
Proof.
  intros run now start plan. split; [vm_compute; exact I|].
  exact (liked_me_limited ALICE matching_world run.1 run.2 (NoDup_nil_2) (surjective_pairing _)).
Defined.
(** The id of a target is accepted in either case, and the pair is ordered on the
    text as given.  A like addressed in upper case stores its match under the
    other order, where nobody looks it up: the match survives the undo of one of
    its likes. *)
Example uppercase_target_breaks_match :
  let BOB' := js "0B0B0000-0000-4000-8000-000000000002" in
  let w1 := (for_each [LikeUser BOB ALICE; LikeUser ALICE BOB'] serve matching_world).1 in
  let undo := undoLastAction BOB w1 in
  length (matches (db w1)) = 1%nat /\ matched (db w1) ALICE BOB = false /\
  undo.2 = Ok (mkUndo true (Some ALICE)) /\ liked (db undo.1) BOB ALICE = false /\
  matches (db undo.1) = matches (db w1).
Proof. vm_compute. split_and!; reflexivity. Qed.
End witnesses.
