(* ===== verification/Notification.v ===== *)
(** Notifications and the push outbox: a notification is stored with one outbox
    row per device of its user; workers claim due rows under a lease, send them
    through Expo, then claim them again to read the receipts
    (notification.service.ts, notification.repository.ts, expo-push.gateway.ts,
    push-delivery.types.ts).  The Expo client is a parameter: what it answers may
    differ from call to call. *)
From S2P Require Import Prelude JsString JsDate Libraries Schema World Constraints NotificationApi.
Local Open Scope Z_scope.

(** * Data *)

Definition MAX_EXPO_MESSAGES_PER_REQUEST : Z := 100.
Definition EXPO_RECEIPT_DELAY_MS : Z := 15 * 60 * 1000.
Definition PUSH_LEASE_MS : Z := 60 * 1000.
Definition MAX_PUSH_SEND_ATTEMPTS : Z := 5.
Definition MAX_PUSH_RECEIPT_ATTEMPTS : Z := 8.

Record MaintenanceBatchResult := mkMaintenance {
  mb_claimed : Z; mb_succeeded : Z; mb_retryScheduled : Z; mb_permanentlyFailed : Z; mb_hasMore : bool
}.
Definition EMPTY_BATCH : MaintenanceBatchResult := mkMaintenance 0 0 0 0 false.
Definition with_more (hasMore : bool) (r : MaintenanceBatchResult) : MaintenanceBatchResult :=
  mkMaintenance (mb_claimed r) (mb_succeeded r) (mb_retryScheduled r) (mb_permanentlyFailed r) hasMore.
Record PushClaimBatch := mkClaim { pc_jobs : list PushOutbox; pc_hasMore : bool }.

Inductive ExpoGatewayTicket :=
| TicketOk (id : jstr)
| TicketError (message : jstr) (errorCode : option jstr).
Inductive ExpoGatewayReceipt :=
| ReceiptOk
| ReceiptError (message : jstr) (errorCode : option jstr).

(** What a delivery attempt came to: the ticket was accepted or the receipt is in
    ([succeeded_result]), it is to be tried again, or it is over. *)
Inductive ResultKind := succeeded_result | retry_result | permanent_result | exhausted_result.
#[export] Instance ResultKind_eq_dec : EqDecision ResultKind.
Proof. solve_decision. Defined.
Record PushSendResult := mkSendResult {
  sr_id : jstr; sr_attempt : Z; sr_kind : ResultKind; sr_ticketId : option jstr;
  sr_receiptAvailableAt : option Z; sr_nextAttemptAt : option Z; sr_errorCode : option jstr;
  sr_errorMessage : option jstr; sr_invalidatePushTokenId : option jstr
}.
Record PushReceiptResult := mkReceiptResult {
  rr_id : jstr; rr_attempt : Z; rr_kind : ResultKind; rr_nextAttemptAt : option Z;
  rr_errorCode : option jstr; rr_errorMessage : option jstr; rr_invalidatePushTokenId : option jstr
}.

(** The Expo SDK: a call throws, with the message of the error, or answers. *)
Record ExpoPushMessage := mkExpoMessage { em_to : jstr; em_title : jstr; em_body : jstr; em_route : option jstr }.
Inductive SdkTicket := SdkTicketOk (id : jstr) | SdkTicketError (message : jstr) (details_error : option jstr).
Inductive SdkReceipt := SdkReceiptOk | SdkReceiptError (message : jstr) (details_error : option jstr).
Class ExpoClient := {
  isExpoPushToken : jstr -> bool;
  sendPushNotificationsAsync : nat -> list ExpoPushMessage -> jstr + list SdkTicket;
  getPushNotificationReceiptsAsync : nat -> list jstr -> jstr + list (jstr * SdkReceipt)
}.

(** A string used as a condition. *)
Definition truthy_str (o : option jstr) : option jstr := if o is Some (_ :: _) then o else None.

(** * The gateway *)

Section gateway.
Context `{Env} `{ExpoClient}.

Definition ticket_of (t : SdkTicket) : ExpoGatewayTicket :=
  match t with
  | SdkTicketOk id => TicketOk id
  | SdkTicketError message error => TicketError message (truthy_str error)
  end.
Definition receipt_of (r : SdkReceipt) : ExpoGatewayReceipt :=
  match r with
  | SdkReceiptOk => ReceiptOk
  | SdkReceiptError message error => ReceiptError message (truthy_str error)
  end.

Definition gateway_send (messages : list ExpoPushMessage) : M (list ExpoGatewayTicket) :=
  for_each messages (fun m => emit (PushSent (em_to m) (em_title m) (em_body m) (em_route m))) ;;
  response ← oracle (fun n => sendPushNotificationsAsync n messages);
  match response with
  | inl message => throw PlainError message
  | inr tickets => mret (map ticket_of tickets)
  end.

Definition getReceipts (ticketIds : list jstr) : M (list (jstr * ExpoGatewayReceipt)) :=
  response ← oracle (fun n => getPushNotificationReceiptsAsync n ticketIds);
  match response with
  | inl message => throw PlainError message
  | inr receipts => mret (map (fun '(ticketId, receipt) => (ticketId, receipt_of receipt)) receipts)
  end.
End gateway.

(** * The repository *)

Section repository.
Context `{Env}.

Definition OPEN_PUSH_STATUSES : list PushOutboxStatus := [queued; sending; receipt_pending; receipt_checking].
Definition IN_FLIGHT_PUSH_STATUSES : list PushOutboxStatus := [sending; receipt_pending; receipt_checking].

Definition newest_notification (a b : Notification) : bool := notifications.createdAt b <=? notifications.createdAt a.
Definition repo_list (userId : jstr) : M (list Notification) :=
  rows ← select notifications (fun r => notifications.userId r =?? userId);
  mret (take 100 (order_by newest_notification rows)).

(** [insert(pushOutbox).values(tokens.map(...))] *)
Fixpoint enqueue (notificationId : jstr) (input : CreateNotificationInput) (tokens : list PushToken) : M unit :=
  match tokens with
  | [] => mret tt
  | token :: tokens' =>
      id ← randomUUID;
      now ← clock_timestamp;
      insert pushOutbox
        (pushOutbox.mkPushOutbox id notificationId (Some (pushTokens.id token)) (pushTokens.token token)
           (n_title input) (n_body input) (n_route input) queued None 0 0 now None None None None None None now now) ;;
      enqueue notificationId input tokens'
  end.

Definition createWithPushOutbox (input : CreateNotificationInput) (enqueuePush : bool) : M Notification :=
  let userId := uuid_param (n_userId input) in
  transaction (
    id ← randomUUID;
    now ← clock_timestamp;
    notification ← insert notifications
      (notifications.mkNotification id userId (n_type input) (n_title input) (n_body input) (n_route input)
         (n_sourceId input) None now);
    if negb enqueuePush then mret notification
    else
      tokens ← select pushTokens (fun r => pushTokens.userId r =?? userId);
      enqueue (notifications.id notification) input tokens ;;
      mret notification).

Definition markRead (userId notificationId : jstr) : M bool :=
  readAt ← Date_now;
  notificationId ← uuid_text notificationId;
  updated ← update notifications
    (fun r => (notifications.id r =?? notificationId) && (notifications.userId r =?? userId)
              && is_null (notifications.readAt r))
    (fun r => r <| notifications.readAt := Some (to_column readAt) |>);
  mret (negb (is_null (head updated))).

(** The outbox rows of a push token, in one of the given states. *)
Definition outbox_of (statuses : list PushOutboxStatus) (tokenId : jstr) (r : PushOutbox) : bool :=
  (pushOutbox.pushTokenId r =?? Some tokenId) && bool_decide (pushOutbox.status r ∈ statuses).
Definition cancel (now : Z) (r : PushOutbox) : PushOutbox :=
  r <| pushOutbox.status := cancelled |> <| pushOutbox.completedAt := Some (to_column now) |>
    <| pushOutbox.leaseExpiresAt := None |> <| pushOutbox.updatedAt := to_column now |>.
Definition cancelOutbox (statuses : list PushOutboxStatus) (tokenId : jstr) (now : Z) : M unit :=
  update pushOutbox (outbox_of statuses tokenId) (cancel now) ;; mret tt.

(** The token's open rows are cancelled and the token goes. *)
Definition dropToken (token : PushToken) (now : Z) : M unit :=
  cancelOutbox OPEN_PUSH_STATUSES (pushTokens.id token) now ;;
  delete_pushTokens (fun r => pushTokens.id r =?? pushTokens.id token).

Definition of_device (userId deviceId : jstr) (r : PushToken) : bool :=
  (pushTokens.userId r =?? userId) && (pushTokens.deviceId r =?? deviceId).

(** PostgreSQL folds the case of the device id; the code looks for the rows and
    compares their device with the id as given. *)
Definition repo_registerPushToken (userId deviceId token platform : jstr) : M unit :=
  transaction (
    now ← Date_now;
    existing ← select pushTokens (fun r => (pushTokens.token r =?? token) || of_device userId (uuid_param deviceId) r);
    let deviceToken := first (of_device userId deviceId) existing in
    let requestedToken := first (fun r => pushTokens.token r =?? token) existing in
    require (if requestedToken is Some r then pushTokens.deviceId r =?? deviceId else true)
      ConflictException (js "PUSH_TOKEN_DEVICE_CONFLICT") ;;
    match deviceToken with
    | Some deviceToken =>
        if pushTokens.token deviceToken =?? token then
          updateChecked pushTokens (fun r => pushTokens.id r =?? pushTokens.id deviceToken)
            (fun r => r <| pushTokens.platform := platform |> <| pushTokens.updatedAt := to_column now |>) ;;
          mret tt
        else
          (if requestedToken is Some requestedToken then dropToken requestedToken now else mret tt) ;;
          update pushOutbox (outbox_of [queued] (pushTokens.id deviceToken))
            (fun r => r <| pushOutbox.tokenSnapshot := token |> <| pushOutbox.updatedAt := to_column now |>) ;;
          cancelOutbox IN_FLIGHT_PUSH_STATUSES (pushTokens.id deviceToken) now ;;
          updateChecked pushTokens (fun r => pushTokens.id r =?? pushTokens.id deviceToken)
            (fun r => r <| pushTokens.token := token |> <| pushTokens.platform := platform |>
                        <| pushTokens.updatedAt := to_column now |>) ;;
          mret tt
    | None =>
        (if requestedToken is Some requestedToken then dropToken requestedToken now else mret tt) ;;
        id ← randomUUID;
        createdAt ← clock_timestamp;
        insert pushTokens (pushTokens.mkPushToken id userId (uuid_param deviceId) token platform createdAt createdAt) ;;
        mret tt
    end).

Definition repo_unregisterPushToken (userId deviceId : jstr) : M bool :=
  transaction (
    tokens ← select pushTokens (fun r => pushTokens.deviceId r =?? uuid_param deviceId);
    let tokenIds := map pushTokens.id (sel (fun r => pushTokens.userId r =?? userId) tokens) in
    if tokenIds is [] then mret (if tokens is [] then true else false)
    else
      now ← Date_now;
      update pushOutbox
        (fun r => opt_ref (fun id => bool_decide (id ∈ tokenIds)) (pushOutbox.pushTokenId r)
                  && is_not_null (pushOutbox.pushTokenId r)
                  && bool_decide (pushOutbox.status r ∈ OPEN_PUSH_STATUSES)) (cancel now) ;;
      delete_pushTokens (fun r => bool_decide (pushTokens.id r ∈ tokenIds)) ;;
      mret true).

(** ** Claims *)

Definition sendDue (now : Z) (r : PushOutbox) : bool :=
  ((pushOutbox.status r =?? queued) && (pushOutbox.nextAttemptAt r <=? to_column now))
  || ((pushOutbox.status r =?? sending) && opt_le (pushOutbox.leaseExpiresAt r) (to_column now)).
Definition receiptDue (now : Z) (r : PushOutbox) : bool :=
  ((pushOutbox.status r =?? receipt_pending) && opt_le (pushOutbox.receiptAvailableAt r) (to_column now)
   && (pushOutbox.nextAttemptAt r <=? to_column now))
  || ((pushOutbox.status r =?? receipt_checking) && opt_le (pushOutbox.leaseExpiresAt r) (to_column now)).

(** [orderBy(asc(key), asc(createdAt), asc(id))]; NULLs come last. *)
Definition outbox_order (key : PushOutbox -> option Z) (a b : PushOutbox) : bool :=
  let tie := (pushOutbox.createdAt a <? pushOutbox.createdAt b)
             || ((pushOutbox.createdAt a =? pushOutbox.createdAt b)
                 && negb (str_ltb (pushOutbox.id b) (pushOutbox.id a))) in
  match key a, key b with
  | Some x, Some y => (x <? y) || ((x =? y) && tie)
  | Some _, None => true
  | None, Some _ => false
  | None, None => tie
  end.

Definition claimBatch (due : PushOutbox -> bool) (order : PushOutbox -> PushOutbox -> bool)
    (mark : PushOutbox -> PushOutbox) (limit : nat) : M PushClaimBatch :=
  transaction (
    selected ← select_skip_locked pushOutbox pushOutbox.id due order limit;
    if selected is [] then mret (mkClaim [] false)
    else
      jobs ← update pushOutbox (fun r => bool_decide (pushOutbox.id r ∈ map pushOutbox.id selected)) mark;
      remaining ← findFirst pushOutbox due;
      mret (mkClaim jobs (negb (is_null remaining)))).

Definition mark_sending (now leaseExpiresAt : Z) (r : PushOutbox) : PushOutbox :=
  r <| pushOutbox.status := sending |> <| pushOutbox.sendAttempts ::= fun n => n + 1 |>
    <| pushOutbox.leaseExpiresAt := Some (to_column leaseExpiresAt) |> <| pushOutbox.updatedAt := to_column now |>.
Definition mark_checking (now leaseExpiresAt : Z) (r : PushOutbox) : PushOutbox :=
  r <| pushOutbox.status := receipt_checking |> <| pushOutbox.receiptAttempts ::= fun n => n + 1 |>
    <| pushOutbox.leaseExpiresAt := Some (to_column leaseExpiresAt) |> <| pushOutbox.updatedAt := to_column now |>.

Definition claimSendBatch (now leaseExpiresAt : Z) (limit : nat) : M PushClaimBatch :=
  claimBatch (sendDue now) (outbox_order (fun r => Some (pushOutbox.nextAttemptAt r))) (mark_sending now leaseExpiresAt) limit.
Definition claimReceiptBatch (now leaseExpiresAt : Z) (limit : nat) : M PushClaimBatch :=
  claimBatch (receiptDue now) (outbox_order pushOutbox.receiptAvailableAt) (mark_checking now leaseExpiresAt) limit.

(** ** Results *)

(** A column given [undefined] keeps its value. *)
Definition set_defined (o : option jstr) (old : option jstr) : option jstr := if o is Some _ then o else old.

Definition closed (status : PushOutboxStatus) (errorCode errorMessage : option jstr) (now : Z) (r : PushOutbox) : PushOutbox :=
  r <| pushOutbox.status := status |> <| pushOutbox.completedAt := Some (to_column now) |>
    <| pushOutbox.leaseExpiresAt := None |> <| pushOutbox.lastErrorCode ::= set_defined errorCode |>
    <| pushOutbox.lastErrorMessage ::= set_defined errorMessage |> <| pushOutbox.updatedAt := to_column now |>.
Definition rescheduled (status : PushOutboxStatus) (nextAttemptAt : Z) (errorCode errorMessage : option jstr) (now : Z)
    (r : PushOutbox) : PushOutbox :=
  r <| pushOutbox.status := status |> <| pushOutbox.nextAttemptAt := to_column nextAttemptAt |>
    <| pushOutbox.leaseExpiresAt := None |> <| pushOutbox.lastErrorCode ::= set_defined errorCode |>
    <| pushOutbox.lastErrorMessage ::= set_defined errorMessage |> <| pushOutbox.updatedAt := to_column now |>.

Definition sendResultValues (result : PushSendResult) (now : Z) : M (PushOutbox -> PushOutbox) :=
  match sr_kind result with
  | succeeded_result =>
      match truthy_str (sr_ticketId result), sr_receiptAvailableAt result with
      | Some ticketId, Some receiptAvailableAt => mret (fun r =>
          r <| pushOutbox.status := receipt_pending |> <| pushOutbox.ticketId := Some ticketId |>
            <| pushOutbox.receiptAvailableAt := Some (to_column receiptAvailableAt) |>
            <| pushOutbox.nextAttemptAt := to_column receiptAvailableAt |>
            <| pushOutbox.sentAt := Some (to_column now) |> <| pushOutbox.leaseExpiresAt := None |>
            <| pushOutbox.lastErrorCode := None |> <| pushOutbox.lastErrorMessage := None |>
            <| pushOutbox.updatedAt := to_column now |>)
      | _, _ => throw PlainError (js "EXPO_PUSH_TICKET_INVALID")
      end
  | retry_result =>
      match sr_nextAttemptAt result with
      | Some nextAttemptAt => mret (rescheduled queued nextAttemptAt (sr_errorCode result) (sr_errorMessage result) now)
      | None => throw PlainError (js "EXPO_PUSH_RETRY_TIME_REQUIRED")
      end
  | permanent_result => mret (closed failed_permanent (sr_errorCode result) (sr_errorMessage result) now)
  | exhausted_result => mret (closed exhausted (sr_errorCode result) (sr_errorMessage result) now)
  end.

Definition receiptResultValues (result : PushReceiptResult) (now : Z) : M (PushOutbox -> PushOutbox) :=
  match rr_kind result with
  | succeeded_result => mret (fun r =>
      r <| pushOutbox.status := delivered |> <| pushOutbox.completedAt := Some (to_column now) |>
        <| pushOutbox.leaseExpiresAt := None |> <| pushOutbox.lastErrorCode := None |>
        <| pushOutbox.lastErrorMessage := None |> <| pushOutbox.updatedAt := to_column now |>)
  | retry_result =>
      match rr_nextAttemptAt result with
      | Some nextAttemptAt =>
          mret (rescheduled receipt_pending nextAttemptAt (rr_errorCode result) (rr_errorMessage result) now)
      | None => throw PlainError (js "EXPO_PUSH_RETRY_TIME_REQUIRED")
      end
  | permanent_result => mret (closed failed_permanent (rr_errorCode result) (rr_errorMessage result) now)
  | exhausted_result => mret (closed exhausted (rr_errorCode result) (rr_errorMessage result) now)
  end.

(** The device no longer accepts pushes: its other open rows are cancelled. *)
Definition invalidatePushToken (pushTokenId currentJobId : jstr) (now : Z) : M unit :=
  update pushOutbox
    (fun r => outbox_of OPEN_PUSH_STATUSES pushTokenId r && negb (pushOutbox.id r =?? currentJobId)) (cancel now) ;;
  delete_pushTokens (fun r => pushTokens.id r =?? pushTokenId).

(** The claim a result belongs to. *)
Definition sent_claim (result : PushSendResult) (r : PushOutbox) : bool :=
  (pushOutbox.id r =?? sr_id result) && (pushOutbox.status r =?? sending)
  && (pushOutbox.sendAttempts r =? sr_attempt result).
Definition checked_claim (result : PushReceiptResult) (r : PushOutbox) : bool :=
  (pushOutbox.id r =?? rr_id result) && (pushOutbox.status r =?? receipt_checking)
  && (pushOutbox.receiptAttempts r =? rr_attempt result).

Definition applyResult (claim : PushOutbox -> bool) (values : PushOutbox -> PushOutbox)
    (invalidate : option jstr) (id : jstr) (now : Z) : M unit :=
  updated ← updateChecked pushOutbox claim values;
  match head updated, truthy_str invalidate with
  | Some _, Some pushTokenId => invalidatePushToken pushTokenId id now
  | _, _ => mret tt
  end.
Definition applySendResults (results : list PushSendResult) (now : Z) : M unit :=
  transaction (for_each results (fun result =>
    values ← sendResultValues result now;
    applyResult (sent_claim result) values (sr_invalidatePushTokenId result) (sr_id result) now)).
Definition applyReceiptResults (results : list PushReceiptResult) (now : Z) : M unit :=
  transaction (for_each results (fun result =>
    values ← receiptResultValues result now;
    applyResult (checked_claim result) values (rr_invalidatePushTokenId result) (rr_id result) now)).
End repository.

(** * The service *)

Section service.
Context `{Env} `{ConfigService} `{ExpoClient}.

Definition pushEnabled : bool := config_boolean (js "EXPO_PUSH_ENABLED") =?? Some true.

Record NotificationView := mkNotificationView { nv_row : Notification; nv_readAt : option jstr; nv_createdAt : jstr }.
Definition list_ (userId : jstr) : M (list NotificationView) :=
  notificationRows ← repo_list userId;
  mret (map (fun r => mkNotificationView r
               ((fun t => toISOString (of_column t)) <$> notifications.readAt r)
               (toISOString (of_column (notifications.createdAt r)))) notificationRows).

Definition notify_ (input : CreateNotificationInput) : M Notification := createWithPushOutbox input pushEnabled.

Definition registerPushToken (userId deviceId token platform : jstr) : M bool :=
  let token := trim token in
  let platform := toLowerCase (trim platform) in
  require (isExpoPushToken token) PlainError (js "PUSH_TOKEN_INVALID") ;;
  require ((platform =?? js "ios") || (platform =?? js "android")) PlainError (js "PUSH_PLATFORM_INVALID") ;;
  repo_registerPushToken userId deviceId token platform ;;
  mret true.

Definition unregisterPushToken (userId deviceId : jstr) : M bool := repo_unregisterPushToken userId deviceId.

(** [limit] is a number; one that is not an integer is refused before. *)
Definition validateBatchLimit (limit : Z) : M nat :=
  require ((1 <=? limit) && (limit <=? MAX_EXPO_MESSAGES_PER_REQUEST)) PlainError (js "PUSH_BATCH_LIMIT_INVALID") ;;
  mret (Z.to_nat limit).

(** Half a minute, doubled with every attempt, at most an hour. *)
Definition retryAt (now attempt : Z) : Z :=
  now + Z.min (30000 * 2 ^ Z.max 0 (attempt - 1)) (60 * 60 * 1000).

Definition retrySendResult (job : PushOutbox) (now : Z) (errorCode : jstr) (errorMessage : option jstr) : PushSendResult :=
  if MAX_PUSH_SEND_ATTEMPTS <=? pushOutbox.sendAttempts job
  then mkSendResult (pushOutbox.id job) (pushOutbox.sendAttempts job) exhausted_result None None None
         (Some errorCode) errorMessage None
  else mkSendResult (pushOutbox.id job) (pushOutbox.sendAttempts job) retry_result None None
         (Some (retryAt now (pushOutbox.sendAttempts job))) (Some errorCode) errorMessage None.

(** The device is gone: its token is invalidated, unless the row has none any more. *)
Definition invalidated (errorCode : option jstr) (job : PushOutbox) : option jstr :=
  if errorCode =?? Some (js "DeviceNotRegistered") then truthy_str (pushOutbox.pushTokenId job) else None.

Definition ticketResult (job : PushOutbox) (ticket : option ExpoGatewayTicket) (now : Z) : PushSendResult :=
  match ticket with
  | None => retrySendResult job now (js "ExpoTicketMissing") None
  | Some (TicketOk id) =>
      mkSendResult (pushOutbox.id job) (pushOutbox.sendAttempts job) succeeded_result (Some id)
        (Some (now + EXPO_RECEIPT_DELAY_MS)) None None None None
  | Some (TicketError message errorCode) =>
      if (errorCode =?? Some (js "MessageRateExceeded")) || (errorCode =?? Some (js "ProviderError"))
      then retrySendResult job now (default [] errorCode) (Some message)
      else mkSendResult (pushOutbox.id job) (pushOutbox.sendAttempts job) permanent_result None None None
             (Some (default (js "ExpoTicketRejected") errorCode)) (Some message) (invalidated errorCode job)
  end.

Definition retryReceiptResult (job : PushOutbox) (now : Z) (errorCode : jstr) (errorMessage : option jstr) : PushReceiptResult :=
  if MAX_PUSH_RECEIPT_ATTEMPTS <=? pushOutbox.receiptAttempts job
  then mkReceiptResult (pushOutbox.id job) (pushOutbox.receiptAttempts job) exhausted_result None
         (Some errorCode) errorMessage None
  else mkReceiptResult (pushOutbox.id job) (pushOutbox.receiptAttempts job) retry_result
         (Some (retryAt now (pushOutbox.receiptAttempts job))) (Some errorCode) errorMessage None.

Definition receiptResult (job : PushOutbox) (receipt : option ExpoGatewayReceipt) (now : Z) : PushReceiptResult :=
  match receipt with
  | None => retryReceiptResult job now (js "ExpoReceiptMissing") None
  | Some ReceiptOk =>
      mkReceiptResult (pushOutbox.id job) (pushOutbox.receiptAttempts job) succeeded_result None None None None
  | Some (ReceiptError message errorCode) =>
      mkReceiptResult (pushOutbox.id job) (pushOutbox.receiptAttempts job) permanent_result None
        (Some (default (js "ExpoReceiptRejected") errorCode)) (Some message) (invalidated errorCode job)
  end.

Definition is_kind (k : ResultKind) (x : ResultKind) : bool := x =?? k.
Definition summarize (kinds : list ResultKind) (hasMore : bool) : MaintenanceBatchResult :=
  mkMaintenance (Z.of_nat (length kinds)) (countw (is_kind succeeded_result) kinds) (countw (is_kind retry_result) kinds)
    (countw (fun k => is_kind permanent_result k || is_kind exhausted_result k) kinds) hasMore.
Definition summarizeSendResults (results : list PushSendResult) : bool -> MaintenanceBatchResult :=
  summarize (map sr_kind results).
Definition summarizeReceiptResults (results : list PushReceiptResult) : bool -> MaintenanceBatchResult :=
  summarize (map rr_kind results).

Definition message_of (job : PushOutbox) : ExpoPushMessage :=
  mkExpoMessage (pushOutbox.tokenSnapshot job) (pushOutbox.title job) (pushOutbox.body job) (truthy_str (pushOutbox.route job)).

(** [claimed.jobs.map((job, index) => ticketResult(job, tickets[index], now))] *)
Fixpoint ticketResults (jobs : list PushOutbox) (tickets : list ExpoGatewayTicket) (now : Z) : list PushSendResult :=
  match jobs, tickets with
  | job :: jobs', ticket :: tickets' => ticketResult job (Some ticket) now :: ticketResults jobs' tickets' now
  | job :: jobs', [] => ticketResult job None now :: ticketResults jobs' [] now
  | [], _ => []
  end.

(** What the request to Expo came to, for every job. *)
Definition sendJobs (jobs : list PushOutbox) (now : Z) : M (list PushSendResult) :=
  try_catch
    (tickets ← gateway_send (map message_of jobs);
     mret (if Nat.eqb (length tickets) (length jobs) then ticketResults jobs tickets now
           else map (fun job => retrySendResult job now (js "ExpoTicketCountMismatch") None) jobs))
    (fun error => mret (map (fun job => retrySendResult job now (js "ExpoRequestFailed") (Some (message error))) jobs)).

Definition processPushOutboxBatch (now limit : Z) : M MaintenanceBatchResult :=
  if negb pushEnabled then mret EMPTY_BATCH
  else
    limit ← validateBatchLimit limit;
    claimed ← claimSendBatch now (now + PUSH_LEASE_MS) limit;
    if pc_jobs claimed is [] then mret (with_more (pc_hasMore claimed) EMPTY_BATCH)
    else
      results ← sendJobs (pc_jobs claimed) now;
      applySendResults results now ;;
      mret (summarizeSendResults results (pc_hasMore claimed)).

(** [receipts.get(ticketId)]: the last entry of a key wins. *)
Definition receipt_for (ticketId : option jstr) (receipts : list (jstr * ExpoGatewayReceipt)) : option ExpoGatewayReceipt :=
  snd <$> last (filter (fun x => x.1 = default [] ticketId) receipts).

Definition checkReceipts (jobs : list PushOutbox) (now : Z) : M (list PushReceiptResult) :=
  let ticketIds := omap (fun job => truthy_str (pushOutbox.ticketId job)) jobs in
  if negb (Nat.eqb (length ticketIds) (length jobs)) then
    mret (map (fun job =>
      if truthy_str (pushOutbox.ticketId job) is Some _
      then retryReceiptResult job now (js "ExpoReceiptBatchInvalid") None
      else mkReceiptResult (pushOutbox.id job) (pushOutbox.receiptAttempts job) permanent_result None
             (Some (js "ExpoTicketMissing")) None None) jobs)
  else
    try_catch
      (receipts ← getReceipts ticketIds;
       mret (map (fun job => receiptResult job (receipt_for (pushOutbox.ticketId job) receipts) now) jobs))
      (fun error => mret (map (fun job =>
         retryReceiptResult job now (js "ExpoReceiptRequestFailed") (Some (message error))) jobs)).

Definition processPushReceiptBatch (now limit : Z) : M MaintenanceBatchResult :=
  if negb pushEnabled then mret EMPTY_BATCH
  else
    limit ← validateBatchLimit limit;
    claimed ← claimReceiptBatch now (now + PUSH_LEASE_MS) limit;
    if pc_jobs claimed is [] then mret (with_more (pc_hasMore claimed) EMPTY_BATCH)
    else
      results ← checkReceipts (pc_jobs claimed) now;
      applyReceiptResults results now ;;
      mret (summarizeReceiptResults results (pc_hasMore claimed)).
End service.
