(* ===== verification/NotificationProofs.v ===== *)
(** The push outbox: every row moves along one lifecycle, a worker whose lease
    was taken over can no longer report, a batch settles what it claims, and a
    notification is stored together with its pushes. *)
From S2P Require Import Prelude JsString JsDate Libraries Schema World Constraints NotificationApi Fixtures Notification.
Local Open Scope Z_scope.

(** * The lifecycle of an outbox row *)

(** Where a row is: its status and how often it was claimed for each phase. *)
Definition phase : Type := PushOutboxStatus * Z * Z.
Definition phase_of (r : PushOutbox) : phase :=
  (pushOutbox.status r, pushOutbox.sendAttempts r, pushOutbox.receiptAttempts r).

Inductive lifecycle : phase -> phase -> Prop :=
| lc_claim s n : lifecycle (queued, s, n) (sending, s + 1, n)
| lc_reclaim s n : lifecycle (sending, s, n) (sending, s + 1, n)
| lc_accepted s n : lifecycle (sending, s, n) (receipt_pending, s, n)
| lc_retry s n : s < MAX_PUSH_SEND_ATTEMPTS -> lifecycle (sending, s, n) (queued, s, n)
| lc_rejected s n : lifecycle (sending, s, n) (failed_permanent, s, n)
| lc_send_exhausted s n : MAX_PUSH_SEND_ATTEMPTS <= s -> lifecycle (sending, s, n) (exhausted, s, n)
| lc_check s n : lifecycle (receipt_pending, s, n) (receipt_checking, s, n + 1)
| lc_recheck s n : lifecycle (receipt_checking, s, n) (receipt_checking, s, n + 1)
| lc_delivered s n : lifecycle (receipt_checking, s, n) (delivered, s, n)
| lc_later s n : n < MAX_PUSH_RECEIPT_ATTEMPTS -> lifecycle (receipt_checking, s, n) (receipt_pending, s, n)
| lc_undelivered s n : lifecycle (receipt_checking, s, n) (failed_permanent, s, n)
| lc_receipt_exhausted s n : MAX_PUSH_RECEIPT_ATTEMPTS <= n -> lifecycle (receipt_checking, s, n) (exhausted, s, n)
| lc_cancel status s n : status ∈ OPEN_PUSH_STATUSES -> lifecycle (status, s, n) (cancelled, s, n).

(** The same push, further along. *)
Definition evolved (r r' : PushOutbox) : Prop :=
  pushOutbox.id r' = pushOutbox.id r /\ pushOutbox.notificationId r' = pushOutbox.notificationId r /\
  pushOutbox.title r' = pushOutbox.title r /\ pushOutbox.body r' = pushOutbox.body r /\
  pushOutbox.route r' = pushOutbox.route r /\ rtc lifecycle (phase_of r) (phase_of r').
(** A push that was queued and not claimed yet, or has come from there. *)
Definition started (r : PushOutbox) : Prop := rtc lifecycle (queued, 0, 0) (phase_of r).
(** No row disappears or changes what it is about; new rows start queued. *)
Definition evolves (l l' : list PushOutbox) : Prop :=
  exists m new, l' = m ++ new /\ Forall2 evolved l m /\ Forall started new.

#[export] Instance evolved_preorder : PreOrder evolved.
Proof.
  split.
  - intros r. by split_and!.
  - intros a b c (? & ? & ? & ? & ? & ?) (? & ? & ? & ? & ? & ?). split_and!; try congruence. by etrans.
Qed.
Lemma evolved_started r r' : started r -> evolved r r' -> started r'.
Proof. unfold started. intros Hs (_ & _ & _ & _ & _ & He). by etrans. Qed.
#[export] Instance evolves_preorder : PreOrder evolves.
Proof.
  split.
  - intros l. exists l, []. rewrite app_nil_r. split_and!; [done|reflexivity|constructor].
  - intros l1 l2 l3 (m & new & -> & H1 & H2) (m' & new' & -> & H3 & H4).
    apply Forall2_app_inv_l in H3 as (a & b & Ha & Hb & ->). exists a, (b ++ new'). rewrite app_assoc. split_and!; [done| |].
    + by etrans.
    + apply Forall_app. split; [|done]. apply Forall_forall. intros r' Hr'.
      apply list_elem_of_lookup in Hr' as (i & Hi). destruct (Forall2_lookup_r _ _ _ _ _ Hb Hi) as (r & Hr & He).
      apply (evolved_started r); [|done]. rewrite Forall_forall in H2. apply H2. by apply list_elem_of_lookup_2 in Hr.
Qed.

(** The same for tables whose ids are distinct, and stay so. *)
Definition distinct (l : list PushOutbox) : Prop := NoDup (map pushOutbox.id l).
Definition progress_to (l l' : list PushOutbox) : Prop := distinct l -> distinct l' /\ evolves l l'.
#[export] Instance progress_preorder : PreOrder progress_to.
Proof.
  split; [by intros l Hl|]. intros a b c Hab Hbc Ha. destruct (Hab Ha) as [Hb E1]. destruct (Hbc Hb) as [Hc E2].
  split; [done|by etrans].
Qed.

Lemma progress_mapif p f l :
  (distinct l -> forall r, r ∈ l -> p r = true -> evolved r (f r)) -> progress_to l (mapif p f l).
Proof.
  intros Hf Hd. specialize (Hf Hd). split.
  - unfold distinct. rewrite keys_mapif; [done|]. intros r Hr Hp. by destruct (Hf r Hr Hp).
  - exists (mapif p f l), []. rewrite app_nil_r. split_and!; [done| |constructor]. clear Hd.
    induction l as [|r l IH]; [constructor|]. rewrite mapif_cons. constructor; [|apply IH; set_solver].
    destruct (p r) eqn:E; [apply Hf; [set_solver|done]|done].
Qed.
Lemma progress_insert l r :
  started r -> existsb (conflicts r) l = false -> progress_to l (l ++ [r]).
Proof.
  intros Hr Hc Hd. split.
  - apply keys_insert; [done|]. intros y Hy Heq. rewrite existsb_false in Hc. specialize (Hc y Hy).
    simpl in Hc. unfold pushOutbox_conflict in Hc. by rewrite Heq, eqb_refl_true in Hc.
  - exists l, [r]. split_and!; [done|reflexivity|by apply Forall_singleton].
Qed.

#[local] Hint Extern 0 (evolves _ _) => reflexivity : core.
#[local] Hint Extern 0 (progress_to _ _) => reflexivity : core.
#[local] Hint Extern 0 (evolved _ _) => reflexivity : core.

(** A step that does not touch the phase, or cancels an open row. *)
Lemma evolved_same r r' :
  pushOutbox.id r' = pushOutbox.id r -> pushOutbox.notificationId r' = pushOutbox.notificationId r ->
  pushOutbox.title r' = pushOutbox.title r -> pushOutbox.body r' = pushOutbox.body r ->
  pushOutbox.route r' = pushOutbox.route r -> phase_of r' = phase_of r -> evolved r r'.
Proof. intros. split_and!; try done. by rewrite H4. Qed.
Lemma evolved_step r r' :
  pushOutbox.id r' = pushOutbox.id r -> pushOutbox.notificationId r' = pushOutbox.notificationId r ->
  pushOutbox.title r' = pushOutbox.title r -> pushOutbox.body r' = pushOutbox.body r ->
  pushOutbox.route r' = pushOutbox.route r -> lifecycle (phase_of r) (phase_of r') -> evolved r r'.
Proof. intros. split_and!; try done. by apply rtc_once. Qed.
Lemma evolved_cancel now r : pushOutbox.status r ∈ OPEN_PUSH_STATUSES -> evolved r (cancel now r).
Proof. intros Ho. apply evolved_step; try done. unfold phase_of. simpl. by apply lc_cancel. Qed.

(** * Handlers that keep to the lifecycle *)

Section theorems.
Context `{Env}.

Definition evolving {A} (m : M A) : Prop :=
  forall w, wp m (fun _ w' => progress_to (pushOutbox (db w)) (pushOutbox (db w'))) w.

Lemma evolving_bind {A B} (m : M A) (k : A -> M B) : evolving m -> (forall a, evolving (k a)) -> evolving (m ≫= k).
Proof.
  intros Hm Hk w. apply wp_bind. eapply wp_mono; [apply Hm|]. intros [a|e] w1 E; [|done].
  eapply wp_mono; [apply Hk|]. intros r w2 E2. by etrans.
Qed.
Lemma evolving_try {A} (m : M A) h : evolving m -> (forall e, evolving (h e)) -> evolving (try_catch m h).
Proof.
  intros Hm Hk w. apply wp_try_catch. eapply wp_mono; [apply Hm|]. intros [a|e] w1 E; [done|].
  eapply wp_mono; [apply Hk|]. intros r w2 E2. by etrans.
Qed.
Lemma evolving_attempt {A} (m : M A) : evolving m -> evolving (attempt m).
Proof. intros Hm w. apply wp_attempt, Hm. Qed.
Lemma evolving_transaction {A} (m : M A) : evolving m -> evolving (transaction m).
Proof. intros Hm w. apply wp_transaction. eapply wp_mono; [apply Hm|]. by intros [a|e] w1 E. Qed.
Lemma evolving_keeps {A} (m : M A) : keeps (fun w => pushOutbox (db w)) m -> evolving m.
Proof. intros Hm w. eapply wp_mono; [apply Hm|]. simpl. by intros _ w' ->. Qed.
Lemma evolving_update p f : (forall r, p r = true -> evolved r (f r)) -> evolving (update pushOutbox p f).
Proof. intros Hf w. apply wp_update. apply progress_mapif. auto. Qed.
Lemma evolving_updateChecked p f : (forall r, p r = true -> evolved r (f r)) -> evolving (updateChecked pushOutbox p f).
Proof. intros Hf w. apply wp_updateChecked; intros; [apply progress_mapif; auto|done..]. Qed.
Lemma evolving_for_each {A} (l : list A) body : (forall x, x ∈ l -> evolving (body x)) -> evolving (for_each l body).
Proof.
  induction l as [|x l IH]; intros Hb; simpl; [intros w; by apply wp_ret|].
  apply evolving_bind; [apply Hb; set_solver|]. intros _. apply IH. set_solver.
Qed.
Lemma evolving_delete_pushTokens p : evolving (delete_pushTokens p).
Proof. intros w. apply wp_put_db. simpl. apply progress_mapif. intros _ r _ _. by apply evolved_same. Qed.

(** Decide it by symbolic execution; statements on other tables keep the outbox. *)
Ltac evolving_step :=
  lazymatch goal with
  | |- forall _, _ => intro
  | |- evolving (mbind _ _) => apply evolving_bind
  | |- evolving (try_catch _ _) => apply evolving_try
  | |- evolving (attempt _) => apply evolving_attempt
  | |- evolving (transaction _) => apply evolving_transaction
  | |- evolving (delete_pushTokens _) => apply evolving_delete_pushTokens
  | |- evolving (if ?b then _ else _) => destruct b
  | |- evolving (match ?o with _ => _ end) => destruct o
  | |- evolving (let _ := _ in _) => cbv zeta
  | |- evolving _ => first [solve [auto] | apply evolving_keeps; solve [keeps_leaf]]
  end; cbv beta iota.
Ltac solve_evolving := repeat evolving_step.

Lemma outbox_of_open statuses id r :
  statuses ⊆ OPEN_PUSH_STATUSES -> outbox_of statuses id r = true -> pushOutbox.status r ∈ OPEN_PUSH_STATUSES.
Proof. unfold outbox_of. rewrite andb_true_iff, !bool_decide_eq_true. intros Hs [_ Hr]. by apply Hs. Qed.
Lemma in_flight_open : IN_FLIGHT_PUSH_STATUSES ⊆ OPEN_PUSH_STATUSES.
Proof. unfold IN_FLIGHT_PUSH_STATUSES, OPEN_PUSH_STATUSES. set_solver. Qed.
Lemma evolving_cancelOutbox statuses id now : statuses ⊆ OPEN_PUSH_STATUSES -> evolving (cancelOutbox statuses id now).
Proof.
  intros Hs. unfold cancelOutbox. apply evolving_bind; [|by solve_evolving]. apply evolving_update. intros r Hr.
  apply evolved_cancel. by apply (outbox_of_open statuses id).
Qed.
#[local] Hint Resolve evolving_cancelOutbox in_flight_open : core.

(** ** Handlers that do not claim *)

Lemma evolving_enqueue id input tokens : evolving (enqueue id input tokens).
Proof.
  induction tokens as [|token tokens IH]; simpl; [intros w; by apply wp_ret|].
  repeat (apply evolving_bind; [by solve_evolving|intros]). apply evolving_bind; [|done].
  intros w. apply wp_insert; intros; [|done..]. apply progress_insert; [by apply rtc_refl|done].
Qed.
Lemma evolving_createWithPushOutbox input enqueuePush : evolving (createWithPushOutbox input enqueuePush).
Proof. pose proof evolving_enqueue. unfold createWithPushOutbox. by solve_evolving. Qed.

Lemma evolving_dropToken token now : evolving (dropToken token now).
Proof. unfold dropToken. apply evolving_bind; [by apply evolving_cancelOutbox|]. by solve_evolving. Qed.
Lemma evolving_snapshot id token now :
  evolving (update pushOutbox (outbox_of [queued] id)
    (fun r => r <| pushOutbox.tokenSnapshot := token |> <| pushOutbox.updatedAt := to_column now |>)).
Proof. apply evolving_update. intros r _. by apply evolved_same. Qed.
Lemma evolving_repo_register u d t p : evolving (repo_registerPushToken u d t p).
Proof.
  pose proof evolving_dropToken. pose proof evolving_snapshot. unfold repo_registerPushToken. by solve_evolving.
Qed.
Lemma evolving_repo_unregister u d : evolving (repo_unregisterPushToken u d).
Proof.
  unfold repo_unregisterPushToken. apply evolving_transaction, evolving_bind; [by solve_evolving|]. intros tokens. cbv zeta.
  destruct (map pushTokens.id _) as [|id ids]; [by solve_evolving|]. apply evolving_bind; [by solve_evolving|]. intros now.
  apply evolving_bind; [|by solve_evolving]. apply evolving_update. intros r Hr. apply evolved_cancel.
  rewrite !andb_true_iff, bool_decide_eq_true in Hr. tauto.
Qed.

(** ** Claims *)

Lemma due_send now r : sendDue now r = true -> pushOutbox.status r = queued \/ pushOutbox.status r = sending.
Proof. unfold sendDue. rewrite orb_true_iff, !andb_true_iff, !bool_decide_eq_true. tauto. Qed.
Lemma due_receipt now r : receiptDue now r = true -> pushOutbox.status r = receipt_pending \/ pushOutbox.status r = receipt_checking.
Proof. unfold receiptDue. rewrite orb_true_iff, !andb_true_iff, !bool_decide_eq_true. tauto. Qed.

Lemma evolved_sending now lease r : sendDue now r = true -> evolved r (mark_sending now lease r).
Proof.
  intros Hd. apply evolved_step; try done. unfold phase_of. simpl.
  destruct (due_send _ _ Hd) as [->| ->]; constructor.
Qed.
Lemma evolved_checking now lease r : receiptDue now r = true -> evolved r (mark_checking now lease r).
Proof.
  intros Hd. apply evolved_step; try done. unfold phase_of. simpl.
  destruct (due_receipt _ _ Hd) as [->| ->]; constructor.
Qed.

Definition outbox_keys (d : Db) : Prop := NoDup (map pushOutbox.id (pushOutbox d)).

(** The due rows nobody else holds while the claim reads. *)
Definition free_due (due : PushOutbox -> bool) (locked : jstr -> bool) (r : PushOutbox) : bool :=
  due r && negb (locked (pushOutbox.id r)).
(** What a claim does: some distinct due rows are marked, as many as the limit or
    all there are; if it claims fewer than the limit, every due row nobody holds
    is among them. *)
Record claimed (due : PushOutbox -> bool) (mark : PushOutbox -> PushOutbox) (limit : nat) (w w' : World)
    (ids : list jstr) (jobs : list PushOutbox) : Prop := {
  cl_mark : db w' = (db w) <| pushOutbox ::= mapif (fun r => bool_decide (pushOutbox.id r ∈ ids)) mark |>;
  cl_jobs : jobs = map mark (sel (fun r => bool_decide (pushOutbox.id r ∈ ids)) (pushOutbox (db w)));
  cl_due : forall r, r ∈ pushOutbox (db w) -> pushOutbox.id r ∈ ids -> due r = true;
  cl_limit : (length ids <= limit)%nat;
  cl_all : (length ids < limit)%nat -> forall r, r ∈ pushOutbox (db w) -> due r = true ->
    row_locked (tick w) (pushOutbox.id r) = false -> pushOutbox.id r ∈ ids;
  cl_distinct : NoDup ids;
  cl_rows : forall id, id ∈ ids -> exists r, r ∈ pushOutbox (db w) /\ pushOutbox.id r = id /\
    free_due due (row_locked (tick w)) r = true;
  cl_count : length ids = Nat.min limit (length (sel (free_due due (row_locked (tick w))) (pushOutbox (db w))))
}.

Lemma wp_claimBatch due order mark limit w :
  outbox_keys (db w) -> total_order order ->
  wp (claimBatch due order mark limit) (fun r w' => effects w' = effects w /\ exists c ids, r = Ok c /\
    claimed due mark limit w w' ids (pc_jobs c)) w.
Proof.
  intros Hk Ho. unfold claimBatch. do 3 wp_step.
  set (cand := sel (fun r => due r && negb (row_locked (tick w) (pushOutbox.id r))) (pushOutbox (db w))).
  pose proof (keys_take_order pushOutbox.id order cand limit (keys_sel pushOutbox.id _ _ Hk)) as Hdistinct.
  assert (forall id, id ∈ map pushOutbox.id (take limit (order_by order cand)) -> exists r, r ∈ pushOutbox (db w) /\
    pushOutbox.id r = id /\ free_due due (row_locked (tick w)) r = true) as Hrows.
  { intros id (r & Hr & <-)%key_elem. apply elem_of_take_order, elem_of_sel in Hr as [? ?]. by exists r. }
  assert (length (map pushOutbox.id (take limit (order_by order cand))) = Nat.min limit (length cand)) as Hcount
    by (by rewrite length_map, length_take, length_order_by).
  assert (forall r, r ∈ take limit (order_by order cand) -> r ∈ pushOutbox (db w) /\ due r = true) as Hsel.
  { intros r Hr. apply elem_of_take_order, elem_of_sel in Hr as [Hr Hd]. by apply andb_true_iff in Hd as [? _]. }
  assert (length (map pushOutbox.id (take limit (order_by order cand))) < limit -> forall r,
    r ∈ pushOutbox (db w) -> due r = true -> row_locked (tick w) (pushOutbox.id r) = false ->
    pushOutbox.id r ∈ map pushOutbox.id (take limit (order_by order cand)))%nat as Hall.
  { rewrite length_map. intros Hlt r Hr Hd Hl. apply key_elem. exists r. split; [|done].
    destruct (take_order_by order cand limit r Ho) as [Hin|[Hfull _]]; [|done|lia].
    apply elem_of_sel. split; [done|]. by rewrite Hd, Hl. }
  destruct (take limit (order_by order cand)) as [|r0 rest] eqn:Es.
  - wp_step. split; [done|]. exists (mkClaim [] false), []. split; [done|]. split; simpl.
    + rewrite <- (update_none pushOutbox (fun r => bool_decide (pushOutbox.id r ∈ [])) mark (db w)) at 1; [done|].
      by intros r _.
    + rewrite sel_none; [done|]. by intros r _.
    + intros r _ Hr. by apply elem_of_nil in Hr.
    + lia.
    + exact Hall.
    + exact Hdistinct.
    + exact Hrows.
    + exact Hcount.
  - do 5 wp_step. split; [done|]. eexists _, (map pushOutbox.id (r0 :: rest)). split; [done|]. split; simpl.
    + done.
    + done.
    + intros r Hr Hid. change (pushOutbox.id r ∈ map pushOutbox.id (r0 :: rest)) in Hid.
      apply key_elem in Hid as (x & Hx & Hxr). destruct (Hsel x Hx) as [Hxin Hxd].
      by rewrite <- (keys_inj pushOutbox.id (pushOutbox (db w)) x r).
    + simpl in Hcount. lia.
    + exact Hall.
    + exact Hdistinct.
    + exact Hrows.
    + exact Hcount.
Qed.

(** The jobs are rows of the table as it is now. *)
Lemma claimed_jobs due mark limit w w' ids jobs job :
  claimed due mark limit w w' ids jobs -> job ∈ jobs ->
  job ∈ pushOutbox (db w') /\ exists r, job = mark r.
Proof.
  intros [Emark -> _ _ _ _ _ _] (r0 & -> & Hr)%list_elem_of_fmap. apply elem_of_sel in Hr as [Hr Hid]. split; [|eauto].
  rewrite Emark. simpl. apply elem_of_mapif. exists r0. by rewrite Hid.
Qed.
Lemma claimed_keys due mark limit w w' ids jobs :
  (forall r, pushOutbox.id (mark r) = pushOutbox.id r) -> claimed due mark limit w w' ids jobs ->
  outbox_keys (db w) -> outbox_keys (db w') /\ distinct jobs.
Proof.
  intros Hm [Emark -> _ _ _ _ _ _] Hk. split.
  - rewrite Emark. unfold outbox_keys. simpl. by rewrite keys_mapif.
  - unfold distinct. rewrite map_map, (map_ext _ _ Hm). by apply (keys_sel pushOutbox.id).
Qed.


Lemma evolving_claim due order mark limit :
  (forall r, due r = true -> evolved r (mark r)) -> total_order order -> evolving (claimBatch due order mark limit).
Proof.
  intros Hm Ho w. destruct (decide (distinct (pushOutbox (db w)))) as [Hk|Hn].
  - eapply wp_mono; [by apply wp_claimBatch|]. intros r w' (_ & c & ids & _ & [-> _ Hdue _ _ _ _ _]).
    simpl. apply progress_mapif. intros _ x Hx Hid. apply Hm, Hdue; [done|]. by rewrite bool_decide_eq_true in Hid.
  - apply run_wp. by intros w' r _ Hd.
Qed.
Lemma outbox_order_total key : total_order (outbox_order key).
Proof.
  unfold outbox_order. apply total_order_nulls_last, (total_order_lex pushOutbox.createdAt), (total_order_str pushOutbox.id).
Qed.
Lemma evolving_claimSendBatch now lease limit : evolving (claimSendBatch now lease limit).
Proof. apply evolving_claim; [apply evolved_sending|apply outbox_order_total]. Qed.
Lemma evolving_claimReceiptBatch now lease limit : evolving (claimReceiptBatch now lease limit).
Proof. apply evolving_claim; [apply evolved_checking|apply outbox_order_total]. Qed.

(** ** Results *)

(** A result says retry below the limit of attempts and exhausted from there. *)
Definition send_result_ok (result : PushSendResult) : Prop :=
  (sr_kind result = retry_result -> sr_attempt result < MAX_PUSH_SEND_ATTEMPTS) /\
  (sr_kind result = exhausted_result -> MAX_PUSH_SEND_ATTEMPTS <= sr_attempt result).
Definition receipt_result_ok (result : PushReceiptResult) : Prop :=
  (rr_kind result = retry_result -> rr_attempt result < MAX_PUSH_RECEIPT_ATTEMPTS) /\
  (rr_kind result = exhausted_result -> MAX_PUSH_RECEIPT_ATTEMPTS <= rr_attempt result).

Lemma sent_claim_spec result r :
  sent_claim result r = true <->
  pushOutbox.id r = sr_id result /\ pushOutbox.status r = sending /\ pushOutbox.sendAttempts r = sr_attempt result.
Proof. unfold sent_claim. rewrite !andb_true_iff, !bool_decide_eq_true, Z.eqb_eq. tauto. Qed.
Lemma checked_claim_spec result r :
  checked_claim result r = true <->
  pushOutbox.id r = rr_id result /\ pushOutbox.status r = receipt_checking /\
  pushOutbox.receiptAttempts r = rr_attempt result.
Proof. unfold checked_claim. rewrite !andb_true_iff, !bool_decide_eq_true, Z.eqb_eq. tauto. Qed.

(** The values of a result, when it has any. *)
Definition send_values (result : PushSendResult) (now : Z) : Result (PushOutbox -> PushOutbox) :=
  (sendResultValues result now (mkWorld emptyDb 0 [])).2.
Definition receipt_values (result : PushReceiptResult) (now : Z) : Result (PushOutbox -> PushOutbox) :=
  (receiptResultValues result now (mkWorld emptyDb 0 [])).2.
Lemma sendResultValues_pure result now w : sendResultValues result now w = (w, send_values result now).
Proof.
  unfold send_values, sendResultValues. destruct (sr_kind result); try done.
  - by destruct (truthy_str _), (sr_receiptAvailableAt result).
  - by destruct (sr_nextAttemptAt result).
Qed.
Lemma receiptResultValues_pure result now w : receiptResultValues result now w = (w, receipt_values result now).
Proof.
  unfold receipt_values, receiptResultValues. destruct (rr_kind result); try done. by destruct (rr_nextAttemptAt result).
Qed.

Lemma evolved_send_values result now f r :
  send_result_ok result -> send_values result now = Ok f -> sent_claim result r = true -> evolved r (f r).
Proof.
  intros [Hretry Hex] Hf (_ & Hs & Ha)%sent_claim_spec. unfold send_values, sendResultValues in Hf.
  destruct (sr_kind result); [destruct (truthy_str _), (sr_receiptAvailableAt result)|destruct (sr_nextAttemptAt result)|..];
    simplify_eq/=; (apply evolved_step; try done); unfold phase_of; simpl; rewrite Hs, ?Ha; constructor; auto.
Qed.
Lemma evolved_receipt_values result now f r :
  receipt_result_ok result -> receipt_values result now = Ok f -> checked_claim result r = true -> evolved r (f r).
Proof.
  intros [Hretry Hex] Hf (_ & Hs & Ha)%checked_claim_spec. unfold receipt_values, receiptResultValues in Hf.
  destruct (rr_kind result); [|destruct (rr_nextAttemptAt result)|..];
    simplify_eq/=; (apply evolved_step; try done); unfold phase_of; simpl; rewrite Hs, ?Ha; constructor; auto.
Qed.

Lemma evolving_applyResult claim values inv id now :
  (forall r, claim r = true -> evolved r (values r)) -> evolving (applyResult claim values inv id now).
Proof.
  intros Hv. unfold applyResult. apply evolving_bind; [by apply evolving_updateChecked|]. intros updated.
  destruct (head updated); [|by solve_evolving]. destruct (truthy_str inv); [|by solve_evolving].
  unfold invalidatePushToken. apply evolving_bind; [|by solve_evolving]. apply evolving_update. intros r Hr.
  apply evolved_cancel. apply andb_true_iff in Hr as [Hr _]. by apply (outbox_of_open OPEN_PUSH_STATUSES _ _ ltac:(done)) in Hr.
Qed.
Lemma evolving_pure_bind {A B} (m : M A) r (k : A -> M B) :
  (forall w, m w = (w, r)) -> (forall a, r = Ok a -> evolving (k a)) -> evolving (m ≫= k).
Proof.
  intros Hm Hk w. apply wp_bind. apply (wp_pure m r); [done|]. destruct r as [a|e]; [by apply Hk|done].
Qed.
Lemma evolving_applySendResults results now :
  Forall send_result_ok results -> evolving (applySendResults results now).
Proof.
  intros Hok. apply evolving_transaction, evolving_for_each. intros result Hr. rewrite Forall_forall in Hok.
  apply (evolving_pure_bind _ _ _ (sendResultValues_pure result now)). intros f Hf. apply evolving_applyResult.
  intros r. apply (evolved_send_values _ now); [by apply Hok|done].
Qed.
Lemma evolving_applyReceiptResults results now :
  Forall receipt_result_ok results -> evolving (applyReceiptResults results now).
Proof.
  intros Hok. apply evolving_transaction, evolving_for_each. intros result Hr. rewrite Forall_forall in Hok.
  apply (evolving_pure_bind _ _ _ (receiptResultValues_pure result now)). intros f Hf. apply evolving_applyResult.
  intros r. apply (evolved_receipt_values _ now); [by apply Hok|done].
Qed.

(** * Batches *)

Section batches.
Context `{ConfigService} `{ExpoClient}.

(** The result of a job: for its claim, and in keeping with the attempts made. *)
Record send_result_for (now : Z) (job : PushOutbox) (result : PushSendResult) : Prop := {
  sf_id : sr_id result = pushOutbox.id job;
  sf_attempt : sr_attempt result = pushOutbox.sendAttempts job;
  sf_ok : send_result_ok result;
  sf_next : sr_kind result = retry_result ->
    sr_nextAttemptAt result = Some (retryAt now (pushOutbox.sendAttempts job))
}.
Record receipt_result_for (now : Z) (job : PushOutbox) (result : PushReceiptResult) : Prop := {
  rf_id : rr_id result = pushOutbox.id job;
  rf_attempt : rr_attempt result = pushOutbox.receiptAttempts job;
  rf_ok : receipt_result_ok result;
  rf_next : rr_kind result = retry_result ->
    rr_nextAttemptAt result = Some (retryAt now (pushOutbox.receiptAttempts job))
}.

Lemma retrySendResult_for now job code message : send_result_for now job (retrySendResult job now code message).
Proof. unfold retrySendResult. destruct (_ <=? _) eqn:E; split; simpl; try done; split; simpl; try done; lia. Qed.
Lemma ticketResult_for now job ticket : send_result_for now job (ticketResult job ticket now).
Proof.
  destruct ticket as [[id|m [code|]]|]; simpl; try apply retrySendResult_for; [by split| |by split].
  destruct (_ || _); [apply retrySendResult_for|by split].
Qed.
Lemma ticketResults_for now jobs tickets : Forall2 (send_result_for now) jobs (ticketResults jobs tickets now).
Proof.
  revert tickets. induction jobs as [|job jobs IH]; intros [|t tickets]; [constructor..| |].
  - exact (List.Forall2_cons _ _ (ticketResult_for now job None) (IH [])).
  - exact (List.Forall2_cons _ _ (ticketResult_for now job (Some t)) (IH tickets)).
Qed.
Lemma retryReceiptResult_for now job code message : receipt_result_for now job (retryReceiptResult job now code message).
Proof. unfold retryReceiptResult. destruct (_ <=? _) eqn:E; split; simpl; try done; split; simpl; try done; lia. Qed.
Lemma receiptResult_for now job receipt : receipt_result_for now job (receiptResult job receipt now).
Proof. destruct receipt as [[|m code]|]; simpl; [by split..|apply retryReceiptResult_for]. Qed.
Lemma Forall2_map_r {A B} (P : A -> B -> Prop) (f : A -> B) l : (forall x, P x (f x)) -> Forall2 P l (map f l).
Proof. intros Hf. induction l; simpl; by constructor. Qed.

Lemma wp_emits {A} (l : list A) (f : A -> Effect) (Q : Result unit -> World -> Prop) w :
  (forall w', db w' = db w -> tick w' = tick w -> Q (Ok tt) w') -> wp (for_each l (fun x => emit (f x))) Q w.
Proof.
  revert w. induction l as [|x l IH]; intros w HQ; simpl; [by apply HQ|]. wp_step. wp_step. apply IH. intros w' E1 E2. by apply HQ.
Qed.

(** Whatever Expo answers, every job gets a result. *)
Lemma wp_sendJobs jobs now w :
  wp (sendJobs jobs now) (fun r w' => db w' = db w /\ exists results, r = Ok results /\
    Forall2 (send_result_for now) jobs results) w.
Proof.
  unfold sendJobs, gateway_send. wp_step. wp_step. wp_step. apply wp_emits. intros w1 E1 _. do 2 wp_step.
  destruct (sendPushNotificationsAsync _ _) as [message|tickets].
  - wp_step. wp_step. split; [done|]. eexists. split; [done|]. apply Forall2_map_r. intros job. apply retrySendResult_for.
  - wp_step. wp_step. split; [done|]. eexists. split; [done|]. destruct (Nat.eqb _ _); [apply ticketResults_for|].
    apply Forall2_map_r. intros job. apply retrySendResult_for.
Qed.
Lemma wp_checkReceipts jobs now w :
  wp (checkReceipts jobs now) (fun r w' => db w' = db w /\ exists results, r = Ok results /\
    Forall2 (receipt_result_for now) jobs results) w.
Proof.
  unfold checkReceipts, getReceipts. cbv zeta. destruct (negb _).
  - wp_step. split; [done|]. eexists. split; [done|]. apply Forall2_map_r. intros job.
    destruct (truthy_str _); [apply retryReceiptResult_for|by split].
  - do 4 wp_step. destruct (getPushNotificationReceiptsAsync _ _) as [message|receipts]; repeat wp_step;
      (split; [done|]); eexists; (split; [done|]); apply Forall2_map_r; intros job;
      [apply retryReceiptResult_for|apply receiptResult_for].
Qed.

Lemma Forall2_ok {A B} (P : A -> B -> Prop) (Q : B -> Prop) l k : (forall x y, P x y -> Q y) -> Forall2 P l k -> Forall Q k.
Proof. intros Hpq. induction 1; constructor; eauto. Qed.

Lemma evolving_wp_bind {A B} (m : M A) (P : A -> Prop) (k : A -> M B) :
  (forall w, wp m (fun r w' => db w' = db w /\ forall a, r = Ok a -> P a) w) -> (forall a, P a -> evolving (k a)) ->
  evolving (m ≫= k).
Proof.
  intros Hm Hk w. apply wp_bind. eapply wp_mono; [apply Hm|]. intros [a|e] w1 [E HP]; [|by rewrite E].
  rewrite <- E. apply Hk, HP. done.
Qed.

Lemma evolving_sendBatch now limit : evolving (processPushOutboxBatch now limit).
Proof.
  unfold processPushOutboxBatch, validateBatchLimit. destruct (negb pushEnabled); [by solve_evolving|].
  apply evolving_bind; [by solve_evolving|]. intros n. apply evolving_bind; [apply evolving_claimSendBatch|]. intros c.
  destruct (pc_jobs c) as [|job jobs]; [by solve_evolving|].
  apply (evolving_wp_bind _ (Forall send_result_ok)).
  - intros w. eapply wp_mono; [apply wp_sendJobs|]. intros r w' [E (results & -> & Hr)]. split; [done|]. intros ? [= <-].
    apply (Forall2_ok _ _ _ _ (fun x y H => sf_ok _ _ _ H) Hr).
  - intros results Hr. apply evolving_bind; [by apply evolving_applySendResults|]. by solve_evolving.
Qed.
Lemma evolving_receiptBatch now limit : evolving (processPushReceiptBatch now limit).
Proof.
  unfold processPushReceiptBatch, validateBatchLimit. destruct (negb pushEnabled); [by solve_evolving|].
  apply evolving_bind; [by solve_evolving|]. intros n. apply evolving_bind; [apply evolving_claimReceiptBatch|]. intros c.
  destruct (pc_jobs c) as [|job jobs]; [by solve_evolving|].
  apply (evolving_wp_bind _ (Forall receipt_result_ok)).
  - intros w. eapply wp_mono; [apply wp_checkReceipts|]. intros r w' [E (results & -> & Hr)]. split; [done|]. intros ? [= <-].
    apply (Forall2_ok _ _ _ _ (fun x y H => rf_ok _ _ _ H) Hr).
  - intros results Hr. apply evolving_bind; [by apply evolving_applyReceiptResults|]. by solve_evolving.
Qed.

(** * The lifecycle *)

Inductive NotificationRequest :=
| Notify (input : CreateNotificationInput)
| ListNotifications (userId : jstr)
| MarkRead (userId notificationId : jstr)
| RegisterPushToken (userId deviceId token platform : jstr)
| UnregisterPushToken (userId deviceId : jstr)
| SendBatch (now limit : Z)
| ReceiptBatch (now limit : Z).

(** A request or a run of a worker, whatever it answers. *)
Definition serve (q : NotificationRequest) : M unit :=
  match q with
  | Notify input => attempt (notify_ input) ;; mret tt
  | ListNotifications u => attempt (list_ u) ;; mret tt
  | MarkRead u n => attempt (markRead u n) ;; mret tt
  | RegisterPushToken u d t p => attempt (registerPushToken u d t p) ;; mret tt
  | UnregisterPushToken u d => attempt (unregisterPushToken u d) ;; mret tt
  | SendBatch now limit => attempt (processPushOutboxBatch now limit) ;; mret tt
  | ReceiptBatch now limit => attempt (processPushReceiptBatch now limit) ;; mret tt
  end.

Lemma evolving_serve q : evolving (serve q).
Proof.
  pose proof evolving_createWithPushOutbox. pose proof evolving_repo_register. pose proof evolving_repo_unregister.
  pose proof evolving_sendBatch. pose proof evolving_receiptBatch.
  destruct q; simpl; unfold notify_, list_, repo_list, markRead, uuid_text, registerPushToken, unregisterPushToken;
    by solve_evolving.
Qed.

(** The retries left: a row waits for a send, or for its receipt, only below the
    limit of attempts. *)
Definition attempts_bounded (p : phase) : Prop :=
  let '(status, s, n) := p in
  (status = queued -> s < MAX_PUSH_SEND_ATTEMPTS) /\ (status = receipt_pending -> n < MAX_PUSH_RECEIPT_ATTEMPTS) /\
  (status = queued \/ status = sending -> n = 0).
Definition terminal (status : PushOutboxStatus) : Prop := status ∉ OPEN_PUSH_STATUSES.

Lemma terminal_stays p q : rtc lifecycle p q -> terminal p.1.1 -> q = p.
Proof.
  induction 1 as [p|p q t Hs _ IH]; intros Ht; [done|]. exfalso.
  destruct Hs; unfold terminal, OPEN_PUSH_STATUSES in *; simpl in *; set_solver.
Qed.
Lemma attempts_monotone p q : rtc lifecycle p q -> p.1.2 <= q.1.2 /\ p.2 <= q.2.
Proof. induction 1 as [p|p q t Hs _ IH]; [lia|]. destruct Hs; simpl in *; lia. Qed.
(** A row whose send is over is never sent again. *)
Lemma past_sending p q :
  rtc lifecycle p q -> p.1.1 <> queued -> p.1.1 <> sending -> q.1.1 <> queued /\ q.1.1 <> sending.
Proof.
  induction 1 as [p|p q t Hs _ IH]; intros Hq Hse; [done|]. apply IH; destruct Hs; simpl in *; congruence.
Qed.
Lemma bounds_preserved p q : rtc lifecycle p q -> attempts_bounded p -> attempts_bounded q.
Proof.
  induction 1 as [p|p q t Hs _ IH]; intros Hb; [done|]. apply IH. clear IH.
  unfold MAX_PUSH_SEND_ATTEMPTS, MAX_PUSH_RECEIPT_ATTEMPTS in *.
  destruct Hs; simpl in *; destruct Hb as (Hq & Hr & Hn); split_and!; intros;
    first [done | lia | (rewrite Hn by auto; lia) | naive_solver].
Qed.

Lemma evolves_in l l' a : evolves l l' -> a ∈ l -> exists b, b ∈ l' /\ evolved a b.
Proof.
  intros (m & new & -> & Hm & _) (i & Hi)%list_elem_of_lookup. destruct (Forall2_lookup_l _ _ _ _ _ Hm Hi) as (b & Hb & He).
  exists b. split; [|done]. apply elem_of_app. left. by apply list_elem_of_lookup_2 in Hb.
Qed.
Lemma evolves_from l l' b : evolves l l' -> b ∈ l' -> (exists a, a ∈ l /\ evolved a b) \/ started b.
Proof.
  intros (m & new & -> & Hm & Hn) [Hb|Hb]%elem_of_app; [left|right; by apply (proj1 (Forall_forall _ _) Hn)].
  apply list_elem_of_lookup in Hb as (i & Hi). destruct (Forall2_lookup_r _ _ _ _ _ Hm Hi) as (a & Ha & He).
  exists a. split; [|done]. by apply list_elem_of_lookup_2 in Ha.
Qed.

(** C30: the lifecycle of a push.  However many requests and worker runs there
    are and whatever they answer, no outbox row disappears, changes what it is
    about or moves outside the lifecycle; a row that is delivered, failed,
    exhausted or cancelled stays so; and a row waits to be sent only below five
    send attempts, for a receipt only below eight checks. *)
Theorem outbox_lifecycle (l : list NotificationRequest) w w' r :
  outbox_keys (db w) -> for_each l serve w = (w', r) ->
  outbox_keys (db w') /\ evolves (pushOutbox (db w)) (pushOutbox (db w')) /\
  (forall a, a ∈ pushOutbox (db w) -> terminal (pushOutbox.status a) ->
     exists b, b ∈ pushOutbox (db w') /\ pushOutbox.id b = pushOutbox.id a /\ phase_of b = phase_of a) /\
  ((forall a, a ∈ pushOutbox (db w) -> attempts_bounded (phase_of a)) ->
   forall b, b ∈ pushOutbox (db w') -> attempts_bounded (phase_of b)).
Proof.
  intros Hk E. assert (progress_to (pushOutbox (db w)) (pushOutbox (db w'))) as Hp.
  { exact (wp_run _ _ _ _ _ E (evolving_for_each l serve (fun q _ => evolving_serve q) w)). }
  destruct (Hp Hk) as [Hk' He]. split_and!; try done.
  - intros a Ha Ht. destruct (evolves_in _ _ _ He Ha) as (b & Hb & Hid & _ & _ & _ & _ & Hl). exists b.
    split_and!; [done..|]. by apply terminal_stays.
  - intros Hall b Hb. destruct (evolves_from _ _ _ He Hb) as [(a & Ha & _ & _ & _ & _ & _ & Hl)|Hs].
    + by apply (bounds_preserved _ _ Hl), Hall.
    + apply (bounds_preserved _ _ Hs). unfold attempts_bounded, MAX_PUSH_SEND_ATTEMPTS. split_and!; [lia|done|done].
Qed.

(** * Fencing *)

Lemma applyResult_none claim values inv id now w :
  (forall r, r ∈ pushOutbox (db w) -> claim r = false) ->
  wp (applyResult claim values inv id now) (fun r w' => db w' = db w) w.
Proof.
  intros Hno. unfold applyResult. wp_step. wp_step; [|done..].
  intros _ _. rewrite sel_none by done. simpl. wp_step. by apply (update_none pushOutbox).
Qed.

(** Results none of which belongs to a row as it is now change nothing. *)
Lemma stale_send_results results now w :
  (forall result r, result ∈ results -> r ∈ pushOutbox (db w) -> sent_claim result r = false) ->
  wp (applySendResults results now) (fun _ w' => db w' = db w) w.
Proof.
  intros Hno. unfold applySendResults. wp_step.
  apply (wp_mono _ (fun r w' => db w' = db w)); [|intros [u|e] w' E; [done|by simpl]].
  apply (wp_for_each_inv _ _ (fun w' => db w' = db w)); [done| |done].
  intros result w0 Hr E0. wp_step. apply (wp_pure _ _ _ _ (sendResultValues_pure result now)).
  destruct (send_values result now) as [f|e]; [|done].
  eapply wp_mono; [apply applyResult_none; rewrite E0; intros r; by apply Hno|]. intros [u|e] w1; congruence.
Qed.
Lemma stale_receipt_results results now w :
  (forall result r, result ∈ results -> r ∈ pushOutbox (db w) -> checked_claim result r = false) ->
  wp (applyReceiptResults results now) (fun _ w' => db w' = db w) w.
Proof.
  intros Hno. unfold applyReceiptResults. wp_step.
  apply (wp_mono _ (fun r w' => db w' = db w)); [|intros [u|e] w' E; [done|by simpl]].
  apply (wp_for_each_inv _ _ (fun w' => db w' = db w)); [done| |done].
  intros result w0 Hr E0. wp_step. apply (wp_pure _ _ _ _ (receiptResultValues_pure result now)).
  destruct (receipt_values result now) as [f|e]; [|done].
  eapply wp_mono; [apply applyResult_none; rewrite E0; intros r; by apply Hno|]. intros [u|e] w1; congruence.
Qed.

(** A row after requests have been served, from the row it was. *)
Lemma served_row l w w' r a x :
  outbox_keys (db w) -> for_each l serve w = (w', r) ->
  a ∈ pushOutbox (db w) -> x ∈ pushOutbox (db w') -> pushOutbox.id x = pushOutbox.id a -> evolved a x.
Proof.
  intros Hk E Ha Hx Hid.
  destruct (wp_run _ _ _ _ _ E (evolving_for_each l serve (fun q _ => evolving_serve q) w) Hk) as [Hk' He].
  destruct (evolves_in _ _ _ He Ha) as (b & Hb & Hab).
  assert (x = b) as -> by (apply (keys_inj pushOutbox.id (pushOutbox (db w'))); [done..|]; destruct Hab; congruence). done.
Qed.
Lemma served_keys l w w' r : outbox_keys (db w) -> for_each l serve w = (w', r) -> outbox_keys (db w').
Proof. intros Hk E. by destruct (wp_run _ _ _ _ _ E (evolving_for_each l serve (fun q _ => evolving_serve q) w) Hk). Qed.

(** The rows a claim hands out. *)
Lemma claim_hands_out due order mark limit w w' c :
  outbox_keys (db w) -> total_order order -> (forall r, pushOutbox.id (mark r) = pushOutbox.id r) ->
  claimBatch due order mark limit w = (w', Ok c) ->
  outbox_keys (db w') /\ forall job, job ∈ pc_jobs c -> job ∈ pushOutbox (db w') /\
    exists r, r ∈ pushOutbox (db w) /\ due r = true /\ job = mark r.
Proof.
  intros Hk Ho Hm E. destruct (wp_run _ _ _ _ _ E (wp_claimBatch due order mark limit w Hk Ho)) as (_ & c' & ids & [= <-] & Hc).
  destruct (claimed_keys _ _ _ _ _ _ _ Hm Hc Hk) as [Hk' _]. split; [done|]. intros job Hj.
  split; [by apply (claimed_jobs _ _ _ _ _ _ _ _ Hc Hj)|]. destruct Hc as [_ Ejobs Hdue _ _ _ _ _]. rewrite Ejobs in Hj.
  apply list_elem_of_fmap in Hj as (r & -> & [Hr Hid]%elem_of_sel). rewrite bool_decide_eq_true in Hid. eauto.
Qed.
Lemma send_hands_out now lease limit w w' c :
  outbox_keys (db w) -> claimSendBatch now lease limit w = (w', Ok c) ->
  outbox_keys (db w') /\ forall job, job ∈ pc_jobs c -> job ∈ pushOutbox (db w') /\ exists r, r ∈ pushOutbox (db w) /\
    pushOutbox.id job = pushOutbox.id r /\ (pushOutbox.status r = queued \/ pushOutbox.status r = sending) /\
    phase_of job = (sending, pushOutbox.sendAttempts r + 1, pushOutbox.receiptAttempts r).
Proof.
  intros Hk E. destruct (claim_hands_out _ _ (mark_sending now lease) _ _ _ _ Hk (outbox_order_total _) (fun _ => eq_refl) E) as [Hk' Hj].
  split; [done|]. intros job Hin. destruct (Hj job Hin) as (Hin' & r & Hr & Hd & ->). split; [done|].
  exists r. split_and!; [done|done|by eapply due_send|done].
Qed.
Lemma receipt_hands_out now lease limit w w' c :
  outbox_keys (db w) -> claimReceiptBatch now lease limit w = (w', Ok c) ->
  outbox_keys (db w') /\ forall job, job ∈ pc_jobs c -> job ∈ pushOutbox (db w') /\ exists r, r ∈ pushOutbox (db w) /\
    pushOutbox.id job = pushOutbox.id r /\
    (pushOutbox.status r = receipt_pending \/ pushOutbox.status r = receipt_checking) /\
    phase_of job = (receipt_checking, pushOutbox.sendAttempts r, pushOutbox.receiptAttempts r + 1).
Proof.
  intros Hk E. destruct (claim_hands_out _ _ (mark_checking now lease) _ _ _ _ Hk (outbox_order_total _) (fun _ => eq_refl) E) as [Hk' Hj].
  split; [done|]. intros job Hin. destruct (Hj job Hin) as (Hin' & r & Hr & Hd & ->). split; [done|].
  exists r. split_and!; [done|done|by eapply due_receipt|done].
Qed.

(** The jobs of one claim that a later claim has handed out again. *)
Definition claimed_again (c c' : PushClaimBatch) (job : PushOutbox) : Prop :=
  job ∈ pc_jobs c /\ pushOutbox.id job ∈ map pushOutbox.id (pc_jobs c').

(** C31: a lease taken over.  A worker holds a claim, for sending or for receipts;
    whatever requests are served meanwhile, another claim, of either kind, hands
    some of its rows out again, and again anything may be served.  Then what the
    first worker reports on those rows, whatever its results say, changes
    nothing. *)
Theorem stale_worker_fenced now lease limit w w1 c l w2 r now' lease' limit' w3 c' l' w4 r' :
  outbox_keys (db w) -> for_each l serve w1 = (w2, r) ->
  claimSendBatch now' lease' limit' w2 = (w3, Ok c') \/ claimReceiptBatch now' lease' limit' w2 = (w3, Ok c') ->
  for_each l' serve w3 = (w4, r') ->
  (claimSendBatch now lease limit w = (w1, Ok c) -> forall results late w5 r5,
   applySendResults results late w4 = (w5, r5) -> (forall result, result ∈ results -> exists job, claimed_again c c' job /\
      sr_id result = pushOutbox.id job /\ sr_attempt result = pushOutbox.sendAttempts job) -> db w5 = db w4) /\
  (claimReceiptBatch now lease limit w = (w1, Ok c) -> forall results late w5 r5,
   applyReceiptResults results late w4 = (w5, r5) -> (forall result, result ∈ results -> exists job, claimed_again c c' job /\
      rr_id result = pushOutbox.id job /\ rr_attempt result = pushOutbox.receiptAttempts job) -> db w5 = db w4).
Proof.
  intros Hk El E' El'. split.
  - intros E results late w5 r5 Ea Hold. refine (wp_run _ _ _ _ _ Ea (stale_send_results results late w4 _)).
    intros result x Hres Hx. destruct (Hold result Hres) as (job & [Hj (job' & Hj' & Hid)%key_elem] & Hrid & Hrat).
    apply not_true_is_false. intros (Hxid & Hxs & Hxa)%sent_claim_spec.
    destruct (send_hands_out _ _ _ _ _ _ Hk E) as [Hk1 Hout]. destruct (Hout job Hj) as [Hjin _].
    pose proof (served_keys _ _ _ _ Hk1 El) as Hk2. destruct E' as [E'|E'].
    + destruct (send_hands_out _ _ _ _ _ _ Hk2 E') as [Hk3 Hout']. destruct (Hout' job' Hj') as (Hjin' & y & Hy & Hyid & _ & Hph).
      pose proof (served_row _ _ _ _ job y Hk1 El Hjin Hy ltac:(congruence)) as (_ & _ & _ & _ & _ & [Hlt _]%attempts_monotone).
      pose proof (served_row _ _ _ _ job' x Hk3 El' Hjin' Hx ltac:(congruence)) as (_ & _ & _ & _ & _ & [Hlt' _]%attempts_monotone).
      rewrite Hph in Hlt'. simpl in *. lia.
    + destruct (receipt_hands_out _ _ _ _ _ _ Hk2 E') as [Hk3 Hout']. destruct (Hout' job' Hj') as (Hjin' & y & _ & _ & _ & Hph).
      pose proof (served_row _ _ _ _ job' x Hk3 El' Hjin' Hx ltac:(congruence)) as (_ & _ & _ & _ & _ & Hrtc).
      rewrite Hph in Hrtc. by destruct (past_sending _ _ Hrtc) as [_ ?].
  - intros E results late w5 r5 Ea Hold. refine (wp_run _ _ _ _ _ Ea (stale_receipt_results results late w4 _)).
    intros result x Hres Hx. destruct (Hold result Hres) as (job & [Hj (job' & Hj' & Hid)%key_elem] & Hrid & Hrat).
    apply not_true_is_false. intros (Hxid & Hxs & Hxa)%checked_claim_spec.
    destruct (receipt_hands_out _ _ _ _ _ _ Hk E) as [Hk1 Hout]. destruct (Hout job Hj) as (Hjin & r0 & _ & _ & _ & Hph).
    pose proof (served_keys _ _ _ _ Hk1 El) as Hk2. destruct E' as [E'|E'].
    + destruct (send_hands_out _ _ _ _ _ _ Hk2 E') as [_ Hout']. destruct (Hout' job' Hj') as (_ & y & Hy & Hyid & Hys & _).
      pose proof (served_row _ _ _ _ job y Hk1 El Hjin Hy ltac:(congruence)) as (_ & _ & _ & _ & _ & Hrtc).
      rewrite Hph in Hrtc. destruct (past_sending _ _ Hrtc) as [? ?]; [done|done|]. simpl in *. naive_solver.
    + destruct (receipt_hands_out _ _ _ _ _ _ Hk2 E') as [Hk3 Hout']. destruct (Hout' job' Hj') as (Hjin' & y & Hy & Hyid & _ & Hph').
      pose proof (served_row _ _ _ _ job y Hk1 El Hjin Hy ltac:(congruence)) as (_ & _ & _ & _ & _ & [_ Hlt]%attempts_monotone).
      pose proof (served_row _ _ _ _ job' x Hk3 El' Hjin' Hx ltac:(congruence)) as (_ & _ & _ & _ & _ & [_ Hlt']%attempts_monotone).
      rewrite Hph' in Hlt'. simpl in *. lia.
Qed.

(** * Progress *)











End batches.

(** * What a notification stores *)

Section notifying.
Context `{ConfigService}.

(** The push of a notification to a device, not sent yet. *)
Record queued_for (n : Notification) (token : PushToken) (r : PushOutbox) : Prop := {
  qf_notification : pushOutbox.notificationId r = notifications.id n;
  qf_token : pushOutbox.pushTokenId r = Some (pushTokens.id token);
  qf_to : pushOutbox.tokenSnapshot r = pushTokens.token token;
  qf_title : pushOutbox.title r = notifications.title n;
  qf_body : pushOutbox.body r = notifications.body n;
  qf_route : pushOutbox.route r = notifications.route n;
  qf_phase : phase_of r = (queued, 0, 0);
  qf_free : pushOutbox.leaseExpiresAt r = None /\ pushOutbox.ticketId r = None
}.
(** The notification [input] describes. *)
Definition notification_of (input : CreateNotificationInput) (n : Notification) : Prop :=
  notifications.userId n = uuid_param (n_userId input) /\ notifications.type n = n_type input /\
  notifications.title n = n_title input /\ notifications.body n = n_body input /\
  notifications.route n = n_route input /\ notifications.sourceId n = n_sourceId input /\
  notifications.readAt n = None.
(** The devices a notification goes to. *)
Definition devices (input : CreateNotificationInput) (d : Db) : list PushToken :=
  if pushEnabled then sel (fun r => pushTokens.userId r =?? uuid_param (n_userId input)) (pushTokens d) else [].

(** The ids drawn from now on are new. *)
Definition fresh_ids (n : nat) (ids : list jstr) : Prop := forall m, (n <= m)%nat -> random_uuid m ∉ ids.
(** Postgres holds the references of the outbox and the keys of the devices. *)
Record notifiable (input : CreateNotificationInput) (w : World) : Prop := {
  nf_user : user_exists (db w) (uuid_param (n_userId input)) = true;
  nf_random : forall a b, random_uuid a = random_uuid b -> a = b;
  nf_notifications : fresh_ids (tick w) (map notifications.id (notifications (db w)));
  nf_outbox : fresh_ids (tick w) (map pushOutbox.id (pushOutbox (db w)));
  nf_references : forall r, r ∈ pushOutbox (db w) -> notification_exists (db w) (pushOutbox.notificationId r) = true;
  nf_tokens : NoDup (map pushTokens.id (pushTokens (db w)))
}.

Lemma wp_enqueue n input tokens w :
  wp (enqueue (notifications.id n) input tokens) (fun r w' => effects w' = effects w /\ exists new,
    db w' = (db w) <| pushOutbox ::= fun l => l ++ new |> /\
    (r = Ok tt -> notification_of input n -> Forall2 (queued_for n) tokens new)) w.
Proof.
  revert w. induction tokens as [|token tokens IH]; intros w; simpl.
  { wp_step. split; [done|]. exists []. split; [|by constructor]. destruct (db w). simpl. unfold upd. simpl. by rewrite app_nil_r. }
  assert (forall e : Exn, exists new, db w = (db w) <| pushOutbox ::= fun l => l ++ new |> /\
    (Err e = Ok tt -> notification_of input n -> Forall2 (queued_for n) (token :: tokens) new)) as Hnone.
  { intros e. exists []. split; [|done]. destruct (db w). unfold upd. simpl. by rewrite app_nil_r. }
  do 5 wp_step. wp_step; [intros _ _|by intros|by intros].
  eapply wp_mono; [apply IH|]. intros r w' [Heff (new & E & Hr)]. split; [done|]. eexists (_ :: new). split.
  - rewrite E. unfold upd. simpl. rewrite <- app_assoc. reflexivity.
  - intros Er (Hu & Ht & Hti & Hb & Hro & Hs & Hre). constructor; [by split; simpl|by apply Hr].
Qed.

Lemma wp_notify_stores input w :
  wp (notify_ input) (fun r w' => effects w' = effects w /\ match r with
    | Ok n => notification_of input n /\ exists new, db w' = (db w) <| notifications ::= fun l => l ++ [n] |> <| pushOutbox ::= fun l => l ++ new |> /\
        Forall2 (queued_for n) (devices input (db w)) new
    | Err _ => db w' = db w
    end) w.
Proof.
  unfold notify_, createWithPushOutbox. cbv zeta. do 6 wp_step. wp_step; [intros _ _|by intros|by intros].
  set (n := notifications.mkNotification _ _ _ _ _ _ _ _ _).
  assert (notification_of input n) as Hn by done.
  unfold devices. destruct pushEnabled; simpl.
  - do 2 wp_step. wp_step. eapply wp_mono; [apply (wp_enqueue n)|]. intros [[]|e] w1 [Heff (new & E & Hnew)]; [|done].
    wp_step. split_and!; [done..|]. exists new. split; [|by apply Hnew]. rewrite E. reflexivity.
  - wp_step. split_and!; [done..|]. exists []. split; [|constructor]. unfold upd. simpl. rewrite app_nil_r. reflexivity.
Qed.

(** Storing cannot fail when the user is there and the ids drawn are new. *)
Lemma enqueue_total id input tokens w :
  (forall a b, random_uuid a = random_uuid b -> a = b) ->
  fresh_ids (tick w) (map pushOutbox.id (pushOutbox (db w))) -> notification_exists (db w) id = true ->
  (forall t, t ∈ tokens -> pushToken_exists (db w) (pushTokens.id t) = true) -> NoDup (map pushTokens.id tokens) ->
  (forall r t, r ∈ pushOutbox (db w) -> t ∈ tokens -> pushOutbox.notificationId r = id ->
     pushOutbox.pushTokenId r <> Some (pushTokens.id t)) ->
  wp (enqueue id input tokens) (fun r _ => r = Ok tt) w.
Proof.
  intros Hinj. revert w. induction tokens as [|token tokens IH]; intros w Hf Hn Ht Hd Hno; simpl; [by wp_step|].
  simpl in Hd. apply NoDup_cons in Hd as [Hd1 Hd2]. do 4 wp_step. wp_step. wp_step.
  - intros _ _. apply IH; simpl; [| | |done|].
    + intros m Hm Hin. rewrite map_app in Hin. apply elem_of_app in Hin as [Hin|Hin]; [by apply (Hf m); [lia|]|].
      simpl in Hin. apply list_elem_of_singleton, Hinj in Hin. lia.
    + exact Hn.
    + intros t Hin. apply (Ht t). set_solver.
    + intros r t [Hr|Hr]%elem_of_app Hin; [apply Hno; [done|set_solver]|].
      apply list_elem_of_singleton in Hr as ->. simpl. intros _ [= Heq]. apply Hd1. rewrite Heq. apply key_elem. eauto.
  - intros e. simpl. unfold violated, CHECK, REFERENCES. simpl. rewrite Hn. by rewrite (Ht token) by set_solver.
  - intros Hc. exfalso. apply existsb_true in Hc as (r & Hr & Hc). simpl in Hc. unfold pushOutbox_conflict in Hc. simpl in Hc.
    apply orb_true_iff in Hc as [Hc|Hc]; [|by destruct (pushOutbox.ticketId r)].
    apply orb_true_iff in Hc as [Hc|Hc].
    + apply bool_decide_eq_true in Hc. apply (Hf (tick w)); [lia|]. rewrite Hc. apply key_elem. eauto.
    + apply andb_true_iff in Hc as [Hc1%bool_decide_eq_true Hc2]. apply (Hno r token Hr); [set_solver|done|].
      destruct (pushOutbox.pushTokenId r) as [t|]; [|done]. simpl in Hc2. apply bool_decide_eq_true in Hc2. congruence.
Qed.
Lemma wp_notify_total input w :
  notifiable input w -> wp (notify_ input) (fun r _ => is_ok r) w.
Proof.
  intros [Hu Hinj Hfn Hfo Href Hd]. unfold notify_, createWithPushOutbox. cbv zeta. do 6 wp_step. wp_step.
  - intros _ _. destruct pushEnabled; simpl; [|by wp_step]. do 2 wp_step. wp_step.
    eapply wp_mono; [apply enqueue_total|by intros r w1 ->; wp_step]; simpl; [done| | | | |].
    + intros m Hm. apply Hfo. lia.
    + unfold notification_exists. simpl. apply existsb_self. apply eqb_refl_true.
    + intros t [Ht _]%elem_of_sel. apply existsb_exists. exists t. split; [by apply list_elem_of_In|apply eqb_refl_true].
    + by apply (keys_sel pushTokens.id).
    + intros r t Hr _ Heq. exfalso. specialize (Href r Hr). rewrite Heq in Href. apply existsb_true in Href as (n & Hn & Hid).
      apply bool_decide_eq_true in Hid. apply (Hfn (tick w)); [lia|]. rewrite <- Hid. apply key_elem. eauto.
  - intros e. simpl. unfold violated, REFERENCES. by rewrite Hu.
  - intros Hc. exfalso. apply existsb_true in Hc as (n & Hn & Hid). simpl in Hid. apply bool_decide_eq_true in Hid.
    simpl in Hid. apply (Hfn (tick w)); [lia|]. rewrite Hid. apply key_elem. eauto.
Qed.

Lemma wp_notify_frame input w : wp (notify_ input) (fun _ w' => db w ≈db db w') w.
Proof.
  eapply wp_mono; [apply wp_notify_stores|]. intros [n|err] w' [_ HQ].
  - destruct HQ as (_ & new & -> & _). reflexivity.
  - by rewrite HQ.
Qed.
(** The service the other components are proved against. *)
#[export] Instance notificationService : NotificationService :=
  {| notify := notify_; notify_frame input w := wp_elim _ _ _ (wp_notify_frame input w) |}.

(** C33: notifying is all or nothing.  The notification is stored as it was
    given together with exactly one queued push per device of its user (none
    when pushes are off), nothing else changes and nothing is sent; when it
    fails nothing is stored; and it succeeds when the user exists and the ids
    drawn are new. *)
Theorem notify_stores input w w' r :
  notify input w = (w', r) ->
  db w ≈db db w' /\ effects w' = effects w /\ (notifiable input w -> is_ok r) /\
  match r with
  | Ok n => notification_of input n /\ notifications (db w') = notifications (db w) ++ [n] /\
      exists new, pushOutbox (db w') = pushOutbox (db w) ++ new /\ Forall2 (queued_for n) (devices input (db w)) new
  | Err _ => db w' = db w
  end.
Proof.
  intros E. destruct (wp_run _ _ _ _ _ E (wp_notify_stores input w)) as [Heff Hr]. split_and!; [|done| |].
  - exact (notify_frame _ _ _ _ E).
  - intros Hn. exact (wp_run _ _ _ _ _ E (wp_notify_total input w Hn)).
  - destruct r as [n|err]; [|done]. destruct Hr as (Hn & new & -> & Hnew). split_and!; [done..|]. by exists new.
Qed.
End notifying.
End theorems.

(** * Witnesses *)

Section witnesses.
Local Existing Instances test_env test_config.

(** Expo takes every message, numbers the tickets by the call and the device,
    and has delivered whatever it is asked about. *)
Definition test_expo : ExpoClient := {|
  isExpoPushToken token := is_not_null (head token);
  sendPushNotificationsAsync n messages :=
    inr (map (fun m => SdkTicketOk (js "ticket:" ++ number_to_string (N.of_nat n) ++ em_to m)) messages);
  getPushNotificationReceiptsAsync n ids := inr (map (fun id => (id, SdkReceiptOk)) ids)
|}.
Local Existing Instance test_expo.

Definition ALICE_PHONE : PushToken :=
  pushTokens.mkPushToken (js "t1") ALICE (js "d1") (js "ExponentPushToken[a]") (js "ios") (to_column T0) (to_column T0).
Definition test_push : CreateNotificationInput :=
  mkCreateNotificationInput ALICE match_notification (js "hi") (js "you matched") None None.
Definition push_world : World := world_of (test_db <| pushTokens := [ALICE_PHONE] |>).
Definition queued_world : World := (notify_ test_push push_world).1.
Definition SENT_AT : Z := T0 + 60 * 1000.
(** One minute after, a worker claims the push, and its lease runs out. *)
Definition claimed_world : World := (claimSendBatch SENT_AT (SENT_AT + PUSH_LEASE_MS) 10 queued_world).1.
Definition LATER : Z := SENT_AT + 10 * PUSH_LEASE_MS.
(** The first worker reports after that. *)
Definition late_result : PushSendResult :=
  mkSendResult (test_uuid 2) 1 succeeded_result (Some (js "late")) (Some LATER) None None None None.

Example push_is_sent : map pushOutbox.status (pushOutbox (db
  (for_each [Notify test_push; SendBatch SENT_AT 10; ReceiptBatch LATER 10; ReceiptBatch (SENT_AT + EXPO_RECEIPT_DELAY_MS) 10]
     serve push_world).1)) = [delivered].
Proof. vm_compute. reflexivity. Qed.

Lemma queued_keys : outbox_keys (db queued_world).
Proof. change (NoDup [test_uuid 2]). apply NoDup_singleton. Qed.

Lemma outbox_lifecycle_witness : exists w' r,
  for_each [SendBatch SENT_AT 10; MarkRead ALICE (test_uuid 0)] serve queued_world = (w', r) /\ outbox_keys (db w').
Proof.
  eexists _, _. split; [exact (surjective_pairing _)|].
  exact (proj1 (outbox_lifecycle _ _ _ _ queued_keys (surjective_pairing _))).
Defined.

Lemma notify_stores_witness : exists w' n,
  notify test_push push_world = (w', Ok n) /\ notifications (db w') = [n] /\ length (pushOutbox (db w')) = 1%nat.
Proof.
  assert (is_ok (notify test_push push_world).2) as Hok by exact I.
  pose proof (run_answer (notify test_push) push_world (answer (notifications.mkNotification [] [] match_notification [] [] None None None 0)
    (notify test_push push_world).2) Hok) as E.
  destruct (notify_stores _ _ _ _ E) as (_ & _ & _ & _ & Hn & new & Ep & Hnew).
  eexists _, _. split; [exact E|]. split; [exact Hn|]. rewrite Ep. exact (eq_sym (Forall2_length _ _ _ Hnew)).
Defined.


(** The claim the first worker holds, and the second one's. *)
Definition first_claim : PushClaimBatch :=
  answer (mkClaim [] false) (claimSendBatch SENT_AT (SENT_AT + PUSH_LEASE_MS) 10 queued_world).2.
Definition taken_world : World := (claimSendBatch LATER (LATER + PUSH_LEASE_MS) 10 claimed_world).1.
Definition second_claim : PushClaimBatch :=
  answer (mkClaim [] false) (claimSendBatch LATER (LATER + PUSH_LEASE_MS) 10 claimed_world).2.
Lemma stale_worker_fenced_witness :
  map pushOutbox.id (pc_jobs second_claim) = [test_uuid 2] /\
  db (applySendResults [late_result] LATER taken_world).1 = db taken_world.
Proof.
  assert (map pushOutbox.id (pc_jobs second_claim) = [test_uuid 2]) as Eids by (vm_compute; reflexivity).
  split; [exact Eids|].
  assert (claimSendBatch SENT_AT (SENT_AT + PUSH_LEASE_MS) 10 queued_world = (claimed_world, Ok first_claim)) as E1.
  { unfold claimed_world, first_claim. apply run_answer. exact I. }
  assert (claimSendBatch LATER (LATER + PUSH_LEASE_MS) 10 claimed_world = (taken_world, Ok second_claim)) as E2.
  { unfold taken_world, second_claim. apply run_answer. exact I. }
  assert (forall w, for_each [] serve w = (w, Ok tt)) as Enone by done.
  destruct (stale_worker_fenced SENT_AT (SENT_AT + PUSH_LEASE_MS) 10 queued_world claimed_world first_claim
    [] claimed_world (Ok tt) LATER (LATER + PUSH_LEASE_MS) 10 taken_world second_claim [] taken_world (Ok tt)
    queued_keys (Enone _) (or_introl E2) (Enone _)) as [Hs _].
  apply (Hs E1 [late_result] LATER (applySendResults [late_result] LATER taken_world).1
    (applySendResults [late_result] LATER taken_world).2 (surjective_pairing _)).
  assert (exists job, pc_jobs first_claim = [job] /\ pushOutbox.id job = test_uuid 2 /\ pushOutbox.sendAttempts job = 1) as (job & Ej & Hid & Ha).
  { eexists. split; [vm_compute; reflexivity|]. split; reflexivity. }
  intros result ->%list_elem_of_singleton. exists job. unfold claimed_again. rewrite Eids, Ej, Hid, Ha.
  split; [split; by apply list_elem_of_singleton|]. split; reflexivity.
Defined.
End witnesses.
