(* ===== verification/Upload.v ===== *)
(** Profile photo uploads: the client puts a file at a presigned address; the
    service reads it, re-encodes it and stores the result under a key of its own;
    a worker deletes what is no longer needed (upload.service.ts,
    upload.repository.ts, r2-object-store.ts, upload-state.types.ts,
    upload.types.ts).  The S3 client, sharp and the URL parser are parameters. *)
From S2P Require Import Prelude JsString JsDate Libraries Schema World Constraints.
Local Open Scope Z_scope.

(** * Data *)

Definition MAX_UPLOAD_BYTES : Z := 10 * 1024 * 1024.
Definition MAX_INPUT_PIXELS : Z := 24000000.
Definition MAX_IMAGE_DIMENSION : Z := 4096.
Definition MAX_OUTPUT_DIMENSION : Z := 2048.
Definition UPLOAD_URL_TTL_MS : Z := 5 * 60 * 1000.
Definition FINALIZE_LEASE_MS : Z := 2 * 60 * 1000.
Definition CLEANUP_LEASE_MS : Z := 60 * 1000.
Definition FINAL_CONTENT_TYPE : jstr := js "image/jpeg".
Definition MAX_ACTIVE_UPLOADS_PER_USER : Z := 5.
Definition MAX_UPLOAD_CREATES_PER_WINDOW : Z := 20.
Definition UPLOAD_CREATE_WINDOW_MS : Z := 60 * 60 * 1000.
Definition ALLOWED_IMAGE_TYPES : list (jstr * list jstr) :=
  [(js "image/jpeg", [js "jpg"; js "jpeg"]); (js "image/png", [js "png"]);
   (js "image/webp", [js "webp"]); (js "image/gif", [js "gif"])].
Definition DECODED_FORMAT_BY_CONTENT_TYPE : list (jstr * jstr) :=
  [(js "image/jpeg", js "jpeg"); (js "image/png", js "png"); (js "image/webp", js "webp"); (js "image/gif", js "gif")].
(** [map.get(key)] *)
Fixpoint map_get {A} (key : jstr) (l : list (jstr * A)) : option A :=
  match l with
  | [] => None
  | (k, v) :: l' => if k =?? key then Some v else map_get key l'
  end.

Record CreateUploadInput := mkCreateUpload { cu_userId : jstr; cu_filename : jstr; cu_contentType : jstr; cu_sizeBytes : Z }.
Record CreateUploadPayload := mkCreatedUpload { cp_id : jstr; cp_putUrl : jstr; cp_expiresAt : jstr }.
Record VerifiedUploadPayload := mkVerifiedUpload { vp_id : jstr; vp_publicUrl : jstr; vp_contentType : jstr; vp_sizeBytes : Z }.
Record ValidUpload := mkValidUpload { vu_contentType : jstr; vu_extension : jstr; vu_sizeBytes : Z }.
Inductive FinalizeUploadClaim :=
| ClaimClaimed (upload : ProfileUpload)
| ClaimVerified (upload : ProfileUpload)
| ClaimExpired (upload : ProfileUpload)
| ClaimBusy (upload : ProfileUpload).
Record CleanupUploadClaim := mkCleanupClaim { cc_jobs : list ProfileUpload; cc_hasMore : bool }.
Record UploadMaintenanceBatchResult := mkUploadBatch {
  ub_claimed : Z; ub_succeeded : Z; ub_retryScheduled : Z; ub_permanentlyFailed : Z; ub_hasMore : bool
}.

(** ** Third-party code *)

(** The bytes of a file. *)
Definition Buffer : Type := list N.

Record HeadObject := mkHead { ho_ContentLength : option Z; ho_ContentType : option jstr; ho_ETag : option jstr }.
(** [go_Body] reads the stream, which can fail. *)
Record GetObject := mkGet { go_Body : option (jstr + Buffer); go_ContentLength : option Z; go_ContentRange : option jstr }.
(** The S3 client: what a request comes to, or the message of its error. *)
Class S3Client := {
  getSignedUrl : nat -> jstr -> jstr -> Z -> Z -> jstr + jstr;
  send_head : nat -> jstr -> jstr + HeadObject;
  send_get : nat -> jstr -> jstr -> jstr -> jstr + GetObject;
  send_put : nat -> jstr -> Buffer -> jstr -> option jstr;
  send_delete : nat -> jstr -> option jstr
}.

Record ImageMetadata := mkMetadata { md_format : option jstr; md_width : option Z; md_height : option Z }.
(** sharp, with the limit on input pixels, the largest output side and the JPEG
    quality as arguments; and the hash of a buffer. *)
Class ImageLib := {
  sharp_metadata : Z -> Buffer -> jstr + ImageMetadata;
  sharp_jpeg : Z -> Z -> Z -> Buffer -> jstr + Buffer;
  sha256_buffer : Buffer -> jstr
}.

(** A string used as a condition. *)
Definition nonempty (o : option jstr) : option jstr := if o is Some (_ :: _) then o else None.

(** * The object store *)

Section store.
Context `{Env} `{ConfigService} `{S3Client}.

(** The client is made once, from settings that do not change. *)
Definition connection : M unit :=
  let setting key := nonempty (trim <$> config_string key) in
  match setting (js "R2_ACCOUNT_ID"), setting (js "R2_ACCESS_KEY_ID"), setting (js "R2_SECRET_ACCESS_KEY"), setting (js "R2_BUCKET") with
  | Some _, Some _, Some _, Some _ => mret tt
  | _, _, _, _ => throw PlainError (js "R2_CONFIG_REQUIRED")
  end.

(** A request that may fail. *)
Definition send {A} (request : nat -> jstr + A) : M A :=
  answer ← oracle request;
  match answer with
  | inl message => throw PlainError message
  | inr a => mret a
  end.

Definition createPresignedPutUrl (key contentType : jstr) (sizeBytes expiresInSeconds : Z) : M jstr :=
  connection ;;
  send (fun n => getSignedUrl n key contentType sizeBytes expiresInSeconds).

(** [value?.split(";", 1)[0]?.trim().toLowerCase() ?? ""] *)
Definition normalizeContentType (value : option jstr) : jstr :=
  if value is Some value then toLowerCase (trim (before 59%N value)) else [].

(** The unit after which the rest of the string stands. *)
Definition after (c : N) (s : jstr) : option jstr := (fun i => drop (S i) s) <$> indexOf c s.
Definition CONTENT_RANGE : regex :=
  let digits := RPlus (RCls is_digit) in
  RCat (RStr (js "bytes ")) (RCat digits (RCat (RChr 45%N) (RCat digits (RCat (RChr 47%N) digits)))).
Definition digits_value (s : jstr) : Z := foldl (fun n u => 10 * n + Z.of_N (u - 48)) 0 s.
Definition MAX_SAFE_INTEGER : Z := 9007199254740991.
Definition contentRangeTotal (value : option jstr) : option Z :=
  match nonempty value with
  | None => None
  | Some value =>
      if matchb CONTENT_RANGE value then
        let total := digits_value (default [] (after 47%N value)) in
        if total <=? MAX_SAFE_INTEGER then Some total else None
      else None
  end.

Definition readStagingObject (key expectedContentType : jstr) (expectedSizeBytes : Z) : M Buffer :=
  connection ;;
  head ← send (fun n => send_head n key);
  require (ho_ContentLength head =?? Some expectedSizeBytes) UploadObjectValidationError (js "UPLOAD_OBJECT_SIZE_MISMATCH") ;;
  require (normalizeContentType (ho_ContentType head) =?? expectedContentType)
    UploadObjectValidationError (js "UPLOAD_OBJECT_CONTENT_TYPE_MISMATCH") ;;
  match nonempty (ho_ETag head) with
  | None => throw UploadObjectValidationError (js "UPLOAD_OBJECT_ETAG_MISSING")
  | Some etag =>
      object ← send (fun n => send_get n key etag (js "bytes=0-" ++ number_to_string (Z.to_N (expectedSizeBytes - 1))));
      match go_Body object with
      | None => throw UploadObjectValidationError (js "UPLOAD_OBJECT_BODY_MISSING")
      | Some body =>
          require (go_ContentLength object =?? Some expectedSizeBytes)
            UploadObjectValidationError (js "UPLOAD_OBJECT_SIZE_MISMATCH") ;;
          require (if contentRangeTotal (go_ContentRange object) is Some totalSize then totalSize =? expectedSizeBytes else true)
            UploadObjectValidationError (js "UPLOAD_OBJECT_SIZE_MISMATCH") ;;
          bytes ← send (fun _ => body);
          require (Z.of_nat (length bytes) =? expectedSizeBytes) UploadObjectValidationError (js "UPLOAD_OBJECT_SIZE_MISMATCH") ;;
          mret bytes
      end
  end.

Definition putFinalObject (key : jstr) (body : Buffer) (contentType : jstr) : M unit :=
  connection ;;
  failed ← oracle (fun n => send_put n key body contentType);
  match failed with
  | Some message => throw PlainError message
  | None => emit (ObjectPut key contentType (Z.of_nat (length body)))
  end.

Definition store_deleteObject (key : jstr) : M unit :=
  connection ;;
  failed ← oracle (fun n => send_delete n key);
  match failed with
  | Some message => throw PlainError message
  | None => emit (ObjectDeleted key)
  end.
End store.

(** * The repository *)

Section repository.
Context `{Env}.

Definition createPending (id userId stagingKey expectedContentType : jstr) (expectedSizeBytes expiresAt now : Z)
    : M ProfileUpload :=
  transaction (
    let cutoff := now - UPLOAD_CREATE_WINDOW_MS in
    rows ← select profileUploads
      (fun r => (profileUploads.userId r =?? uuid_param userId) && (to_column cutoff <=? profileUploads.createdAt r));
    let activeCount := countw (fun r => bool_decide (profileUploads.status r ∈ [pending; processing])
                                        && (to_column now <? profileUploads.expiresAt r)) rows in
    let recentCount := countw (fun r => to_column cutoff <=? profileUploads.createdAt r) rows in
    require (activeCount <? MAX_ACTIVE_UPLOADS_PER_USER) TooManyRequestsHttpException (js "UPLOAD_ACTIVE_LIMIT_EXCEEDED") ;;
    require (recentCount <? MAX_UPLOAD_CREATES_PER_WINDOW) TooManyRequestsHttpException (js "UPLOAD_RATE_LIMIT_EXCEEDED") ;;
    insert profileUploads
      (profileUploads.mkProfileUpload id (uuid_param userId) pending stagingKey None expectedContentType expectedSizeBytes
         None None None (to_column expiresAt) None None 0 None None None None None (to_column now) (to_column now))).

Definition of_id (uploadId : jstr) (r : ProfileUpload) : bool := profileUploads.id r =?? uploadId.
Definition own_upload (uploadId userId : jstr) (r : ProfileUpload) : bool :=
  of_id (uuid_param uploadId) r && (profileUploads.userId r =?? uuid_param userId).

Definition claimFinalize (uploadId userId : jstr) (now leaseExpiresAt : Z) : M FinalizeUploadClaim :=
  transaction (
    found ← findFirst profileUploads (own_upload uploadId userId);
    match found with
    | None => throw PlainError (js "UPLOAD_NOT_FOUND")
    | Some upload =>
        if profileUploads.status upload =?? verified then mret (ClaimVerified upload)
        else if profileUploads.status upload =?? failed then
          throw PlainError (default (js "UPLOAD_FINALIZE_FAILED") (profileUploads.failureCode upload))
        else if of_column (profileUploads.expiresAt upload) <=? now then
          updated ← updateChecked profileUploads (of_id (profileUploads.id upload))
            (fun r => r <| profileUploads.status := failed |>
                        <| profileUploads.failureCode := Some (js "UPLOAD_EXPIRED") |>
                        <| profileUploads.processingLeaseExpiresAt := None |>
                        <| profileUploads.updatedAt := to_column now |>);
          match head updated with
          | None => throw PlainError (js "UPLOAD_STATE_CONFLICT")
          | Some expired => mret (ClaimExpired expired)
          end
        else if (profileUploads.status upload =?? processing)
                && opt_gt (of_column <$> profileUploads.processingLeaseExpiresAt upload) now then
          mret (ClaimBusy upload)
        else
          updated ← updateChecked profileUploads (of_id (profileUploads.id upload))
            (fun r => r <| profileUploads.status := processing |>
                        <| profileUploads.processingLeaseExpiresAt := Some (to_column leaseExpiresAt) |>
                        <| profileUploads.cleanupLeaseExpiresAt :=
                             if is_not_null (profileUploads.finalDeletionPendingAt r) then Some (to_column leaseExpiresAt)
                             else profileUploads.cleanupLeaseExpiresAt r |>
                        <| profileUploads.updatedAt := to_column now |>);
          match head updated with
          | None => throw PlainError (js "UPLOAD_STATE_CONFLICT")
          | Some claimed => mret (ClaimClaimed claimed)
          end
    end).

(** The worker still holds the upload. *)
Definition holds (uploadId : jstr) (lease : Z) (r : ProfileUpload) : bool :=
  of_id uploadId r && (profileUploads.status r =?? processing)
  && (profileUploads.processingLeaseExpiresAt r =?? Some (to_column lease)).

Definition prepareFinalObject (uploadId userId finalKey publicUrl finalContentType : jstr)
    (finalSizeBytes processingLeaseExpiresAt now : Z) : M unit :=
  prepared ← updateChecked profileUploads
    (fun r => holds uploadId processingLeaseExpiresAt r && (profileUploads.userId r =?? uuid_param userId)
              && (is_null (profileUploads.finalKey r) || (profileUploads.finalKey r =?? Some finalKey))
              && is_null (profileUploads.finalDeletedAt r))
    (fun r => r <| profileUploads.finalKey := Some finalKey |>
                <| profileUploads.publicUrl := Some publicUrl |>
                <| profileUploads.finalContentType := Some finalContentType |>
                <| profileUploads.finalSizeBytes := Some finalSizeBytes |>
                <| profileUploads.finalDeletionPendingAt :=
                     Some (default (to_column now) (profileUploads.finalDeletionPendingAt r)) |>
                <| profileUploads.finalDeletedAt := None |>
                <| profileUploads.cleanupLeaseExpiresAt := Some (to_column processingLeaseExpiresAt) |>
                <| profileUploads.updatedAt := to_column now |>);
  require (is_not_null (head prepared)) PlainError (js "UPLOAD_STATE_CONFLICT").

Definition markVerified (uploadId userId finalKey publicUrl finalContentType : jstr)
    (finalSizeBytes processingLeaseExpiresAt now : Z) : M ProfileUpload :=
  updated ← updateChecked profileUploads
    (fun r => holds uploadId processingLeaseExpiresAt r && (profileUploads.userId r =?? uuid_param userId)
              && (profileUploads.finalKey r =?? Some finalKey)
              && is_not_null (profileUploads.finalDeletionPendingAt r))
    (fun r => r <| profileUploads.status := verified |>
                <| profileUploads.finalKey := Some finalKey |>
                <| profileUploads.publicUrl := Some publicUrl |>
                <| profileUploads.finalContentType := Some finalContentType |>
                <| profileUploads.finalSizeBytes := Some finalSizeBytes |>
                <| profileUploads.verifiedAt := Some (to_column now) |>
                <| profileUploads.processingLeaseExpiresAt := None |>
                <| profileUploads.cleanupLeaseExpiresAt := None |>
                <| profileUploads.finalDeletionPendingAt := None |>
                <| profileUploads.finalDeletedAt := None |>
                <| profileUploads.failureCode := None |>
                <| profileUploads.updatedAt := to_column now |>);
  match head updated with
  | Some upload => mret upload
  | None =>
      existing ← findFirst profileUploads (fun r => of_id uploadId r && (profileUploads.userId r =?? uuid_param userId));
      match existing with
      | Some existing =>
          require ((profileUploads.status existing =?? verified) && (profileUploads.finalKey existing =?? Some finalKey))
            PlainError (js "UPLOAD_STATE_CONFLICT") ;;
          mret existing
      | None => throw PlainError (js "UPLOAD_STATE_CONFLICT")
      end
  end.

Definition markFailed (uploadId failureCode : jstr) (processingLeaseExpiresAt now : Z) : M unit :=
  updateChecked profileUploads (holds uploadId processingLeaseExpiresAt)
    (fun r => r <| profileUploads.status := failed |> <| profileUploads.failureCode := Some failureCode |>
                <| profileUploads.processingLeaseExpiresAt := None |> <| profileUploads.updatedAt := to_column now |>) ;;
  mret tt.

Definition releaseFinalizeLease (uploadId : jstr) (processingLeaseExpiresAt now : Z) : M unit :=
  updateChecked profileUploads (holds uploadId processingLeaseExpiresAt)
    (fun r => r <| profileUploads.status := pending |> <| profileUploads.processingLeaseExpiresAt := None |>
                <| profileUploads.updatedAt := to_column now |>) ;;
  mret tt.

Definition markStagingDeleted (uploadId : jstr) (now : Z) : M unit :=
  updateChecked profileUploads (of_id uploadId)
    (fun r => r <| profileUploads.stagingDeletedAt := Some (to_column now) |> <| profileUploads.cleanupLeaseExpiresAt := None |>
                <| profileUploads.updatedAt := to_column now |>) ;;
  mret tt.

Definition cleanupDue (now : Z) (r : ProfileUpload) : bool :=
  (is_null (profileUploads.cleanupLeaseExpiresAt r) || opt_le (profileUploads.cleanupLeaseExpiresAt r) (to_column now))
  && ((is_null (profileUploads.stagingDeletedAt r)
       && ((profileUploads.status r =?? failed) || (profileUploads.status r =?? verified)
           || ((profileUploads.status r =?? pending) && (profileUploads.expiresAt r <=? to_column now))
           || ((profileUploads.status r =?? processing) && (profileUploads.expiresAt r <=? to_column now)
               && opt_le (profileUploads.processingLeaseExpiresAt r) (to_column now))))
      || (is_not_null (profileUploads.finalDeletionPendingAt r) && is_null (profileUploads.finalDeletedAt r))).

(** [asc(finalDeletionPendingAt), asc(expiresAt), asc(createdAt), asc(id)]; NULLs come last. *)
Definition cleanup_order (a b : ProfileUpload) : bool :=
  let by_created := (profileUploads.createdAt a <? profileUploads.createdAt b)
    || ((profileUploads.createdAt a =? profileUploads.createdAt b)
        && negb (str_ltb (profileUploads.id b) (profileUploads.id a))) in
  let by_expiry := (profileUploads.expiresAt a <? profileUploads.expiresAt b)
    || ((profileUploads.expiresAt a =? profileUploads.expiresAt b) && by_created) in
  match profileUploads.finalDeletionPendingAt a, profileUploads.finalDeletionPendingAt b with
  | Some x, Some y => (x <? y) || ((x =? y) && by_expiry)
  | Some _, None => true
  | None, Some _ => false
  | None, None => by_expiry
  end.

Definition mark_cleanup (now leaseExpiresAt : Z) (r : ProfileUpload) : ProfileUpload :=
  let unfinished := bool_decide (profileUploads.status r ∈ [pending; processing]) in
  r <| profileUploads.status := if unfinished then failed else profileUploads.status r |>
    <| profileUploads.failureCode := if unfinished then Some (js "UPLOAD_EXPIRED") else profileUploads.failureCode r |>
    <| profileUploads.processingLeaseExpiresAt := None |>
    <| profileUploads.cleanupLeaseExpiresAt := Some (to_column leaseExpiresAt) |>
    <| profileUploads.cleanupAttempts ::= fun n => n + 1 |>
    <| profileUploads.updatedAt := to_column now |>.

Definition claimCleanupBatch (now leaseExpiresAt : Z) (limit : nat) : M CleanupUploadClaim :=
  transaction (
    selected ← select_skip_locked profileUploads profileUploads.id (cleanupDue now) cleanup_order limit;
    if selected is [] then mret (mkCleanupClaim [] false)
    else
      jobs ← updateChecked profileUploads (fun r => bool_decide (profileUploads.id r ∈ map profileUploads.id selected))
        (mark_cleanup now leaseExpiresAt);
      remaining ← findFirst profileUploads (cleanupDue now);
      mret (mkCleanupClaim jobs (negb (is_null remaining)))).

Definition cleanup_values (stagingDeleted finalDeleted : bool) (nextAttemptAt : option Z) (now : Z) (r : ProfileUpload)
    : ProfileUpload :=
  let r := if stagingDeleted then r <| profileUploads.stagingDeletedAt := Some (to_column now) |> else r in
  let r := if finalDeleted
           then r <| profileUploads.finalKey := None |> <| profileUploads.publicUrl := None |>
                  <| profileUploads.finalContentType := None |> <| profileUploads.finalSizeBytes := None |>
                  <| profileUploads.verifiedAt := None |> <| profileUploads.finalDeletedAt := Some (to_column now) |>
           else r in
  r <| profileUploads.cleanupLeaseExpiresAt := to_column <$> nextAttemptAt |> <| profileUploads.updatedAt := to_column now |>.
Definition applyCleanupResult (uploadId : jstr) (cleanupLeaseExpiresAt : Z) (stagingDeleted finalDeleted : bool)
    (nextAttemptAt : option Z) (now : Z) : M unit :=
  updateChecked profileUploads
    (fun r => of_id uploadId r && (profileUploads.cleanupLeaseExpiresAt r =?? Some (to_column cleanupLeaseExpiresAt)))
    (cleanup_values stagingDeleted finalDeleted nextAttemptAt now) ;;
  mret tt.
End repository.

(** * The service *)

Section service.
Context `{Env} `{ConfigService} `{UuidLib} `{S3Client} `{ImageLib} `{UrlLib}.

(** [s.replace(/\/+$/, "")] *)
Definition strip_slashes (s : jstr) : jstr :=
  let fix strip (l : jstr) := match l with
    | [] => []
    | u :: l' => if (u =? 47)%N then strip l' else l
    end in
  rev (strip (rev s)).

Definition profilePublicBaseUrl : M jstr :=
  match nonempty ((fun s => strip_slashes (trim s)) <$> config_string (js "R2_PUBLIC_BASE_URL")) with
  | None => throw PlainError (js "R2_CONFIG_REQUIRED")
  | Some configured =>
      match parse_url (configured ++ js "/") with
      | None => throw PlainError (js "R2_CONFIG_REQUIRED")
      | Some parsed =>
          require ((url_protocol parsed =?? js "https:") && (url_username parsed =?? []) && (url_password parsed =?? [])
                   && (url_search parsed =?? []) && (url_hash parsed =?? []) && (url_href parsed =?? configured ++ js "/"))
            PlainError (js "R2_CONFIG_REQUIRED") ;;
          mret configured
      end
  end.

(** [s.includes(needle)] and [s.lastIndexOf(c)]. *)
Fixpoint includes (needle s : jstr) : bool :=
  startsWith needle s || match s with [] => false | _ :: s' => includes needle s' end.
Definition lastIndexOf (c : N) (s : jstr) : option nat := (fun i => (length s - 1 - i)%nat) <$> indexOf c (rev s).
Definition is_control (u : N) : bool := (u <=? 31)%N || (u =? 127)%N.
Definition is_alphanumeric (u : N) : bool := is_digit u || is_lower u || is_upper u.

Definition safeExtension (filename : jstr) : option jstr :=
  if Nat.ltb 255 (length filename) || includes [47%N] filename || includes [92%N] filename then None
  else if existsb is_control filename || includes (js "..") filename then None
  else match lastIndexOf 46%N filename with
       | None | Some O => None
       | Some dotIndex =>
           let extension := drop (S dotIndex) filename in
           if forallb is_alphanumeric extension && Nat.leb 1 (length extension) && Nat.leb (length extension) 5
           then Some (toLowerCase extension) else None
       end.

Definition validateUploadInput (input : CreateUploadInput) : M ValidUpload :=
  let filename := trim (cu_filename input) in
  let contentType := toLowerCase (trim (cu_contentType input)) in
  require (negb (filename =?? [])) PlainError (js "UPLOAD_FILENAME_REQUIRED") ;;
  require (isUuid (cu_userId input)) PlainError (js "UPLOAD_USER_ID_INVALID") ;;
  match map_get contentType ALLOWED_IMAGE_TYPES with
  | None => throw PlainError (js "UPLOAD_CONTENT_TYPE_UNSUPPORTED")
  | Some allowedExtensions =>
      require ((1 <=? cu_sizeBytes input) && (cu_sizeBytes input <=? MAX_UPLOAD_BYTES)) PlainError (js "UPLOAD_SIZE_INVALID") ;;
      require (if nonempty (safeExtension filename) is Some extension then bool_decide (extension ∈ allowedExtensions) else false)
        PlainError (js "UPLOAD_EXTENSION_UNSUPPORTED") ;;
      mret (mkValidUpload contentType (hd [] allowedExtensions) (cu_sizeBytes input))
  end.

Definition staging_key (userId id extension : jstr) : jstr :=
  js "profile-staging/" ++ userId ++ js "/" ++ id ++ js "." ++ extension.
Definition createUpload (input : CreateUploadInput) : M CreateUploadPayload :=
  metadata ← validateUploadInput input;
  profilePublicBaseUrl ;;
  id ← randomUUID;
  now ← Date_now;
  let expiresAt := now + UPLOAD_URL_TTL_MS in
  let stagingKey := staging_key (cu_userId input) id (vu_extension metadata) in
  putUrl ← createPresignedPutUrl stagingKey (vu_contentType metadata) (vu_sizeBytes metadata) (UPLOAD_URL_TTL_MS / 1000);
  createPending id (cu_userId input) stagingKey (vu_contentType metadata) (vu_sizeBytes metadata) expiresAt now ;;
  mret (mkCreatedUpload id putUrl (toISOString expiresAt)).

(** A number used as a condition. *)
Definition nonzero (o : option Z) : option Z := if o is Some n then if n =? 0 then None else Some n else None.

Definition normalizeProfileImage (bytes : Buffer) (expectedContentType : jstr) : M Buffer :=
  metadata ← send (fun _ => sharp_metadata MAX_INPUT_PIXELS bytes);
  require (if nonempty (md_format metadata) is Some format
           then map_get expectedContentType DECODED_FORMAT_BY_CONTENT_TYPE =?? Some format else false)
    PlainError (js "UPLOAD_IMAGE_INVALID") ;;
  match nonzero (md_width metadata), nonzero (md_height metadata) with
  | Some width, Some height =>
      require ((width <=? MAX_IMAGE_DIMENSION) && (height <=? MAX_IMAGE_DIMENSION))
        PlainError (js "UPLOAD_IMAGE_DIMENSIONS_INVALID") ;;
      send (fun _ => sharp_jpeg MAX_INPUT_PIXELS MAX_OUTPUT_DIMENSION 88 bytes)
  | _, _ => throw PlainError (js "UPLOAD_IMAGE_DIMENSIONS_INVALID")
  end.

Definition finalizedPayload (upload : ProfileUpload) : M VerifiedUploadPayload :=
  match nonempty (profileUploads.publicUrl upload), nonempty (profileUploads.finalContentType upload),
        nonzero (profileUploads.finalSizeBytes upload) with
  | Some publicUrl, Some finalContentType, Some finalSizeBytes =>
      mret (mkVerifiedUpload (profileUploads.id upload) publicUrl finalContentType finalSizeBytes)
  | _, _, _ => throw PlainError (js "UPLOAD_VERIFIED_METADATA_INVALID")
  end.

Definition finalizeLease (upload : ProfileUpload) : M Z :=
  match profileUploads.processingLeaseExpiresAt upload with
  | None => throw PlainError (js "UPLOAD_PROCESSING_LEASE_INVALID")
  | Some lease => mret (of_column lease)
  end.

Definition deleteObject (key : jstr) : M bool :=
  try_catch (store_deleteObject key ;; mret true) (fun _ => mret false).

(** The staged file, or the reason there is none recorded on the upload. *)
Definition readStaged (upload : ProfileUpload) (lease now : Z) : M Buffer :=
  try_catch (readStagingObject (profileUploads.stagingKey upload) (profileUploads.expectedContentType upload)
               (profileUploads.expectedSizeBytes upload))
    (fun error =>
       if exn_class error =?? UploadObjectValidationError then
         markFailed (profileUploads.id upload) (message error) lease now ;;
         raise error
       else
         releaseFinalizeLease (profileUploads.id upload) lease now ;;
         throw PlainError (js "UPLOAD_OBJECT_UNAVAILABLE")).
Definition normalizeStaged (upload : ProfileUpload) (inputBytes : Buffer) (lease now : Z) : M Buffer :=
  try_catch (normalizeProfileImage inputBytes (profileUploads.expectedContentType upload))
    (fun _ =>
       markFailed (profileUploads.id upload) (js "UPLOAD_IMAGE_INVALID") lease now ;;
       throw PlainError (js "UPLOAD_IMAGE_INVALID")).

Definition final_key (userId id contentHash : jstr) : jstr :=
  js "profiles/" ++ userId ++ js "/" ++ id ++ js "/" ++ contentHash ++ js ".jpg".

Definition storeFinal (userId : jstr) (upload : ProfileUpload) (normalized : Buffer) (lease now : Z) : M ProfileUpload :=
  let finalKey := final_key userId (profileUploads.id upload) (sha256_buffer normalized) in
  base ← profilePublicBaseUrl;
  let publicUrl := base ++ js "/" ++ finalKey in
  let size := Z.of_nat (length normalized) in
  prepareFinalObject (profileUploads.id upload) userId finalKey publicUrl FINAL_CONTENT_TYPE size lease now ;;
  try_catch (putFinalObject finalKey normalized FINAL_CONTENT_TYPE)
    (fun _ => releaseFinalizeLease (profileUploads.id upload) lease now ;;
              throw PlainError (js "UPLOAD_FINAL_WRITE_FAILED")) ;;
  markVerified (profileUploads.id upload) userId finalKey publicUrl FINAL_CONTENT_TYPE size lease now.

Definition finalizeUpload (userId uploadId : jstr) : M VerifiedUploadPayload :=
  require (isUuid userId) PlainError (js "UPLOAD_USER_ID_INVALID") ;;
  require (isUuid uploadId) PlainError (js "UPLOAD_ID_INVALID") ;;
  now ← Date_now;
  claim ← claimFinalize uploadId userId now (now + FINALIZE_LEASE_MS);
  match claim with
  | ClaimVerified upload => finalizedPayload upload
  | ClaimExpired _ => throw PlainError (js "UPLOAD_EXPIRED")
  | ClaimBusy _ => throw PlainError (js "UPLOAD_PROCESSING")
  | ClaimClaimed upload =>
      lease ← finalizeLease upload;
      inputBytes ← readStaged upload lease now;
      normalized ← normalizeStaged upload inputBytes lease now;
      verified ← storeFinal userId upload normalized lease now;
      stagingDeleted ← deleteObject (profileUploads.stagingKey upload);
      (if (stagingDeleted : bool) then markStagingDeleted (profileUploads.id upload) now else mret tt) ;;
      finalizedPayload verified
  end.

(** [limit] is a number; one that is not an integer is refused before. *)
Definition validateBatchLimit (limit : Z) : M nat :=
  require ((1 <=? limit) && (limit <=? 100)) PlainError (js "UPLOAD_BATCH_LIMIT_INVALID") ;;
  mret (Z.to_nat limit).
Definition cleanupRetryDelay (attempt : Z) : Z := Z.min (30000 * 2 ^ Z.max 0 (attempt - 1)) (60 * 60 * 1000).

(** One job of a batch: whether it is done. *)
Definition cleanupJob (now : Z) (upload : ProfileUpload) : M bool :=
  let stagingRequired := is_null (profileUploads.stagingDeletedAt upload) in
  let finalRequired := is_not_null (profileUploads.finalDeletionPendingAt upload)
                       && is_null (profileUploads.finalDeletedAt upload) in
  stagingDeleted ← (if stagingRequired then deleteObject (profileUploads.stagingKey upload) else mret true);
  finalDeleted ← (match nonempty (profileUploads.finalKey upload) with
                  | Some finalKey => if finalRequired then deleteObject finalKey else mret true
                  | None => mret true
                  end);
  let completed := stagingDeleted && finalDeleted in
  match profileUploads.cleanupLeaseExpiresAt upload with
  | None => throw PlainError (js "UPLOAD_CLEANUP_LEASE_INVALID")
  | Some lease =>
      applyCleanupResult (profileUploads.id upload) (of_column lease) (stagingRequired && stagingDeleted)
        (finalRequired && finalDeleted)
        (if completed then None else Some (now + cleanupRetryDelay (profileUploads.cleanupAttempts upload))) now ;;
      mret completed
  end.

Definition cleanupExpiredStagingBatch (now limit : Z) : M UploadMaintenanceBatchResult :=
  limit ← validateBatchLimit limit;
  claimed ← claimCleanupBatch now (now + CLEANUP_LEASE_MS) limit;
  settledOutcomes ← map_all (cc_jobs claimed) (fun upload => attempt (cleanupJob now upload));
  outcomes ← settle settledOutcomes;
  mret (mkUploadBatch (Z.of_nat (length outcomes)) (countw (fun outcome => outcome) outcomes) (countw negb outcomes) 0 (cc_hasMore claimed)).
End service.
