(* ===== verification/UploadProofs.v ===== *)
(** Uploads: the objects in the store and the rows of the database stay in step,
    whatever fails and across account deletions. *)
From S2P Require Import Prelude JsString JsDate Libraries Schema World Constraints Fixtures User Upload.
Local Open Scope Z_scope.

(** * Unique keys *)

Lemma has_conflict_app {R} (c : R -> R -> bool) l new :
  (forall a b, c a b = c b a) -> has_conflict c l = false -> existsb (c new) l = false -> has_conflict c (l ++ [new]) = false.
Proof.
  intros Hs. induction l as [|r l IH]; simpl; intros H1 H2; [done|].
  apply orb_false_iff in H1 as [H1 H1'], H2 as [H2 H2']. rewrite existsb_app. simpl. rewrite H1, (Hs r new), H2. simpl. auto.
Qed.
Lemma has_conflict_inj {R} (c : R -> R -> bool) l a b :
  (forall a b, c a b = c b a) -> has_conflict c l = false -> a ∈ l -> b ∈ l -> c a b = true -> a = b.
Proof.
  intros Hs. induction l as [|r l IH]; simpl; intros H1 Ha Hb Hc; [by apply elem_of_nil in Ha|].
  apply orb_false_iff in H1 as [H1 H2]. rewrite existsb_false in H1.
  apply elem_of_cons in Ha as [->|Ha], Hb as [->|Hb]; [done| | |by apply IH].
  - rewrite H1 in Hc by done. done.
  - rewrite Hs, H1 in Hc by done. done.
Qed.
Lemma has_conflict_keys {R K} (c : R -> R -> bool) (key : R -> K) l :
  (forall a b, key a = key b -> c a b = true) -> has_conflict c l = false -> NoDup (map key l).
Proof.
  intros Hk. induction l as [|r l IH]; simpl; intros H1; [constructor|].
  apply orb_false_iff in H1 as [H1 H2]. rewrite existsb_false in H1. constructor; [|by apply IH].
  intros (x & Hx & E)%key_elem. assert (c r x = true) as Hc by (by apply Hk). by rewrite H1 in Hc.
Qed.

Lemma uploads_conflict_sym a b : profileUploads_conflict a b = profileUploads_conflict b a.
Proof.
  assert (forall x y : jstr, (x =?? y) = (y =?? x)) as Hs by (intros x y; by apply bool_decide_ext).
  unfold profileUploads_conflict. rewrite (Hs (profileUploads.id a)), (Hs (profileUploads.stagingKey a)). f_equal.
  destruct (profileUploads.finalKey a), (profileUploads.finalKey b); simpl; [apply Hs|done..].
Qed.
Lemma uploads_conflict_id a b : profileUploads.id a = profileUploads.id b -> profileUploads_conflict a b = true.
Proof. intros E. unfold profileUploads_conflict. by rewrite E, eqb_refl_true. Qed.
Lemma uploads_conflict_final a b k :
  profileUploads.finalKey a = Some k -> profileUploads.finalKey b = Some k -> profileUploads_conflict a b = true.
Proof. unfold profileUploads_conflict. intros -> ->. simpl. rewrite eqb_refl_true. by rewrite orb_true_r. Qed.

(** * What the object store holds *)

(** The final objects in the store, by the requests made to it. *)
Definition after_effect (key : jstr) (there : bool) (e : Effect) : bool :=
  match e with
  | ObjectPut k _ _ => if k =?? key then true else there
  | ObjectDeleted k => if k =?? key then false else there
  | _ => there
  end.
Definition stored (l : list Effect) (key : jstr) : bool := foldl (after_effect key) false l.
Lemma stored_snoc l e key : stored (l ++ [e]) key = after_effect key (stored l key) e.
Proof. unfold stored. by rewrite foldl_app. Qed.

Definition STAGING_PREFIX : jstr := js "profile-staging/".
Definition FINAL_PREFIX : jstr := js "profiles/".
Lemma prefixes_apart k : startsWith STAGING_PREFIX k = true -> startsWith FINAL_PREFIX k = true -> False.
Proof. intros [s ->]%startsWith_prefix. by vm_compute. Qed.

(** * Consistency *)

(** A row on its own: what a final key comes with. *)
Record good (r : ProfileUpload) : Prop := {
  g_verified : profileUploads.status r = verified -> profileUploads.finalDeletionPendingAt r = None;
  g_deleted : is_Some (profileUploads.finalDeletedAt r) -> profileUploads.finalKey r = None;
  g_tracked : is_Some (profileUploads.finalKey r) ->
    profileUploads.status r = verified \/ is_Some (profileUploads.finalDeletionPendingAt r);
  g_staging : startsWith STAGING_PREFIX (profileUploads.stagingKey r) = true;
  g_final : forall k, profileUploads.finalKey r = Some k -> startsWith FINAL_PREFIX k = true
}.

(** The rows and the store in step: no object without a row, no verified row
    without its object. *)
Record in_step (l : list ProfileUpload) (e : list Effect) : Prop := {
  is_conflicts : has_conflict profileUploads_conflict l = false;
  is_good : forall r, r ∈ l -> good r;
  is_owned : forall k, stored e k = true -> exists r, r ∈ l /\ profileUploads.finalKey r = Some k;
  is_kept : forall r k, r ∈ l -> profileUploads.status r = verified -> profileUploads.finalKey r = Some k ->
    stored e k = true
}.
Definition consistent (w : World) : Prop := in_step (profileUploads (db w)) (effects w).

Lemma in_step_id l e a b :
  in_step l e -> a ∈ l -> b ∈ l -> profileUploads.id a = profileUploads.id b -> a = b.
Proof.
  intros Hs Ha Hb Hid. apply (has_conflict_inj _ l a b uploads_conflict_sym (is_conflicts _ _ Hs) Ha Hb).
  by apply uploads_conflict_id.
Qed.
Lemma in_step_final l e a b k :
  in_step l e -> a ∈ l -> b ∈ l -> profileUploads.finalKey a = Some k -> profileUploads.finalKey b = Some k -> a = b.
Proof.
  intros Hs Ha Hb Hka Hkb. apply (has_conflict_inj _ l a b uploads_conflict_sym (is_conflicts _ _ Hs) Ha Hb).
  by apply (uploads_conflict_final _ _ k).
Qed.
Lemma in_step_ids l e : in_step l e -> NoDup (map profileUploads.id l).
Proof. intros Hs. apply (has_conflict_keys _ _ _ uploads_conflict_id (is_conflicts _ _ Hs)). Qed.

(** What an UPDATE of a row may do: a final key goes only when its object is
    gone, a row becomes verified only when its object is there. *)
Record allowed (e : list Effect) (r r' : ProfileUpload) : Prop := {
  al_good : good r';
  al_owned : forall k, profileUploads.finalKey r = Some k ->
    profileUploads.finalKey r' = Some k \/ stored e k = false;
  al_kept : forall k, profileUploads.status r' = verified -> profileUploads.finalKey r' = Some k -> stored e k = true
}.
Lemma in_step_update p f l e :
  in_step l e -> (forall r, r ∈ l -> p r = true -> allowed e r (f r)) ->
  has_conflict profileUploads_conflict (mapif p f l) = false -> in_step (mapif p f l) e.
Proof.
  intros Hs Hf Hc. split; [done| | |].
  - intros r' (r & Hr & ->)%elem_of_mapif. destruct (p r) eqn:E; [by apply Hf|by apply (is_good _ _ Hs)].
  - intros k Hk. destruct (is_owned _ _ Hs k Hk) as (r & Hr & Hrk). exists (if p r then f r else r).
    split; [apply elem_of_mapif; eauto|]. destruct (p r) eqn:E; [|done].
    destruct (al_owned _ _ _ (Hf r Hr E) k Hrk) as [?|]; [done|congruence].
  - intros r' k (r & Hr & ->)%elem_of_mapif. destruct (p r) eqn:E; [by apply Hf|by apply (is_kept _ _ Hs)].
Qed.

(** The usual update: the key stays, and the row does not become verified. *)
Record plain (r r' : ProfileUpload) : Prop := {
  pl_key : profileUploads.finalKey r' = profileUploads.finalKey r;
  pl_staging : profileUploads.stagingKey r' = profileUploads.stagingKey r;
  pl_pending : profileUploads.finalDeletionPendingAt r' = profileUploads.finalDeletionPendingAt r;
  pl_deleted : profileUploads.finalDeletedAt r' = profileUploads.finalDeletedAt r;
  pl_status : profileUploads.status r' = verified <-> profileUploads.status r = verified
}.
Lemma plain_allowed l e r r' : in_step l e -> r ∈ l -> plain r r' -> allowed e r r'.
Proof.
  intros Hs Hr [Hk Hst Hp Hd Hv]. destruct (is_good _ _ Hs r Hr) as [G1 G2 G3 G4 G5]. split; [split| |].
  - rewrite Hv, Hp. done.
  - by rewrite Hd, Hk.
  - rewrite Hk, Hv, Hp. done.
  - by rewrite Hst.
  - by rewrite Hk.
  - intros k Hrk. left. by rewrite Hk.
  - intros k. rewrite Hv, Hk. by apply (is_kept _ _ Hs).
Qed.

(** Requests to the store. *)
Lemma in_step_put l e r k ct n :
  in_step l e -> r ∈ l -> profileUploads.finalKey r = Some k -> in_step l (e ++ [ObjectPut k ct n]).
Proof.
  intros Hs Hr Hrk. split; [by apply (is_conflicts _ _ Hs)|by apply (is_good _ _ Hs)| |].
  - intros k'. rewrite stored_snoc. simpl. destruct (k =?? k') eqn:E; [|by apply (is_owned _ _ Hs)].
    apply bool_decide_eq_true in E as <-. eauto.
  - intros r' k' Hr' Hv Hk'. rewrite stored_snoc. simpl. destruct (k =?? k'); [done|by apply (is_kept _ _ Hs r')].
Qed.
Lemma in_step_delete l e k :
  in_step l e -> (forall r, r ∈ l -> profileUploads.status r = verified -> profileUploads.finalKey r <> Some k) ->
  in_step l (e ++ [ObjectDeleted k]).
Proof.
  intros Hs Hno. split; [by apply (is_conflicts _ _ Hs)|by apply (is_good _ _ Hs)| |].
  - intros k'. rewrite stored_snoc. simpl. destruct (k =?? k'); [done|by apply (is_owned _ _ Hs)].
  - intros r' k' Hr' Hv Hk'. rewrite stored_snoc. simpl. destruct (k =?? k') eqn:E; [|by apply (is_kept _ _ Hs r')].
    apply bool_decide_eq_true in E as ->. by destruct (Hno r' Hr' Hv).
Qed.
Lemma staging_not_final l e r k :
  in_step l e -> r ∈ l -> startsWith STAGING_PREFIX k = true -> profileUploads.finalKey r <> Some k.
Proof.
  intros Hs Hr Hk Hrk. apply (prefixes_apart k Hk). by apply (g_final r (is_good _ _ Hs r Hr)).
Qed.

Section theorems.
Context `{Env}.

Definition maintains {A} (m : M A) : Prop := forall w, consistent w -> wp m (fun _ w' => consistent w') w.

Lemma maintains_bind {A B} (m : M A) (k : A -> M B) : maintains m -> (forall a, maintains (k a)) -> maintains (m ≫= k).
Proof.
  intros Hm Hk w Hw. apply wp_bind. eapply wp_mono; [by apply Hm|]. intros [a|e] w1 H1; [by apply Hk|done].
Qed.
Lemma maintains_try {A} (m : M A) h : maintains m -> (forall e, maintains (h e)) -> maintains (try_catch m h).
Proof.
  intros Hm Hk w Hw. apply wp_try_catch. eapply wp_mono; [by apply Hm|]. intros [a|e] w1 H1; [done|by apply Hk].
Qed.
Lemma maintains_attempt {A} (m : M A) : maintains m -> maintains (attempt m).
Proof. intros Hm w Hw. by apply wp_attempt, Hm. Qed.
(** A transaction that talks to nobody: rolling back is no loss. *)
Lemma maintains_transaction {A} (m : M A) : maintains m -> keeps effects m -> maintains (transaction m).
Proof.
  intros Hm He w Hw. apply wp_transaction. eapply wp_mono; [apply wp_and; [by apply Hm|apply He]|].
  intros [a|e] w1 [H1 E]; [done|]. unfold consistent. simpl. by rewrite E.
Qed.
Definition upload_footprint (w : World) : list ProfileUpload * list Effect := (profileUploads (db w), effects w).
Lemma footprint_rollback w w' :
  upload_footprint w' = upload_footprint w -> upload_footprint (w' <| db := db w |>) = upload_footprint w.
Proof. unfold upload_footprint. simpl. by intros [= _ ->]. Qed.
Lemma maintains_keeps {A} (m : M A) : keeps upload_footprint m -> maintains m.
Proof. intros Hm w Hw. eapply wp_mono; [apply Hm|]. unfold consistent. by intros _ w1 [= -> ->]. Qed.
Lemma maintains_update p f :
  (forall r, p r = true -> plain r (f r)) -> maintains (updateChecked profileUploads p f).
Proof.
  intros Hf w Hw. apply wp_updateChecked; [|done..]. intros _ Hc. unfold consistent. simpl.
  apply in_step_update; [done| |done]. intros r Hr Hp. eapply plain_allowed; eauto.
Qed.
Lemma maintains_update_unit p f :
  (forall r, p r = true -> plain r (f r)) -> maintains (updateChecked profileUploads p f ;; mret tt).
Proof. intros Hf. apply maintains_bind; [by apply maintains_update|]. intros _ w Hw. by apply wp_ret. Qed.
Lemma maintains_for_each {A} (l : list A) body : (forall x, maintains (body x)) -> maintains (for_each l body).
Proof. intros Hb. induction l; simpl; [intros w Hw; by apply wp_ret|]. by apply maintains_bind. Qed.
Lemma maintains_map_all {A B} (l : list A) (body : A -> M B) : (forall x, maintains (body x)) -> maintains (map_all l body).
Proof.
  intros Hb. induction l; simpl; [intros w Hw; by apply wp_ret|]. apply maintains_bind; [done|]. intros y.
  apply maintains_bind; [done|]. intros ys w Hw. by apply wp_ret.
Qed.

Ltac maintains_step :=
  lazymatch goal with
  | |- forall _, _ => intro
  | |- maintains (mbind _ _) => apply maintains_bind
  | |- maintains (try_catch _ _) => apply maintains_try
  | |- maintains (attempt _) => apply maintains_attempt
  | |- maintains (transaction _) => apply maintains_transaction; [|solve [solve_keeps]]
  | |- maintains (if ?b then _ else _) => destruct b
  | |- maintains (match ?o with _ => _ end) => destruct o
  | |- maintains (let _ := _ in _) => cbv zeta
  | |- maintains _ => first [solve [auto] | apply maintains_keeps; solve [keeps_leaf]]
  end; cbv beta iota.
Ltac solve_maintains := repeat maintains_step.

Lemma status_iff (r r' : ProfileUpload) :
  profileUploads.status r <> verified -> profileUploads.status r' <> verified ->
  profileUploads.status r' = verified <-> profileUploads.status r = verified.
Proof. tauto. Qed.
Lemma holds_processing id lease r : holds id lease r = true -> profileUploads.status r = processing.
Proof. unfold holds. rewrite !andb_true_iff, !bool_decide_eq_true. tauto. Qed.

Lemma maintains_markFailed id code lease now : maintains (markFailed id code lease now).
Proof.
  apply maintains_update_unit. intros r Hr%holds_processing. split; [done..|]. apply status_iff; [by rewrite Hr|done].
Qed.
Lemma maintains_release id lease now : maintains (releaseFinalizeLease id lease now).
Proof.
  apply maintains_update_unit. intros r Hr%holds_processing. split; [done..|]. apply status_iff; [by rewrite Hr|done].
Qed.
Lemma maintains_markStagingDeleted id now : maintains (markStagingDeleted id now).
Proof. by apply maintains_update_unit. Qed.
Lemma maintains_claimCleanup now lease limit : maintains (claimCleanupBatch now lease limit).
Proof.
  unfold claimCleanupBatch. solve_maintains. apply maintains_update. intros r _. split; [done..|]. simpl.
  destruct (profileUploads.status r); done.
Qed.

(** An UPDATE of one row, found before. *)
Lemma wp_update_row upload f w :
  consistent w -> upload ∈ profileUploads (db w) -> allowed (effects w) upload (f upload) ->
  wp (updateChecked profileUploads (of_id (profileUploads.id upload)) f)
    (fun r w' => consistent w' /\ effects w' = effects w /\ (forall l, r = Ok l -> l = [f upload])) w.
Proof.
  intros Hw Hu Ha. apply wp_updateChecked; [|done..]. intros _ Hc.
  assert (forall r, r ∈ profileUploads (db w) -> of_id (profileUploads.id upload) r = true -> r = upload) as Hone.
  { intros r Hr Hid%bool_decide_eq_true. by apply (in_step_id _ _ _ _ Hw). }
  split_and!; [|done|].
  - unfold consistent. simpl. apply in_step_update; [done| |done]. intros r Hr Hp. by rewrite (Hone r Hr Hp).
  - intros l [= <-]. rewrite (sel_key_unique profileUploads.id _ _ upload); [done|by eapply in_step_ids|done|apply eqb_refl_true|].
    intros y Hy Hp. by rewrite (Hone y Hy Hp).
Qed.

Lemma consistent_rollback w w1 : consistent w -> effects w1 = effects w -> consistent (w1 <| db := db w |>).
Proof. unfold consistent. simpl. by intros ? ->. Qed.

(** A claim to finalize is a row with its staged file. *)
Lemma wp_claimFinalize uploadId userId now lease w :
  consistent w -> wp (claimFinalize uploadId userId now lease) (fun r w' => consistent w' /\ effects w' = effects w /\
    forall u, r = Ok (ClaimClaimed u) -> startsWith STAGING_PREFIX (profileUploads.stagingKey u) = true) w.
Proof.
  intros Hw. unfold claimFinalize. do 3 wp_step. destruct (first _ _) as [upload|] eqn:Ef; [|by wp_step].
  apply first_Some in Ef as [Hu _]. pose proof (is_good _ _ Hw upload Hu) as Hg.
  destruct (profileUploads.status upload =?? verified) eqn:Ev; [by wp_step|].
  apply bool_decide_eq_false in Ev. destruct (_ =?? failed); [by wp_step|]. destruct (_ <=? now).
  - wp_step. eapply wp_mono; [apply (wp_update_row upload); [done..|]|].
    + apply (plain_allowed _ _ _ _ Hw Hu). split; [done..|]. by apply status_iff.
    + intros [l|e] w1 (H1 & E1 & Hl); [|split_and!; [by apply consistent_rollback|done..]]. rewrite (Hl l eq_refl). simpl. by wp_step.
  - destruct (_ && _); [by wp_step|]. wp_step. eapply wp_mono; [apply (wp_update_row upload); [done..|]|].
    + apply (plain_allowed _ _ _ _ Hw Hu). split; [done..|]. by apply status_iff.
    + intros [l|e] w1 (H1 & E1 & Hl); [|split_and!; [by apply consistent_rollback|done..]]. rewrite (Hl l eq_refl). simpl. wp_step.
      split_and!; [done..|]. intros u [= <-]. apply (g_staging _ Hg).
Qed.

(** ** The final object *)

Lemma wp_prepare uploadId userId k url ct size lease now w :
  consistent w -> startsWith FINAL_PREFIX k = true ->
  wp (prepareFinalObject uploadId userId k url ct size lease now) (fun r w' => consistent w' /\
    (r = Ok tt -> exists x, x ∈ profileUploads (db w') /\ profileUploads.finalKey x = Some k)) w.
Proof.
  intros Hw Hk. unfold prepareFinalObject. wp_step. apply wp_updateChecked; [|done..]. intros _ Hc.
  match type of Hc with context [mapif ?p ?f _] => set (p0 := p) in *; set (f0 := f) in * end.
  assert (in_step (mapif p0 f0 (profileUploads (db w))) (effects w)) as Hs.
  { apply in_step_update; [done| |done]. intros r Hr Hp. unfold p0 in Hp. rewrite !andb_true_iff, orb_true_iff in Hp.
    destruct Hp as [[[Hh%holds_processing _] Hkey] _]. destruct (is_good _ _ Hw r Hr) as [_ _ _ G4 _]. split; [split; simpl|..].
    - by rewrite Hh.
    - by intros [? ?].
    - intros _. right. eauto.
    - done.
    - by intros ? [= <-].
    - intros k' Hk'. left. simpl. rewrite Hk' in Hkey. destruct Hkey as [?|E%bool_decide_eq_true]; [done|]. by rewrite E.
    - intros ? Hv. simpl in Hv. by rewrite Hh in Hv. }
  wp_step; intros Hh; (split; [exact Hs|]); [intros _|done].
  destruct (sel p0 (profileUploads (db w))) as [|x l] eqn:Es; [done|].
  assert (x ∈ sel p0 (profileUploads (db w))) as [Hx Hpx]%elem_of_sel by (rewrite Es; set_solver).
  exists (f0 x). split; [|done]. apply elem_of_mapif. exists x. by rewrite Hpx.
Qed.

Lemma maintains_markVerified uploadId userId k url ct size lease now w :
  consistent w -> stored (effects w) k = true ->
  wp (markVerified uploadId userId k url ct size lease now) (fun _ w' => consistent w') w.
Proof.
  intros Hw Hk. unfold markVerified. wp_step. apply wp_updateChecked; [|done..]. intros _ Hc.
  match type of Hc with context [mapif ?p ?f _] => set (p0 := p) in *; set (f0 := f) in * end.
  assert (in_step (mapif p0 f0 (profileUploads (db w))) (effects w)) as Hs.
  { apply in_step_update; [done| |done]. intros r Hr Hp. unfold p0 in Hp. rewrite !andb_true_iff, !bool_decide_eq_true in Hp.
    destruct Hp as [[_ Hkey] _]. destruct (is_good _ _ Hw r Hr) as [_ _ _ G4 G5]. split; [split; simpl|..].
    - done.
    - by intros [? ?].
    - by left.
    - done.
    - intros ? [= <-]. by apply G5.
    - intros k' Hk'. left. simpl. congruence.
    - by intros ? _ [= <-]. }
  destruct (head _); [by wp_step|]. wp_step. wp_step. destruct (first _ _); [|by wp_step]. wp_step. by wp_step; [intros _; wp_step|].
Qed.

Section store.
Context `{ConfigService} `{S3Client}.

Lemma wp_connection (Q : Result unit -> World -> Prop) w :
  Q (Ok tt) w -> (forall e, Q (Err e) w) -> wp connection Q w.
Proof. intros Ho He. unfold connection. cbv zeta. repeat (destruct (nonempty _); [|by wp_step]). by wp_step. Qed.

Lemma wp_put k body ct w x :
  consistent w -> x ∈ profileUploads (db w) -> profileUploads.finalKey x = Some k ->
  wp (putFinalObject k body ct) (fun r w' => consistent w' /\ (r = Ok tt -> stored (effects w') k = true)) w.
Proof.
  intros Hw Hx Hk. unfold putFinalObject. wp_step. apply wp_connection; [|by intros e]. do 2 wp_step.
  destruct (send_put _ _ _ _); wp_step; [done|]. split.
  - apply (in_step_put _ _ x); done.
  - intros _. simpl. rewrite stored_snoc. simpl. by rewrite eqb_refl_true.
Qed.

(** Deleting an object that no verified row has. *)
Lemma wp_deleteObject k w :
  consistent w ->
  (forall r, r ∈ profileUploads (db w) -> profileUploads.status r = verified -> profileUploads.finalKey r <> Some k) ->
  wp (deleteObject k) (fun r w' => consistent w' /\ db w' = db w /\ exists b, r = Ok b /\
    (b = true -> stored (effects w') k = false)) w.
Proof.
  intros Hw Hno. unfold deleteObject, store_deleteObject. do 3 wp_step.
  apply wp_connection; [|intros e; wp_step; split_and!; [done..|by exists false]]. do 2 wp_step.
  destruct (send_delete _ _); wp_step; [wp_step; split_and!; [done..|by exists false]|]. wp_step. split_and!.
  - by apply in_step_delete.
  - done.
  - exists true. split; [done|]. intros _. simpl. rewrite stored_snoc. simpl. by rewrite eqb_refl_true.
Qed.
Lemma wp_deleteStaged k w :
  consistent w -> startsWith STAGING_PREFIX k = true ->
  wp (deleteObject k) (fun r w' => consistent w' /\ db w' = db w /\ exists b, r = Ok b) w.
Proof.
  intros Hw Hk. eapply wp_mono; [apply wp_deleteObject; [done|]|].
  - intros r Hr _. by eapply staging_not_final.
  - intros r w' (? & ? & b & ? & _). eauto.
Qed.
End store.

(** ** Handlers *)

Section handlers.
Context `{ConfigService} `{UuidLib} `{S3Client} `{ImageLib} `{UrlLib}.

Lemma maintains_createPending id userId key ct size expiresAt now :
  startsWith STAGING_PREFIX key = true -> maintains (createPending id userId key ct size expiresAt now).
Proof.
  intros Hk. unfold createPending. solve_maintains. intros w Hw. apply wp_insert; [|done..]. intros _ Hc. unfold consistent. simpl.
  split.
  - apply has_conflict_app; [apply uploads_conflict_sym|by apply is_conflicts in Hw|done].
  - intros r [Hr| ->%list_elem_of_singleton]%elem_of_app; [by apply (is_good _ _ Hw)|].
    split; simpl; try done; by intros [? ?].
  - intros k Hst. destruct (is_owned _ _ Hw k Hst) as (r & Hr & Hrk). exists r. split; [apply elem_of_app; by left|done].
  - intros r k [Hr| ->%list_elem_of_singleton]%elem_of_app; [by apply (is_kept _ _ Hw)|done].
Qed.
Lemma maintains_send {A} (request : nat -> jstr + A) : maintains (send request).
Proof. apply maintains_keeps. unfold send. solve_keeps. Qed.
Lemma keeps_connection {T} (t : World -> T) : keeps t connection.
Proof. unfold connection. solve_keeps. Qed.
Lemma maintains_connection : maintains connection.
Proof. apply maintains_keeps, keeps_connection. Qed.
#[local] Hint Resolve maintains_send maintains_connection maintains_markFailed maintains_release
  maintains_markStagingDeleted maintains_claimCleanup : core.

Lemma maintains_read u lease now : maintains (readStaged u lease now).
Proof. unfold readStaged, readStagingObject. solve_maintains. Qed.
Lemma maintains_normalize u b lease now : maintains (normalizeStaged u b lease now).
Proof. unfold normalizeStaged, normalizeProfileImage. solve_maintains. Qed.
Lemma maintains_base : maintains profilePublicBaseUrl.
Proof. unfold profilePublicBaseUrl. solve_maintains. Qed.
Lemma maintains_payload u : maintains (finalizedPayload u).
Proof. unfold finalizedPayload. solve_maintains. Qed.
Lemma maintains_validate input : maintains (validateUploadInput input).
Proof. unfold validateUploadInput. solve_maintains. Qed.
#[local] Hint Resolve maintains_read maintains_normalize maintains_base maintains_payload maintains_validate : core.

Lemma maintains_storeFinal userId u b lease now : maintains (storeFinal userId u b lease now).
Proof.
  intros w Hw. unfold storeFinal. cbv zeta. wp_step. eapply wp_mono; [by apply maintains_base|]. intros [base|e] w1 C1; [|done].
  wp_step. eapply wp_mono; [apply wp_prepare; [done|apply startsWith_app]|]. intros [[]|e] w2 [C2 Hx]; [|done].
  destruct (Hx eq_refl) as (x & Hxin & Hxk). do 2 wp_step.
  eapply wp_mono; [by apply (wp_put _ _ _ _ x)|]. intros [[]|e] w3 [C3 Hst].
  - apply maintains_markVerified; [done|]. by apply Hst.
  - wp_step. eapply wp_mono; [by apply maintains_release|]. by intros [[]|e'] w4 C4; [wp_step|].
Qed.

Lemma maintains_finalizeUpload userId uploadId : maintains (finalizeUpload userId uploadId).
Proof.
  intros w Hw. unfold finalizeUpload. do 2 (wp_step; wp_step; [intros _|done]). do 3 wp_step.
  eapply wp_mono; [by apply wp_claimFinalize|]. intros [claim|e] w1 (C1 & _ & Hc); [|done].
  destruct claim as [u|u|u|u]; [|by apply maintains_payload|by wp_step..]. specialize (Hc u eq_refl).
  assert (maintains (finalizeLease u)) as Hlease by (unfold finalizeLease; by solve_maintains).
  wp_step. eapply wp_mono; [by apply Hlease|]. intros [lease|e] w2 C2; [|done].
  wp_step. eapply wp_mono; [by apply maintains_read|]. intros [bytes|e] w3 C3; [|done].
  wp_step. eapply wp_mono; [by apply maintains_normalize|]. intros [normalized|e] w4 C4; [|done].
  wp_step. eapply wp_mono; [by apply maintains_storeFinal|]. intros [v|e] w5 C5; [|done].
  wp_step. eapply wp_mono; [by apply wp_deleteStaged|]. intros [b|e] w6 [C6 _]; [|done].
  assert (maintains ((if b then markStagingDeleted (profileUploads.id u) (date_now (tick w)) else mret tt) ;; finalizedPayload v)) as Hlast
    by (by solve_maintains).
  by apply Hlast.
Qed.

Lemma maintains_createUpload input : maintains (createUpload input).
Proof.
  assert (forall id userId ext ct size expiresAt now, maintains (createPending id userId (staging_key userId id ext) ct size expiresAt now)) as Hc.
  { intros. apply maintains_createPending, startsWith_app. }
  unfold createUpload, createPresignedPutUrl. solve_maintains.
Qed.

(** The jobs of a batch are rows of the table, each once. *)
Definition jobs_in (jobs l : list ProfileUpload) : Prop :=
  (forall j, j ∈ jobs -> j ∈ l) /\ NoDup (map profileUploads.id jobs).
Lemma plain_cleanup now lease r : plain r (mark_cleanup now lease r).
Proof. split; [done..|]. simpl. by destruct (profileUploads.status r). Qed.
Lemma wp_claimCleanup now lease limit w :
  consistent w -> wp (claimCleanupBatch now lease limit) (fun r w' => consistent w' /\
    forall c, r = Ok c -> jobs_in (cc_jobs c) (profileUploads (db w'))) w.
Proof.
  intros Hw. unfold claimCleanupBatch. do 3 wp_step. destruct (take limit _) as [|r0 rest].
  { wp_step. split; [done|]. intros c [= <-]. split; [by intros j ?%elem_of_nil|constructor]. }
  wp_step. apply wp_updateChecked; [|done..]. intros _ Hc. do 3 wp_step. split.
  - unfold consistent. simpl. apply in_step_update; [done| |done]. intros r Hr _. eapply plain_allowed; [done..|]. apply plain_cleanup.
  - intros c [= <-]. split; simpl.
    + intros j (r & -> & [Hr Hp]%elem_of_sel)%list_elem_of_fmap. apply elem_of_mapif. exists r. by rewrite Hp.
    + rewrite map_map. simpl. apply (keys_sel profileUploads.id). by eapply in_step_ids.
Qed.

(** What is deleted for a job, and that the object is gone when it says so. *)
Lemma wp_cleanupJob now u w :
  consistent w -> u ∈ profileUploads (db w) ->
  wp (cleanupJob now u) (fun _ w' => consistent w' /\
    forall r, r ∈ profileUploads (db w) -> profileUploads.id r <> profileUploads.id u -> r ∈ profileUploads (db w')) w.
Proof.
  intros Hw Hu. pose proof (is_good _ _ Hw u Hu) as Hg. unfold cleanupJob. cbv zeta.
  set (finalRequired := is_not_null (profileUploads.finalDeletionPendingAt u) && is_null (profileUploads.finalDeletedAt u)).
  wp_step. apply (wp_mono _ (fun r w' => consistent w' /\ db w' = db w /\ exists b, r = Ok b)).
  { destruct (is_null (profileUploads.stagingDeletedAt u)); [apply wp_deleteStaged; [done|apply Hg]|wp_step; eauto]. }
  intros r w1 (C1 & E1 & stagingDeleted & ->). wp_step.
  apply (wp_mono _ (fun r w' => consistent w' /\ db w' = db w /\ exists b, r = Ok b /\
    (finalRequired && b = true -> forall k, profileUploads.finalKey u = Some k -> stored (effects w') k = false))).
  { destruct (nonempty (profileUploads.finalKey u)) as [k|] eqn:Ek.
    - assert (profileUploads.finalKey u = Some k) as Hk by (destruct (profileUploads.finalKey u) as [[|]|]; simpl in Ek; congruence).
      destruct finalRequired eqn:Ef; [|wp_step; split_and!; [done..|by exists true]].
      eapply wp_mono; [apply wp_deleteObject; [done|]|].
      + rewrite E1. intros r Hr Hv Hrk. assert (r = u) as -> by (by apply (in_step_final _ _ r u k Hw)).
        unfold finalRequired in Ef. rewrite (g_verified _ Hg Hv) in Ef. done.
      + intros r w2 (C2 & E2 & b & -> & Hb). split_and!; [done|congruence|]. exists b. split; [done|]. simpl.
        intros Hbt k'. rewrite Hk. intros [= <-]. auto.
    - wp_step. split_and!; [done..|]. exists true. split; [done|]. intros _ k Hk. rewrite Hk in Ek.
      destruct k as [|c k]; [|done]. by apply (g_final _ Hg) in Hk. }
  intros r w2 (C2 & E2 & finalDeleted & -> & Hgone). destruct (profileUploads.cleanupLeaseExpiresAt u) as [lease|].
  2: { wp_step. split; [done|]. by rewrite E2. }
  unfold applyCleanupResult. do 2 wp_step. apply wp_updateChecked; [|by rewrite E2..]. intros _ Hc. wp_step. wp_step.
  assert (forall r, r ∈ profileUploads (db w) -> profileUploads.id r = profileUploads.id u -> r = u) as Hone.
  { intros r Hr. by apply (in_step_id _ _ r u Hw). }
  split.
  - unfold consistent. simpl. apply in_step_update; [done| |done]. rewrite E2. intros r Hr [Hid%bool_decide_eq_true _]%andb_true_iff.
    rewrite (Hone r Hr Hid). clear r Hr Hid Hc. unfold cleanup_values. destruct (finalRequired && finalDeleted) eqn:Ef.
    + assert (profileUploads.status u <> verified) as Hnv.
      { intros Hv. apply andb_true_iff in Ef as [Ef _]. unfold finalRequired in Ef. by rewrite (g_verified _ Hg Hv) in Ef. }
      specialize (Hgone eq_refl). destruct Hg as [G1 G2 G3 G4 G5].
      split; [|intros k Hk; right; by apply Hgone|by destruct (_ && stagingDeleted)].
      destruct (_ && stagingDeleted); (split; simpl; [by intros ?%Hnv|done|by intros [? ?]|done|done]).
    + eapply plain_allowed; [exact C2|by rewrite E2|]. destruct (_ && stagingDeleted); by split.
  - simpl. rewrite E2. intros r Hr Hid. apply elem_of_mapif. exists r. split; [done|].
    unfold of_id. by rewrite bool_decide_eq_false_2.
Qed.

Lemma wp_cleanupJobs now jobs w :
  consistent w -> jobs_in jobs (profileUploads (db w)) ->
  wp (map_all jobs (fun u => attempt (cleanupJob now u))) (fun _ w' => consistent w') w.
Proof.
  revert w. induction jobs as [|u jobs IH]; intros w Hw [Hin Hd]; simpl; [by wp_step|].
  simpl in Hd. apply NoDup_cons in Hd as [Hu Hd]. do 2 wp_step.
  eapply wp_mono; [apply wp_cleanupJob; [done|apply Hin; set_solver]|]. intros r w1 [C1 Hrest]. wp_step.
  eapply wp_mono; [apply IH; [done|split; [|done]]|].
  - intros j Hj. apply Hrest; [apply Hin; set_solver|]. intros E. apply Hu. rewrite <- E. apply key_elem. eauto.
  - intros [outcomes|e] w2 C2; [by wp_step|done].
Qed.
Lemma maintains_cleanupBatch now limit : maintains (cleanupExpiredStagingBatch now limit).
Proof.
  intros w Hw. unfold cleanupExpiredStagingBatch, validateBatchLimit. do 2 wp_step. wp_step; [intros _|done]. do 2 wp_step.
  eapply wp_mono; [by apply wp_claimCleanup|]. intros [c|e] w1 [C1 Hj]; [|done]. wp_step.
  eapply wp_mono; [apply wp_cleanupJobs; [done|by apply Hj]|]. intros [l|e] w2 C2; [|done]. wp_step.
  eapply wp_mono; [by apply (maintains_keeps _ (keeps_settle upload_footprint l))|]. by intros [o|e] w3 C3; [wp_step|].
Qed.

(** ** Account deletion *)

(** In step when it returns: enough inside a transaction. *)
Definition commits {A} (m : M A) : Prop :=
  forall w, consistent w -> wp m (fun r w' => is_ok r -> consistent w') w.
Lemma commits_bind {A B} (m : M A) (k : A -> M B) : commits m -> (forall a, maintains (k a)) -> commits (m ≫= k).
Proof.
  intros Hm Hk w Hw. apply wp_bind. eapply wp_mono; [by apply Hm|]. intros [a|e] w1 C1; [|done].
  eapply wp_mono; [by apply Hk, C1|]. done.
Qed.
Lemma maintains_commit {A} (m : M A) : commits m -> keeps effects m -> maintains (transaction m).
Proof.
  intros Hm He w Hw. apply wp_transaction. eapply wp_mono; [apply wp_and; [by apply Hm|apply He]|].
  intros [a|e] w1 [C1 E]; [by apply C1|by apply consistent_rollback].
Qed.

Lemma mapif_twice {R} (p q : R -> bool) (f g : R -> R) l :
  (forall r, q r = true -> p r = true) ->
  mapif q g (mapif p f l) = mapif p (fun r => if q (f r) then g (f r) else f r) l.
Proof.
  intros Hpq. unfold mapif. rewrite map_map. apply map_ext. intros r. destruct (p r) eqn:E; [done|].
  destruct (q r) eqn:Eq; [|done]. apply Hpq in Eq. congruence.
Qed.
(** The second UPDATE meets every row of the first that has a final key. *)
Lemma commits_failUploads userId now : commits (failUploads userId now).
Proof.
  intros w Hw. unfold failUploads. wp_step. apply wp_updateChecked; [|done..]. intros _ _. wp_step.
  apply wp_updateChecked; [|done..]. intros _ Hc. wp_step. intros _. unfold consistent. simpl in Hc |- *.
  rewrite mapif_twice in Hc |- * by (intros r; rewrite !andb_true_iff; tauto).
  apply in_step_update; [done| |done]. intros r Hr Hp. destruct (is_good _ _ Hw r Hr) as [G1 G2 G3 G4 G5]. simpl. rewrite Hp.
  destruct (_ && _ && _) eqn:E; (split; [split; simpl; try done|simpl; auto|done]); [by eauto|].
  intros [k Hk]. right. rewrite Hk in E. destruct (profileUploads.finalDeletedAt r) eqn:Ed; [|done]. by rewrite G2 in Hk.
Qed.

Lemma maintains_anonymize job now : maintains (anonymizeDeletedAccount job now).
Proof.
  unfold anonymizeDeletedAccount. cbv zeta. apply maintains_commit; [|unfold failUploads; by solve_keeps].
  intros w Hw. do 3 wp_step. wp_step; intros _; [|done]. do 2 wp_step. wp_step.
  eapply wp_mono; [by apply commits_failUploads|]. intros [[]|e] w1 C1; [|done].
  match goal with |- wp ?rest _ _ => assert (maintains rest) as Hrest by (apply maintains_keeps; solve_keeps) end.
  eapply wp_mono; [by apply Hrest, C1|]. done.
Qed.
Lemma maintains_deletionBatch now limit : maintains (processDueAccountDeletionBatch now limit).
Proof.
  pose proof maintains_anonymize. unfold processDueAccountDeletionBatch. 
  apply maintains_bind; [apply maintains_keeps; unfold User.validateBatchLimit; by solve_keeps|]. intros n.
  apply maintains_bind; [apply maintains_keeps, keeps_transaction; [apply footprint_rollback|by solve_keeps]|]. intros [jobs more].
  apply maintains_bind; [apply maintains_map_all; unfold processDeletionJob, releaseDeletionLease; by solve_maintains|].
  intros outcomes. apply maintains_bind; [apply maintains_keeps, keeps_settle|]. intros l w Hw. by wp_step.
Qed.

(** * Theorem *)

Inductive UploadRequest :=
| CreateUpload (input : CreateUploadInput)
| FinalizeUpload (userId uploadId : jstr)
| CleanupBatch (now limit : Z)
| DeletionBatch (now limit : Z).

(** A request or a run of a worker, whatever it answers. *)
Definition serve (q : UploadRequest) : M unit :=
  match q with
  | CreateUpload input => attempt (createUpload input) ;; mret tt
  | FinalizeUpload u id => attempt (finalizeUpload u id) ;; mret tt
  | CleanupBatch now limit => attempt (cleanupExpiredStagingBatch now limit) ;; mret tt
  | DeletionBatch now limit => attempt (processDueAccountDeletionBatch now limit) ;; mret tt
  end.
Lemma maintains_serve q : maintains (serve q).
Proof.
  pose proof maintains_createUpload. pose proof maintains_finalizeUpload. pose proof maintains_cleanupBatch.
  pose proof maintains_deletionBatch. destruct q; simpl; by solve_maintains.
Qed.

(** C34: the object store and the database stay in step.  Whatever requests and
    worker runs are served, account deletions among them, and whatever fails on
    the way: every final object in the store is the final key of one row, which
    is verified or waits for the object's deletion; and the object of a verified
    row is never missing. *)
Theorem objects_in_step (l : list UploadRequest) w w' r :
  consistent w -> for_each l serve w = (w', r) ->
  consistent w' /\
  (forall k, stored (effects w') k = true ->
     exists u, u ∈ profileUploads (db w') /\ profileUploads.finalKey u = Some k /\
       (profileUploads.status u = verified \/
        (is_Some (profileUploads.finalDeletionPendingAt u) /\ profileUploads.finalDeletedAt u = None)) /\
       (forall v, v ∈ profileUploads (db w') -> profileUploads.finalKey v = Some k -> v = u)) /\
  (forall u k, u ∈ profileUploads (db w') -> profileUploads.status u = verified -> profileUploads.finalKey u = Some k ->
     stored (effects w') k = true).
Proof.
  intros Hw E. assert (consistent w') as Hw'.
  { exact (wp_run _ _ _ _ _ E (maintains_for_each l serve maintains_serve w Hw)). }
  split_and!; [done| |by apply is_kept].
  intros k Hk. destruct (is_owned _ _ Hw' k Hk) as (u & Hu & Huk). exists u. split_and!; [done..| |].
  - destruct (is_good _ _ Hw' u Hu) as [_ G2 G3 _ _]. destruct G3 as [?|?]; [by eauto|by left|right]. split; [done|].
    destruct (profileUploads.finalDeletedAt u) eqn:Ed; [|done]. by rewrite G2 in Huk.
  - intros v Hv Hvk. by apply (in_step_final _ _ v u k Hw').
Qed.
End handlers.
End theorems.

(** * Witness *)

Section witnesses.
Local Existing Instances test_env test_config.

Definition any_uuid : UuidLib := {| isUuid _ := true; uuidVersion _ := 4 |}.
(** A store that holds three bytes of PNG under every key, and libraries that
    accept them. *)
Definition test_s3 : S3Client := {|
  getSignedUrl _ key _ _ _ := inr (js "https://r2/" ++ key);
  send_head _ _ := inr (mkHead (Some 3) (Some (js "Image/PNG; q=1")) (Some (js "etag")));
  send_get _ _ _ _ := inr (mkGet (Some (inr [1%N; 2%N; 3%N])) (Some 3) (Some (js "bytes 0-2/3")));
  send_put _ _ _ _ := None;
  send_delete _ _ := None
|}.
Definition test_sharp : ImageLib := {|
  sharp_metadata _ _ := inr (mkMetadata (Some (js "png")) (Some 640) (Some 480));
  sharp_jpeg _ _ _ bytes := inr bytes;
  sha256_buffer _ := js "hash"
|}.
Definition test_url : UrlLib := {| parse_url s := Some (mkUrl (js "https:") [] [] [] [] s) |}.
Local Existing Instances any_uuid test_s3 test_sharp test_url.

Definition upload_requests : list UploadRequest :=
  [CreateUpload (mkCreateUpload ALICE (js " me.PNG ") (js "image/png") 3); FinalizeUpload ALICE (test_uuid 0)].
Definition upload_world : World := world_of test_db.
Definition ALICE_KEY : jstr := final_key ALICE (test_uuid 0) (js "hash").

Example upload_verified :
  let w := (for_each upload_requests serve upload_world).1 in
  map profileUploads.status (profileUploads (db w)) = [verified] /\ stored (effects w) ALICE_KEY = true.
Proof. vm_compute. by split. Qed.

Lemma upload_world_consistent : consistent upload_world.
Proof. by split; simpl; [|intros r ?%elem_of_nil| |intros r k ?%elem_of_nil]. Qed.

Lemma objects_in_step_witness : exists w' r u,
  for_each upload_requests serve upload_world = (w', r) /\ u ∈ profileUploads (db w') /\
  profileUploads.finalKey u = Some ALICE_KEY.
Proof.
  destruct (objects_in_step upload_requests upload_world _ _ upload_world_consistent (surjective_pairing _)) as (_ & Hone & _).
  destruct (Hone ALICE_KEY) as (u & Hu & Hk & _); [vm_compute; reflexivity|].
  eexists _, _, u. split; [exact (surjective_pairing _)|]. split; [exact Hu|exact Hk].
Defined.
End witnesses.
