(* ===== verification/Chat.v ===== *)
(** Chat: rooms of a match, messages with idempotency keys, read receipts,
    blocks and reports (chat.service.ts, chat.repository.ts, chat.types.ts). *)
From S2P Require Import Prelude JsString JsDate Libraries Schema World Constraints NotificationApi.
Local Open Scope Z_scope.

Definition FIRST_MESSAGE_MAX_LENGTH : nat := 30.
Definition MESSAGE_MAX_LENGTH : nat := 90.
Definition REPORT_REASON_MAX_LENGTH : nat := 120.
Definition IDEMPOTENCY_KEY_MAX_LENGTH : nat := 128.

Record ChatRoomPayload := mkChatRoom { cr_id : jstr; cr_name : jstr; cr_lastMessage : option jstr; cr_unreadCount : Z }.
Record ChatMessagePayload := mkChatMessage {
  cm_id : jstr; cm_roomId : jstr; cm_senderUserId : option jstr; cm_text : jstr;
  cm_idempotencyKey : option jstr; cm_createdAt : jstr
}.
Inductive ChatMessageEventType := added | edited | deleted.
Definition event_text (t : ChatMessageEventType) : jstr :=
  match t with added => js "added" | edited => js "edited" | deleted => js "deleted" end.
Record ChatMessagesInput := mkMessagesInput { mi_roomId : jstr; mi_first : option Z; mi_after : option jstr; mi_before : option jstr }.
Record SendChatMessageInput := mkSendInput { si_roomId : jstr; si_text : jstr; si_idempotencyKey : option jstr }.
Record EditChatMessageInput := mkEditInput { ei_messageId : jstr; ei_text : jstr }.

Definition nonempty_id (o : option jstr) : option jstr := if o is Some (_ :: _) then o else None.

(** * The repository *)

Section repository.
Context `{Env}.

(** [(a.createdAt, a.id) < (b.createdAt, b.id)] *)
Definition message_before (a b : Z * jstr) : bool := (a.1 <? b.1) || ((a.1 =? b.1) && str_ltb a.2 b.2).
Definition position (r : Message) : Z * jstr := (messages.createdAt r, messages.id r).
(** [ORDER BY createdAt DESC, id DESC] and [ORDER BY createdAt, id] *)
Definition newest_first (a b : Message) : bool := negb (message_before (position a) (position b)).
Definition oldest_first (a b : Message) : bool := negb (message_before (position b) (position a)).
Definition live_in (roomId : jstr) (r : Message) : bool :=
  (messages.roomId r =?? roomId) && is_null (messages.deletedAt r).
Definition latestMessage (roomId : jstr) (rows : list Message) : option Message :=
  head (order_by newest_first (sel (live_in roomId) rows)).

(** The message counts as unread next to the receipt of the user, if any. *)
Definition unread_after (receipt : option ReadReceipt) (r : Message) : bool :=
  match receipt with
  | None => true
  | Some receipt =>
      match readReceipts.lastReadMessageId receipt with
      | None => readReceipts.readAt receipt <? messages.createdAt r
      | Some lastRead => message_before (readReceipts.readAt receipt, lastRead) (position r)
      end
  end.
Definition unread (roomId userId : jstr) (receipt : option ReadReceipt) (r : Message) : bool :=
  live_in roomId r && opt_ref (fun sender => negb (sender =?? userId)) (messages.senderUserId r)
  && is_not_null (messages.senderUserId r) && unread_after receipt r.

Definition other_user (m : Match) (userId : jstr) : jstr :=
  if matches.userLowId m =?? userId then matches.userHighId m else matches.userLowId m.
(** The rooms joined to their matches; a room belongs to one match. *)
Definition room_rows (d : Db) (userId : jstr) : list (Room * ChatRoomPayload) :=
  omap (fun m =>
    match first (fun r => rooms.id r =?? matches.roomId m) (rooms d),
          first (fun u => users.userId u =?? other_user m userId) (users d) with
    | Some room, Some user =>
        let receipt := first (fun r => (readReceipts.roomId r =?? rooms.id room) && (readReceipts.userId r =?? userId)) (readReceipts d) in
        Some (room, mkChatRoom (rooms.id room) (users.userName user) (messages.text <$> latestMessage (rooms.id room) (messages d))
                      (countw (unread (rooms.id room) userId receipt) (messages d)))
    | _, _ => None
    end) (sel (fun m => (matches.userLowId m =?? userId) || (matches.userHighId m =?? userId)) (matches d)).
Definition room_order (a b : Room * ChatRoomPayload) : bool :=
  (rooms.updatedAt b.1 <? rooms.updatedAt a.1)
  || ((rooms.updatedAt a.1 =? rooms.updatedAt b.1) && negb (str_ltb (rooms.id a.1) (rooms.id b.1))).
Definition repo_rooms (userId : jstr) : M (list ChatRoomPayload) :=
  d ← get_db;
  mret (map snd (order_by room_order (room_rows d userId))).

Definition findMessageCursor (messageId roomId : jstr) : M (option Message) :=
  findFirst messages (fun r => (messages.id r =?? uuid_param messageId) && live_in (uuid_param roomId) r).

Definition member_of (roomId userId : jstr) (r : RoomMember) : bool :=
  (roomMembers.roomId r =?? roomId) && (roomMembers.userId r =?? userId).
Definition isRoomMember (roomId userId : jstr) : M bool :=
  member ← findFirst roomMembers (member_of (uuid_param roomId) userId);
  mret (is_not_null member).
Definition otherRoomMemberIds (roomId userId : jstr) : M (list jstr) :=
  members ← select roomMembers
    (fun r => (roomMembers.roomId r =?? uuid_param roomId) && negb (roomMembers.userId r =?? userId));
  mret (map roomMembers.userId members).

(** A page after or before a message, oldest first.  The cursor is looked up
    again: no row, no page. *)
Definition repo_messages (roomId : jstr) (limit : nat) (after before : option jstr) : M (list Message) :=
  let roomId := uuid_param roomId in
  let cursorId := nonempty_id (if after is Some _ then after else before) in
  let forwards := is_not_null (nonempty_id after) in
  d ← get_db;
  let page (r : Message) : bool :=
    live_in roomId r &&
    match cursorId with
    | None => true
    | Some id =>
        match first (fun c => (messages.id c =?? id) && live_in roomId c) (messages d) with
        | Some c => if forwards then message_before (position c) (position r) else message_before (position r) (position c)
        | None => false
        end
    end in
  let rows := take limit (order_by (if forwards then oldest_first else newest_first) (sel page (messages d))) in
  mret (if forwards then rows else rev rows).

Definition repo_markRoomRead (roomId userId : jstr) : M unit :=
  let roomId := uuid_param roomId in
  d ← get_db;
  match latestMessage roomId (messages d) with
  | None => mret tt
  | Some newest =>
      let new := readReceipts.mkReadReceipt roomId userId (Some (messages.id newest)) (messages.createdAt newest) in
      insertOrUpdate readReceipts readReceipts_conflict
        (fun r => r <| readReceipts.lastReadMessageId := Some (messages.id newest) |>
                    <| readReceipts.readAt := messages.createdAt newest |>)
        (fun r => (readReceipts.readAt r <? messages.createdAt newest)
                  || ((messages.createdAt newest =? readReceipts.readAt r)
                      && (if readReceipts.lastReadMessageId r is Some lastRead then str_ltb lastRead (messages.id newest) else false)))
        new ;;
      mret tt
  end.

Definition ensureRoom (roomId : jstr) : M unit :=
  now ← clock_timestamp;
  insertOrNothing rooms rooms_conflict (rooms.mkRoom (uuid_param roomId) (js "대화") now now) ;;
  mret tt.
Definition findRoom (roomId : jstr) : M (option Room) := findFirst rooms (fun r => rooms.id r =?? uuid_param roomId).

Definition keyed (idempotencyKey roomId senderUserId : jstr) (r : Message) : bool :=
  (messages.idempotencyKey r =?? Some idempotencyKey) && (messages.roomId r =?? roomId)
  && (messages.senderUserId r =?? Some senderUserId).
Definition findMessageByIdempotencyKey (idempotencyKey roomId senderUserId : jstr) : M (option Message) :=
  findFirst messages (keyed idempotencyKey (uuid_param roomId) senderUserId).
Definition activeMessageCount (roomId : jstr) : M Z := select_count messages (live_in (uuid_param roomId)).

Definition touchRoom (roomId : jstr) : M unit :=
  now ← Date_now;
  update rooms (fun r => rooms.id r =?? roomId) (fun r => r <| rooms.updatedAt := to_column now |>) ;;
  mret tt.

(** The message and whether it is new. *)
Definition createMessage (roomId senderUserId text : jstr) (idempotencyKey : option jstr) : M (option Message * bool) :=
  let roomId := uuid_param roomId in
  transaction (
    id ← randomUUID;
    now ← clock_timestamp;
    inserted ← insertOrNothing messages messages_key
      (messages.mkMessage id roomId (Some senderUserId) text idempotencyKey None now now);
    match inserted with
    | Some message =>
        touchRoom roomId ;;
        mret (Some message, true)
    | None =>
        match nonempty_id idempotencyKey with
        | Some key =>
            replayedMessage ← findFirst messages (keyed key roomId senderUserId);
            mret (replayedMessage, false)
        | None => mret (None, false)
        end
    end).

Definition own_message (messageId senderUserId : jstr) (r : Message) : bool :=
  (messages.id r =?? messageId) && (messages.senderUserId r =?? Some senderUserId) && is_null (messages.deletedAt r).
Definition repo_editMessage (messageId senderUserId text : jstr) : M (option Message) :=
  now ← Date_now;
  updated ← updateChecked messages (own_message (uuid_param messageId) senderUserId)
    (fun r => r <| messages.text := text |> <| messages.updatedAt := to_column now |>);
  match head updated with
  | Some message => touchRoom (messages.roomId message) ;; mret (Some message)
  | None => mret None
  end.
Definition repo_deleteMessage (messageId senderUserId : jstr) : M (option Message) :=
  deletedAt ← Date_now;
  updatedAt ← Date_now;
  updated ← update messages (own_message (uuid_param messageId) senderUserId)
    (fun r => r <| messages.deletedAt := Some (to_column deletedAt) |> <| messages.updatedAt := to_column updatedAt |>);
  mret (head updated).

Definition repo_blockUser (blockerUserId blockedUserId : jstr) : M unit :=
  now ← clock_timestamp;
  insertOrNothing userBlocks userBlocks_conflict (userBlocks.mkUserBlock blockerUserId (uuid_param blockedUserId) now) ;;
  mret tt.

(** [INSERT ... SELECT ... ON CONFLICT DO UPDATE]: one row for a live message of
    a room the reporter is in. *)
Definition repo_reportMessage (reporterUserId messageId reason : jstr) : M bool :=
  d ← get_db;
  match first (fun r => (messages.id r =?? uuid_param messageId) && is_null (messages.deletedAt r)
                        && existsb (member_of (messages.roomId r) reporterUserId) (roomMembers d)) (messages d) with
  | None => mret false
  | Some message =>
      id ← randomUUID;
      now ← clock_timestamp;
      rows ← insertOrUpdate messageReports
        (fun a b => (messageReports.messageId a =?? messageReports.messageId b)
                    && (messageReports.reporterUserId a =?? messageReports.reporterUserId b))
        (fun r => r <| messageReports.reason := reason |> <| messageReports.createdAt := now |>)
        (fun _ => true)
        (messageReports.mkMessageReport id (messages.id message) reporterUserId reason now);
      mret (Nat.eqb (length rows) 1)
  end.
End repository.

(** * The service *)

Section service.
Context `{Env} `{NotificationService}.

Definition validateUuid (input error : jstr) : M unit := require (matchb UUID_PATTERN input) PlainError error.
Definition requireRoomMember (roomId userId : jstr) : M unit :=
  member ← isRoomMember roomId userId;
  require member CustomUnauthorizedException (js "채팅방에 접근할 수 없습니다.").
Definition assertRoomMember (roomId userId : jstr) : M unit :=
  validateUuid roomId (js "ROOM_ID_INVALID") ;;
  requireRoomMember roomId userId.

Definition validateText (input : jstr) : M jstr :=
  let text := trim input in
  require (negb (text =?? [])) PlainError (js "MESSAGE_TEXT_REQUIRED") ;;
  require (Nat.leb (length text) MESSAGE_MAX_LENGTH) PlainError (js "MESSAGE_TEXT_TOO_LONG") ;;
  mret text.
Definition validateIdempotencyKey (input : option jstr) : M (option jstr) :=
  match input with
  | None => mret None
  | Some input =>
      let key := trim input in
      require (negb (key =?? [])) PlainError (js "IDEMPOTENCY_KEY_INVALID") ;;
      require (Nat.leb (length key) IDEMPOTENCY_KEY_MAX_LENGTH) PlainError (js "IDEMPOTENCY_KEY_TOO_LONG") ;;
      mret (Some key)
  end.
Definition validateReportReason (input : jstr) : M jstr :=
  let reason := trim input in
  require (negb (reason =?? [])) PlainError (js "REPORT_REASON_REQUIRED") ;;
  require (Nat.leb (length reason) REPORT_REASON_MAX_LENGTH) PlainError (js "REPORT_REASON_TOO_LONG") ;;
  mret reason.

Definition rowToMessage (row : Message) : ChatMessagePayload :=
  mkChatMessage (messages.id row) (messages.roomId row) (messages.senderUserId row) (messages.text row)
    (messages.idempotencyKey row) (toISOString (of_column (messages.createdAt row))).

Definition publishMessageEvent (type : ChatMessageEventType) (message : Message) : M unit :=
  emit (ChatPublished (event_text type) (messages.id message) (messages.roomId message) (messages.text message)).

Definition chat_rooms (userId : jstr) : M (list ChatRoomPayload) :=
  validateUuid userId (js "USER_ID_INVALID") ;;
  repo_rooms userId.

Definition chat_messages (userId : jstr) (input : ChatMessagesInput) : M (list ChatMessagePayload) :=
  assertRoomMember (mi_roomId input) userId ;;
  let limit := Z.min (default 50 (mi_first input)) 100 in
  require (1 <=? limit) PlainError (js "MESSAGE_PAGE_SIZE_INVALID") ;;
  require (is_null (nonempty_id (mi_after input)) || is_null (nonempty_id (mi_before input)))
    PlainError (js "MESSAGE_CURSOR_INVALID") ;;
  let cursorId := nonempty_id (if mi_after input is Some _ then mi_after input else mi_before input) in
  cursor ← (match cursorId with
            | None => mret None
            | Some id =>
                validateUuid id (js "MESSAGE_CURSOR_INVALID") ;;
                cursor ← findMessageCursor id (mi_roomId input);
                require (is_not_null cursor) PlainError (js "MESSAGE_CURSOR_INVALID") ;;
                mret cursor
            end);
  let cursor_id := messages.id <$> cursor in
  result ← repo_messages (mi_roomId input) (Z.to_nat limit)
    (if nonempty_id (mi_after input) is Some _ then cursor_id else None)
    (if nonempty_id (mi_before input) is Some _ then cursor_id else None);
  mret (map rowToMessage result).

(** One branch of [Promise.allSettled] per other member. *)
Definition notifyMembers (roomId userId text : jstr) (message : Message) : M unit :=
  recipientIds ← otherRoomMemberIds roomId userId;
  map_all recipientIds (fun recipientId =>
    attempt (notify (mkCreateNotificationInput recipientId message_notification (js "새 메시지가 도착했어요")
                       (take 60 text) (Some (js "/rooms/" ++ roomId)) (Some (messages.id message))))) ;;
  mret tt.

(** The message of the key, when it was sent before. *)
Definition replayed (idempotencyKey : option jstr) (roomId userId : jstr) : M (option Message) :=
  match idempotencyKey with
  | None => mret None
  | Some key =>
      existing ← findMessageByIdempotencyKey key roomId userId;
      match existing with
      | None => mret None
      | Some existing =>
          require (is_null (messages.deletedAt existing)) PlainError (js "IDEMPOTENCY_KEY_ALREADY_USED") ;;
          mret (Some existing)
      end
  end.

Definition sendMessage (userId : jstr) (input : SendChatMessageInput) : M ChatMessagePayload :=
  text ← validateText (si_text input);
  validateUuid (si_roomId input) (js "ROOM_ID_INVALID") ;;
  requireRoomMember (si_roomId input) userId ;;
  idempotencyKey ← validateIdempotencyKey (si_idempotencyKey input);
  existing ← replayed idempotencyKey (si_roomId input) userId;
  match existing with
  | Some existing => mret (rowToMessage existing)
  | None =>
      count ← activeMessageCount (si_roomId input);
      require (negb ((count =? 0) && Nat.ltb FIRST_MESSAGE_MAX_LENGTH (length text)))
        PlainError (js "FIRST_MESSAGE_TEXT_TOO_LONG") ;;
      result ← createMessage (si_roomId input) userId text idempotencyKey;
      match result.1 with
      | None => throw PlainError (js "MESSAGE_CREATE_FAILED")
      | Some message =>
          require (is_null (messages.deletedAt message)) PlainError (js "IDEMPOTENCY_KEY_ALREADY_USED") ;;
          (if result.2 : bool then
             publishMessageEvent added message ;;
             notifyMembers (si_roomId input) userId text message
           else mret tt) ;;
          mret (rowToMessage message)
      end
  end.

Definition editMessage (userId : jstr) (input : EditChatMessageInput) : M ChatMessagePayload :=
  validateUuid (ei_messageId input) (js "MESSAGE_ID_INVALID") ;;
  text ← validateText (ei_text input);
  message ← repo_editMessage (ei_messageId input) userId text;
  match message with
  | None => throw PlainError (js "MESSAGE_NOT_FOUND")
  | Some message =>
      publishMessageEvent edited message ;;
      mret (rowToMessage message)
  end.

Definition deleteMessage (userId messageId : jstr) : M bool :=
  validateUuid messageId (js "MESSAGE_ID_INVALID") ;;
  message ← repo_deleteMessage messageId userId;
  (if message is Some message then publishMessageEvent deleted message else mret tt) ;;
  mret (is_not_null message).

Definition markRoomRead (userId roomId : jstr) : M bool :=
  validateUuid roomId (js "ROOM_ID_INVALID") ;;
  requireRoomMember roomId userId ;;
  repo_markRoomRead roomId userId ;;
  mret true.

Definition blockUser (blockerUserId blockedUserId : jstr) : M bool :=
  validateUuid blockerUserId (js "USER_ID_INVALID") ;;
  validateUuid blockedUserId (js "USER_ID_INVALID") ;;
  require (negb (blockerUserId =?? blockedUserId)) PlainError (js "BLOCK_SELF_NOT_ALLOWED") ;;
  repo_blockUser blockerUserId blockedUserId ;;
  mret true.

Definition reportMessage (reporterUserId messageId reason : jstr) : M bool :=
  validateUuid reporterUserId (js "USER_ID_INVALID") ;;
  validateUuid messageId (js "MESSAGE_ID_INVALID") ;;
  reason ← validateReportReason reason;
  reported ← repo_reportMessage reporterUserId messageId reason;
  require reported PlainError (js "MESSAGE_NOT_FOUND_OR_FORBIDDEN") ;;
  mret true.
End service.
