(* ===== verification/ChatProofs.v ===== *)
(** Chat: a message is sent once, by a member, whatever the retries. *)
From S2P Require Import Prelude JsString JsDate Libraries Schema World Constraints NotificationApi Fixtures Chat.
Local Open Scope Z_scope.

(** The user is in the room. *)
Definition is_member (d : Db) (roomId userId : jstr) : bool := existsb (member_of (uuid_param roomId) userId) (roomMembers d).

Section theorems.
Context `{Env} `{NotificationService}.

Lemma wp_requireRoomMember roomId userId (Q : Result unit -> World -> Prop) w :
  (is_member (db w) roomId userId = true -> Q (Ok tt) w) ->
  (forall e, is_member (db w) roomId userId = false -> Q (Err e) w) -> wp (requireRoomMember roomId userId) Q w.
Proof.
  intros Ht Hf. unfold requireRoomMember, isRoomMember, is_member in *. do 4 wp_step. simpl.
  destruct (first _ _) as [x|] eqn:E; wp_step; try done; intros _.
  - apply Ht, existsb_true. apply first_Some in E as [? ?]. eauto.
  - apply Hf, existsb_false. by apply first_None.
Qed.

(** The validations read nothing. *)
Definition valid_text (s : jstr) : bool := negb (trim s =?? []) && Nat.leb (length (trim s)) MESSAGE_MAX_LENGTH.
Definition valid_key (s : jstr) : bool := negb (trim s =?? []) && Nat.leb (length (trim s)) IDEMPOTENCY_KEY_MAX_LENGTH.
Lemma wp_message_text s (Q : Result jstr -> World -> Prop) w :
  (valid_text s = true -> Q (Ok (trim s)) w) -> (forall e, valid_text s = false -> Q (Err e) w) -> wp (validateText s) Q w.
Proof.
  unfold validateText, valid_text. cbv zeta. intros Ht Hf. wp_step. wp_step; intros E1; [|by apply Hf; rewrite E1].
  wp_step. wp_step; intros E2; [|by apply Hf; rewrite E1, E2]. wp_step. apply Ht. by rewrite E1, E2.
Qed.
Lemma wp_validateKey o (Q : Result (option jstr) -> World -> Prop) w :
  (opt_ref valid_key o = true -> Q (Ok (trim <$> o)) w) -> (forall e, opt_ref valid_key o = false -> Q (Err e) w) ->
  wp (validateIdempotencyKey o) Q w.
Proof.
  unfold validateIdempotencyKey, opt_ref, valid_key. intros Ht Hf. destruct o as [s|]; [|wp_step; by apply Ht]. cbv zeta.
  wp_step. wp_step; intros E1; [|by apply Hf; rewrite E1].
  wp_step. wp_step; intros E2; [|by apply Hf; rewrite E1, E2]. wp_step. apply Ht. by rewrite E1, E2.
Qed.

Lemma wp_notifyMembers roomId userId text message w :
  wp (notifyMembers roomId userId text message) (fun r w' => r = Ok tt /\ db w ≈db db w') w.
Proof.
  unfold notifyMembers, otherRoomMemberIds. do 4 wp_step.
  match goal with |- context [map_all ?l _] => generalize l end. intros ids. wp_step.
  apply (wp_mono _ (fun r w' => is_ok r /\ db w ≈db db w')); [|by intros [l|e] w' [Hr E]; [wp_step|destruct Hr]].
  assert (forall w0, db w ≈db db w0 -> wp (map_all ids (fun recipientId => attempt (notify
    (mkCreateNotificationInput recipientId message_notification (js "새 메시지가 도착했어요") (take 60 text)
       (Some (js "/rooms/" ++ roomId)) (Some (messages.id message)))))) (fun r w' => is_ok r /\ db w ≈db db w') w0) as Hall.
  { induction ids as [|i ids IH]; intros w0 E0; simpl; [by wp_step|]. do 2 wp_step. apply wp_notify. intros r w1 E1.
    wp_step. eapply wp_mono; [apply IH; by etrans|]. intros [l|e] w2 [Hr E2]; [by wp_step|done]. }
  by apply Hall.
Qed.

(** What a new message stores: itself, and the time of its room. *)
Definition posted (x : Message) (now : Z) (d : Db) : Db :=
  d <| messages ::= fun l => l ++ [x] |>
    <| rooms ::= mapif (fun r => rooms.id r =?? messages.roomId x) (fun r => r <| rooms.updatedAt := to_column now |>) |>.
Record sent_as (roomId userId : jstr) (key : option jstr) (x : Message) : Prop := {
  sa_room : messages.roomId x = uuid_param roomId;
  sa_sender : messages.senderUserId x = Some userId;
  sa_key : messages.idempotencyKey x = key
}.
Lemma keyed_spec k roomId userId x :
  keyed k (uuid_param roomId) userId x = true <-> sent_as roomId userId (Some k) x.
Proof.
  unfold keyed. rewrite !andb_true_iff, !bool_decide_eq_true. split; [intros [[? ?] ?]; by split|by intros [? ? ?]].
Qed.
Lemma key_conflict x roomId userId k r :
  sent_as roomId userId (Some k) x -> messages_key x r = keyed k (uuid_param roomId) userId r.
Proof.
  intros [Hr Hs Hk]. assert (forall x y : jstr, (x =?? y) = (y =?? x)) as Hsym by (intros a b; by apply bool_decide_ext).
  unfold messages_key, keyed, same_not_null. rewrite Hr, Hs, Hk, (Hsym (uuid_param roomId)).
  destruct (messages.senderUserId r) as [s|], (messages.idempotencyKey r) as [k'|]; rewrite ?andb_false_r, ?andb_false_l; try done.
  rewrite (Hsym userId), (Hsym k). rewrite andb_comm, andb_assoc.
  rewrite (bool_decide_ext (k' = k) (Some k' = Some k)), (bool_decide_ext (s = userId) (Some s = Some userId)) by naive_solver.
  done.
Qed.

Lemma wp_createMessage roomId userId text key w :
  wp (createMessage roomId userId text key) (fun r w1 => effects w1 = effects w /\ match r with
    | Ok (Some x, true) => sent_as roomId userId key x /\ messages.text x = text /\ messages.deletedAt x = None /\
        (exists now, db w1 = posted x now (db w)) /\
        (forall k, key = Some k -> first (keyed k (uuid_param roomId) userId) (messages (db w)) = None)
    | Ok (Some x, false) => db w1 = db w /\
        exists k, key = Some k /\ first (keyed k (uuid_param roomId) userId) (messages (db w)) = Some x
    | Ok (None, _) | Err _ => db w1 = db w
    end) w.
Proof.
  unfold createMessage, touchRoom. cbv zeta. do 6 wp_step. wp_step.
  - intros _. destruct (nonempty_id key) as [k|] eqn:Ek; [|by wp_step].
    assert (key = Some k) as -> by (destruct key as [[|]|]; simpl in Ek; congruence).
    do 3 wp_step. destruct (first _ _) as [x|] eqn:E; [|done]. split_and!; [done..|]. eauto.
  - intros Hno. apply wp_insert; [intros _ _|by intros..]. do 5 wp_step. wp_step. split; [done|].
    split_and!; [by split|done|done|by eexists|]. intros k ->. apply first_None. intros r Hr.
    rewrite existsb_false in Hno. specialize (Hno r Hr). by erewrite (key_conflict _ roomId userId k) in Hno by (by split).
Qed.

Lemma wp_message_replayed key roomId userId w :
  wp (replayed key roomId userId) (fun r w1 => w1 = w /\ match r with
    | Ok (Some x) => messages.deletedAt x = None /\
        exists k, key = Some k /\ first (keyed k (uuid_param roomId) userId) (messages (db w)) = Some x
    | Ok None => forall k, key = Some k -> first (keyed k (uuid_param roomId) userId) (messages (db w)) = None
    | Err _ => True
    end) w.
Proof.
  unfold replayed, findMessageByIdempotencyKey. destruct key as [k|]; [|by wp_step]. do 2 wp_step.
  destruct (first _ _) as [x|] eqn:E; [|wp_step; split; [done|]; by intros k' [= <-]].
  wp_step. wp_step; intros Hd; [|done]. wp_step. split_and!; [done| |by eauto]. by apply is_null_true in Hd.
Qed.

(** What a send comes to. *)
Definition send_outcome (userId : jstr) (input : SendChatMessageInput) (d d' : Db) (m : ChatMessagePayload) : Prop :=
  exists x, m = rowToMessage x /\ messages.deletedAt x = None /\
    sent_as (si_roomId input) userId (trim <$> si_idempotencyKey input) x /\
    ((messages.text x = trim (si_text input) /\ (exists now, posted x now d ≈db d') /\
      (forall k, si_idempotencyKey input = Some k ->
         first (keyed (trim k) (uuid_param (si_roomId input)) userId) (messages d) = None))
     \/ (d' = d /\ exists k, si_idempotencyKey input = Some k /\
          first (keyed (trim k) (uuid_param (si_roomId input)) userId) (messages d) = Some x)).
Lemma wp_sendMessage userId input w :
  wp (sendMessage userId input) (fun r w1 => match r with
    | Ok m => is_member (db w) (si_roomId input) userId = true /\ opt_ref valid_key (si_idempotencyKey input) = true /\
        send_outcome userId input (db w) (db w1) m
    | Err _ => db w1 = db w /\ effects w1 = effects w
    end) w.
Proof.
  assert (forall k, trim <$> si_idempotencyKey input = Some k -> exists s, si_idempotencyKey input = Some s /\ k = trim s) as Hsome.
  { intros k Hk. destruct (si_idempotencyKey input) as [s|]; [|done]. injection Hk as <-. eauto. }
  unfold sendMessage, validateUuid. wp_step. apply wp_message_text; [intros Htext|done]. wp_step. wp_step; [intros _|done].
  wp_step. apply wp_requireRoomMember; [intros Hm|done]. wp_step. apply wp_validateKey; [intros Hkey|done].
  wp_step. eapply wp_mono; [apply wp_message_replayed|]. intros [[x|]|e] w1 [-> Hrep]; [| |done].
  { destruct Hrep as (Hd & k & Hk & Hf). destruct (Hsome k Hk) as (s & Hs & ->). wp_step. split_and!; [done..|].
    exists x. split_and!; [done..| |right; split; [done|]; by exists s].
    apply first_Some in Hf as [_ Hf%keyed_spec]. by rewrite Hs. }
  unfold activeMessageCount. do 3 wp_step. wp_step; [intros _|done]. wp_step.
  eapply wp_mono; [apply wp_createMessage|]. intros [[[x|] b]|e] w2 [Heff Hc]; cbv beta iota; simpl fst; simpl snd; [|by wp_step|by split].
  destruct b.
  - destruct Hc as (Hsa & Htx & Hd & (now & E) & Hno). wp_step. rewrite Hd. simpl. wp_step. unfold publishMessageEvent.
    do 3 wp_step. eapply wp_mono; [apply wp_notifyMembers|]. intros r w3 [-> E3]. wp_step. split_and!; [done..|].
    exists x. split_and!; [done..|]. left. split_and!; [done| |].
    + exists now. by rewrite <- E.
    + intros k Hk. apply Hno. by rewrite Hk.
  - destruct Hc as (E & k & Hk & Hf). by rewrite (Hrep k Hk) in Hf.
Qed.

(** Sending again under the same key. *)
Lemma wp_send_again userId input x s w :
  is_member (db w) (si_roomId input) userId = true -> matchb UUID_PATTERN (si_roomId input) = true ->
  valid_text (si_text input) = true -> si_idempotencyKey input = Some s -> valid_key s = true -> messages.deletedAt x = None ->
  first (keyed (trim s) (uuid_param (si_roomId input)) userId) (messages (db w)) = Some x ->
  wp (sendMessage userId input) (fun r w1 => r = Ok (rowToMessage x) /\ w1 = w) w.
Proof.
  intros Hm Hu Ht Hs Hk Hd Hf. unfold sendMessage, validateUuid. wp_step.
  apply wp_message_text; [intros _|by rewrite Ht]. rewrite Hu. wp_step. simpl. do 2 wp_step.
  apply wp_requireRoomMember; [intros _|by rewrite Hm]. wp_step. rewrite Hs. apply wp_validateKey; [intros _|intros e; simpl; by rewrite Hk].
  wp_step. simpl. unfold findMessageByIdempotencyKey. do 2 wp_step. rewrite Hf. wp_step. rewrite Hd. simpl. wp_step. wp_step. by wp_step.
Qed.

(** The key of a message that was answered with finds it again. *)
Lemma outcome_found userId input d d' m s :
  send_outcome userId input d d' m -> si_idempotencyKey input = Some s -> is_member d (si_roomId input) userId = true ->
  is_member d' (si_roomId input) userId = true /\
  exists x, m = rowToMessage x /\ messages.deletedAt x = None /\
    first (keyed (trim s) (uuid_param (si_roomId input)) userId) (messages d') = Some x.
Proof.
  intros (x & -> & Hd & Hsa & Hx) Hs Hm. rewrite Hs in Hsa. simpl in Hsa.
  destruct Hx as [(_ & (now & E) & Hno)|[-> (s' & Hs' & Hf)]].
  - unfold is_member in *. rewrite <- (db_same_table roomMembers _ _ E), <- (db_same_table messages _ _ E). simpl.
    split; [done|]. exists x. split_and!; [done..|]. rewrite first_app, (Hno s Hs), first_cons.
    assert (keyed (trim s) (uuid_param (si_roomId input)) userId x = true) as -> by (by apply keyed_spec). done.
  - rewrite Hs in Hs'. injection Hs' as <-. eauto.
Qed.

(** C35: a message is sent once.  A send that fails changes nothing and tells
    nobody; one that succeeds was made by a member of the room and answers with a
    live message of that user under that key, either the one stored before or
    exactly one new message with the trimmed text, which besides notifications
    is all that changes but the time of the room; and sending again under the
    same key, with whatever text, answers the same and does nothing. *)
Theorem message_sent_once userId input w w1 r :
  sendMessage userId input w = (w1, r) ->
  match r with
  | Err _ => db w1 = db w /\ effects w1 = effects w
  | Ok m =>
      is_member (db w) (si_roomId input) userId = true /\ send_outcome userId input (db w) (db w1) m /\
      forall s input' s' w2 r2,
        si_idempotencyKey input = Some s -> si_idempotencyKey input' = Some s' -> trim s' = trim s ->
        uuid_param (si_roomId input') = uuid_param (si_roomId input) -> matchb UUID_PATTERN (si_roomId input') = true ->
        valid_text (si_text input') = true -> sendMessage userId input' w1 = (w2, r2) -> r2 = Ok m /\ w2 = w1
  end.
Proof.
  intros E. pose proof (wp_run _ _ _ _ _ E (wp_sendMessage userId input w)) as Hr. cbv beta in Hr.
  destruct r as [m|e]; [|done]. destruct Hr as (Hm & Hkey & Hout). split_and!; [done..|].
  intros s input' s' w2 r2 Hs Hs' Htrim Hroom Hu Ht E2.
  destruct (outcome_found _ _ _ _ _ _ Hout Hs Hm) as (Hm1 & x & -> & Hd & Hf). rewrite Hs in Hkey. simpl in Hkey.
  refine (wp_run _ _ _ _ _ E2 (wp_send_again userId input' x s' w1 _ Hu Ht Hs' _ Hd _)).
  - unfold is_member. by rewrite Hroom.
  - unfold valid_key. by rewrite Htrim.
  - by rewrite Hroom, Htrim.
Qed.
End theorems.

(** * Witness *)

Section witnesses.
Local Existing Instances test_env test_notifications.

Definition ROOM : jstr := js "0c0ffee0-0000-4000-8000-000000000003".
Definition chat_world : World := world_of (test_db
  <| rooms := [rooms.mkRoom ROOM (js "room") (to_column T0) (to_column T0)] |>
  <| roomMembers := [roomMembers.mkRoomMember ROOM ALICE (to_column T0); roomMembers.mkRoomMember ROOM BOB (to_column T0)] |>).
Definition hello : SendChatMessageInput := mkSendInput ROOM (js " hello ") (Some (js "k1")).
(** The retry spells the room in capitals and has another text. *)
Definition hello_again : SendChatMessageInput := mkSendInput (toUpperCase ROOM) (js "hello?") (Some (js " k1 ")).
Definition sent_hello : World * Result ChatMessagePayload := sendMessage ALICE hello chat_world.
Definition no_message : ChatMessagePayload := mkChatMessage [] [] None [] None [].

Example bob_is_notified : map notifications.userId (notifications (db sent_hello.1)) = [BOB].
Proof. vm_compute. reflexivity. Qed.

Lemma message_sent_once_witness : exists w1 m,
  sendMessage ALICE hello chat_world = (w1, Ok m) /\ sendMessage ALICE hello_again w1 = (w1, Ok m).
Proof.
  assert (is_ok (sendMessage ALICE hello chat_world).2) as Hok by exact I.
  pose proof (run_answer (sendMessage ALICE hello) chat_world no_message Hok) as E.
  destruct (message_sent_once _ _ _ _ _ E) as (_ & _ & Hagain).
  exists (sendMessage ALICE hello chat_world).1, (answer no_message (sendMessage ALICE hello chat_world).2).
  split; [exact E|].
  destruct (Hagain (js "k1") hello_again (js " k1 ") _ _ eq_refl eq_refl eq_refl eq_refl eq_refl eq_refl (surjective_pairing _)) as [Hr Hw].
  rewrite <- Hr. rewrite <- Hw at 2. exact (surjective_pairing _).
Defined.
End witnesses.
