(* ===== verification/Community.v ===== *)
(** The community board: posts, comments and reports, created under keys the
    client chooses (community.service.ts, community.repository.ts,
    community.types.ts). *)
From S2P Require Import Prelude JsString JsDate Libraries Schema World Constraints NotificationApi.
Local Open Scope Z_scope.

Definition DEFAULT_COMMUNITY_NAME : jstr := js "익명".
Definition TITLE_MAX_LENGTH : nat := 80.
Definition BODY_MAX_LENGTH : nat := 1000.
Definition COMMENT_MAX_LENGTH : nat := 500.
Definition REPORT_REASON_MAX_LENGTH : nat := 120.

Record CommunityPostPayload := mkPostPayload {
  pp_id : jstr; pp_authorName : jstr; pp_title : jstr; pp_body : jstr; pp_commentCount : Z; pp_createdAt : jstr
}.
Record CommunityCommentPayload := mkCommentPayload {
  ccp_id : jstr; ccp_postId : jstr; ccp_authorName : jstr; ccp_body : jstr; ccp_createdAt : jstr
}.
Record CreateCommunityPostInput := mkPostInput { pi_idempotencyKey : jstr; pi_title : jstr; pi_body : jstr }.

(** * Rows as the service shows them *)

Definition rowToPost (row : CommunityPost) (authorName : jstr) (commentCount : Z) : CommunityPostPayload :=
  mkPostPayload (communityPosts.id row) authorName (communityPosts.title row) (communityPosts.body row) commentCount
    (toISOString (of_column (communityPosts.createdAt row))).
Definition rowToComment (row : CommunityComment) (authorName : jstr) : CommunityCommentPayload :=
  mkCommentPayload (communityComments.id row) (communityComments.postId row) authorName (communityComments.body row)
    (toISOString (of_column (communityComments.createdAt row))).

(** * The repository *)

Section repository.
Context `{Env}.

(** [coalesce(community_profiles.name, '익명')] *)
Definition author_name (d : Db) (userId : jstr) : jstr :=
  default DEFAULT_COMMUNITY_NAME (communityProfiles.name <$> first (fun r => communityProfiles.userId r =?? userId) (communityProfiles d)).

Definition newest_post (a b : CommunityPost) : bool :=
  (communityPosts.createdAt b <? communityPosts.createdAt a)
  || ((communityPosts.createdAt a =? communityPosts.createdAt b) && negb (str_ltb (communityPosts.id a) (communityPosts.id b))).
Definition comment_of (postId : jstr) (r : CommunityComment) : bool :=
  (communityComments.postId r =?? postId) && is_null (communityComments.deletedAt r).
Definition repo_posts : M (list CommunityPostPayload) :=
  d ← get_db;
  mret (map (fun r => rowToPost r (author_name d (communityPosts.authorUserId r))
                        (countw (comment_of (communityPosts.id r)) (communityComments d)))
          (take 50 (order_by newest_post (sel (fun r => is_null (communityPosts.deletedAt r)) (communityPosts d))))).

Definition oldest_comment (a b : CommunityComment) : bool :=
  (communityComments.createdAt a <? communityComments.createdAt b)
  || ((communityComments.createdAt a =? communityComments.createdAt b)
      && negb (str_ltb (communityComments.id b) (communityComments.id a))).
Definition repo_comments (postId : jstr) : M (list CommunityCommentPayload) :=
  d ← get_db;
  mret (map (fun r => rowToComment r (author_name d (communityComments.authorUserId r)))
          (take 100 (order_by oldest_comment (sel (comment_of (uuid_param postId)) (communityComments d))))).

(** The stored post is the one asked for. *)
Definition same_post (userId title body : jstr) (r : CommunityPost) : bool :=
  (communityPosts.authorUserId r =?? userId) && (communityPosts.title r =?? title) && (communityPosts.body r =?? body)
  && is_null (communityPosts.deletedAt r).
Definition repo_createPost (id userId title body : jstr) : M (CommunityPost * bool) :=
  let id := uuid_param id in
  now ← clock_timestamp;
  inserted ← insertOrNothing communityPosts communityPosts_conflict
    (communityPosts.mkCommunityPost id (uuid_param userId) title body None now now);
  match inserted with
  | Some post => mret (post, true)
  | None =>
      replayedPost ← findFirst communityPosts (fun r => communityPosts.id r =?? id);
      match replayedPost with
      | Some post =>
          require (same_post userId title body post) PlainError (js "COMMUNITY_POST_IDEMPOTENCY_KEY_ALREADY_USED") ;;
          mret (post, false)
      | None => throw PlainError (js "COMMUNITY_POST_IDEMPOTENCY_KEY_ALREADY_USED")
      end
  end.
Definition findPost (postId : jstr) : M (option CommunityPost) :=
  findFirst communityPosts (fun r => (communityPosts.id r =?? uuid_param postId) && is_null (communityPosts.deletedAt r)).

(** The comparison with the stored row takes the post's id as it was given. *)
Definition same_comment (userId postId body : jstr) (r : CommunityComment) : bool :=
  (communityComments.authorUserId r =?? userId) && (communityComments.postId r =?? postId)
  && (communityComments.body r =?? body) && is_null (communityComments.deletedAt r).
Definition repo_createComment (id userId postId body : jstr) : M (CommunityComment * bool) :=
  let id := uuid_param id in
  now ← clock_timestamp;
  inserted ← insertOrNothing communityComments communityComments_conflict
    (communityComments.mkCommunityComment id (uuid_param postId) (uuid_param userId) body None now now);
  match inserted with
  | Some comment => mret (comment, true)
  | None =>
      replayedComment ← findFirst communityComments (fun r => communityComments.id r =?? id);
      match replayedComment with
      | Some comment =>
          require (same_comment userId postId body comment) PlainError (js "COMMUNITY_COMMENT_IDEMPOTENCY_KEY_ALREADY_USED") ;;
          mret (comment, false)
      | None => throw PlainError (js "COMMUNITY_COMMENT_IDEMPOTENCY_KEY_ALREADY_USED")
      end
  end.
Definition findComment (commentId : jstr) : M (option CommunityComment) :=
  findFirst communityComments
    (fun r => (communityComments.id r =?? uuid_param commentId) && is_null (communityComments.deletedAt r)).

Definition repo_reportPost (userId postId reason : jstr) : M unit :=
  updatedAt ← Date_now;
  id ← randomUUID;
  now ← clock_timestamp;
  insertOrUpdate communityPostReports communityPostReports_pair
    (fun r => r <| communityPostReports.reason := reason |> <| communityPostReports.createdAt := to_column updatedAt |>)
    (fun _ => true)
    (communityPostReports.mkCommunityPostReport id (uuid_param postId) (uuid_param userId) reason now) ;;
  mret tt.
Definition repo_reportComment (userId commentId reason : jstr) : M unit :=
  updatedAt ← Date_now;
  id ← randomUUID;
  now ← clock_timestamp;
  insertOrUpdate communityCommentReports communityCommentReports_pair
    (fun r => r <| communityCommentReports.reason := reason |> <| communityCommentReports.createdAt := to_column updatedAt |>)
    (fun _ => true)
    (communityCommentReports.mkCommunityCommentReport id (uuid_param commentId) (uuid_param userId) reason now) ;;
  mret tt.
Definition findProfile (userId : jstr) : M (option CommunityProfile) :=
  findFirst communityProfiles (fun r => communityProfiles.userId r =?? uuid_param userId).
End repository.

(** * The service *)

Section service.
Context `{Env} `{NotificationService}.

Definition validateUuid (input error : jstr) : M unit := require (matchb UUID_PATTERN input) PlainError error.
Definition validateText (input : jstr) (maxLength : nat) (field : jstr) : M jstr :=
  let value := trim input in
  require (negb (value =?? [])) PlainError (field ++ js "_REQUIRED") ;;
  require (Nat.leb (length value) maxLength) PlainError (field ++ js "_TOO_LONG") ;;
  mret value.

Definition posts : M (list CommunityPostPayload) := repo_posts.
Definition comments (postId : jstr) : M (list CommunityCommentPayload) :=
  validateUuid postId (js "COMMUNITY_POST_ID_INVALID") ;;
  repo_comments postId.

Definition authorName (userId : jstr) : M jstr :=
  profile ← findProfile userId;
  mret (default DEFAULT_COMMUNITY_NAME (communityProfiles.name <$> profile)).

Definition createPost (userId : jstr) (input : CreateCommunityPostInput) : M CommunityPostPayload :=
  validateUuid userId (js "USER_ID_INVALID") ;;
  validateUuid (pi_idempotencyKey input) (js "COMMUNITY_POST_IDEMPOTENCY_KEY_INVALID") ;;
  title ← validateText (pi_title input) TITLE_MAX_LENGTH (js "COMMUNITY_TITLE");
  body ← validateText (pi_body input) BODY_MAX_LENGTH (js "COMMUNITY_BODY");
  name ← authorName userId;
  result ← repo_createPost (pi_idempotencyKey input) userId title body;
  mret (rowToPost result.1 name 0).

(** A failed notification is logged and forgotten. *)
Definition notifyAuthor (post : CommunityPost) (postId : jstr) (comment : CommunityComment) : M unit :=
  try_catch
    (notify (mkCreateNotificationInput (communityPosts.authorUserId post) comment_notification (js "새 댓글이 달렸어요")
               (js "내 글에 남긴 댓글을 확인해 보세요.") (Some (js "/community/" ++ postId)) (Some (communityComments.id comment))) ;;
     mret tt)
    (fun _ => mret tt).

Definition createComment (userId postId body idempotencyKey : jstr) : M CommunityCommentPayload :=
  validateUuid userId (js "USER_ID_INVALID") ;;
  validateUuid postId (js "COMMUNITY_POST_ID_INVALID") ;;
  validateUuid idempotencyKey (js "COMMUNITY_COMMENT_IDEMPOTENCY_KEY_INVALID") ;;
  post ← findPost postId;
  match post with
  | None => throw PlainError (js "COMMUNITY_POST_NOT_FOUND")
  | Some post =>
      name ← authorName userId;
      body ← validateText body COMMENT_MAX_LENGTH (js "COMMUNITY_COMMENT");
      result ← repo_createComment idempotencyKey userId postId body;
      (if (result.2 : bool) && negb (communityPosts.authorUserId post =?? userId)
       then notifyAuthor post postId result.1 else mret tt) ;;
      mret (rowToComment result.1 name)
  end.

Definition reportPost (userId postId reason : jstr) : M bool :=
  validateUuid userId (js "USER_ID_INVALID") ;;
  validateUuid postId (js "COMMUNITY_POST_ID_INVALID") ;;
  reason ← validateText reason REPORT_REASON_MAX_LENGTH (js "COMMUNITY_REPORT_REASON");
  repo_reportPost userId postId reason ;;
  mret true.

Definition reportComment (userId commentId reason : jstr) : M bool :=
  validateUuid userId (js "USER_ID_INVALID") ;;
  validateUuid commentId (js "COMMUNITY_COMMENT_ID_INVALID") ;;
  comment ← findComment commentId;
  require (is_not_null comment) PlainError (js "COMMUNITY_COMMENT_NOT_FOUND") ;;
  reason ← validateText reason REPORT_REASON_MAX_LENGTH (js "COMMUNITY_REPORT_REASON");
  repo_reportComment userId commentId reason ;;
  mret true.
End service.
