(* ===== verification/CommunityProofs.v ===== *)
(** The community board: a comment is created once under its key. *)
From S2P Require Import Prelude JsString JsDate Libraries Schema World Constraints NotificationApi Fixtures Community.
Local Open Scope Z_scope.

Section theorems.
Context `{Env} `{NotificationService}.

Definition valid_text (s : jstr) (n : nat) : bool := negb (trim s =?? []) && Nat.leb (length (trim s)) n.
Lemma wp_board_text s n field (Q : Result jstr -> World -> Prop) w :
  (valid_text s n = true -> Q (Ok (trim s)) w) -> (forall e, valid_text s n = false -> Q (Err e) w) ->
  wp (validateText s n field) Q w.
Proof.
  unfold validateText, valid_text. cbv zeta. intros Ht Hf. wp_step. wp_step; intros E1; [|by apply Hf; rewrite E1].
  wp_step. wp_step; intros E2; [|by apply Hf; rewrite E1, E2]. wp_step. apply Ht. by rewrite E1, E2.
Qed.

(** The live post of an id, the comment of a key, the name of an author. *)
Definition live_post (d : Db) (postId : jstr) : option CommunityPost :=
  first (fun r => (communityPosts.id r =?? uuid_param postId) && is_null (communityPosts.deletedAt r)) (communityPosts d).
Definition comment_at (d : Db) (key : jstr) : option CommunityComment :=
  first (fun r => communityComments.id r =?? uuid_param key) (communityComments d).
Definition name_of (d : Db) (userId : jstr) : jstr :=
  default DEFAULT_COMMUNITY_NAME (communityProfiles.name <$> first (fun r => communityProfiles.userId r =?? uuid_param userId) (communityProfiles d)).
Definition KEY_USED : Exn := mkExn PlainError (js "COMMUNITY_COMMENT_IDEMPOTENCY_KEY_ALREADY_USED").
Definition comments_add (x : CommunityComment) (d : Db) : Db := d <| communityComments ::= fun l => l ++ [x] |>.

Lemma comment_conflict_id x d key :
  communityComments.id x = uuid_param key ->
  existsb (communityComments_conflict x) (communityComments d) = false -> comment_at d key = None.
Proof.
  intros Hx Hc. apply first_None. intros r Hr. rewrite existsb_false in Hc. specialize (Hc r Hr).
  unfold communityComments_conflict in Hc. rewrite Hx in Hc. apply bool_decide_eq_false in Hc. by apply bool_decide_eq_false.
Qed.

(** Storing a comment: a new row, or the row of the key when it is the same. *)
Lemma wp_repo_createComment key userId postId body w :
  wp (repo_createComment key userId postId body) (fun r w1 => effects w1 = effects w /\ match r with
    | Ok (x, true) => comment_at (db w) key = None /\ communityComments.id x = uuid_param key /\
        communityComments.postId x = uuid_param postId /\ communityComments.authorUserId x = uuid_param userId /\
        communityComments.body x = body /\ communityComments.deletedAt x = None /\ db w1 = comments_add x (db w)
    | Ok (x, false) => db w1 = db w /\ comment_at (db w) key = Some x /\ same_comment userId postId body x = true
    | Err _ => db w1 = db w
    end) w.
Proof.
  unfold repo_createComment. cbv zeta. do 3 wp_step. wp_step; intros Hc.
  - do 2 wp_step. fold (comment_at (db w) key). destruct (first _ _) as [x|] eqn:E; [|by wp_step].
    wp_step. wp_step; intros Hs; [|done]. wp_step. done.
  - apply wp_insert; [intros _ _|by intros..]. wp_step. split_and!; try done. by refine (comment_conflict_id _ (db w) key _ Hc).
Qed.

(** What the post's author is told. *)
Definition comment_notice (post : CommunityPost) (postId : jstr) (x : CommunityComment) : CreateNotificationInput :=
  {| n_userId := communityPosts.authorUserId post; n_type := comment_notification;
     n_title := js "새 댓글이 달렸어요"; n_body := js "내 글에 남긴 댓글을 확인해 보세요.";
     n_route := Some (js "/community/" ++ postId); n_sourceId := Some (communityComments.id x) |}.
(** What a request stores: a new comment, and then what the notification service
    does with the notice when the post is another user's; or nothing. *)
Definition comment_stored (userId postId body key : jstr) (w w' : World) (x : CommunityComment) : Prop :=
  (comment_at (db w) key = None /\ communityComments.id x = uuid_param key /\
     communityComments.postId x = uuid_param postId /\ communityComments.authorUserId x = uuid_param userId /\
     communityComments.body x = trim body /\ communityComments.deletedAt x = None /\
     exists post w0, live_post (db w) postId = Some post /\ db w0 = comments_add x (db w) /\ effects w0 = effects w /\
       w' = if communityPosts.authorUserId post =?? userId then w0 else (notify (comment_notice post postId x) w0).1)
  \/ (db w' = db w /\ effects w' = effects w /\ comment_at (db w) key = Some x /\
      same_comment userId postId (trim body) x = true).

Lemma wp_notifyAuthor post postId x w :
  wp (notifyAuthor post postId x) (fun r w' => r = Ok tt /\ w' = (notify (comment_notice post postId x) w).1) w.
Proof.
  unfold notifyAuthor. do 2 wp_step. apply run_wp. intros w' [n|e] E; fold (comment_notice post postId x) in E; rewrite E; by wp_step.
Qed.
(** The notification leaves the comment where it is. *)
Lemma stored_frame userId postId body key w w' x :
  comment_stored userId postId body key w w' x ->
  (comment_at (db w) key = None /\ communityComments.id x = uuid_param key /\ comments_add x (db w) ≈db db w')
  \/ (db w' = db w /\ comment_at (db w) key = Some x).
Proof.
  intros [(Hno & Hid & _ & _ & _ & _ & post & w0 & _ & E0 & _ & ->)|(E & _ & Hx & _)]; [left|by right]. split_and!; [done..|].
  rewrite <- E0. destruct (_ =?? _); [reflexivity|]. exact (notify_frame _ _ _ _ (surjective_pairing _)).
Qed.

Definition valid_comment (userId postId body key : jstr) : bool :=
  matchb UUID_PATTERN userId && matchb UUID_PATTERN postId && matchb UUID_PATTERN key && valid_text body COMMENT_MAX_LENGTH.
Lemma wp_createComment userId postId body key w :
  wp (createComment userId postId body key) (fun r w1 => match r with
    | Err _ => db w1 = db w /\ effects w1 = effects w
    | Ok p => valid_comment userId postId body key = true /\ is_Some (live_post (db w) postId) /\
        exists x, p = rowToComment x (name_of (db w) userId) /\ comment_stored userId postId body key w w1 x
    end) w.
Proof.
  unfold createComment, validateUuid, valid_comment. wp_step. wp_step; intros Hu; [|done]. wp_step. wp_step; intros Hp; [|done].
  wp_step. wp_step; intros Hk; [|done]. unfold findPost. do 2 wp_step. fold (live_post (db w) postId).
  destruct (live_post (db w) postId) as [post|] eqn:Epost; [|by wp_step]. unfold authorName, findProfile. do 4 wp_step.
  fold (name_of (db w) userId). wp_step. apply wp_board_text; [intros Ht|done].
  wp_step. eapply wp_mono; [apply wp_repo_createComment|]. intros [[x new]|e] w1 [Heff Hx]; [|done]. simpl.
  rewrite Hu, Hp, Hk, Ht. destruct new; simpl.
  - destruct Hx as (Hno & Hid & Hpo & Hau & Hb & Hd & E). destruct (communityPosts.authorUserId post =?? userId) eqn:Ea; simpl.
    + do 3 wp_step. split_and!; [done..|]. exists x. split; [done|]. left. split_and!; [done..|]. exists post, w1. by rewrite Ea.
    + wp_step. eapply wp_mono; [apply wp_notifyAuthor|]. intros r w2 [-> E2]. wp_step. split_and!; [done..|]. exists x. split; [done|].
      left. split_and!; [done..|]. exists post, w1. by rewrite Ea.
  - destruct Hx as (E & Hx & Hs). do 3 wp_step. split_and!; [done..|]. exists x. split; [done|]. by right.
Qed.

(** The key is taken: the stored comment, when it is the one asked for. *)
Lemma wp_comment_again userId postId body key x post w :
  valid_comment userId postId body key = true -> live_post (db w) postId = Some post -> comment_at (db w) key = Some x ->
  wp (createComment userId postId body key) (fun r w1 => db w1 = db w /\ effects w1 = effects w /\
    r = if same_comment userId postId (trim body) x then Ok (rowToComment x (name_of (db w) userId)) else Err KEY_USED) w.
Proof.
  unfold valid_comment. rewrite !andb_true_iff. intros [[[Hu Hp] Hk] Ht] Hpost Hx.
  unfold createComment, validateUuid. rewrite Hu, Hp, Hk. simpl. do 6 wp_step. unfold findPost. do 2 wp_step.
  fold (live_post (db w) postId). rewrite Hpost. unfold authorName, findProfile. do 4 wp_step. fold (name_of (db w) userId).
  wp_step. apply wp_board_text; [intros _|by rewrite Ht]. wp_step. unfold repo_createComment. cbv zeta. do 3 wp_step.
  assert (existsb (communityComments_conflict (communityComments.mkCommunityComment (uuid_param key) (uuid_param postId)
    (uuid_param userId) (trim body) None (pg_clock (tick w)) (pg_clock (tick w)))) (communityComments (db w)) = true) as Hc.
  { apply existsb_true. apply first_Some in Hx as [Hin Hid%bool_decide_eq_true]. exists x. split; [done|].
    apply bool_decide_eq_true. by rewrite Hid. }
  wp_step; intros Hc'; [|by destruct (eq_true_false_abs _ Hc Hc')]. do 2 wp_step. match goal with |- context [first ?p ?l] => change (first p l) with (comment_at (db w) key) end. rewrite Hx.
  wp_step. wp_step; intros ->; [|done]. wp_step. simpl. wp_step. wp_step. by wp_step.
Qed.

(** A comment stored is found again under its key. *)
Lemma stored_found userId postId body key w w' x :
  comment_stored userId postId body key w w' x -> is_Some (live_post (db w) postId) ->
  is_Some (live_post (db w') postId) /\ comment_at (db w') key = Some x /\ name_of (db w') userId = name_of (db w) userId.
Proof.
  intros [(Hno & Hid & E)|(-> & Hx)]%stored_frame Hpost; [|done].
  unfold live_post, comment_at, name_of in *.
  rewrite <- (db_same_table communityPosts _ _ E), <- (db_same_table communityComments _ _ E), <- (db_same_table communityProfiles _ _ E).
  simpl. split_and!; [done| |done]. rewrite first_app, Hno, first_cons. by rewrite Hid, eqb_refl_true.
Qed.

(** C36: a comment is created once.  A request that fails changes nothing; one
    that succeeds answers with the comment of its key under a live post: either
    exactly one new row of the author, after which the notification service has
    been given the notice for the post's author exactly when that is another user
    (whatever the service answers), or the same comment stored before, and then
    nothing is written and nobody is told.  The same request again changes nothing
    and sends nothing; it answers the same when the first one found the comment
    stored, and for a new comment exactly when both ids were given in lower case,
    any other spelling being refused as a key used for something else. *)
Theorem comment_created_once userId postId body key w w1 r :
  createComment userId postId body key w = (w1, r) ->
  match r with
  | Err _ => db w1 = db w /\ effects w1 = effects w
  | Ok p =>
      is_Some (live_post (db w) postId) /\
      exists x, p = rowToComment x (name_of (db w) userId) /\ comment_stored userId postId body key w w1 x /\
        forall w2 r2, createComment userId postId body key w1 = (w2, r2) ->
          db w2 = db w1 /\ effects w2 = effects w1 /\
          r2 = (if same_comment userId postId (trim body) x then Ok p else Err KEY_USED) /\
          (same_comment userId postId (trim body) x = true <->
             db w1 = db w \/ (uuid_param userId = userId /\ uuid_param postId = postId))
  end.
Proof.
  intros E. pose proof (wp_run _ _ _ _ _ E (wp_createComment userId postId body key w)) as Hr. cbv beta in Hr.
  destruct r as [p|e]; [|done]. destruct Hr as (Hv & Hpost & x & -> & Hst). split; [done|]. exists x. split_and!; [done..|].
  intros w2 r2 E2. destruct (stored_found _ _ _ _ _ _ _ Hst Hpost) as ([post Hpost1] & Hx1 & Hname).
  destruct (wp_run _ _ _ _ _ E2 (wp_comment_again userId postId body key x post w1 Hv Hpost1 Hx1)) as (E3 & E4 & ->).
  rewrite Hname. split_and!; [done..|].
  destruct Hst as [(Hno & Hid & Hpo & Hau & Hb & Hd & _)|(E5 & _ & _ & Hs)]; [|rewrite E5; tauto].
  assert (db w1 <> db w) as Hne by (intros E5; by rewrite E5, Hno in Hx1).
  unfold same_comment. rewrite Hpo, Hau, Hb, Hd, !andb_true_iff, !bool_decide_eq_true. simpl. tauto.
Qed.
End theorems.

(** * Witness *)

Section witnesses.
Local Existing Instances test_env test_notifications.

Definition POST : jstr := js "0b10c000-0000-4000-8000-000000000004".
Definition KEY : jstr := js "0c0de000-0000-4000-8000-000000000005".
Definition board : World := world_of (test_db
  <| communityPosts := [communityPosts.mkCommunityPost POST BOB (js "title") (js "body") None (to_column T0) (to_column T0)] |>).
Definition no_comment : CommunityCommentPayload := mkCommentPayload [] [] [] [] [].

(** A retry that spells the post in capitals is refused. *)
Example uppercase_post_not_replayed :
  let w1 := (createComment ALICE (toUpperCase POST) (js "hi") KEY board).1 in
  (createComment ALICE (toUpperCase POST) (js "hi") KEY w1).2 = Err KEY_USED.
Proof. vm_compute. reflexivity. Qed.

Lemma comment_created_once_witness : exists w1 p,
  createComment ALICE POST (js " hi ") KEY board = (w1, Ok p) /\ length (communityComments (db w1)) = 1%nat /\
  (createComment ALICE POST (js " hi ") KEY w1).2 = Ok p.
Proof.
  assert (is_ok (createComment ALICE POST (js " hi ") KEY board).2) as Hok by exact I.
  pose proof (run_answer (createComment ALICE POST (js " hi ") KEY) board no_comment Hok) as E.
  destruct (comment_created_once _ _ _ _ _ _ _ E) as (_ & x & _ & _ & Hagain).
  eexists _, _. split; [exact E|]. split; [vm_compute; reflexivity|].
  destruct (Hagain _ _ (surjective_pairing _)) as (_ & _ & Hr & Hiff). rewrite Hr.
  assert (same_comment ALICE POST (trim (js " hi ")) x = true) as -> by (apply Hiff; right; split; vm_compute; reflexivity).
  reflexivity.
Defined.
End witnesses.
