(* ===== verification/Api.v ===== *)
(** The API: the operations the resolvers and controllers expose, the guards in
    front of them, and what they write on the response (modules/*/*.resolver.ts,
    *.controller.ts, guards/, strategys/, cookie-options.ts, app.module.ts).  The
    request is what Express hands on; passport-jwt is a parameter. *)
From stdpp Require Import gmap.
From S2P Require Import Prelude JsString JsDate Json Text Libraries Schema World Config NotificationApi AuthInput Auth User Phone Matching Notification Upload Chat Community Billing.
Local Open Scope Z_scope.

(** * Requests and responses *)

Record Request := mkRequest {
  rq_authorization : HeaderValue;
  rq_device_id : HeaderValue;
  rq_user_agent : option jstr;
  rq_ip : option jstr;
  rq_access_cookie : option jstr;
  rq_refresh_cookie : option jstr
}.
(** The request of a subscription: only the authorization of the connection. *)
Definition wsConnectionRequest (connectionParams : option (list (jstr * json))) : Request :=
  let authorization := match connectionParams with Some params => member (js "authorization") params | None => JUndefined end in
  mkRequest (HeaderText (if authorization is JString s then s else [])) HeaderMissing None None None None.

(** The cookies' options, read from the environment when the module is loaded. *)
Record CookieOptions := mkCookieOptions {
  httpOnly : bool; sameSite : jstr; secure : bool; domain : option jstr; path : jstr; maxAge : option Z
}.
Definition sameSite_ (env : Settings) : jstr :=
  match setting env (js "AUTH_COOKIE_SAMESITE") with
  | JString value => if bool_decide (value ∈ [js "strict"; js "lax"; js "none"]) then value else js "lax"
  | _ => js "lax"
  end.
Definition authCookieOptions (env : Settings) : CookieOptions :=
  mkCookieOptions true (sameSite_ env) (is_string (setting env (js "NODE_ENV")) (js "production"))
    (if setting env (js "AUTH_COOKIE_DOMAIN") is JString (_ :: _ as value) then Some value else None)
    (js "/") None.

Inductive ResponseAction :=
| SetHeader (name value : jstr)
| SetCookie (name value : jstr) (options : CookieOptions)
| ClearCookie (name : jstr) (options : CookieOptions).

(** passport-jwt: the bearer token of a header, and the payload of a token whose
    signature, expiry, audience and issuer it accepts at a time: the arguments are
    the time, the secret, the audience, the issuer and the token. *)
Class PassportJwt := {
  bearer_token : HeaderValue -> option jstr;
  verify_jwt : Z -> jstr -> jstr -> jstr -> jstr -> option json
}.

(** * Operations of a signed-in user *)

Record PhotoPayload := mkPhotoPayload { pp_id : jstr; pp_url : jstr; pp_position : Z }.
Record UserPayload := mkUserPayload {
  up_id : jstr; up_email : jstr; up_phone : option jstr; up_userName : jstr; up_gender : Gender; up_intro : jstr;
  up_birthDate : option jstr; up_region : option jstr; up_interestedGender : option InterestedGender;
  up_photos : list PhotoPayload; up_profileCompleted : bool
}.
Definition toUserPayload (user : UserWithPhotos) : UserPayload :=
  let u := profile_user user in
  mkUserPayload (users.userId u) (users.email u) (users.phone u) (users.userName u) (users.gender u) (users.intro u)
    (users.birthDate u) (users.region u) (users.interestedGender u)
    (map (fun photo => mkPhotoPayload (default (userProfilePhotos.id photo) (userProfilePhotos.uploadId photo))
                         (userProfilePhotos.url photo) (userProfilePhotos.position photo)) (profile_photos user))
    (is_not_null (users.profileCompletedAt u) && Nat.leb 1 (length (profile_photos user))).

(** One type of operations per resolver, indexed by what they answer. *)
Inductive AccountOp : Type -> Type :=
| Me : AccountOp UserPayload
| CurrentSubscription : AccountOp jstr
| UpdateUserProfile (input : UpdateUserProfileInput) : AccountOp UserPayload
| RequestAccountDeletion : AccountOp AccountDeletionPayload.
Inductive MatchingOp : Type -> Type :=
| MatchCandidates : MatchingOp (list MatchCandidatePayload)
| LikedMeCandidates : MatchingOp (list MatchCandidatePayload)
| LikeUser (userId : jstr) : MatchingOp LikeUserPayload
| SkipMatchCandidate (userId : jstr) : MatchingOp bool
| SuperLikeUser (userId : jstr) : MatchingOp LikeUserPayload
| UndoLastMatchAction : MatchingOp UndoMatchActionPayload
| ActivateBoost : MatchingOp BoostPayload.
Inductive NotificationOp : Type -> Type :=
| Notifications : NotificationOp (list NotificationView)
| MarkNotificationRead (notificationId : jstr) : NotificationOp bool
| RegisterPushToken (token platform : jstr) : NotificationOp bool
| UnregisterPushToken : NotificationOp bool.
Inductive UploadOp : Type -> Type :=
| CreateUpload (filename contentType : jstr) (sizeBytes : Z) : UploadOp CreateUploadPayload
| FinalizeUpload (uploadId : jstr) : UploadOp VerifiedUploadPayload.
Inductive ChatOp : Type -> Type :=
| ChatRooms : ChatOp (list ChatRoomPayload)
| ChatMessages (input : ChatMessagesInput) : ChatOp (list ChatMessagePayload)
| ChatEvent (roomId : jstr) : ChatOp (option jstr -> bool)
| SendChatMessage (input : SendChatMessageInput) : ChatOp ChatMessagePayload
| EditChatMessage (input : EditChatMessageInput) : ChatOp ChatMessagePayload
| DeleteChatMessage (messageId : jstr) : ChatOp bool
| MarkChatRoomRead (roomId : jstr) : ChatOp bool
| BlockUser (userId : jstr) : ChatOp bool
| ReportChatMessage (messageId reason : jstr) : ChatOp bool.
Inductive CommunityOp : Type -> Type :=
| CommunityPosts : CommunityOp (list CommunityPostPayload)
| CommunityComments (postId : jstr) : CommunityOp (list CommunityCommentPayload)
| CreateCommunityPost (input : CreateCommunityPostInput) : CommunityOp CommunityPostPayload
| CreateCommunityComment (postId body idempotencyKey : jstr) : CommunityOp CommunityCommentPayload
| ReportCommunityPost (postId reason : jstr) : CommunityOp bool
| ReportCommunityComment (commentId reason : jstr) : CommunityOp bool.
Inductive BillingOp : Type -> Type :=
| ConsumableBalance : BillingOp BalancePayload.

Inductive UserOp (A : Type) :=
| InAccount (op : AccountOp A)
| InMatching (op : MatchingOp A)
| InNotification (op : NotificationOp A)
| InUpload (op : UploadOp A)
| InChat (op : ChatOp A)
| InCommunity (op : CommunityOp A)
| InBilling (op : BillingOp A).
Arguments InAccount {A}.
Arguments InMatching {A}.
Arguments InNotification {A}.
Arguments InUpload {A}.
Arguments InChat {A}.
Arguments InCommunity {A}.
Arguments InBilling {A}.

Section user_operations.
Context `{Env} `{ConfigService} `{UuidLib} `{ExpoClient} `{S3Client} `{ImageLib} `{UrlLib} `{NotificationService} `{PassportJwt}.

(** What each resolver does for the user of the token.  The subscription answers
    its filter, on the room of a published message. *)
Definition resolve_user {A} (userId : jstr) (op : AccountOp A) : M A :=
  match op with
  | Me => toUserPayload <$> User.profile userId
  | CurrentSubscription => User.currentSubscription userId
  | UpdateUserProfile input => toUserPayload <$> User.updateProfile userId input
  | RequestAccountDeletion => User.beginAccountDeletion userId
  end.
Definition resolve_matching {A} (userId : jstr) (op : MatchingOp A) : M A :=
  match op with
  | MatchCandidates => Matching.candidates userId
  | LikedMeCandidates => Matching.likedMeCandidates userId
  | LikeUser target => Matching.likeUser userId target
  | SkipMatchCandidate target => Matching.skipCandidate userId target
  | SuperLikeUser target => Matching.superLikeUser userId target
  | UndoLastMatchAction => Matching.undoLastAction userId
  | ActivateBoost => Matching.activateBoost userId
  end.
Definition resolve_notification {A} (req : Request) (userId : jstr) (op : NotificationOp A) : M A :=
  match op with
  | Notifications => Notification.list_ userId
  | MarkNotificationRead notificationId => Notification.markRead userId notificationId
  | RegisterPushToken token platform =>
      deviceId ← deviceIdFromRequest (rq_device_id req);
      Notification.registerPushToken userId deviceId token platform
  | UnregisterPushToken =>
      deviceId ← deviceIdFromRequest (rq_device_id req);
      Notification.unregisterPushToken userId deviceId
  end.
Definition resolve_upload {A} (userId : jstr) (op : UploadOp A) : M A :=
  match op with
  | CreateUpload filename contentType sizeBytes =>
      Upload.createUpload (mkCreateUpload userId filename contentType sizeBytes)
  | FinalizeUpload uploadId => Upload.finalizeUpload userId uploadId
  end.
Definition resolve_chat {A} (userId : jstr) (op : ChatOp A) : M A :=
  match op with
  | ChatRooms => Chat.chat_rooms userId
  | ChatMessages input => Chat.chat_messages userId input
  | ChatEvent roomId =>
      Chat.assertRoomMember roomId userId ;;
      mret (fun published => published =?? Some roomId)
  | SendChatMessage input => Chat.sendMessage userId input
  | EditChatMessage input => Chat.editMessage userId input
  | DeleteChatMessage messageId => Chat.deleteMessage userId messageId
  | MarkChatRoomRead roomId => Chat.markRoomRead userId roomId
  | BlockUser blocked => Chat.blockUser userId blocked
  | ReportChatMessage messageId reason => Chat.reportMessage userId messageId reason
  end.
Definition resolve_community {A} (userId : jstr) (op : CommunityOp A) : M A :=
  match op with
  | CommunityPosts => Community.posts
  | CommunityComments postId => Community.comments postId
  | CreateCommunityPost input => Community.createPost userId input
  | CreateCommunityComment postId body idempotencyKey => Community.createComment userId postId body idempotencyKey
  | ReportCommunityPost postId reason => Community.reportPost userId postId reason
  | ReportCommunityComment commentId reason => Community.reportComment userId commentId reason
  end.
Definition resolve_billing {A} (userId : jstr) (op : BillingOp A) : M A :=
  match op with
  | ConsumableBalance => Billing.balance userId
  end.
Definition resolve {A} (req : Request) (userId : jstr) (op : UserOp A) : M A :=
  match op with
  | InAccount op => resolve_user userId op
  | InMatching op => resolve_matching userId op
  | InNotification op => resolve_notification req userId op
  | InUpload op => resolve_upload userId op
  | InChat op => resolve_chat userId op
  | InCommunity op => resolve_community userId op
  | InBilling op => resolve_billing userId op
  end.

(** * The guards *)

(** The payload passport accepts, or 401. *)
Definition authenticated (secret : jstr) (token : option jstr) : M json :=
  match truthy token with
  | None => throw UnauthorizedException []
  | Some token =>
      now ← Date_now;
      match verify_jwt now secret AUTH_TOKEN_AUDIENCE AUTH_TOKEN_ISSUER token with
      | None => throw UnauthorizedException []
      | Some payload => mret payload
      end
  end.

Definition access_token_of (req : Request) : option jstr :=
  if bearer_token (rq_authorization req) is Some token then Some token else rq_access_cookie req.
(** [JwtAccessTokenGuard]: the user of the request. *)
Definition accessGuard (req : Request) : M jstr :=
  secret ← getOrThrow (config_string (js "JWT_ACCESS_TOKEN_SECRET"));
  payload ← authenticated secret (access_token_of req);
  accessTokenValidate payload.
(** [JwtRefreshTokenGuard]: the claims and the session they were validated for. *)
Definition refreshGuard (req : Request) : M (RefreshTokenClaims * RefreshToken) :=
  secret ← getOrThrow (config_string (js "JWT_REFRESH_TOKEN_SECRET"));
  payload ← authenticated secret (refreshTokenFromRequest (rq_authorization req) (rq_refresh_cookie req));
  refreshTokenValidate (rq_authorization req) (rq_refresh_cookie req) payload.

Definition handle {A} (req : Request) (op : UserOp A) : M A :=
  userId ← accessGuard req;
  resolve req userId op.
End user_operations.

(** * Sessions and sign-up *)

Inductive AuthOp : Type -> Type :=
| LoginWithKakao (accessToken : jstr) : AuthOp KakaoLogin
| Refresh : AuthOp TokenPayload
| Logout : AuthOp bool.
Inductive PhoneOp : Type -> Type :=
| RequestPhoneCode (input : RequestPhoneCodeInput) : PhoneOp bool
| VerifyPhoneCode (input : VerifyPhoneCodeInput) : PhoneOp VerifyPhoneCodePayload
| CompletePhoneSignup (input : CompletePhoneSignupInput) : PhoneOp TokenPayload
| CompleteKakaoPhoneSignup (input : CompleteKakaoPhoneSignupInput) : PhoneOp TokenPayload
| ResetPasswordWithPhone (input : ResetPasswordWithPhoneInput) : PhoneOp bool.

Section session_operations.
Context `{Env} `{ConfigService} `{JwtService} `{QueryErrors} `{UuidLib} `{KakaoApi} `{SmsSender} `{PassportJwt}.
Context (cookies : CookieOptions).

Definition setTokenCookies (tokenData : TokenPayload) : list ResponseAction :=
  [SetHeader (js "Authorization") (js "Bearer " ++ accessToken tokenData);
   SetCookie (js "access_token") (accessToken tokenData) cookies;
   SetCookie (js "refresh_token") (refreshToken tokenData) cookies].
Definition with_cookies (operation : M TokenPayload) : M (TokenPayload * list ResponseAction) :=
  tokenData ← operation;
  mret (tokenData, setTokenCookies tokenData).

(** The answer, and what is written on the response. *)
Definition handle_auth {A} (req : Request) (op : AuthOp A) : M (A * list ResponseAction) :=
  match op with
  | LoginWithKakao accessToken =>
      deviceId ← deviceIdFromRequest (rq_device_id req);
      result ← loginWithKakaoAccessToken accessToken deviceId;
      mret (result, if result is KakaoLoginSuccess session then setTokenCookies session else [])
  | Refresh =>
      '(_, validatedRefreshToken) ← refreshGuard req;
      with_cookies (refresh validatedRefreshToken)
  | Logout =>
      '(claims, _) ← refreshGuard req;
      logout (rc_userId claims) (rc_deviceId claims) ;;
      mret (true, [ClearCookie (js "access_token") cookies; ClearCookie (js "refresh_token") cookies])
  end.
Definition handle_phone {A} (req : Request) (op : PhoneOp A) : M (A * list ResponseAction) :=
  match op with
  | RequestPhoneCode input =>
      result ← requestPhoneCode input (rq_ip req) (rq_user_agent req);
      mret (result, [])
  | VerifyPhoneCode input =>
      deviceId ← deviceIdFromRequest (rq_device_id req);
      result ← verifyPhoneCode input deviceId;
      mret (result, [])
  | CompletePhoneSignup input =>
      deviceId ← deviceIdFromRequest (rq_device_id req);
      with_cookies (completePhoneSignup input deviceId)
  | CompleteKakaoPhoneSignup input =>
      deviceId ← deviceIdFromRequest (rq_device_id req);
      with_cookies (phoneCompleteKakaoPhoneSignup input deviceId)
  | ResetPasswordWithPhone input =>
      result ← resetPasswordWithPhone input;
      mret (result, [])
  end.
End session_operations.

(** * The Kakao redirect and the webhook *)

Definition InvalidOauthState : jstr := js "OAuth state가 잘못되었습니다.".
Definition KAKAO_STATE : jstr := js "kakao_oauth_state".

(** A parameter of the query, which may be repeated or nested, is text or not. *)
Definition kakaoOptions (cookies : CookieOptions) (requestPath : jstr) (code state : option jstr) (savedState : option jstr)
    (random : jstr) : Result (jstr * list ResponseAction) :=
  if endsWith (js "/kakao/callback") requestPath then
    match code, state, truthy savedState with
    | Some _, Some state, Some saved =>
        if state =?? saved then Ok (state, []) else Err (mkExn CustomUnauthorizedException InvalidOauthState)
    | _, _, _ => Err (mkExn CustomUnauthorizedException InvalidOauthState)
    end
  else
    Ok (random, [SetCookie KAKAO_STATE random
                   (mkCookieOptions (httpOnly cookies) (sameSite cookies) (secure cookies) (domain cookies) (path cookies)
                      (Some (5 * 60 * 1000)))]).

(** What passport-kakao's raw profile becomes; [id] as text. *)
Definition kakaoStrategyProfile (id : jstr) (email : option jstr) : KakaoProfile := mkKakaoProfile id email None.

Definition kakaoCallback `{Env} `{ConfigService} `{JwtService} (cookies : CookieOptions) (profile : KakaoProfile)
    : M (jstr * list ResponseAction) :=
  kakaoPhoneVerificationToken ← loginWithKakao profile;
  mret (kakaoPhoneVerificationToken,
        [ClearCookie KAKAO_STATE cookies;
         SetCookie (js "kakao_phone_verification_token") kakaoPhoneVerificationToken cookies]).

Definition receiveWebhook `{Env} `{NotificationService} `{BillingConfig} (rawBody : option (list N)) (signature : option jstr)
    (payload : json) :=
  match rawBody with
  | None => throw BadRequestException (js "REVENUECAT_RAW_BODY_REQUIRED")
  | Some rawBody => handleRevenueCatWebhook rawBody signature payload
  end.

(** ** The size of a document *)

Definition MAX_GRAPHQL_DOCUMENT_FIELDS : nat := 200.
(** The visitor's state, and whether this field is where the error is reported. *)
Definition visitField (st : nat * bool) : (nat * bool) * bool :=
  let fieldCount := S st.1 in
  if st.2 || Nat.leb fieldCount MAX_GRAPHQL_DOCUMENT_FIELDS then ((fieldCount, st.2), false) else ((fieldCount, true), true).
(** The errors reported for a document of so many fields. *)
Fixpoint graphqlDocumentFieldLimit (fields : nat) (st : nat * bool) : nat :=
  match fields with
  | O => O
  | S fields' => let '(st', reported) := visitField st in (if reported : bool then 1 else 0) + graphqlDocumentFieldLimit fields' st'
  end%nat.
