(* ===== verification/ApiProofs.v ===== *)
(** The API: no operation of a signed-in user is reached without a token that
    passport accepts for a live account, and none touches another account. *)
From stdpp Require Import gmap.
From S2P Require Import Prelude JsString JsDate Json Text Libraries Schema World Constraints Config NotificationApi Fixtures AuthInput Auth User Phone Matching Notification Upload Chat Community Billing Api.
Local Open Scope Z_scope.

(** * Accounts that an operation leaves alone *)

(** Accounts, their sessions, identities and subscriptions; and those of
    everybody else. *)
Definition accounts (w : World) := (users (db w), refreshTokens (db w), authIdentities (db w), userSubscriptions (db w)).
Definition other_accounts (userId : jstr) (w : World) :=
  (sel (fun u => negb (is_user userId u)) (users (db w)),
   sel (fun r => negb (refreshTokens.userId r =?? userId)) (refreshTokens (db w)),
   authIdentities (db w), userSubscriptions (db w)).

Lemma keeps_other_accounts {A} userId (m : M A) : keeps accounts m -> keeps (other_accounts userId) m.
Proof.
  intros Hm w. eapply wp_mono; [apply Hm|]. simpl. intros _ w' E. unfold accounts in E. unfold other_accounts.
  by injection E as -> -> -> ->.
Qed.

Section operations.
Context `{Env} `{ConfigService} `{UuidLib} `{ExpoClient} `{S3Client} `{ImageLib} `{UrlLib} `{NotificationService} `{PassportJwt}.

Lemma keeps_accounts_notify input : keeps accounts (notify input).
Proof. by apply (keeps_notify (fun d => (users d, refreshTokens d, authIdentities d, userSubscriptions d))). Qed.
Hint Resolve keeps_accounts_notify keeps_settle : keeps.


(** Look into the operations called, down to the statements. *)
Ltac head_of t := lazymatch t with ?f _ => head_of f | _ => t end.
Ltac accounts_step :=
  lazymatch goal with
  | |- keeps _ (mbind _ _) => keeps_step
  | |- keeps _ ?m => first [progress keeps_step | let h := head_of m in unfold h]
  | |- _ => keeps_step
  end.
Ltac solve_accounts := repeat accounts_step.

(** The two operations that write accounts. *)
Definition writes_accounts {A} (op : UserOp A) : bool :=
  match op with InAccount (UpdateUserProfile _) | InAccount RequestAccountDeletion => true | _ => false end.
Lemma accounts_resolve {A} req userId (op : UserOp A) : writes_accounts op = false -> keeps accounts (resolve req userId op).
Proof.
  intros Hw. destruct op as [op|op|op|op|op|op|op]; destruct op; try discriminate Hw; clear Hw; unfold resolve.
  all: solve_accounts.
Qed.

(** A write to the user's own row. *)
Lemma others_own_update userId p f :
  (forall u, p u = true -> is_user userId u = true) -> (forall u, users.userId (f u) = users.userId u) ->
  keeps (other_accounts userId) (update users p f).
Proof.
  intros Hp Hf w. apply wp_update. unfold other_accounts.
  change (refreshTokens (db (w <| db ::= _ |>))) with (refreshTokens (db w)). simpl. do 3 f_equal.
  induction (users (db w)) as [|u l IH]; [done|]. rewrite mapif_cons, !sel_cons, IH.
  destruct (p u) eqn:E; [|done]. assert (is_user userId (f u) = is_user userId u) as -> by (unfold is_user; by rewrite Hf).
  by rewrite (Hp u E).
Qed.
(** The user's own sessions end. *)
Lemma others_delete_sessions userId :
  keeps (other_accounts userId) (delete_from refreshTokens (fun r => refreshTokens.userId r =?? userId)).
Proof.
  intros w. apply wp_delete. unfold other_accounts. simpl. do 2 f_equal. f_equal.
  induction (refreshTokens (db w)) as [|r l IH]; [done|]. rewrite del_cons, sel_cons.
  destruct (refreshTokens.userId r =?? userId) eqn:E; simpl; [done|]. rewrite sel_cons, E. simpl. by rewrite IH.
Qed.
Lemma keeps_addUploads {T} (t : World -> T) rows acc : keeps t (addUploads rows acc).
Proof.
  revert acc. induction rows as [|r rows IH]; intros acc; simpl; [by intros w|].
  destruct (profileUploads.publicUrl r) as [[|? ?]|]; [by intros w| |by intros w].
  apply keeps_bind; [|by intros _]. intros w. by apply wp_require.
Qed.
Lemma keeps_addLegacyPhotos {T} (t : World -> T) rows acc : keeps t (addLegacyPhotos rows acc).
Proof.
  revert acc. induction rows as [|r rows IH]; intros acc; simpl; [by intros w|].
  apply keeps_bind; [|by intros _]. intros w. by apply wp_require.
Qed.
Lemma others_insertPhotos userId position l : keeps (other_accounts userId) (insertPhotos userId position l).
Proof.
  apply keeps_other_accounts. revert position. induction l as [|a l IH]; intros position; simpl; [by intros w|]. solve_keeps.
Qed.
Hint Resolve keeps_addUploads keeps_addLegacyPhotos others_insertPhotos others_delete_sessions : keeps.

Ltac others_step :=
  lazymatch goal with
  | |- keeps (other_accounts _) (update users _ _) =>
      apply others_own_update; [intros ? ?; repeat match goal with E : _ && _ = true |- _ => apply andb_true_iff in E as [? ?] end; assumption
                           |reflexivity]
  | _ => accounts_step
  end.
Lemma others_resolve {A} req userId (op : UserOp A) : keeps (other_accounts userId) (resolve req userId op).
Proof.
  destruct (writes_accounts op) eqn:Ew; [|by apply keeps_other_accounts, accounts_resolve].
  destruct op as [op|op|op|op|op|op|op]; try discriminate Ew. destruct op; try discriminate Ew; clear Ew; unfold resolve, resolve_user.
  - repeat others_step.
  - repeat others_step.
Qed.

(** * The guard *)

(** The request carries a token that passport accepts for this account, which is
    neither hidden nor deleted. *)
Definition admitted (req : Request) (w : World) (userId : jstr) : Prop :=
  exists secret token payload u,
    config_string (js "JWT_ACCESS_TOKEN_SECRET") = Some secret /\ access_token_of req = Some token /\
    verify_jwt (date_now (tick w)) secret AUTH_TOKEN_AUDIENCE AUTH_TOKEN_ISSUER token = Some payload /\ isAccessTokenClaims payload = Some userId /\
    u ∈ users (db w) /\ users.userId u = userId /\ users.hiddenAt u = None /\ users.deletedAt u = None.

Lemma truthy_Some o s : truthy o = Some s -> o = Some s.
Proof. by destruct o as [[|? ?]|]. Qed.
Lemma wp_accessGuard req w :
  wp (accessGuard req) (fun r w1 => db w1 = db w /\ effects w1 = effects w /\ forall userId, r = Ok userId -> admitted req w userId) w.
Proof.
  unfold accessGuard, getOrThrow, authenticated, accessTokenValidate, repo_findUser. wp_step.
  destruct (config_string _) as [secret|] eqn:Es; wp_steps; (split_and!; [done|done|]); try done.
  intros ? [= <-]. match goal with Hf : first _ _ = Some _ |- _ => apply first_Some in Hf as [Hin Hid] end.
  match goal with Hb : _ && _ = true |- _ => apply andb_true_iff in Hb as [Hh Hd] end.
  apply is_null_true in Hh, Hd. unfold is_user in Hid. rewrite bool_decide_eq_true in Hid.
  match goal with Ht : truthy _ = Some _ |- _ => apply truthy_Some in Ht end.
  simpl in *. unfold admitted. naive_solver.
Qed.

(** C19: only the account's owner gets through.  Every operation behind the
    access guard either fails without a trace, or runs for the account named by a
    token that passport accepts now, which exists and is neither hidden nor
    deleted; and whatever it does, it leaves the account and the sessions of every
    other user, and all identities and subscriptions, exactly as they were. *)
Theorem api_guarded {A} req (op : UserOp A) w w' r :
  handle req op w = (w', r) ->
  (db w' = db w /\ effects w' = effects w /\ exists e, r = Err e) \/
  exists userId w1, admitted req w userId /\ db w1 = db w /\ effects w1 = effects w /\
    resolve req userId op w1 = (w', r) /\ other_accounts userId w' = other_accounts userId w.
Proof.
  unfold handle, mbind, M_bind. pose proof (wp_accessGuard req w) as Hg. unfold wp in Hg.
  destruct (accessGuard req w) as [w1 r1]. simpl in Hg. destruct Hg as (E1 & E2 & Hadm).
  destruct r1 as [userId|e]; [|intros [= <- <-]; left; by eauto].
  intros E. right. exists userId, w1. split_and!; [by apply Hadm|done|done|done|].
  rewrite (keeps_run _ _ _ _ _ (others_resolve req userId op) E). unfold other_accounts. by rewrite E1.
Qed.
End operations.

(** * The size of a document *)

(** One error, whatever the size, for a document of more than 200 fields. *)
Lemma document_limit fields : graphqlDocumentFieldLimit fields (0, false)%nat = if Nat.leb fields MAX_GRAPHQL_DOCUMENT_FIELDS then 0%nat else 1%nat.
Proof.
  assert (forall fields n, graphqlDocumentFieldLimit fields (n, true) = 0)%nat as Hdone.
  { intros k. induction k as [|k IH]; intros n; simpl; [done|]. apply IH. }
  assert (forall fields n, (n <= MAX_GRAPHQL_DOCUMENT_FIELDS)%nat ->
    graphqlDocumentFieldLimit fields (n, false) = if Nat.leb (n + fields) MAX_GRAPHQL_DOCUMENT_FIELDS then 0 else 1)%nat as Hk.
  { intros k. induction k as [|k IH]; intros n Hn.
    - simpl. rewrite Nat.add_0_r. by rewrite (proj2 (Nat.leb_le _ _) Hn).
    - cbn [graphqlDocumentFieldLimit]. unfold visitField. cbn [fst snd orb].
      destruct (Nat.leb (S n) MAX_GRAPHQL_DOCUMENT_FIELDS) eqn:E; cbn iota beta.
      + apply Nat.leb_le in E. rewrite IH by done. by rewrite <- plus_n_Sm.
      + rewrite Hdone. apply Nat.leb_gt in E. by rewrite (proj2 (Nat.leb_gt _ _)) by lia. }
  apply (Hk fields 0%nat). unfold MAX_GRAPHQL_DOCUMENT_FIELDS. lia.
Qed.

(** * Witness *)

Section witnesses.
Definition api_uuid : UuidLib := {| isUuid _ := true; uuidVersion _ := 4 |}.
Definition api_expo : ExpoClient :=
  {| isExpoPushToken _ := true; sendPushNotificationsAsync _ _ := inr []; getPushNotificationReceiptsAsync _ _ := inr [] |}.
Definition api_store : S3Client := {|
  getSignedUrl _ _ _ _ _ := inl []; send_head _ _ := inl []; send_get _ _ _ _ := inl []; send_put _ _ _ _ := None; send_delete _ _ := None
|}.
Definition api_image : ImageLib := {| sharp_metadata _ _ := inl []; sharp_jpeg _ _ _ _ := inl []; sha256_buffer _ := [] |}.
Definition api_url : UrlLib := {| parse_url _ := None |}.
(** Tokens that spell the user they were given to. *)
Definition api_passport : PassportJwt := {|
  bearer_token h := if h is HeaderText s then Some s else None;
  verify_jwt _ _ _ _ token := Some (JObject [(js "userId", JString token); (js "tokenType", JString (js "access"))])
|}.
Local Existing Instances test_env test_config api_uuid api_expo api_store api_image api_url test_notifications api_passport.

Definition request_of (user : jstr) : Request := mkRequest (HeaderText user) HeaderMissing None None None None.
Lemma api_guarded_witness : exists w' p userId,
  handle (request_of ALICE) (InAccount RequestAccountDeletion) (world_of test_db) = (w', Ok p) /\
  admitted (request_of ALICE) (world_of test_db) userId /\
  other_accounts userId w' = other_accounts userId (world_of test_db).
Proof.
  assert (is_ok (handle (request_of ALICE) (InAccount RequestAccountDeletion) (world_of test_db)).2) as Hok by exact I.
  pose proof (run_answer _ (world_of test_db) (mkDeletionPayload false []) Hok) as E.
  destruct (api_guarded _ _ _ _ _ E) as [(_ & _ & e & He)|(userId & w1 & Hadm & _ & _ & _ & Ho)]; [discriminate He|].
  eexists _, _, userId. exact (conj E (conj Hadm Ho)).
Defined.
End witnesses.
