(* ===== verification/Maintenance.v ===== *)
(** The maintenance worker: every minute, under an advisory lock, the four
    batches run one after the other (maintenance.runner.ts,
    maintenance-lock.service.ts), in a process that ends on a signal
    (maintenance.application.ts, maintenance.ts).  The batches are an interface, which the user,
    notification and upload services implement; the pool, the file system, the
    abort signal and Nest's application context are parameters. *)
From S2P Require Import Prelude JsString JsDate Libraries Schema World.
Local Open Scope Z_scope.

(** * Data *)

Record MaintenanceBatchReport := mkReport {
  rp_claimed : Z; rp_succeeded : Z; rp_retryScheduled : Z; rp_permanentlyFailed : Z; rp_hasMore : bool
}.
(** A batch, given the time and the limit. *)
Definition MaintenanceBatch : Type := Z -> Z -> M MaintenanceBatchReport.

(** The services the runner calls.  Whatever a batch does, it takes time. *)
Class MaintenanceServices := {
  accountDeletionBatch : MaintenanceBatch;
  pushOutboxBatch : MaintenanceBatch;
  pushReceiptsBatch : MaintenanceBatch;
  stagingCleanupBatch : MaintenanceBatch;
  batches_advance : forall b now limit w w' r,
    b ∈ [accountDeletionBatch; pushOutboxBatch; pushReceiptsBatch; stagingCleanupBatch] ->
    b now limit w = (w', r) -> (tick w <= tick w')%nat
}.

(** node-postgres: connecting, and the answers to the lock queries. *)
Class PgPool := {
  pool_connect : nat -> option jstr;
  try_advisory_lock : nat -> jstr + bool;
  advisory_unlock : nat -> jstr + bool
}.
(** fs/promises: the message of the error of a call that fails. *)
Class FileSystem := { fs_writeFile : nat -> option jstr; fs_rename : nat -> option jstr; fs_rm : nat -> option jstr }.
(** The signal, and the timer that waits for a minute or for the signal. *)
Class Signal := { aborted : nat -> bool; delay : nat -> option jstr }.
(** Nest's application context: the error of creating it, and of closing it. *)
Class ApplicationContext := { createContext : nat -> option jstr; closeContext : nat -> option jstr }.

Inductive LockOutcome := acquired | skipped.

(** * The runner *)

Section runner.
Context `{Env} `{PgPool} `{FileSystem} `{Signal} `{MaintenanceServices}.

(** A call that fails with a message, and a query that answers or fails. *)
Definition call (failure : nat -> option jstr) : M unit :=
  failed ← oracle failure;
  match failed with Some message => throw PlainError message | None => mret tt end.
Definition query {A} (request : nat -> jstr + A) : M A :=
  answer ← oracle request;
  match answer with inl message => throw PlainError message | inr a => mret a end.
Definition report (e : MaintenanceEvent) : M unit := emit (Maintenance e).

(** The client is given back in every case; it is destroyed when the lock may
    still be held. *)
Definition runExclusive (task : M unit) : M LockOutcome :=
  call pool_connect ;;
  lock ← attempt (query try_advisory_lock);
  match lock with
  | Err e => report (ClientReleased false) ;; raise e
  | Ok false => report (ClientReleased false) ;; mret skipped
  | Ok true =>
      taskResult ← attempt task;
      unlock ← attempt (query advisory_unlock);
      report (ClientReleased (if unlock is Ok true then false else true)) ;;
      match taskResult, unlock with
      | Err taskError, _ => raise taskError
      | Ok _, Err unlockError => raise unlockError
      | Ok _, Ok _ => mret acquired
      end
  end.

Definition reset_heartbeat : M unit := call fs_rm ;; report HeartbeatReset.
(** The temporary file is removed whether or not the rename succeeded. *)
Definition write_heartbeat : M unit :=
  randomUUID ;;
  written ← attempt (call fs_writeFile ;; call fs_rename ;; report HeartbeatWritten);
  call fs_rm ;;
  match written with Err e => raise e | Ok _ => mret tt end.

Definition jobs : list (jstr * MaintenanceBatch) :=
  [(js "account-deletion", accountDeletionBatch); (js "push-outbox", pushOutboxBatch);
   (js "push-receipts", pushReceiptsBatch); (js "staging-cleanup", stagingCleanupBatch)].

(** A job that fails is reported and the next one runs. *)
Definition runJob (now : Z) (job : jstr * MaintenanceBatch) : M unit :=
  startedAt ← Date_now;
  try_catch
    (result ← job.2 now 100;
     finishedAt ← Date_now;
     report (JobCompleted job.1 (rp_claimed result) (rp_succeeded result) (rp_retryScheduled result)
               (rp_permanentlyFailed result) (rp_hasMore result) (finishedAt - startedAt)))
    (fun error =>
       finishedAt ← Date_now;
       report (JobFailed job.1 (message error) (finishedAt - startedAt))).

Definition runCycle : M LockOutcome :=
  now ← Date_now;
  outcome ← runExclusive (for_each jobs (runJob now));
  (if outcome is skipped then report CycleSkipped else mret tt) ;;
  write_heartbeat ;;
  mret outcome.

(** The loop; [None] when the fuel ran out before the signal. *)
Fixpoint run_loop (fuel : nat) : M (option unit) :=
  match fuel with
  | O => mret None
  | S fuel' =>
      stop ← oracle aborted;
      if (stop : bool) then mret (Some tt)
      else
        try_catch (runCycle ;; mret tt) (fun error => report (CycleFailed (message error))) ;;
        stop ← oracle aborted;
        if (stop : bool) then mret (Some tt)
        else
          slept ← attempt (call delay);
          match slept with
          | Ok _ => run_loop fuel'
          | Err error =>
              stop ← oracle aborted;
              if (stop : bool) then mret (Some tt) else raise error
          end
  end.
Definition run (fuel : nat) : M (option unit) := reset_heartbeat ;; run_loop fuel.

(** * The process *)

(** [runMaintenanceApplication]: the two listeners are on before the context is
    created and off in every case; a context that was created is closed, and an
    error of closing it takes the place of the run's outcome.  [None] when the
    fuel ran out before the run had an outcome. *)
Definition runMaintenanceApplication `{ApplicationContext} (fuel : nat) : M (option unit) :=
  report ListenersOn ;;
  context ← attempt (call createContext);
  outcome ← match context with
            | Err error => mret (Err error)
            | Ok _ => report ContextCreated ;; attempt (run fuel)
            end;
  if outcome is Ok None then mret None
  else
    report ListenersOff ;;
    (if context is Ok _ then call closeContext ;; report ContextClosed else mret tt) ;;
    match outcome with Err error => raise error | Ok ended => mret ended end.

(** maintenance.ts: the exit code of the process; [None] when the fuel ran out. *)
Definition main `{ApplicationContext} (fuel : nat) : M (option Z) :=
  try_catch
    (ended ← runMaintenanceApplication fuel; mret (if ended is Some _ then Some 0 else None))
    (fun error => report (ProcessFailed (message error)) ;; mret (Some 1)).
End runner.
