(* ===== verification/MaintenanceProofs.v ===== *)
(** The maintenance worker: the services implement its batches, every cycle runs
    every job, and the loop ends once the signal is given. *)
From S2P Require Import Prelude JsString JsDate Libraries Schema World Constraints NotificationApi Fixtures User Notification Upload Maintenance.
Local Open Scope Z_scope.

(** * Time goes on *)

Definition advances {A} (m : M A) : Prop := forall w, wp m (fun _ w' => tick w <= tick w')%nat w.

Lemma advances_bind {A B} (m : M A) (k : A -> M B) : advances m -> (forall a, advances (k a)) -> advances (m ≫= k).
Proof.
  intros Hm Hk w. apply wp_bind. eapply wp_mono; [apply Hm|]. intros [a|e] w1 E; [|done].
  eapply wp_mono; [apply Hk|]. intros r w2 E2. simpl in *. lia.
Qed.
Lemma advances_fmap {A B} (f : A -> B) (m : M A) : advances m -> advances (f <$> m).
Proof. intros Hm. apply advances_bind; [done|]. intros a w. by apply wp_ret. Qed.
Lemma advances_try {A} (m : M A) h : advances m -> (forall e, advances (h e)) -> advances (try_catch m h).
Proof.
  intros Hm Hk w. apply wp_try_catch. eapply wp_mono; [apply Hm|]. intros [a|e] w1 E; [done|].
  eapply wp_mono; [apply Hk|]. intros r w2 E2. simpl in *. lia.
Qed.
Lemma advances_attempt {A} (m : M A) : advances m -> advances (attempt m).
Proof. intros Hm w. apply wp_attempt, Hm. Qed.
Lemma advances_transaction {A} (m : M A) : advances m -> advances (transaction m).
Proof. intros Hm w. apply wp_transaction. eapply wp_mono; [apply Hm|]. by intros [a|e] w1 E. Qed.
Lemma advances_for_each {A} (l : list A) body : (forall x, x ∈ l -> advances (body x)) -> advances (for_each l body).
Proof.
  induction l as [|x l IH]; intros Hb; simpl; [intros w; by apply wp_ret|].
  apply advances_bind; [apply Hb; set_solver|]. intros _. apply IH. set_solver.
Qed.
Lemma advances_map_all {A B} (l : list A) (body : A -> M B) : (forall x, advances (body x)) -> advances (map_all l body).
Proof.
  intros Hb. induction l; simpl; [intros w; by apply wp_ret|]. apply advances_bind; [done|]. intros y.
  apply advances_bind; [done|]. intros ys w. by apply wp_ret.
Qed.
Lemma advances_keeps {A} (m : M A) : keeps tick m -> advances m.
Proof. intros Hm w. eapply wp_mono; [apply Hm|]. simpl. intros _ w' ->. lia. Qed.
Lemma advances_run {A} (m : M A) w w' r : advances m -> m w = (w', r) -> (tick w <= tick w')%nat.
Proof. intros Hm E. exact (wp_run _ _ _ _ _ E (Hm w)). Qed.

Ltac advances_leaf := let w := fresh "w" in intros w; first [exact (le_n _) | repeat wp_step; simpl; lia].
Ltac advances_step :=
  lazymatch goal with
  | |- forall _, _ => intro
  | |- advances (mbind _ _) => apply advances_bind
  | |- advances (try_catch _ _) => apply advances_try
  | |- advances (transaction _) => apply advances_transaction
  | |- advances (attempt _) => apply advances_attempt
  | |- advances (for_each _ _) => apply advances_for_each
  | |- advances (map_all _ _) => apply advances_map_all
  | |- advances (settle _) => apply advances_keeps, keeps_settle
  | |- advances (if ?b then _ else _) => destruct b
  | |- advances (match ?o with _ => _ end) => destruct o
  | |- advances (match ?o with _ => _ end _) => destruct o
  | |- advances (let _ := _ in _) => cbv zeta
  | |- advances _ => first [solve [eauto] | solve [advances_leaf]]
  end; cbv beta iota.
Ltac solve_advances := repeat advances_step.

(** * The services are the batches *)

Section services.
Context `{Env} `{ConfigService} `{ExpoClient} `{S3Client}.

Definition deletionReport (r : AccountDeletionBatchResult) : MaintenanceBatchReport :=
  mkReport (claimed r) (succeeded r) (retryScheduled r) (permanentlyFailed r) (hasMore r).
Definition pushReport (r : MaintenanceBatchResult) : MaintenanceBatchReport :=
  mkReport (mb_claimed r) (mb_succeeded r) (mb_retryScheduled r) (mb_permanentlyFailed r) (mb_hasMore r).
Definition uploadReport (r : UploadMaintenanceBatchResult) : MaintenanceBatchReport :=
  mkReport (ub_claimed r) (ub_succeeded r) (ub_retryScheduled r) (ub_permanentlyFailed r) (ub_hasMore r).

Lemma advances_deletionBatch now limit : advances (processDueAccountDeletionBatch now limit).
Proof.
  unfold processDueAccountDeletionBatch, User.validateBatchLimit, claimDueDeletionBatch, processDeletionJob,
    anonymizeDeletedAccount, failUploads, releaseDeletionLease. solve_advances.
Qed.
Lemma advances_applyResult claim values inv id now : advances (applyResult claim values inv id now).
Proof. unfold applyResult, invalidatePushToken. solve_advances. Qed.
Lemma advances_sendResultValues result now : advances (sendResultValues result now).
Proof. unfold sendResultValues. solve_advances. Qed.
Lemma advances_receiptResultValues result now : advances (receiptResultValues result now).
Proof. unfold receiptResultValues. solve_advances. Qed.
#[local] Hint Resolve advances_applyResult advances_sendResultValues advances_receiptResultValues : core.
Lemma advances_sendBatch now limit : advances (processPushOutboxBatch now limit).
Proof.
  unfold processPushOutboxBatch, Notification.validateBatchLimit, claimSendBatch, claimBatch, sendJobs, gateway_send, applySendResults.
  solve_advances.
Qed.
Lemma advances_receiptBatch now limit : advances (processPushReceiptBatch now limit).
Proof.
  unfold processPushReceiptBatch, Notification.validateBatchLimit, claimReceiptBatch, claimBatch, checkReceipts, getReceipts, applyReceiptResults.
  solve_advances.
Qed.
Lemma advances_deleteObject key : advances (deleteObject key).
Proof. unfold deleteObject, store_deleteObject, connection. solve_advances. Qed.
#[local] Hint Resolve advances_deleteObject : core.
Lemma advances_cleanupBatch now limit : advances (cleanupExpiredStagingBatch now limit).
Proof.
  unfold cleanupExpiredStagingBatch, Upload.validateBatchLimit, claimCleanupBatch, cleanupJob, applyCleanupResult. solve_advances.
Qed.

#[export] Instance maintenance_services : MaintenanceServices.
Proof.
  refine {|
    accountDeletionBatch now limit := deletionReport <$> processDueAccountDeletionBatch now limit;
    pushOutboxBatch now limit := pushReport <$> processPushOutboxBatch now limit;
    pushReceiptsBatch now limit := pushReport <$> processPushReceiptBatch now limit;
    stagingCleanupBatch now limit := uploadReport <$> cleanupExpiredStagingBatch now limit
  |}.
  pose proof advances_deletionBatch. pose proof advances_sendBatch. pose proof advances_receiptBatch. pose proof advances_cleanupBatch.
  intros b now limit w w' r Hb E. refine (advances_run (b now limit) w w' r _ E).
  repeat (apply elem_of_cons in Hb as [->|Hb]; [by apply advances_fmap|]). by apply elem_of_nil in Hb.
Defined.
End services.

(** * The loop *)

Section loop.
Context `{Env} `{PgPool} `{FileSystem} `{Signal} `{MaintenanceServices}.

Lemma advances_runJob now job : job ∈ jobs -> advances (runJob now job).
Proof.
  intros Hj. assert (advances (job.2 now 100)) as Hb.
  { intros w. apply run_wp. intros w' r E. refine (batches_advance _ _ _ _ _ _ _ E).
    unfold jobs in Hj. repeat (apply elem_of_cons in Hj as [->|Hj]; [simpl; set_solver|]). by apply elem_of_nil in Hj. }
  unfold runJob, report. solve_advances.
Qed.
Lemma advances_runCycle : advances runCycle.
Proof.
  pose proof advances_runJob. unfold runCycle, runExclusive, write_heartbeat, call, query, report. solve_advances.
Qed.

(** The signal was seen given between two instants. *)
Definition signalled (first last : nat) : Prop := exists n, (first <= n < last)%nat /\ aborted n = true.
(** The timer failed between two instants, and the signal read next was not given. *)
Definition timer_failed (first last : nat) (e : Exn) : Prop :=
  exists n, (first <= n)%nat /\ (S n < last)%nat /\ delay n = Some (message e) /\ aborted (S n) = false.
(** Why the worker stops by an error: the heartbeat could not be removed at the
    start, or the timer failed without the signal. *)
Definition fatal (start last : nat) (e : Exn) : Prop :=
  exn_class e = PlainError /\ (fs_rm start = Some (message e) \/ timer_failed start last e).

Lemma signalled_later first last w : signalled first last -> tick w = S last -> signalled first (tick w).
Proof. intros (n & Hn & Ha) ->. exists n. split; [lia|done]. Qed.
Lemma fatal_later start last w e : fatal start last e -> tick w = S last -> fatal start (tick w) e.
Proof.
  intros [Hc [Hr|(n & Hn1 & Hn2 & Hd)]] ->; (split; [done|]); [by left|right]. exists n. split_and!; [lia|lia|apply Hd..].
Qed.

(** Once the signal stays given, an iteration for every reading of it is enough. *)
Lemma wp_run_loop N fuel w :
  (forall n, (N <= n)%nat -> aborted n = true) -> (N - tick w < fuel)%nat ->
  wp (run_loop fuel) (fun r w' => match r with
    | Ok o => o = Some tt /\ signalled (tick w) (tick w')
    | Err e => exn_class e = PlainError /\ timer_failed (tick w) (tick w') e
    end) w.
Proof.
  intros Hstop. revert w. induction fuel as [|fuel IH]; intros w Hf; simpl; [lia|].
  do 2 wp_step. destruct (aborted (tick w)) eqn:Ea; [wp_step; split; [done|]; exists (tick w); simpl; split; [lia|done]|].
  assert (tick w < N)%nat as Hlt by (destruct (decide (N <= tick w)%nat) as [Hle|]; [rewrite (Hstop _ Hle) in Ea; done|lia]).
  set (w1 := w <| tick ::= S |>). wp_step.
  apply (wp_mono _ (fun r w2 => r = Ok tt /\ (tick w1 <= tick w2)%nat)).
  { wp_step. wp_step. eapply wp_mono; [apply advances_runCycle|]. intros [o|e] w2 Ht; [by wp_step|]. unfold report. by wp_step. }
  intros r w2 [-> Ht]. simpl in Ht. do 2 wp_step.
  destruct (aborted (tick w2)) eqn:Ea2; [wp_step; split; [done|]; exists (tick w2); simpl; split; [lia|done]|].
  unfold call. do 4 wp_step. destruct (delay _) as [message|] eqn:Ed; wp_step.
  - do 2 wp_step. case_match eqn:Ea3; wp_step; (split; [done|]).
    + eexists. split; [|exact Ea3]. simpl. lia.
    + eexists. split_and!; [| |exact Ed|exact Ea3]; simpl; lia.
  - eapply wp_mono; [apply IH; simpl; lia|]. intros [o|e] w3; intros [Ho (n & Hn)]; (split; [done|]); exists n; simpl in *;
      destruct_and?; split_and?; done || lia.
Qed.

(** More fuel makes no difference. *)
Lemma run_loop_fuel fuel k w : (run_loop fuel w).2 <> Ok None -> run_loop (fuel + k) w = run_loop fuel w.
Proof.
  revert w. induction fuel as [|fuel IH]; intros w Hr; [done|]. revert Hr. simpl. unfold mbind, M_bind.
  destruct (oracle aborted w) as [w1 [stop|e]]; [|done]. destruct stop; [done|].
  destruct (try_catch _ _ w1) as [w2 [u|e]]; [|done]. destruct (oracle aborted w2) as [w3 [stop|e]]; [|done]. destruct stop; [done|].
  destruct (attempt _ w3) as [w4 [[u'|e]|e]]; [|done..]. apply IH.
Qed.

(** The worker ends, and only when told to: until the signal no job, lock or
    heartbeat that fails ends it, only the fatal errors do. *)
Lemma wp_run_ends N fuel w :
  (forall n, (N <= n)%nat -> aborted n = true) -> (N - tick w < fuel)%nat ->
  wp (run fuel) (fun r w' => match r with
    | Ok o => o = Some tt /\ signalled (tick w) (tick w')
    | Err e => fatal (tick w) (tick w') e
    end) w.
Proof.
  intros Hstop Hf. unfold run, reset_heartbeat, call, report. do 4 wp_step.
  destruct (fs_rm (tick w)) as [message|] eqn:Ef; wp_step; [split; [done|]; by left|].
  wp_step. eapply wp_mono; [apply (wp_run_loop N); [done|simpl; lia]|].
  intros [o|e] w'; intros [Ho (n & Hn)]; (split; [done|]); [|right]; exists n; simpl in *; destruct_and?; split_and?; done || lia.
Qed.
Lemma run_fuel fuel k w : (run fuel w).2 <> Ok None -> run (fuel + k) w = run fuel w.
Proof.
  unfold run, mbind, M_bind. destruct (reset_heartbeat w) as [w1 [[]|e]]; [|done]. apply run_loop_fuel.
Qed.

(** ** The process *)

Context `{ApplicationContext}.

(** How the process ends, with its exit code: the last things it does, and why.
    The context is created first, at the instant [tick w], and the heartbeat file
    removed next. *)
Inductive process_end (w w' : World) : Z -> Prop :=
| not_started error :
    createContext (tick w) = Some error -> db w' = db w ->
    effects w' = effects w ++ (Maintenance <$> [ListenersOn; ListenersOff; ProcessFailed error]) ->
    process_end w w' 1
| stopped before :
    createContext (tick w) = None -> signalled (tick w) (tick w') ->
    effects w' = before ++ (Maintenance <$> [ListenersOff; ContextClosed]) ->
    process_end w w' 0
| failed before e :
    createContext (tick w) = None -> fatal (S (tick w)) (tick w') e ->
    effects w' = before ++ (Maintenance <$> [ListenersOff; ContextClosed; ProcessFailed (message e)]) ->
    process_end w w' 1
| not_closed before n error :
    createContext (tick w) = None -> signalled (tick w) (tick w') \/ (exists e, fatal (S (tick w)) (tick w') e) ->
    tick w' = S n -> closeContext n = Some error ->
    effects w' = before ++ (Maintenance <$> [ListenersOff; ProcessFailed error]) ->
    process_end w w' 1.

Lemma wp_call failure Q w :
  (forall w', db w' = db w -> effects w' = effects w -> tick w' = S (tick w) ->
    Q (match failure (tick w) with Some message => Err (mkExn PlainError message) | None => Ok tt end) w') ->
  wp (call failure) Q w.
Proof.
  intros HQ. unfold call. do 2 wp_step.
  set (w1 := w <| tick ::= S |>). assert (tick w1 = S (tick w)) as Ht by reflexivity.
  specialize (HQ w1 eq_refl eq_refl Ht). case_match; by wp_step.
Qed.

(** More fuel makes no difference to the process either. *)
Lemma main_fuel fuel k w : (main fuel w).2 <> Ok None -> main (fuel + k) w = main fuel w.
Proof.
  unfold main, runMaintenanceApplication, try_catch, attempt, mbind, M_bind, report, mret, M_ret. simpl.
  destruct (call createContext _) as [w1 [[]|e]]; simpl; [|done].
  set (w2 := w1 <| effects ::= _ |>). intros Hr.
  rewrite (run_fuel fuel k w2); [done|]. intros E. apply Hr. clear Hr.
  destruct (run fuel w2) as [w3 r]. simpl in E. by subst r.
Qed.

(** C37: the process of the maintenance worker ends once it is told to, and
    leaves nothing behind.  When the signal is given and stays given, any amount
    of fuel above the number of readings left is enough, and more makes no
    difference.  It ends with code 0 only after the signal was seen given during
    the run: until then no job, lock or heartbeat that fails ends it.  At the end the signal listeners are removed, the application context is closed if it
    was created, and only then is a failure reported; the exit code is 0 unless
    the context could not be created or closed, the heartbeat file could not be
    removed at the start, or the timer failed without the signal. *)
Theorem maintenance_process_ends N fuel w w' r :
  (forall n, (N <= n)%nat -> aborted n = true) -> (N - tick w < fuel)%nat -> main fuel w = (w', r) ->
  (forall k, main (fuel + k) w = (w', r)) /\ exists code, r = Ok (Some code) /\ process_end w w' code.
Proof.
  intros Hstop Hf E.
  assert (exists code, r = Ok (Some code) /\ process_end w w' code) as (code & -> & Hend).
  { refine (wp_run _ (fun r w' => exists code, r = Ok (Some code) /\ process_end w w' code) _ _ _ E _).
    unfold main, runMaintenanceApplication, report. do 6 wp_step. apply wp_call. intros w1 Ed1 Ef1 Et1. simpl in *.
    destruct (createContext _) as [error|] eqn:Ec.
    { repeat wp_step. exists 1. split; [done|]. eapply not_started; [done|done|]. simpl. by rewrite Ef1, <-!app_assoc. }
    do 4 wp_step. eapply wp_mono; [apply (wp_run_ends N); [done|simpl; lia]|]. intros r2 w2 Hr2.
    assert (match r2 with Ok o => o = Some tt /\ signalled (tick w) (tick w2) | Err e => fatal (S (tick w)) (tick w2) e end) as Hwhy.
    { simpl in Hr2. rewrite Et1 in Hr2. destruct r2; [|done]. destruct Hr2 as [-> (n & Hn & Ha)]. split; [done|].
      exists n. split; [lia|done]. }
    clear Hr2. destruct r2 as [[[]|]|e]; [destruct Hwhy as [_ Hwhy]|by destruct Hwhy|].
    all: do 4 wp_step; apply wp_call; intros w3 Ed3 Ef3 Et3; simpl in *; destruct (closeContext _) as [error|] eqn:Ecl.
    all: repeat wp_step; eexists; (split; [reflexivity|]).
    1,3: apply (not_closed _ _ (effects w2) (tick w2) error); [done|eauto using signalled_later, fatal_later|done|done|].
    3: apply (stopped _ _ (effects w2)); [done|eauto using signalled_later|].
    4: apply (failed _ _ (effects w2) e); [done|eauto using fatal_later|].
    all: simpl; by rewrite Ef3, <-!app_assoc. }
  split; [|by exists code]. intros k. rewrite main_fuel; [done|]. by rewrite E.
Qed.
End loop.

(** * Witness *)

Section witnesses.
Local Existing Instances test_env test_config.

(** A pool whose lock is free, a disk that works, and a signal given at the
    hundredth reading; the batches are those of the services, with nothing to
    do and pushes off. *)
Definition test_pool : PgPool := {| pool_connect _ := None; try_advisory_lock _ := inr true; advisory_unlock _ := inr true |}.
Definition test_fs : FileSystem := {| fs_writeFile _ := None; fs_rename _ := None; fs_rm _ := None |}.
Definition test_signal : Signal := {| aborted n := Nat.leb 100 n; delay _ := None |}.
Definition no_expo : ExpoClient := {|
  isExpoPushToken _ := true; sendPushNotificationsAsync _ _ := inr []; getPushNotificationReceiptsAsync _ _ := inr []
|}.
Definition no_store : S3Client := {|
  getSignedUrl _ _ _ _ _ := inl []; send_head _ _ := inl []; send_get _ _ _ _ := inl []; send_put _ _ _ _ := None; send_delete _ _ := None
|}.
Local Existing Instances test_pool test_fs test_signal no_expo no_store.

Definition test_context : ApplicationContext := {| createContext _ := None; closeContext _ := None |}.
Local Existing Instance test_context.

Lemma maintenance_process_ends_witness : exists w',
  main 101 (world_of test_db) = (w', Ok (Some 0)) /\ main 1000 (world_of test_db) = (w', Ok (Some 0)) /\
  process_end (world_of test_db) w' 0.
Proof.
  assert (forall n, (100 <= n)%nat -> aborted n = true) as Hstop by (intros n Hn; by apply Nat.leb_le).
  assert (match (main 101 (world_of test_db)).2 with Ok (Some z) => z =? 0 | _ => false end = true) as Hok by reflexivity.
  destruct (main 101 (world_of test_db)) as [w' r] eqn:E.
  destruct (maintenance_process_ends 100 101 _ _ _ Hstop ltac:(simpl; lia) E) as (Hmore & code & -> & Hend).
  simpl in Hok. apply Z.eqb_eq in Hok. subst code.
  exists w'. split; [done|]. split; [exact (Hmore 899%nat)|exact Hend].
Defined.
End witnesses.
